(** * ispeed: the measurement engine of [pkg/ispeed]

    A shallow embedding of [pkg/ispeed/ispeed.go] and [pkg/ispeed/structs.go],
    of the front end [main.go] (its update function, its flags and its
    choice of a server) and of the test server [server/index.ts].

    - Go's [int], [int64] and [time.Duration] are 64-bit two's-complement
      integers: they are modelled as [Z] with the wrap-around written out
      ([wrap64]).
    - Go's [float64] is IEEE 754 binary64: it is modelled by Rocq's primitive
      floats, whose operations are the same binary64 operations.
    - The network, the clock, the scheduler and the random source are an
      environment of oracles ([Env]); the code's effects (clock readings,
      requests, pauses and progress callbacks) are threaded through a
      [World] by explicit state passing.
    - The concurrent phases are modelled as interleavings of the atomic
      actions their goroutines perform on the shared counter and on the
      once-guarded error slot.
    - The ticks of the progress sampler of a throughput phase interleave
      with the steps of the workers, and each tick (load of the counter,
      clock reading, report) is one step.  The phase does not wait for its
      sampler: it closes a channel after the join and goes on.  The ticks
      the sampler still delivers after the join are an oracle of the
      environment, which places each of them among the later events of the
      run and gives the reading of the clock it takes.  These readings are
      not numbered with those of [clock]: the main goroutine never sees
      them, and the runs the two oracles describe are those one clock
      read by both goroutines describes.
    - A run-time panic of a function that is called on its own ([runPing]
      with a negative count, [Read] with a negative chunk size) is the
      outcome [runtime_panic], in the place of its error.  A panic in a
      worker goroutine ends the program: the workers are modelled for a
      chunk size that is not negative, as [normalizeClientConfig] leaves
      it, where they do not panic.  With a negative one a download worker
      panics when it allocates its buffer, [make([]byte, cfg.ChunkSize)],
      which [download_worker] leaves out. *)

From Stdlib Require Import ZArith NArith List String Ascii Bool Lia.
From Stdlib Require Import Permutation Sorted.
From Stdlib Require Import Floats.
From Stdlib Require Uint63.
Import ListNotations.

Local Open Scope Z_scope.

(* ================================================================== *)
(** * Machine integers *)

Module Int64.

Definition min_int : Z := - 2 ^ 63.
Definition max_int : Z := 2 ^ 63 - 1.

(** The value an int64 holds after an arithmetic result [z]. *)
Definition wrap64 (z : Z) : Z := (z + 2 ^ 63) mod 2 ^ 64 - 2 ^ 63.

Definition in_range (z : Z) : Prop := min_int <= z <= max_int.

Definition add (a b : Z) : Z := wrap64 (a + b).
Definition sub (a b : Z) : Z := wrap64 (a - b).
Definition mul (a b : Z) : Z := wrap64 (a * b).
(** Go's [/] and [%] truncate toward zero. *)
Definition div (a b : Z) : Z := wrap64 (Z.quot a b).
Definition rem (a b : Z) : Z := Z.rem a b.

End Int64.

Import Int64.

(* ================================================================== *)
(** * float64 *)

Module Float64.

Local Open Scope float_scope.

(** [float64(z)] for an int64 [z]: the nearest binary64, ties to even. *)
Definition of_int (z : Z) : float :=
  if (0 <=? z)%Z then of_uint63 (Uint63.of_Z z)
  else if (z =? min_int)%Z then (-0x1p63)%float
  else (- of_uint63 (Uint63.of_Z (- z)))%float.

(** [int(math.Ceil(x))].  [math.Ceil(x)] is the least integral value not
    below [x], and the conversion of an integral float to an int is exact
    when an int holds it.  Otherwise ([x] infinite or NaN, or too large)
    the language leaves the result to the implementation; amd64 gives the
    least int. *)
Definition int_Ceil (x : float) : Z :=
  match Prim2SF x with
  | S754_zero _ => 0%Z
  | S754_finite s m e =>
      let v := if s then Z.neg m else Z.pos m in
      let c := if (0 <=? e)%Z then (v * 2 ^ e)%Z
               else (- ((- v) / 2 ^ (- e)))%Z in
      if ((min_int <=? c) && (c <=? max_int))%Z then c else min_int
  | _ => min_int
  end.

(** Go's comparison operators on float64. *)
Definition lt (x y : float) : bool := x <? y.
Definition le (x y : float) : bool := x <=? y.
Definition gt (x y : float) : bool := y <? x.
Definition ge (x y : float) : bool := y <=? x.

End Float64.

(* ================================================================== *)
(** * package time *)

Module time.

(** [time.Duration]: an int64 count of nanoseconds. *)
Definition Duration : Type := Z.

Definition Nanosecond : Duration := 1.
Definition Millisecond : Duration := 1000000.
Definition Second : Duration := 1000000000.

(** [func (d Duration) Seconds() float64]:
    [sec := d / Second; nsec := d % Second;
     return float64(sec) + float64(nsec)/1e9]. *)
Definition Seconds (d : Duration) : float :=
  let sec := Int64.div d Second in
  let nsec := Int64.rem d Second in
  (Float64.of_int sec + Float64.of_int nsec / 1e9)%float.

(** [func (d Duration) Milliseconds() int64 { return int64(d) / 1e6 }]. *)
Definition Milliseconds (d : Duration) : Z := Int64.div d 1000000.

(** [Time.Sub] saturates at the least and greatest Duration. *)
Definition Sub (t u : Z) : Duration :=
  Z.max min_int (Z.min max_int (t - u)).

End time.

Import time.

(* ================================================================== *)
(** * Errors *)

(** The error values the engine meets.  [errors_New] values are the ones the
    package itself creates; the sentinels are those of [io] and [context];
    [transport_error] is any other failure of the HTTP client or of the random
    source, and [wrapped] is an error that wraps another (as [*url.Error]
    does), which [errors.Is] looks through.  [runtime_panic] is no error
    value of the program: it is the outcome of a call that panics. *)
Inductive error : Type :=
| io_EOF
| context_DeadlineExceeded
| context_Canceled
| transport_error (msg : string)
| wrapped (op : string) (inner : error)
| errors_New (msg : string)
| runtime_panic (msg : string).

Definition error_is_sentinel (e target : error) : bool :=
  match e, target with
  | io_EOF, io_EOF => true
  | context_DeadlineExceeded, context_DeadlineExceeded => true
  | context_Canceled, context_Canceled => true
  | _, _ => false
  end.

(** [errors.Is(err, target)] for a sentinel [target]. *)
Fixpoint errors_Is (err target : error) : bool :=
  error_is_sentinel err target
  || match err with
     | wrapped _ inner => errors_Is inner target
     | _ => false
     end.

(* ================================================================== *)
(** * structs.go *)

Definition DefaultClientBase : string := "https://speed.getanswers.pro".
Definition DefaultDuration : Duration := 12 * Second.
Definition DefaultStreams : Z := 1.
Definition DefaultChunkSize : Z := 64 * 1024.
Definition DefaultDownloadMB : Z := 40.
Definition DefaultPingCount : Z := 6.
Definition DefaultTimeout : Duration := 30 * Second.

Module ProgressUpdate.
Record t : Type := mk {
  Phase : string;
  Percent : float;
  Mbps : float;
  PingMs : float
}.
End ProgressUpdate.

(** [Progress] is a callback, [func(ProgressUpdate)]: the model keeps whether
    it is set ([true]) or nil ([false]), and records every call of it in the
    trace of the world. *)
Module ClientConfig.
Record t : Type := mk {
  BaseURL : string;
  Duration : time.Duration;
  Streams : Z;
  ChunkSize : Z;
  DownloadMB : Z;
  PingCount : Z;
  Timeout : time.Duration;
  JSON : bool;
  Progress : bool
}.
End ClientConfig.

Module PingMetrics.
Record t : Type := mk {
  Min : time.Duration;
  Avg : time.Duration;
  P95 : time.Duration
}.
(** [PingMetrics{}] *)
Definition zero : t := mk 0 0 0.
End PingMetrics.

Module SpeedMetrics.
Record t : Type := mk {
  Mbps : float;
  Bytes : Z;
  Duration : time.Duration
}.
(** [SpeedMetrics{}] *)
Definition zero : t := mk 0%float 0 0.
End SpeedMetrics.

Module Result.
Record t : Type := mk {
  Ping : PingMetrics.t;
  Download : SpeedMetrics.t;
  Upload : SpeedMetrics.t
}.
(** [Result{}] *)
Definition zero : t := mk PingMetrics.zero SpeedMetrics.zero SpeedMetrics.zero.
End Result.

(* ================================================================== *)
(** * Pure helpers of ispeed.go *)

Definition len {A : Type} (l : list A) : Z := Z.of_nat (List.length l).

(** [items[i]] for an index the slice has. *)
Definition index_at (items : list Duration) (i : Z) : Duration :=
  nth (Z.to_nat i) items 0.

Definition avgDuration (items : list Duration) : Duration :=
  if len items =? 0 then 0
  else
    let total := fold_left (fun acc item => Int64.add acc item) items 0 in
    Int64.div total (len items).

Definition percentileDuration (items : list Duration) (percentile : float)
  : Duration :=
  if len items =? 0 then 0
  else if Float64.le percentile 0 then index_at items 0
  else if Float64.ge percentile 1 then index_at items (len items - 1)
  else
    let index :=
      Int64.sub
        (Float64.int_Ceil (Float64.of_int (len items) * percentile)%float) 1 in
    let index := Z.max index 0 in
    let index := if len items <=? index then len items - 1 else index in
    index_at items index.

Definition bytesToMbps (bytes : Z) (duration : Duration) : float :=
  if duration <=? 0 then 0%float
  else
    let bits := (Float64.of_int bytes * 8)%float in
    (bits / Seconds duration / 1000000)%float.

Definition percentDone (current total : Z) : float :=
  if total <=? 0 then 0%float
  else
    let percent :=
      (Float64.of_int current / Float64.of_int total * 100)%float in
    if Float64.lt percent 0 then 0%float
    else if Float64.gt percent 100 then 100%float
    else percent.

Definition percentElapsed (elapsed target : Duration) : float :=
  if target <=? 0 then 0%float
  else
    let percent := (Seconds elapsed / Seconds target * 100)%float in
    if Float64.lt percent 0 then 0%float
    else if Float64.gt percent 100 then 100%float
    else percent.

(* ================================================================== *)
(** * normalizeClientConfig *)

Fixpoint contains_char (cutset : string) (c : ascii) : bool :=
  match cutset with
  | EmptyString => false
  | String d rest => Ascii.eqb c d || contains_char rest c
  end.

(** [strings.TrimRight(s, cutset)]: [s] without its trailing characters that
    are in [cutset].  The cutset the engine uses is one ASCII character, for
    which trimming bytes and trimming code points are the same. *)
Fixpoint strings_TrimRight (s cutset : string) : string :=
  match s with
  | EmptyString => EmptyString
  | String c rest =>
      match strings_TrimRight rest cutset with
      | EmptyString =>
          if contains_char cutset c then EmptyString else String c EmptyString
      | String _ _ as r => String c r
      end
  end.

Definition normalizeClientConfig (cfg : ClientConfig.t) : ClientConfig.t :=
  let BaseURL :=
    if String.eqb (ClientConfig.BaseURL cfg) "" then DefaultClientBase
    else ClientConfig.BaseURL cfg in
  let BaseURL := strings_TrimRight BaseURL "/" in
  let Duration :=
    if ClientConfig.Duration cfg <=? 0 then DefaultDuration
    else ClientConfig.Duration cfg in
  let Streams :=
    if ClientConfig.Streams cfg <? 1 then DefaultStreams
    else ClientConfig.Streams cfg in
  let ChunkSize :=
    if ClientConfig.ChunkSize cfg <? 1024 then DefaultChunkSize
    else ClientConfig.ChunkSize cfg in
  let DownloadMB :=
    if ClientConfig.DownloadMB cfg <? 1 then DefaultDownloadMB
    else ClientConfig.DownloadMB cfg in
  let PingCount :=
    if ClientConfig.PingCount cfg <? 1 then DefaultPingCount
    else ClientConfig.PingCount cfg in
  let Timeout :=
    if ClientConfig.Timeout cfg <=? 0 then DefaultTimeout
    else ClientConfig.Timeout cfg in
  ClientConfig.mk BaseURL Duration Streams ChunkSize DownloadMB PingCount
    Timeout (ClientConfig.JSON cfg) (ClientConfig.Progress cfg).

(* ================================================================== *)
(** * The environment and the world *)

(** The three operations of the remote endpoint. *)
Inductive Request : Type :=
| GetPing (base : string)                    (* GET  <base>/ping *)
| GetDownload (base : string) (size : Z)     (* GET  <base>/download?size=<size> *)
| PostUpload (base : string).                (* POST <base>/upload *)

(** What a run does that can be observed from outside. *)
Inductive Event : Type :=
| EvRequest (r : Request)              (* the HTTP client sends a request *)
| EvSleep (d : time.Duration)          (* time.Sleep *)
| EvProgress (u : ProgressUpdate.t).   (* cfg.Progress is called *)

(** One download stream, as the network serves it. *)
Inductive DownloadScript : Type :=
| DownloadNewRequestFails (err : error)
| DownloadDoFails (err : error)
| DownloadBody (reads : list (Z * option error)).
    (* the successive results of resp.Body.Read; past the end of the list
       the body reports (0, io.EOF) *)

(** One call of [timedReader.Read] by the transport: the length of the buffer
    it passes, what [ctx.Err()] is then, and what [rand.Read] returns. *)
Record ReadCall : Type := mkReadCall {
  buf_len : N;
  ctx_Err : option error;
  rand_err : option error
}.

(** One upload stream: whether the request can be built, the reads the
    transport makes of the body while [client.Do] runs, and the error of
    [client.Do]. *)
Record UploadScript : Type := mkUploadScript {
  upload_new_request : option error;
  upload_reads : list ReadCall;
  upload_do : option error
}.

(** The oracles of a run.  A schedule names, step by step, the goroutine that
    runs next: a number below the stream count is that worker, any other
    number is the progress sampler's ticker firing.  The late ticks of a
    phase are those its sampler delivers after the join: each is given with
    the number of events of the rest of the run that pass before it,
    counted from the join or from the late tick before it, and with the
    reading of the clock it takes. *)
Record Env : Type := mkEnv {
  clock : nat -> Z;                         (* successive clock readings, ns *)
  ping_get : nat -> option error;           (* error of the k-th GET /ping *)
  download_stream : nat -> DownloadScript;
  download_schedule : list nat;
  upload_stream : nat -> UploadScript;
  upload_schedule : list nat;
  download_late : list (nat * Z);
  upload_late : list (nat * Z)
}.

Record World : Type := mkWorld {
  clock_reads : nat;       (* clock readings taken so far *)
  probes : nat;            (* GET /ping requests sent so far *)
  trace : list Event       (* the events so far, oldest first *)
}.

Definition emit (ev : Event) (w : World) : World :=
  mkWorld (clock_reads w) (probes w) (trace w ++ [ev]).

(** [time.Now()] *)
Definition time_Now (env : Env) (w : World) : Z * World :=
  (clock env (clock_reads w),
   mkWorld (S (clock_reads w)) (probes w) (trace w)).

(** [time.Since(start)] is [time.Now().Sub(start)]. *)
Definition time_Since (env : Env) (start : Z) (w : World)
  : time.Duration * World :=
  let (now, w) := time_Now env w in
  (time.Sub now start, w).

Definition time_Sleep (d : time.Duration) (w : World) : World :=
  emit (EvSleep d) w.

(** [client.Get(url)] for the ping URL, the body read to its end and closed. *)
Definition client_Get_ping (env : Env) (base : string) (w : World)
  : option error * World :=
  (ping_get env (probes w),
   mkWorld (clock_reads w) (S (probes w))
     (trace w ++ [EvRequest (GetPing base)])).

(* ================================================================== *)
(** * reportProgress *)

Definition reportProgress (cfg : ClientConfig.t) (phase : string)
  (percent mbps pingMs : float) (w : World) : World :=
  if negb (ClientConfig.Progress cfg) then w
  else
    let percent := if Float64.lt percent 0 then 0%float else percent in
    let percent := if Float64.gt percent 100 then 100%float else percent in
    let mbps := if Float64.lt mbps 0 then 0%float else mbps in
    let pingMs := if Float64.lt pingMs 0 then 0%float else pingMs in
    emit (EvProgress (ProgressUpdate.mk phase percent mbps pingMs)) w.

(* ================================================================== *)
(** * runPing *)

Fixpoint insert_sorted (d : time.Duration) (l : list time.Duration)
  : list time.Duration :=
  match l with
  | [] => [d]
  | x :: rest => if d <=? x then d :: l else x :: insert_sorted d rest
  end.

(** [slices.Sort]: the ascending rearrangement of the slice. *)
Definition slices_Sort (l : list time.Duration) : list time.Duration :=
  fold_right insert_sorted [] l.

(** The body of the loop of [runPing] at index [i]: the error that ends the
    phase, if the probe fails, or the results with the new sample. *)
Definition ping_iteration (env : Env) (cfg : ClientConfig.t) (i : Z)
  (results : list time.Duration) (w : World)
  : (error + list time.Duration) * World :=
  let (start, w) := time_Now env w in
  let (err, w) := client_Get_ping env (ClientConfig.BaseURL cfg) w in
  match err with
  | Some err => (inl err, w)
  | None =>
      let (sample, w) := time_Since env start w in
      let results := results ++ [sample] in
      let (since, w) := time_Since env start w in
      let w :=
        reportProgress cfg "ping"
          (Float64.of_int (i + 1)
             / Float64.of_int (ClientConfig.PingCount cfg) * 100)%float
          0%float
          (Float64.of_int (Milliseconds since)) w in
      let w :=
        if i <? ClientConfig.PingCount cfg - 1
        then time_Sleep (150 * Millisecond) w else w in
      (inr results, w)
  end.

(** [for i := 0; i < cfg.PingCount; i++], with [n] the iterations left. *)
Fixpoint ping_loop (env : Env) (cfg : ClientConfig.t) (n : nat) (i : Z)
  (results : list time.Duration) (w : World)
  : (error + list time.Duration) * World :=
  match n with
  | O => (inr results, w)
  | S n' =>
      match ping_iteration env cfg i results w with
      | (inl err, w) => (inl err, w)
      | (inr results, w) => ping_loop env cfg n' (i + 1) results w
      end
  end.

(** The float64 constant [0.95], the binary64 nearest to 95/100. *)
Definition percentile_95 : float := 0x1.e666666666666p-1%float.

(** [results := make([]time.Duration, 0, cfg.PingCount)] panics when the
    count is negative. *)
Definition runPing (env : Env) (cfg : ClientConfig.t) (w : World)
  : (PingMetrics.t * option error) * World :=
  if ClientConfig.PingCount cfg <? 0
  then ((PingMetrics.zero,
         Some (runtime_panic "makeslice: cap out of range")), w)
  else
  match ping_loop env cfg (Z.to_nat (ClientConfig.PingCount cfg)) 0 [] w with
  | (inl err, w) => ((PingMetrics.zero, Some err), w)
  | (inr results, w) =>
      if len results =? 0
      then ((PingMetrics.zero, Some (errors_New "ping returned no data")), w)
      else
        let results := slices_Sort results in
        let min := index_at results 0 in
        let avg := avgDuration results in
        let p95 := percentileDuration results percentile_95 in
        ((PingMetrics.mk min avg p95, None), w)
  end.

(* ================================================================== *)
(** * The shared state of a throughput phase and its goroutines *)

(** [totalBytes], [runErr] and [errOnce] of [runDownload] and [runUpload]. *)
Record Shared : Type := mkShared {
  totalBytes : Z;
  runErr : option error;
  errOnce : bool           (* whether errOnce.Do has run its function *)
}.

Definition Shared_init : Shared := mkShared 0 None false.

(** [atomic.AddInt64(&totalBytes, delta)] *)
Definition atomic_AddInt64 (delta : Z) (s : Shared) : Shared :=
  mkShared (Int64.add (totalBytes s) delta) (runErr s) (errOnce s).

Definition setRunErr (err : option error) (s : Shared) : Shared :=
  match err with
  | None => s
  | Some _ =>
      if errOnce s then s
      else mkShared (totalBytes s) err true
  end.

(** The steps of the goroutines of a phase.  Each is one atomic step of the
    interleaving: an atomic add, a once-guarded store of the error, the
    sending of a request, and one firing of the sampler's ticker. *)
Inductive Action : Type :=
| AAdd (delta : Z)
| ASetErr (err : error)
| ADo (r : Request)
| ATick.

Definition set_nth {A : Type} (n : nat) (x : A) (l : list A) : list A :=
  firstn n l ++ match skipn n l with
                | [] => []
                | _ :: rest => x :: rest
                end.

(** The sequence of steps a schedule gives.  A schedule entry below the
    number of workers runs the next step of that worker (none if it has
    ended); any other entry is a tick of the sampler, when there is one.
    When the schedule ends the workers still running run to their end (the
    phase joins them, [wg.Wait()]).  The ticks of the sampler after the
    join are the late ticks of the phase. *)
Fixpoint interleave (sampler : bool) (schedule : list nat)
  (workers : list (list Action)) : list Action :=
  match schedule with
  | [] => List.concat workers
  | k :: schedule' =>
      match nth_error workers k with
      | Some (a :: rest) =>
          a :: interleave sampler schedule' (set_nth k rest workers)
      | Some [] => interleave sampler schedule' workers
      | None =>
          if sampler then ATick :: interleave sampler schedule' workers
          else interleave sampler schedule' workers
      end
  end.

Section Exec.

(** What a tick of the sampler does: it loads the counter, reads the
    clock and reports. *)
Variable on_tick : Z -> World -> World.

Definition step (a : Action) (sw : Shared * World) : Shared * World :=
  let (s, w) := sw in
  match a with
  | AAdd delta => (atomic_AddInt64 delta s, w)
  | ASetErr err => (setRunErr (Some err) s, w)
  | ADo r => (s, emit (EvRequest r) w)
  | ATick => (s, on_tick (totalBytes s) w)
  end.

Definition exec (acts : list Action) (sw : Shared * World)
  : Shared * World :=
  fold_left (fun sw a => step a sw) acts sw.

End Exec.

(* ================================================================== *)
(** * The sampler after the join

    A throughput phase closes [progressDone] once its workers have joined
    and goes on: it does not wait for its sampler.  A tick the sampler has
    begun, or one it still begins because its [select] finds the ticker
    ready together with the closed channel, is delivered later: before the
    last report of the phase, after it, during the next phase or after the
    run.  Such a tick loads the counter, reads the clock and reports, as
    every tick does. *)

(** The ticks still to come: each with the number of events of the rest of
    the run that pass before it, counted from now or from the tick before
    it, and the events it delivers. *)
Definition Late : Type := list (nat * list Event).

(** The events of the ticks that come now, and the ticks then left. *)
Fixpoint due (late : Late) : list Event * Late :=
  match late with
  | (O, events) :: late' =>
      let (now, left) := due late' in (events ++ now, left)
  | _ => ([], late)
  end.

(** The ticks still to come once one more event of the run has passed. *)
Definition passed (late : Late) : Late :=
  match late with
  | (S gap, events) :: late' => (gap, events) :: late'
  | _ => late
  end.

(** The events [main] of the run with the ticks that come among them, and
    the ticks that come after the last of them. *)
Fixpoint weave (late : Late) (main : list Event) {struct main}
  : list Event * Late :=
  let (now, late) := due late in
  match main with
  | [] => (now, late)
  | ev :: main' =>
      let (t, left) := weave (passed late) main' in
      (now ++ ev :: t, left)
  end.

(** The events a call adds to the trace. *)
Definition added_by (f : World -> World) : list Event :=
  trace (f (mkWorld 0 0 [])).

(** The events by which the trace has grown from [w] to [w']. *)
Definition added (w w' : World) : list Event :=
  skipn (List.length (trace w)) (trace w').

Definition emit_all (events : list Event) (w : World) : World :=
  mkWorld (clock_reads w) (probes w) (trace w ++ events).

(* ================================================================== *)
(** * runDownload *)

(** The read loop of a download worker over the results of
    [resp.Body.Read(buf)]. *)
Fixpoint download_read_loop (reads : list (Z * option error))
  : list Action :=
  match reads with
  | [] => []
  | (read, err) :: rest =>
      (if 0 <? read then [AAdd read] else [])
      ++ match err with
         | Some err =>
             if negb (errors_Is err io_EOF) then [ASetErr err] else []
         | None => download_read_loop rest
         end
  end.

(** The goroutine of one download stream. *)
Definition download_worker (cfg : ClientConfig.t) (perStreamBytes : Z)
  (script : DownloadScript) : list Action :=
  match script with
  | DownloadNewRequestFails err => [ASetErr err]
  | DownloadDoFails err =>
      [ADo (GetDownload (ClientConfig.BaseURL cfg) perStreamBytes);
       ASetErr err]
  | DownloadBody reads =>
      ADo (GetDownload (ClientConfig.BaseURL cfg) perStreamBytes)
      :: download_read_loop reads
  end.

(** The workers [for i := 0; i < cfg.Streams; i++] starts. *)
Definition stream_ids (cfg : ClientConfig.t) : list nat :=
  seq 0 (Z.to_nat (ClientConfig.Streams cfg)).

Definition download_tick (env : Env) (cfg : ClientConfig.t)
  (progressStart targetBytes : Z) (current : Z) (w : World) : World :=
  let (elapsed, w) := time_Since env progressStart w in
  reportProgress cfg "download" (percentDone current targetBytes)
    (bytesToMbps current elapsed) 0%float w.

(** [perStreamBytes := int64(cfg.DownloadMB) * 1024 * 1024] *)
Definition perStreamBytes (cfg : ClientConfig.t) : Z :=
  Int64.mul (Int64.mul (ClientConfig.DownloadMB cfg) 1024) 1024.

(** The goroutines the loop over the streams starts. *)
Definition download_workers (env : Env) (cfg : ClientConfig.t)
  : list (list Action) :=
  map (fun i => download_worker cfg (perStreamBytes cfg) (download_stream env i))
    (stream_ids cfg).

(** [runDownload] up to the return of [wg.Wait()]: the start time, and the
    shared state and the world once every worker has ended. *)
Definition download_join (env : Env) (cfg : ClientConfig.t) (w : World)
  : Z * (Shared * World) :=
  let (start, w) := time_Now env w in
  let targetBytes :=
    Int64.mul (perStreamBytes cfg) (ClientConfig.Streams cfg) in
  let steps :=
    interleave (ClientConfig.Progress cfg) (download_schedule env)
      (download_workers env cfg) in
  (start, exec (download_tick env cfg start targetBytes) steps (Shared_init, w)).

(** A tick of the download sampler after the join, at the reading [now] of
    the clock: [current] is the counter, which no longer changes. *)
Definition download_late_tick (cfg : ClientConfig.t)
  (progressStart targetBytes current now : Z) (w : World) : World :=
  let elapsed := time.Sub now progressStart in
  reportProgress cfg "download" (percentDone current targetBytes)
    (bytesToMbps current elapsed) 0%float w.

(** The late ticks of the download sampler; there is no sampler without a
    sink. *)
Definition download_late_ticks (env : Env) (cfg : ClientConfig.t)
  (progressStart targetBytes current : Z) : Late :=
  if ClientConfig.Progress cfg
  then map (fun tick : nat * Z =>
              (fst tick,
               added_by (download_late_tick cfg progressStart targetBytes
                           current (snd tick))))
         (download_late env)
  else [].

(** [runDownload], and the ticks its sampler has still to deliver when it
    returns.  After the join the main goroutine reads the clock and, with a
    sink, delivers the report of 100 percent; the late ticks that come
    before the return are woven with it. *)
Definition runDownload_detached (env : Env) (cfg : ClientConfig.t)
  (w : World) : ((SpeedMetrics.t * option error) * World) * Late :=
  let '(start, (s, w)) := download_join env cfg w in
  let targetBytes :=
    Int64.mul (perStreamBytes cfg) (ClientConfig.Streams cfg) in
  let late := download_late_ticks env cfg start targetBytes (totalBytes s) in
  let (elapsed, w) := time_Since env start w in
  let report (w : World) : World :=
    if ClientConfig.Progress cfg
    then reportProgress cfg "download" 100%float
           (bytesToMbps (totalBytes s) elapsed) 0%float w
    else w in
  let (events, late) := weave late (added_by report) in
  let w := emit_all events w in
  (match runErr s with
   | Some err => ((SpeedMetrics.zero, Some err), w)
   | None =>
       if totalBytes s =? 0
       then ((SpeedMetrics.zero,
              Some (errors_New "download returned no data")), w)
       else
         let mbps := bytesToMbps (totalBytes s) elapsed in
         ((SpeedMetrics.mk mbps (totalBytes s) elapsed, None), w)
   end, late).

Definition runDownload (env : Env) (cfg : ClientConfig.t) (w : World)
  : (SpeedMetrics.t * option error) * World :=
  fst (runDownload_detached env cfg w).

(* ================================================================== *)
(** * timedReader and runUpload *)

(** [ctx] is in the oracle of each read, and [total] is the counter of the
    phase, which [runUpload] always sets. *)
Record timedReader : Type := mkTimedReader {
  chunkSize : Z;
  count : Z
}.

(** [func (t *timedReader) Read(p []byte) (int, error)]: the reader after
    the call, the result, and the step on the shared counter.  The cut
    [p[:t.chunkSize]] panics when the chunk size is negative. *)
Definition timedReader_Read (t : timedReader) (call : ReadCall)
  : timedReader * (Z * option error) * list Action :=
  match ctx_Err call with
  | Some err => (t, (0, Some err), [])
  | None =>
      let len_p := Z.of_N (buf_len call) in
      if (chunkSize t <? len_p) && (chunkSize t <? 0)
      then (t, (0, Some (runtime_panic "slice bounds out of range")), [])
      else
      let len_p := if chunkSize t <? len_p then chunkSize t else len_p in
      match rand_err call with
      | Some err => (t, (0, Some err), [])
      | None =>
          let bytesRead := len_p in
          (mkTimedReader (chunkSize t) (Int64.add (count t) bytesRead),
           (len_p, None), [AAdd bytesRead])
      end
  end.

(** The reads the transport makes of the request body, up to the first one
    that returns an error. *)
Fixpoint upload_body (t : timedReader) (calls : list ReadCall)
  : timedReader * list Action :=
  match calls with
  | [] => (t, [])
  | call :: rest =>
      match timedReader_Read t call with
      | (t', (_, Some _), acts) => (t', acts)
      | (t', (_, None), acts) =>
          let (t'', acts') := upload_body t' rest in
          (t'', acts ++ acts')
      end
  end.

(** The goroutine of one upload stream. *)
Definition upload_worker (cfg : ClientConfig.t) (script : UploadScript)
  : list Action :=
  let reader := mkTimedReader (ClientConfig.ChunkSize cfg) 0 in
  match upload_new_request script with
  | Some err => [ASetErr err]
  | None =>
      ADo (PostUpload (ClientConfig.BaseURL cfg))
      :: snd (upload_body reader (upload_reads script))
      ++ match upload_do script with
         | Some err =>
             if errors_Is err context_DeadlineExceeded
                || errors_Is err context_Canceled
             then []
             else [ASetErr err]
         | None => []
         end
  end.

Definition upload_tick (env : Env) (cfg : ClientConfig.t)
  (progressStart : Z) (current : Z) (w : World) : World :=
  let (elapsed, w) := time_Since env progressStart w in
  reportProgress cfg "upload"
    (percentElapsed elapsed (ClientConfig.Duration cfg))
    (bytesToMbps current elapsed) 0%float w.

Definition upload_workers (env : Env) (cfg : ClientConfig.t)
  : list (list Action) :=
  map (fun i => upload_worker cfg (upload_stream env i)) (stream_ids cfg).

(** [runUpload] up to the return of [wg.Wait()]. *)
Definition upload_join (env : Env) (cfg : ClientConfig.t) (w : World)
  : Z * (Shared * World) :=
  let (start, w) := time_Now env w in
  let steps :=
    interleave (ClientConfig.Progress cfg) (upload_schedule env)
      (upload_workers env cfg) in
  (start, exec (upload_tick env cfg start) steps (Shared_init, w)).

(** A tick of the upload sampler after the join, at the reading [now] of
    the clock. *)
Definition upload_late_tick (cfg : ClientConfig.t)
  (progressStart current now : Z) (w : World) : World :=
  let elapsed := time.Sub now progressStart in
  reportProgress cfg "upload"
    (percentElapsed elapsed (ClientConfig.Duration cfg))
    (bytesToMbps current elapsed) 0%float w.

Definition upload_late_ticks (env : Env) (cfg : ClientConfig.t)
  (progressStart current : Z) : Late :=
  if ClientConfig.Progress cfg
  then map (fun tick : nat * Z =>
              (fst tick,
               added_by (upload_late_tick cfg progressStart current
                           (snd tick))))
         (upload_late env)
  else [].

(** [runUpload], and the ticks its sampler has still to deliver when it
    returns. *)
Definition runUpload_detached (env : Env) (cfg : ClientConfig.t)
  (w : World) : ((SpeedMetrics.t * option error) * World) * Late :=
  let '(start, (s, w)) := upload_join env cfg w in
  let late := upload_late_ticks env cfg start (totalBytes s) in
  let (elapsed, w) := time_Since env start w in
  let report (w : World) : World :=
    if ClientConfig.Progress cfg
    then reportProgress cfg "upload" 100%float
           (bytesToMbps (totalBytes s) elapsed) 0%float w
    else w in
  let (events, late) := weave late (added_by report) in
  let w := emit_all events w in
  (match runErr s with
   | Some err => ((SpeedMetrics.zero, Some err), w)
   | None =>
       if totalBytes s =? 0
       then ((SpeedMetrics.zero, Some (errors_New "upload sent no data")), w)
       else
         let mbps := bytesToMbps (totalBytes s) elapsed in
         ((SpeedMetrics.mk mbps (totalBytes s) elapsed, None), w)
   end, late).

Definition runUpload (env : Env) (cfg : ClientConfig.t) (w : World)
  : (SpeedMetrics.t * option error) * World :=
  fst (runUpload_detached env cfg w).

(* ================================================================== *)
(** * RunClient *)

(** The upload phase runs while the sampler of the download phase may still
    tick: the late ticks the download phase has left are woven with the
    events of the upload phase. *)
Definition RunClient (env : Env) (cfg : ClientConfig.t) (w : World)
  : (Result.t * option error) * World :=
  let cfg := normalizeClientConfig cfg in
  let '((pingRes, err), w) := runPing env cfg w in
  match err with
  | Some err => ((Result.zero, Some err), w)
  | None =>
      let '(((downloadRes, err), w), late) :=
        runDownload_detached env cfg w in
      match err with
      | Some err => ((Result.zero, Some err), w)
      | None =>
          let '((uploadRes, err), w') := runUpload env cfg w in
          let w :=
            mkWorld (clock_reads w') (probes w')
              (trace w ++ fst (weave late (added w w'))) in
          match err with
          | Some err => ((Result.zero, Some err), w)
          | None => ((Result.mk pingRes downloadRes uploadRes, None), w)
          end
      end
  end.

(* ================================================================== *)
(** * main.go: the command-line front end

    The terminal program is modelled by its update function, the flags
    by the values [flag.Parse] sets, and the server list by what
    [loadServerList] returns. *)

(** [x != y] on float64. *)
Definition float64_ne (x y : float) : bool := negb (PrimFloat.eqb x y).

Module progressState.
Record t : Type := mk {
  percent : float;
  mbps : float
}.
Definition zero : t := mk 0 0.
End progressState.

(** The model of the terminal program.  Its two channels, which it only
    reads from, are the messages [Update] is given. *)
Module model.
Record t : Type := mk {
  cfg : ClientConfig.t;
  width : Z;
  ping : progressState.t;
  download : progressState.t;
  upload : progressState.t;
  result : option Result.t;
  err : option error
}.
End model.

(** The messages of the program: those of the package, and any other
    message of the terminal library. *)
Inductive Msg : Type :=
| WindowSizeMsg (Width Height : Z)
| progressMsg (update : ProgressUpdate.t)
| resultMsg (result : Result.t)
| errMsg (err : error)
| other_Msg.

(** The commands [Update] returns. *)
Inductive Cmd : Type :=
| Cmd_nil
| Cmd_listenProgress
| Cmd_Quit.

Definition newModel (cfg : ClientConfig.t) : model.t :=
  model.mk cfg 72 progressState.zero progressState.zero progressState.zero
    None None.

Definition Update (m : model.t) (msg : Msg) : model.t * Cmd :=
  match msg with
  | WindowSizeMsg Width _ =>
      (model.mk (model.cfg m) Width (model.ping m) (model.download m)
         (model.upload m) (model.result m) (model.err m), Cmd_nil)
  | progressMsg update =>
      let m :=
        if String.eqb (ProgressUpdate.Phase update) "ping" then
          model.mk (model.cfg m) (model.width m)
            (progressState.mk (ProgressUpdate.Percent update)
               (ProgressUpdate.PingMs update))
            (model.download m) (model.upload m) (model.result m)
            (model.err m)
        else if String.eqb (ProgressUpdate.Phase update) "download" then
          model.mk (model.cfg m) (model.width m) (model.ping m)
            (progressState.mk (ProgressUpdate.Percent update)
               (ProgressUpdate.Mbps update))
            (model.upload m) (model.result m) (model.err m)
        else if String.eqb (ProgressUpdate.Phase update) "upload" then
          model.mk (model.cfg m) (model.width m) (model.ping m)
            (model.download m)
            (progressState.mk (ProgressUpdate.Percent update)
               (ProgressUpdate.Mbps update))
            (model.result m) (model.err m)
        else m in
      (m, Cmd_listenProgress)
  | resultMsg result =>
      let m :=
        if negb (PingMetrics.Min (Result.Ping result) =? 0)
           || float64_ne (SpeedMetrics.Mbps (Result.Download result)) 0
           || float64_ne (SpeedMetrics.Mbps (Result.Upload result)) 0
        then model.mk (model.cfg m) (model.width m) (model.ping m)
               (model.download m) (model.upload m) (Some result)
               (model.err m)
        else m in
      (m, Cmd_Quit)
  | errMsg err =>
      (model.mk (model.cfg m) (model.width m) (model.ping m)
         (model.download m) (model.upload m) (model.result m) (Some err),
       Cmd_Quit)
  | other_Msg => (m, Cmd_nil)
  end.

(** The values of the command-line flags, each the flag's default when the
    flag is not given. *)
Record Flags : Type := mkFlags {
  flag_url : string;
  flag_duration : time.Duration;
  flag_streams : Z;
  flag_chunk_size : Z;
  flag_download_mb : Z;
  flag_ping_count : Z;
  flag_timeout : time.Duration;
  flag_json : bool
}.

(** [parseFlags], from the values [flag.Parse] has set. *)
Definition parseFlags (f : Flags) : ClientConfig.t :=
  ClientConfig.mk (strings_TrimRight (flag_url f) "/") (flag_duration f)
    (flag_streams f) (flag_chunk_size f) (flag_download_mb f)
    (flag_ping_count f) (flag_timeout f) (flag_json f) false.

Record serverEntry : Type := mkServerEntry {
  Name : string;
  URL : string
}.

(** The probe [pickFastestServer] makes of one server: the time it took,
    or nothing when the request fails. *)
Definition probe_server (env : Env) (server : serverEntry) (w : World)
  : option time.Duration * World :=
  let (start, w) := time_Now env w in
  let (err, w) :=
    client_Get_ping env (strings_TrimRight (URL server) "/") w in
  match err with
  | Some _ => (None, w)
  | None =>
      let (elapsed, w) := time_Since env start w in
      (Some elapsed, w)
  end.

(** [for _, server := range list.Servers] *)
Fixpoint pick_loop (env : Env) (servers : list serverEntry)
  (bestURL : string) (bestLatency : time.Duration) (w : World)
  : (string * time.Duration) * World :=
  match servers with
  | [] => ((bestURL, bestLatency), w)
  | server :: rest =>
      if String.eqb (URL server) "" then
        pick_loop env rest bestURL bestLatency w
      else
        match probe_server env server w with
        | (None, w) => pick_loop env rest bestURL bestLatency w
        | (Some elapsed, w) =>
            if elapsed <? bestLatency
            then pick_loop env rest (strings_TrimRight (URL server) "/")
                   elapsed w
            else pick_loop env rest bestURL bestLatency w
        end
  end.

(** [pickFastestServer], from what [loadServerList] returns. *)
Definition pickFastestServer (env : Env)
  (loaded : error + list serverEntry) (w : World)
  : (string * option error) * World :=
  match loaded with
  | inl err => ((""%string, Some (wrapped "read server list" err)), w)
  | inr servers =>
      if len servers =? 0
      then ((""%string, Some (errors_New "no servers defined in config")), w)
      else
        let '((bestURL, _), w) := pick_loop env servers "" max_int w in
        if String.eqb bestURL ""
        then ((""%string, Some (errors_New "no reachable servers found")), w)
        else ((bestURL, None), w)
  end.

(** The start of [main]: the configuration it gives [RunClient], or the
    error [log.Fatalf] ends the program with.  The server list is loaded,
    and the servers probed, only when the flags name no server. *)
Definition main_config (env : Env) (f : Flags)
  (loaded : error + list serverEntry) (w : World)
  : (ClientConfig.t + error) * World :=
  let cfg := parseFlags f in
  if String.eqb (ClientConfig.BaseURL cfg) "" then
    match pickFastestServer env loaded w with
    | ((_, Some err), w) => (inr err, w)
    | ((selected, None), w) =>
        (inl (ClientConfig.mk selected (ClientConfig.Duration cfg)
                (ClientConfig.Streams cfg) (ClientConfig.ChunkSize cfg)
                (ClientConfig.DownloadMB cfg) (ClientConfig.PingCount cfg)
                (ClientConfig.Timeout cfg) (ClientConfig.JSON cfg)
                (ClientConfig.Progress cfg)), w)
    end
  else (inl cfg, w).

(* ================================================================== *)
(** * server/index.ts: the test server

    A JavaScript string is the list of its UTF-16 code units.  The numbers
    of the server are byte counts: integers, which a JavaScript number
    holds exactly up to 2^53; they are modelled as [Z]. *)

Definition js_string : Type := list N.

Definition DEFAULT_MAX_BYTES : Z := 1024 * 1024 * 1024.
Definition DEFAULT_READ_LIMIT : Z := 512 * 1024 * 1024.
Definition DEFAULT_CHUNK_SIZE : Z := 64 * 1024.

(** The white space and line terminators [parseInt] skips. *)
Definition is_StrWhiteSpaceChar (c : N) : bool :=
  ((9 <=? c) && (c <=? 13) || (c =? 32) || (c =? 160) || (c =? 5760)
   || (8192 <=? c) && (c <=? 8202) || (c =? 8232) || (c =? 8233)
   || (c =? 8239) || (c =? 8287) || (c =? 12288) || (c =? 65279))%N.

Definition is_digit (c : N) : bool := ((48 <=? c) && (c <=? 57))%N.

Fixpoint skip_white_space (s : js_string) : js_string :=
  match s with
  | c :: rest => if is_StrWhiteSpaceChar c then skip_white_space rest else s
  | [] => []
  end.

(** The longest prefix of [s] made of decimal digits. *)
Fixpoint digit_prefix (s : js_string) : js_string :=
  match s with
  | c :: rest => if is_digit c then c :: digit_prefix rest else []
  | [] => []
  end.

Definition digits_value (ds : js_string) : Z :=
  fold_left (fun acc d => 10 * acc + (Z.of_N d - 48)) ds 0.

(** [Number.parseInt(s, 10)]: the integer the numeral denotes, [None] for
    NaN.  (The number JavaScript returns is that integer rounded to a
    float64, infinite for the longest numerals; it is exact up to 2^53, and
    is at least 2^53 for every larger integer.) *)
Definition Number_parseInt (s : js_string) : option Z :=
  let s := skip_white_space s in
  let '(sign, s) :=
    match s with
    | c :: rest =>
        if (c =? 45)%N then (-1, rest)
        else if (c =? 43)%N then (1, rest)
        else (1, s)
    | [] => (1, s)
    end in
  match digit_prefix s with
  | [] => None
  | ds => Some (sign * digits_value ds)
  end.

(** [parseSizeParam], from the value of the [size] parameter of the
    request's URL ([None] when the URL has none), for a [maxBytes] that is
    an integer up to 2^53: [Math.min] then cuts every parsed number that
    is not exact, or infinite, to [maxBytes]. *)
Definition parseSizeParam (sizeParam : option js_string) (maxBytes : Z) : Z :=
  match sizeParam with
  | None | Some [] => maxBytes
  | Some s =>
      match Number_parseInt s with
      | None => maxBytes
      | Some parsed =>
          if parsed <=? 0 then maxBytes else Z.min parsed maxBytes
      end
  end.

(** What a call of [pull] does to the stream. *)
Inductive PullResult : Type :=
| Pull_close
| Pull_enqueue (byteLength : Z)
| Pull_throw.

(** [pull] of [randomStream], on the [remaining] of the stream: the
    result, and the new [remaining].  [new Uint8Array(size)] throws for a
    negative size, and [crypto.getRandomValues] for a buffer of more than
    65536 bytes. *)
Definition randomStream_pull (chunkSize remaining : Z) : PullResult * Z :=
  if remaining <=? 0 then (Pull_close, remaining)
  else
    let size := Z.min remaining chunkSize in
    if (size <? 0) || (65536 <? size) then (Pull_throw, remaining)
    else (Pull_enqueue size, remaining - size).

(** How the reading of a stream ended. *)
Inductive StreamEnd : Type :=
| Stream_closed
| Stream_errored
| Stream_open.

(** The chunks a consumer gets from [randomStream(totalSize, chunkSize)] in
    at most [pulls] calls of [pull], and whether the stream has ended. *)
Fixpoint randomStream (pulls : nat) (chunkSize remaining : Z)
  : list Z * StreamEnd :=
  match pulls with
  | O => ([], Stream_open)
  | S pulls' =>
      match randomStream_pull chunkSize remaining with
      | (Pull_close, _) => ([], Stream_closed)
      | (Pull_throw, _) => ([], Stream_errored)
      | (Pull_enqueue n, remaining) =>
          let (chunks, e) := randomStream pulls' chunkSize remaining in
          (n :: chunks, e)
      end
  end.

(** The response of [handleDownload]: its Content-Length header and the
    stream of its body ([randomStream(size, DEFAULT_CHUNK_SIZE)]). *)
Record DownloadResponse : Type := mkDownloadResponse {
  Content_Length : Z;
  body_totalSize : Z;
  body_chunkSize : Z
}.

Definition handleDownload (sizeParam : option js_string) (maxBytes : Z)
  : DownloadResponse :=
  let size := parseSizeParam sizeParam maxBytes in
  mkDownloadResponse size size DEFAULT_CHUNK_SIZE.

(** One result of [reader.read()] on the body of an upload. *)
Inductive ReadResult : Type :=
| Read_chunk (byteLength : Z)
| Read_rejected.

(** The loop of [handleUpload] over the results of [reader.read()]; past
    the end of the list the reader reports [done].  It gives the reads it
    made, whether it cancelled the reader, and whether it ended normally
    ([false]: a read was rejected, and the handler rejects). *)
Fixpoint upload_read_loop (reads : list ReadResult) (total readLimit : Z)
  : nat * bool * bool :=
  match reads with
  | [] => (1%nat, false, true)
  | Read_rejected :: _ => (1%nat, false, false)
  | Read_chunk n :: rest =>
      let total := total + n in
      if readLimit <=? total then (1%nat, true, true)
      else
        let '(k, cancelled, ok) := upload_read_loop rest total readLimit in
        (S k, cancelled, ok)
  end.

(** [handleUpload], from the body of the request ([None]: the request has
    none, and nothing is read). *)
Definition handleUpload (body : option (list ReadResult)) (readLimit : Z)
  : nat * bool * bool :=
  match body with
  | None => (0%nat, false, true)
  | Some reads => upload_read_loop reads 0 readLimit
  end.

(* ================================================================== *)
(** * The vocabulary of the properties

    The definitions the lemmas and theorems below are stated with. *)

Fixpoint last_char (s : string) : option ascii :=
  match s with
  | EmptyString => None
  | String c EmptyString => Some c
  | String _ rest => last_char rest
  end.

(** [n] slashes. *)
Fixpoint slashes (n : nat) : string :=
  match n with
  | O => EmptyString
  | S n' => String "/" (slashes n')
  end.

(** What the base URL is before the trim. *)
Definition base_or_default (cfg : ClientConfig.t) : string :=
  if String.eqb (ClientConfig.BaseURL cfg) "" then DefaultClientBase
  else ClientConfig.BaseURL cfg.

(** The exponent of the unit in the last place of binary64 at magnitude
    [e]. *)
Definition fexp64 (e : Z) : Z := fexp prec emax e.

(** Where [N / D] lies between [floor (N / D)] and the next integer. *)
Definition loc_of (N D : Z) : location :=
  if N mod D =? 0 then loc_Exact
  else loc_Inexact (Z.compare (2 * (N mod D)) D).

(** The shift record [mrs] holds the integer part of [N / D] and the
    location of [N / D] above it. *)
Definition shr_holds (N D : Z) (mrs : shr_record) : Prop :=
  0 < D /\ 0 <= N /\ shr_m mrs = N / D
  /\ loc_of_shr_record mrs = loc_of N D.

(** [(mc, ec)] is the canonical form of a positive finite binary64. *)
Definition canonical64 (mc : positive) (ec : Z) : Prop :=
  fexp64 (Z.pos (digits2_pos mc) + ec) = ec /\ ec <= emax - prec.

(** [r] is +0 or a positive finite float of value at most [mc * 2^ec]. *)
Definition at_most (r : spec_float) (mc : positive) (ec : Z) : Prop :=
  r = S754_zero false
  \/ exists m e, r = S754_finite false m e /\ e <= ec
                 /\ Z.pos m <= Z.pos mc * 2 ^ (ec - e).

(** The mantissas of the binary64 constants 1 and 100, of exponents -52
    and -46. *)
Definition mantissa_1 : positive := 4503599627370496.

Definition mantissa_100 : positive := 7036874417766400.

(** The value [mx * 2^ex] is at most the value [my * 2^ey]. *)
Definition val_le (mx : positive) (ex : Z) (my : positive) (ey : Z) : Prop :=
  Z.pos mx * 2 ^ (ex - Z.min ex ey) <= Z.pos my * 2 ^ (ey - Z.min ex ey).

(** A float that is a zero or a finite number, and one that is a finite
    number other than zero. *)
Definition SF_finite (x : spec_float) : Prop :=
  match x with
  | S754_zero _ | S754_finite _ _ _ => True
  | _ => False
  end.

Definition SF_nonzero (x : spec_float) : Prop :=
  match x with
  | S754_finite _ _ _ => True
  | _ => False
  end.

(** [r] is a positive finite float or plus infinity. *)
Definition positive_or_inf (r : spec_float) : Prop :=
  r = S754_infinity false \/ exists m e, r = S754_finite false m e.

(** The mantissa of the binary64 constant 1e9, of exponent -23. *)
Definition mantissa_1e9 : positive := 8388608000000000.

(** [z / 2^k] rounded to the nearest integer, ties to even. *)
Definition rne (z k : Z) : Z :=
  round_nearest_even (z / 2 ^ k) (loc_of z (2 ^ k)).

(** The value of [float64(z)] for 0 < z < 2^63: [z] rounded to 53 bits. *)
Definition int_shift (z : Z) : Z := Z.max 0 (Zdigits2 z - 53).

Definition int_value (z : Z) : Z := rne z (int_shift z) * 2 ^ int_shift z.

(** [i] brought into [lo, hi]. *)
Definition clamp (lo hi i : Z) : Z := Z.min hi (Z.max lo i).

(** The index [ceil(n * p) - 1] as the code computes it: the product is the
    float64 product of [float64(n)] and [p], the ceiling is exact and the
    subtraction is that of ints. *)
Definition ceil_index (n : Z) (p : float) : Z :=
  Int64.sub (Float64.int_Ceil (Float64.of_int n * p)%float) 1.

(** [c] is the least integer not below the value of the float [x]. *)
Definition is_ceiling (x : float) (c : Z) : Prop :=
  match Prim2SF x with
  | S754_zero _ => c = 0
  | S754_finite s m e =>
      let v := if s then Z.neg m else Z.pos m in
      (0 <= e -> c = v * 2 ^ e)
      /\ (e < 0 -> (c - 1) * 2 ^ (- e) < v <= c * 2 ^ (- e))
  | _ => False
  end.

(** The ranges of the fields of a progress event. *)
Definition percent_in_range (x : float) : bool :=
  Float64.le 0 x && Float64.le x 100.

Definition nonnegative (x : float) : bool := Float64.le 0 x.

Definition update_in_range (u : ProgressUpdate.t) : bool :=
  percent_in_range (ProgressUpdate.Percent u)
  && nonnegative (ProgressUpdate.Mbps u)
  && nonnegative (ProgressUpdate.PingMs u).

(** The two clamps of [reportProgress]. *)
Definition clamp_percent (x : float) : float :=
  let x := if Float64.lt x 0 then 0%float else x in
  if Float64.gt x 100 then 100%float else x.

Definition clamp_nonneg (x : float) : float :=
  if Float64.lt x 0 then 0%float else x.

(** A configuration with a progress sink, and the world before a run. *)
Definition cfg_with_sink : ClientConfig.t :=
  ClientConfig.mk "http://localhost:8080" (12 * Second) 1 65536 40 6
    (30 * Second) false true.

Definition World_init : World := mkWorld 0 0 [].

(** The bytes a sequence of steps adds, and the first error it stores. *)
Definition add_of (a : Action) : Z :=
  match a with
  | AAdd delta => delta
  | _ => 0
  end.

Definition sum_adds (acts : list Action) : Z :=
  fold_right (fun a acc => add_of a + acc) 0 acts.

Fixpoint first_err (acts : list Action) : option error :=
  match acts with
  | [] => None
  | ASetErr err :: _ => Some err
  | _ :: rest => first_err rest
  end.

Definition is_tick (a : Action) : bool :=
  match a with
  | ATick => true
  | _ => false
  end.

Definition no_ticks (acts : list Action) : list Action :=
  filter (fun a => negb (is_tick a)) acts.

(** The phase an event belongs to: a request by its operation, a progress
    event by its tag; only the latency prober pauses. *)
Definition event_phase (ev : Event) : string :=
  match ev with
  | EvRequest (GetPing _) => "ping"
  | EvRequest (GetDownload _ _) => "download"
  | EvRequest (PostUpload _) => "upload"
  | EvSleep _ => "ping"
  | EvProgress u => ProgressUpdate.Phase u
  end.

(** From [w] to [w'] the trace grew, by events of phase [ph] only. *)
Definition phase_events (ph : string) (w w' : World) : Prop :=
  exists t,
    trace w' = trace w ++ t /\ Forall (fun ev => event_phase ev = ph) t.

Definition action_of_phase (ph : string) (a : Action) : Prop :=
  match a with
  | ADo r => event_phase (EvRequest r) = ph
  | _ => True
  end.

(** What a throughput phase returns from the shared state at the join and
    the elapsed time. *)
Definition phase_result (no_data : string) (s : Shared)
  (elapsed : time.Duration) : SpeedMetrics.t * option error :=
  match runErr s with
  | Some err => (SpeedMetrics.zero, Some err)
  | None =>
      if totalBytes s =? 0
      then (SpeedMetrics.zero, Some (errors_New no_data))
      else (SpeedMetrics.mk (bytesToMbps (totalBytes s) elapsed)
              (totalBytes s) elapsed, None)
  end.

(** The shared state of the download phase once its workers have joined, and
    the elapsed time the phase then measures. *)
Definition download_shared (env : Env) (cfg : ClientConfig.t) (w : World)
  : Shared :=
  fst (snd (download_join env cfg w)).

Definition download_elapsed (env : Env) (cfg : ClientConfig.t) (w : World)
  : time.Duration :=
  let '(start, (_, w)) := download_join env cfg w in
  fst (time_Since env start w).

Definition upload_shared (env : Env) (cfg : ClientConfig.t) (w : World)
  : Shared :=
  fst (snd (upload_join env cfg w)).

Definition upload_elapsed (env : Env) (cfg : ClientConfig.t) (w : World)
  : time.Duration :=
  let '(start, (_, w)) := upload_join env cfg w in
  fst (time_Since env start w).

(** The first read of the stream fails with [e], which is not the end of
    the stream. *)
Definition download_read_fails (script : DownloadScript) (e : error)
  : Prop :=
  exists n rest,
    script = DownloadBody ((n, Some e) :: rest)
    /\ errors_Is e io_EOF = false.

(** The bytes the random byte source hands to the transport: the sum of the
    lengths its reads return, up to the first read that fails. *)
Fixpoint body_bytes (t : timedReader) (calls : list ReadCall) : Z :=
  match calls with
  | [] => 0
  | call :: rest =>
      match timedReader_Read t call with
      | (t', (n, None), _) => n + body_bytes t' rest
      | (_, (_, Some _), _) => 0
      end
  end.

(** The bytes the source of one upload worker generates: none when the
    request cannot be built, since the body is then never read. *)
Definition upload_generated (cfg : ClientConfig.t) (script : UploadScript)
  : Z :=
  match upload_new_request script with
  | Some _ => 0
  | None =>
      body_bytes (mkTimedReader (ClientConfig.ChunkSize cfg) 0)
        (upload_reads script)
  end.

(** The bytes the sources of all the workers of the phase generate. *)
Definition upload_total_generated (env : Env) (cfg : ClientConfig.t) : Z :=
  fold_right (fun i acc => upload_generated cfg (upload_stream env i) + acc)
    0 (stream_ids cfg).

(** [errors.Is(err, context.DeadlineExceeded)
     || errors.Is(err, context.Canceled)] *)
Definition expected_cancellation (err : error) : bool :=
  errors_Is err context_DeadlineExceeded || errors_Is err context_Canceled.

(** The request of the worker is built, and [client.Do] returns no error or
    an expected cancellation. *)
Definition upload_ends_quietly (script : UploadScript) : Prop :=
  upload_new_request script = None
  /\ match upload_do script with
     | None => True
     | Some err => expected_cancellation err = true
     end.

(** Scenario C: one stream; the source generates 500,000 bytes, then the
    deadline of the worker fires and [client.Do] returns an error that
    wraps [context.DeadlineExceeded]. *)
Definition env_scenario_C : Env :=
  mkEnv (fun k => Z.of_nat k * Second) (fun _ => None)
    (fun _ => DownloadBody [])
    []
    (fun _ =>
       mkUploadScript None
         [mkReadCall 500000%N None None;
          mkReadCall 500000%N (Some context_DeadlineExceeded) None]
         (Some (wrapped "Post" context_DeadlineExceeded)))
    [] [] [].

Definition cfg_scenario_C : ClientConfig.t :=
  ClientConfig.mk "http://localhost:8080" (12 * Second) 1 500000 40 6
    (30 * Second) false false.

(** The bytes the workers of the download phase read, all streams
    together. *)
Definition download_total_read (env : Env) (cfg : ClientConfig.t) : Z :=
  sum_adds (List.concat (download_workers env cfg)).

Fixpoint progress_events (t : list Event) : list ProgressUpdate.t :=
  match t with
  | [] => []
  | EvProgress u :: rest => u :: progress_events rest
  | _ :: rest => progress_events rest
  end.

(** From [w] to [w'] the trace grew, and every progress event it grew by
    is within the ranges. *)
Definition reports_in_range (w w' : World) : Prop :=
  exists t,
    trace w' = trace w ++ t
    /\ Forall (fun u => update_in_range u = true) (progress_events t).

(** A run the sampler observes: the clock advances by 100 ms at each
    reading, every probe is answered, the download stream serves 1,000,000
    bytes and the upload source generates 131,072 bytes before its deadline;
    the sampler ticks between the steps of the worker.  The download sampler
    ticks four more times once the workers have joined: before the last
    report of the phase, after it, after the first event of the upload
    phase, and after the run; the upload sampler twice, before the last
    report of its phase and after it. *)
Definition env_sampled : Env :=
  mkEnv
    (fun k => Z.of_nat k * (100 * Millisecond))
    (fun _ => None)
    (fun _ => DownloadBody [(600000, None); (400000, None); (0, Some io_EOF)])
    [0; 1; 0; 1; 0; 0; 1]%nat
    (fun _ =>
       mkUploadScript None
         [mkReadCall 65536%N None None;
          mkReadCall 65536%N None None;
          mkReadCall 65536%N (Some context_DeadlineExceeded) None]
         (Some (wrapped "Post" context_DeadlineExceeded)))
    [0; 1; 0; 0; 1]%nat
    [(0%nat, 2 * Second); (1%nat, 3 * Second); (1%nat, 4 * Second);
     (50%nat, 5 * Second)]
    [(0%nat, 6 * Second); (1%nat, 7 * Second)].

(** The sample of a probe that starts when [r] clock readings have been
    taken: the second reading minus the first. *)
Definition ping_sample (env : Env) (r : nat) : time.Duration :=
  time.Sub (clock env (S r)) (clock env r).

(** The time since the start of that probe at the next reading, the one
    [runPing] takes for its progress event. *)
Definition ping_since (env : Env) (r : nat) : time.Duration :=
  time.Sub (clock env (S (S r))) (clock env r).

(** The raw percent of the probe of index [i]. *)
Definition ping_percent (cfg : ClientConfig.t) (i : Z) : float :=
  (Float64.of_int (i + 1) / Float64.of_int (ClientConfig.PingCount cfg)
   * 100)%float.

(** The progress event of the probe of index [i] that starts when [r] clock
    readings have been taken, as [reportProgress] delivers it. *)
Definition ping_update (env : Env) (cfg : ClientConfig.t) (r : nat) (i : Z)
  : ProgressUpdate.t :=
  ProgressUpdate.mk "ping" (clamp_percent (ping_percent cfg i)) 0%float
    (clamp_nonneg (Float64.of_int (Milliseconds (ping_since env r)))).

(** The event C8 describes: the percent as computed and the milliseconds of
    the sample itself. *)
Definition ping_update_claimed (cfg : ClientConfig.t) (i : Z)
  (sample : time.Duration) : ProgressUpdate.t :=
  ProgressUpdate.mk "ping" (ping_percent cfg i) 0%float
    (Float64.of_int (Milliseconds sample)).

(** C8 as it is stated, for one iteration of the loop of [runPing]: a probe
    that succeeds records a sample and delivers exactly one progress event,
    the claimed one for that sample. *)
Definition ping_iteration_as_claimed (env : Env) (cfg : ClientConfig.t)
  (i : Z) (results : list time.Duration) (w : World) : Prop :=
  ping_get env (probes w) = None ->
  exists sample t,
    fst (ping_iteration env cfg i results w) = inr (results ++ [sample])
    /\ trace (snd (ping_iteration env cfg i results w)) = trace w ++ t
    /\ progress_events t = [ping_update_claimed cfg i sample].

(** The events of an iteration whose probe succeeds. *)
Definition ping_iteration_trace (env : Env) (cfg : ClientConfig.t) (r : nat)
  (i : Z) : list Event :=
  [EvRequest (GetPing (ClientConfig.BaseURL cfg))]
  ++ (if ClientConfig.Progress cfg
      then [EvProgress (ping_update env cfg r i)] else [])
  ++ (if i <? ClientConfig.PingCount cfg - 1
      then [EvSleep (150 * Millisecond)] else []).

(** A clock that reads 0, then 10.4 ms, then 11 ms (and 11 ms from then on),
    and a server that answers every probe. *)
Definition env_late_reading : Env :=
  mkEnv
    (fun k => match k with
              | O => 0
              | S O => 10400000
              | _ => 11000000
              end)
    (fun _ => None) (fun _ => DownloadBody []) []
    (fun _ => mkUploadScript None [] None) [] [] [].

(** Scenario A and B: three probes that take 10, 20 and 30 ms; two download
    streams of 1,000,000 bytes each, the phase taking one second; one upload
    stream whose source generates 65,536 bytes before its deadline. *)
Definition env_scenario_AB : Env :=
  mkEnv
    (fun k => nth k [0; 10; 10; 200; 220; 220; 400; 430; 430;
                     1000; 2000; 3000] 15000 * Millisecond)
    (fun _ => None)
    (fun _ => DownloadBody [(600000, None); (400000, None); (0, Some io_EOF)])
    [1; 0; 0; 1; 1]%nat
    (fun _ =>
       mkUploadScript None
         [mkReadCall 65536%N None None;
          mkReadCall 65536%N (Some context_DeadlineExceeded) None]
         (Some (wrapped "Post" context_DeadlineExceeded)))
    [] [] [].

Definition cfg_scenario_AB : ClientConfig.t :=
  ClientConfig.mk "http://localhost:8080/" (12 * Second) 2 65536 1 3
    (30 * Second) false false.

(** Scenario D: the first read of every download stream fails with a
    transport error. *)
Definition env_scenario_D : Env :=
  mkEnv (fun k => Z.of_nat k * Second) (fun _ => None)
    (fun i => DownloadBody
                [(0, Some (transport_error "connection reset by peer"))])
    [1; 0]%nat
    (fun _ => mkUploadScript None [] None) [] [] [].

(** Scenario E: every download stream ends at once, with no byte and no
    error. *)
Definition env_scenario_E : Env :=
  mkEnv (fun k => Z.of_nat k * Second) (fun _ => None)
    (fun i => DownloadBody [(0, Some io_EOF)]) []
    (fun _ => mkUploadScript None [] None) [] [] [].

(* ------------------------------------------------------------------ *)
(** ** Statistics, probes and traces *)

(** The sum of a list of durations, as an integer. *)
Definition total_of (items : list time.Duration) : Z :=
  fold_right Z.add 0 items.

(** The samples of [n] consecutive successful probes, the first of which
    starts when [r] clock readings have been taken. *)
Definition ping_samples (env : Env) (r n : nat) : list time.Duration :=
  map (fun k => ping_sample env (r + 3 * k)%nat) (seq 0 n).

(** The events of a trace that are not progress events. *)
Fixpoint wire_events (t : list Event) : list Event :=
  match t with
  | [] => []
  | EvProgress _ :: rest => wire_events rest
  | ev :: rest => ev :: wire_events rest
  end.

(** [n] probes of the server at [base], paced: a pause of 150 ms after each
    probe but the last. *)
Fixpoint paced_probes (base : string) (n : nat) : list Event :=
  match n with
  | O => []
  | S O => [EvRequest (GetPing base)]
  | S n' =>
      EvRequest (GetPing base) :: EvSleep (150 * Millisecond)
      :: paced_probes base n'
  end.

(** The events of [n] consecutive successful iterations of the loop of
    [runPing], the first of index [i] starting at clock reading [r]. *)
Definition ping_iterations_trace (env : Env) (cfg : ClientConfig.t)
  (r : nat) (i : Z) (n : nat) : list Event :=
  List.concat
    (map (fun k => ping_iteration_trace env cfg (r + 3 * k)%nat
                     (i + Z.of_nat k)) (seq 0 n)).

(* ------------------------------------------------------------------ *)
(** ** The error slot and the sign of a float *)

(** The calls [setRunErr(&errOnce, &runErr, err)] for the errors of a list,
    in order. *)
Definition setRunErr_all (errs : list (option error)) (s : Shared) : Shared :=
  fold_left (fun s err => setRunErr err s) errs s.

(** The first error of a list that is not nil. *)
Fixpoint first_non_nil (errs : list (option error)) : option error :=
  match errs with
  | [] => None
  | Some err :: _ => Some err
  | None :: rest => first_non_nil rest
  end.

(** A float that is +0, a positive finite number or plus infinity. *)
Definition SF_nonneg (x : spec_float) : Prop :=
  match x with
  | S754_zero false | S754_finite false _ _ | S754_infinity false => True
  | _ => False
  end.

(* ------------------------------------------------------------------ *)
(** ** The requests and the last report of a throughput phase *)

(** The requests of a trace, in order. *)
Fixpoint requests (t : list Event) : list Request :=
  match t with
  | [] => []
  | EvRequest r :: rest => r :: requests rest
  | _ :: rest => requests rest
  end.

(** The requests a sequence of steps sends. *)
Fixpoint action_requests (acts : list Action) : list Request :=
  match acts with
  | [] => []
  | ADo r :: rest => r :: action_requests rest
  | _ :: rest => action_requests rest
  end.

(** The download streams whose request can be built, and the upload streams
    whose request can be built. *)
Definition download_built (env : Env) (cfg : ClientConfig.t) : list nat :=
  filter (fun i => match download_stream env i with
                   | DownloadNewRequestFails _ => false
                   | _ => true
                   end) (stream_ids cfg).

Definition upload_built (env : Env) (cfg : ClientConfig.t) : list nat :=
  filter (fun i => match upload_new_request (upload_stream env i) with
                   | Some _ => false
                   | None => true
                   end) (stream_ids cfg).

(** The report that ends a throughput phase. *)
Definition final_report (phase : string) (bytes : Z) (elapsed : time.Duration)
  : ProgressUpdate.t :=
  ProgressUpdate.mk phase 100 (clamp_nonneg (bytesToMbps bytes elapsed)) 0.

(** The bytes a sequence of reads counts: the positive counts. *)
Definition counted_bytes (reads : list (Z * option error)) : Z :=
  fold_right (fun r acc => Z.max 0 (fst r) + acc) 0 reads.

(* ------------------------------------------------------------------ *)
(** ** The front end *)

(** The last update of a list that is of phase [ph]. *)
Fixpoint last_of_phase (ph : string) (us : list ProgressUpdate.t)
  : option ProgressUpdate.t :=
  match us with
  | [] => None
  | u :: rest =>
      match last_of_phase ph rest with
      | Some v => Some v
      | None => if String.eqb (ProgressUpdate.Phase u) ph then Some u else None
      end
  end.

(** The model after the messages of a list. *)
Definition Update_all (m : model.t) (msgs : list Msg) : model.t :=
  fold_left (fun m msg => fst (Update m msg)) msgs m.

(** The servers of a list that answer the probe, each with its URL without
    trailing slashes and the time it took, in the order of the list.  A
    server with no URL is not probed. *)
Fixpoint answers (env : Env) (servers : list serverEntry) (w : World)
  : list (string * time.Duration) :=
  match servers with
  | [] => []
  | server :: rest =>
      if String.eqb (URL server) "" then answers env rest w
      else
        match probe_server env server w with
        | (None, w) => answers env rest w
        | (Some elapsed, w) =>
            (strings_TrimRight (URL server) "/", elapsed)
            :: answers env rest w
        end
  end.

(** The best server so far after one more answer. *)
Definition keep_faster (best : string * time.Duration)
  (answer : string * time.Duration) : string * time.Duration :=
  if snd answer <? snd best then answer else best.

(** The servers [pickFastestServer] probes: those with a URL. *)
Definition probed (servers : list serverEntry) : list serverEntry :=
  filter (fun server => negb (String.eqb (URL server) "")) servers.

(* ------------------------------------------------------------------ *)
(** ** The test server *)

(** The decimal numeral of an integer, as [%d] prints it. *)
Fixpoint digits_of (fuel : nat) (n : Z) (acc : js_string) : js_string :=
  match fuel with
  | O => acc
  | S fuel' =>
      let acc := Z.to_N (48 + n mod 10) :: acc in
      if n <? 10 then acc else digits_of fuel' (n / 10) acc
  end.

Definition decimal (n : Z) : js_string :=
  if n <? 0
  then 45%N :: digits_of (S (Z.to_nat (Z.log2 (- n)))) (- n) []
  else digits_of (S (Z.to_nat (Z.log2 n))) n [].

(** The chunks of a stream of [totalSize] bytes cut every [chunkSize]. *)
Definition chunks_of (totalSize chunkSize : Z) : list Z :=
  repeat chunkSize (Z.to_nat (totalSize / chunkSize))
  ++ (if totalSize mod chunkSize =? 0 then []
      else [totalSize mod chunkSize]).

(** A numeral ends where the digits end. *)
Definition ends_numeral (rest : js_string) : Prop :=
  match rest with
  | c :: _ => is_digit c = false
  | [] => True
  end.

(* ------------------------------------------------------------------ *)
(** ** The size of a float, and the reads of an upload *)

(** [r] is plus infinity or a positive finite float of value at least
    [2 ^ (k - 1)]. *)
Definition magnitude_ge (r : spec_float) (k : Z) : Prop :=
  r = S754_infinity false
  \/ exists m e, r = S754_finite false m e
                 /\ k <= Z.pos (digits2_pos m) + e.

(** A phase that counted at least one byte over a positive time. *)
Definition counted (m : SpeedMetrics.t) : Prop :=
  0 < SpeedMetrics.Bytes m /\ 0 < SpeedMetrics.Duration m.

(** A call of [Read] that finds the context live and the random source
    working. *)
Definition read_succeeds (call : ReadCall) : Prop :=
  ctx_Err call = None /\ rand_err call = None.

(** The bytes the calls of a list ask for, each cut to [chunkSize]. *)
Definition asked_bytes (chunkSize : Z) (calls : list ReadCall) : Z :=
  fold_right (fun call acc => Z.min chunkSize (Z.of_N (buf_len call)) + acc)
    0 calls.

(* ------------------------------------------------------------------ *)
(** ** The sampler after the join *)

(** The world of a throughput phase once its workers have joined and the
    main goroutine has read the clock; the reading adds no event. *)
Definition download_joined (env : Env) (cfg : ClientConfig.t) (w : World)
  : World :=
  let '(start, (_, w)) := download_join env cfg w in
  snd (time_Since env start w).

Definition upload_joined (env : Env) (cfg : ClientConfig.t) (w : World)
  : World :=
  let '(start, (_, w)) := upload_join env cfg w in
  snd (time_Since env start w).

(** The events of the last report of the phase: one with a sink, none
    without. *)
Definition download_last (env : Env) (cfg : ClientConfig.t) (w : World)
  : list Event :=
  if ClientConfig.Progress cfg
  then [EvProgress (final_report "download"
                      (totalBytes (download_shared env cfg w))
                      (download_elapsed env cfg w))]
  else [].

Definition upload_last (env : Env) (cfg : ClientConfig.t) (w : World)
  : list Event :=
  if ClientConfig.Progress cfg
  then [EvProgress (final_report "upload"
                      (totalBytes (upload_shared env cfg w))
                      (upload_elapsed env cfg w))]
  else [].

(** The late ticks of the sampler of the phase, and those still to come
    when the phase returns. *)
Definition download_ticks (env : Env) (cfg : ClientConfig.t) (w : World)
  : Late :=
  download_late_ticks env cfg (fst (download_join env cfg w))
    (Int64.mul (perStreamBytes cfg) (ClientConfig.Streams cfg))
    (totalBytes (download_shared env cfg w)).

Definition upload_ticks (env : Env) (cfg : ClientConfig.t) (w : World)
  : Late :=
  upload_late_ticks env cfg (fst (upload_join env cfg w))
    (totalBytes (upload_shared env cfg w)).

Definition download_left (env : Env) (cfg : ClientConfig.t) (w : World)
  : Late :=
  snd (runDownload_detached env cfg w).

Definition upload_left (env : Env) (cfg : ClientConfig.t) (w : World)
  : Late :=
  snd (runUpload_detached env cfg w).

(** The report of a tick of a sampler that finds the counter at [current]
    and reads [now] on the clock. *)
Definition download_tick_report (start target current now : Z)
  : ProgressUpdate.t :=
  ProgressUpdate.mk "download" (clamp_percent (percentDone current target))
    (clamp_nonneg (bytesToMbps current (time.Sub now start))) 0.

Definition upload_tick_report (cfg : ClientConfig.t) (start current now : Z)
  : ProgressUpdate.t :=
  ProgressUpdate.mk "upload"
    (clamp_percent
       (percentElapsed (time.Sub now start) (ClientConfig.Duration cfg)))
    (clamp_nonneg (bytesToMbps current (time.Sub now start))) 0.

(** A late tick of the download sampler of the run from [w]: a report of
    the byte count of the whole phase. *)
Definition download_late_report (env : Env) (cfg : ClientConfig.t)
  (w : World) (ev : Event) : Prop :=
  exists now,
    ev = EvProgress
           (download_tick_report (fst (download_join env cfg w))
              (Int64.mul (perStreamBytes cfg) (ClientConfig.Streams cfg))
              (totalBytes (download_shared env cfg w)) now).

Definition upload_late_report (env : Env) (cfg : ClientConfig.t)
  (w : World) (ev : Event) : Prop :=
  exists now,
    ev = EvProgress
           (upload_tick_report cfg (fst (upload_join env cfg w))
              (totalBytes (upload_shared env cfg w)) now).

(** Every event of every tick of [late] satisfies [P]. *)
Definition ticks_all (P : Event -> Prop) (late : Late) : Prop :=
  Forall (fun tick => Forall P (snd tick)) late.

(** An event that is no progress event, or a progress event within the
    ranges. *)
Definition event_in_range (ev : Event) : Prop :=
  match ev with
  | EvProgress u => update_in_range u = true
  | _ => True
  end.

(** Whether an event is a progress event of the download phase. *)
Definition is_download_report (ev : Event) : bool :=
  match ev with
  | EvProgress u => String.eqb (ProgressUpdate.Phase u) "download"
  | _ => false
  end.

(* ------------------------------------------------------------------ *)
(** ** The bytes a stream delivers *)

(** The reads of a body a download worker makes: up to the first that
    returns an error, that one included. *)
Fixpoint reads_made (reads : list (Z * option error))
  : list (Z * option error) :=
  match reads with
  | [] => []
  | (n, None) :: rest => (n, None) :: reads_made rest
  | (n, Some e) :: _ => [(n, Some e)]
  end.

(** The bytes the stream of a download worker delivers to it: none when the
    request is not built or not answered. *)
Definition download_amount (script : DownloadScript) : Z :=
  match script with
  | DownloadBody reads => counted_bytes (reads_made reads)
  | _ => 0
  end.

(** The calls of [Read] that hand bytes to the transport: those before the
    first that finds the context done or the random source failing. *)
Fixpoint reads_served (calls : list ReadCall) : list ReadCall :=
  match calls with
  | [] => []
  | call :: rest =>
      match ctx_Err call, rand_err call with
      | None, None => call :: reads_served rest
      | _, _ => []
      end
  end.

(** The bytes the transport is handed by the source of an upload worker:
    none when the request is not built. *)
Definition upload_amount (cfg : ClientConfig.t) (script : UploadScript) : Z :=
  match upload_new_request script with
  | Some _ => 0
  | None =>
      asked_bytes (ClientConfig.ChunkSize cfg)
        (reads_served (upload_reads script))
  end.

(** Three streams that each deliver 1,000,000 bytes to the download worker,
    in different reads, and hand 131,072 bytes to the transport, from
    buffers of different sizes; the schedules interleave the workers and
    the samplers. *)
Definition env_counter : Env :=
  mkEnv
    (fun k => Z.of_nat k * (100 * Millisecond))
    (fun _ => None)
    (fun i =>
       match i with
       | 0%nat => DownloadBody [(400000, None); (600000, Some io_EOF)]
       | 1%nat => DownloadBody [(1000000, None); (0, Some io_EOF); (7, None)]
       | _ =>
           DownloadBody
             [(250000, None); (0, None); (250000, None);
              (500000, Some io_EOF)]
       end)
    [2; 0; 7; 1; 0; 2; 7; 1; 2]%nat
    (fun i =>
       match i with
       | 0%nat =>
           mkUploadScript None
             [mkReadCall 65536%N None None; mkReadCall 65536%N None None;
              mkReadCall 65536%N (Some context_DeadlineExceeded) None]
             (Some (wrapped "Post" context_DeadlineExceeded))
       | 1%nat =>
           mkUploadScript None
             [mkReadCall 131072%N None None; mkReadCall 131072%N None None;
              mkReadCall 131072%N (Some context_DeadlineExceeded) None]
             (Some (wrapped "Post" context_DeadlineExceeded))
       | _ =>
           mkUploadScript None
             [mkReadCall 32768%N None None; mkReadCall 32768%N None None;
              mkReadCall 32768%N None None; mkReadCall 32768%N None None;
              mkReadCall 32768%N (Some context_DeadlineExceeded) None]
             (Some (wrapped "Post" context_DeadlineExceeded))
       end)
    [0; 2; 9; 1; 1; 2; 0; 9; 2]%nat
    [(0%nat, 2 * Second)] [].

Definition cfg_counter : ClientConfig.t :=
  ClientConfig.mk "http://localhost:8080" (12 * Second) 3 65536 1 3
    (30 * Second) false true.

(* ================================================================== *)
(** * Facts on machine integers *)

Lemma wrap64_in_range (z : Z) : in_range z -> wrap64 z = z.
Proof.
  unfold in_range, wrap64, min_int, max_int. intros H.
  rewrite Z.mod_small; lia.
Qed.

Lemma wrap64_range (z : Z) : in_range (wrap64 z).
Proof.
  unfold in_range, wrap64, min_int, max_int.
  pose proof (Z.mod_pos_bound (z + 2 ^ 63) (2 ^ 64) ltac:(lia)). lia.
Qed.

Lemma wrap64_add_l (a b : Z) : wrap64 (wrap64 a + b) = wrap64 (a + b).
Proof.
  unfold wrap64.
  replace ((a + 2 ^ 63) mod 2 ^ 64 - 2 ^ 63 + b + 2 ^ 63)
    with ((a + 2 ^ 63) mod 2 ^ 64 + b) by lia.
  rewrite Zplus_mod_idemp_l. f_equal. f_equal. lia.
Qed.

(* ================================================================== *)
(** * The configuration normalizer *)

Lemma TrimRight_last (s cutset : string) (c : ascii) :
  last_char (strings_TrimRight s cutset) = Some c ->
  contains_char cutset c = false.
Proof.
  induction s as [|a s IH]; simpl; [discriminate|].
  destruct (strings_TrimRight s cutset) as [|b r] eqn:E.
  - destruct (contains_char cutset a) eqn:Ea; simpl; [discriminate|].
    intros [= <-]. exact Ea.
  - simpl. exact IH.
Qed.

Lemma TrimRight_slash_decompose (s : string) :
  exists n, s = (strings_TrimRight s "/" ++ slashes n)%string.
Proof.
  induction s as [|a s [n IH]]; simpl.
  - exists 0%nat. reflexivity.
  - destruct (strings_TrimRight s "/") as [|b r] eqn:E.
    + simpl in IH. destruct (Ascii.eqb a "/") eqn:Ea; simpl.
      * apply Ascii.eqb_eq in Ea. subst a. exists (S n). simpl. now rewrite IH.
      * exists n. simpl. now rewrite IH.
    + exists n. simpl. simpl in IH. now rewrite <- IH.
Qed.

Lemma normalizeClientConfig_ChunkSize (cfg : ClientConfig.t) :
  1024 <= ClientConfig.ChunkSize (normalizeClientConfig cfg).
Proof.
  unfold normalizeClientConfig. simpl.
  destruct (Z.ltb_spec (ClientConfig.ChunkSize cfg) 1024);
    unfold DefaultChunkSize; lia.
Qed.

Lemma normalizeClientConfig_PingCount (cfg : ClientConfig.t) :
  1 <= ClientConfig.PingCount (normalizeClientConfig cfg).
Proof.
  unfold normalizeClientConfig. simpl.
  destruct (Z.ltb_spec (ClientConfig.PingCount cfg) 1);
    unfold DefaultPingCount; lia.
Qed.

(** C5. [normalizeClientConfig] is a total function with no error result.
    For every configuration its output has: as base URL the input's (the
    default endpoint when the input's is empty) without its trailing slashes;
    each of duration <= 0, stream count < 1, chunk size < 1024, download
    size < 1, ping count < 1 and timeout <= 0 replaced by its default and any
    other value kept; hence every numeric field positive and a base URL that
    does not end in a slash. *)
Theorem normalizeClientConfig_defaults (cfg : ClientConfig.t) :
  let out := normalizeClientConfig cfg in
  (ClientConfig.BaseURL cfg = ""%string -> base_or_default cfg = DefaultClientBase)
  /\ (ClientConfig.BaseURL cfg <> ""%string ->
      base_or_default cfg = ClientConfig.BaseURL cfg)
  /\ (exists n,
        base_or_default cfg = (ClientConfig.BaseURL out ++ slashes n)%string)
  /\ last_char (ClientConfig.BaseURL out) <> Some "/"%char
  /\ ClientConfig.Duration out
     = (if ClientConfig.Duration cfg <=? 0 then DefaultDuration
        else ClientConfig.Duration cfg)
  /\ ClientConfig.Streams out
     = (if ClientConfig.Streams cfg <? 1 then DefaultStreams
        else ClientConfig.Streams cfg)
  /\ ClientConfig.ChunkSize out
     = (if ClientConfig.ChunkSize cfg <? 1024 then DefaultChunkSize
        else ClientConfig.ChunkSize cfg)
  /\ ClientConfig.DownloadMB out
     = (if ClientConfig.DownloadMB cfg <? 1 then DefaultDownloadMB
        else ClientConfig.DownloadMB cfg)
  /\ ClientConfig.PingCount out
     = (if ClientConfig.PingCount cfg <? 1 then DefaultPingCount
        else ClientConfig.PingCount cfg)
  /\ ClientConfig.Timeout out
     = (if ClientConfig.Timeout cfg <=? 0 then DefaultTimeout
        else ClientConfig.Timeout cfg)
  /\ 0 < ClientConfig.Duration out
  /\ 0 < ClientConfig.Streams out
  /\ 0 < ClientConfig.ChunkSize out
  /\ 0 < ClientConfig.DownloadMB out
  /\ 0 < ClientConfig.PingCount out
  /\ 0 < ClientConfig.Timeout out.
Proof.
  intros out. subst out. unfold normalizeClientConfig. simpl.
  fold (base_or_default cfg).
  repeat split.
  - intros H. unfold base_or_default. now rewrite H.
  - intros H. unfold base_or_default.
    destruct (String.eqb_spec (ClientConfig.BaseURL cfg) ""); congruence.
  - apply TrimRight_slash_decompose.
  - intros H. apply TrimRight_last in H. simpl in H. discriminate.
  - destruct (Z.leb_spec (ClientConfig.Duration cfg) 0);
      unfold DefaultDuration, Second; lia.
  - destruct (Z.ltb_spec (ClientConfig.Streams cfg) 1);
      unfold DefaultStreams; lia.
  - destruct (Z.ltb_spec (ClientConfig.ChunkSize cfg) 1024);
      unfold DefaultChunkSize; lia.
  - destruct (Z.ltb_spec (ClientConfig.DownloadMB cfg) 1);
      unfold DefaultDownloadMB; lia.
  - destruct (Z.ltb_spec (ClientConfig.PingCount cfg) 1);
      unfold DefaultPingCount; lia.
  - destruct (Z.leb_spec (ClientConfig.Timeout cfg) 0);
      unfold DefaultTimeout, Second; lia.
Qed.

(* ================================================================== *)
(** * Facts on float64 comparisons *)

Module Float64Facts.

Import Float64.

Lemma SFcompare_antisym (x y : spec_float) :
  SFcompare y x = option_map CompOpp (SFcompare x y).
Proof.
  destruct x as [sx|sx| |sx mx ex], y as [sy|sy| |sy my ey]; simpl;
    try reflexivity;
    try (destruct sx; reflexivity);
    try (destruct sy; reflexivity);
    try (destruct sx, sy; reflexivity).
  destruct sx, sy; simpl; try reflexivity;
    rewrite (Z.compare_antisym ex ey);
    destruct (ex ?= ey)%Z; simpl; try reflexivity;
    pose proof (Pos.compare_cont_antisym mx my Eq) as H; simpl in H;
    rewrite H; reflexivity.
Qed.

Lemma SFcompare_refl (x : spec_float) :
  x <> S754_nan -> SFcompare x x = Some Eq.
Proof.
  destruct x as [s|s| |s m e]; simpl; intros H; try congruence.
  - destruct s; reflexivity.
  - destruct s; rewrite Z.compare_refl, Pos.compare_cont_refl; reflexivity.
Qed.

Lemma SFcompare_some (x y : spec_float) :
  x <> S754_nan -> y <> S754_nan -> exists c, SFcompare x y = Some c.
Proof.
  destruct x as [sx|sx| |sx mx ex], y as [sy|sy| |sy my ey]; simpl;
    intros Hx Hy; try congruence; eauto.
Qed.

(** NaN is the one float that differs from itself. *)
Lemma is_nan_spec (x : float) :
  is_nan x = true <-> Prim2SF x = S754_nan.
Proof.
  unfold is_nan. rewrite eqb_spec. unfold SFeqb. split.
  - intros H. destruct (Prim2SF x) as [s|s| |s m e] eqn:E; auto;
      rewrite SFcompare_refl in H by congruence; discriminate.
  - intros ->. reflexivity.
Qed.

Lemma not_nan_spec (x : float) :
  is_nan x = false <-> Prim2SF x <> S754_nan.
Proof.
  rewrite <- is_nan_spec. destruct (is_nan x); split; congruence.
Qed.

(** On floats that are not NaN the order is total. *)
Lemma not_lt_le (x y : float) :
  is_nan x = false -> is_nan y = false ->
  lt y x = false -> le x y = true.
Proof.
  unfold lt, le. rewrite ltb_spec, leb_spec, !not_nan_spec.
  unfold SFltb, SFleb. intros Hx Hy.
  rewrite (SFcompare_antisym (Prim2SF x) (Prim2SF y)).
  destruct (SFcompare_some _ _ Hx Hy) as [c ->].
  destruct c; simpl; congruence.
Qed.

(** A comparison with NaN is false. *)
Lemma lt_nan_l (y : float) : lt nan y = false.
Proof. unfold lt. rewrite ltb_spec. reflexivity. Qed.

Lemma lt_nan_r (x : float) : lt x nan = false.
Proof.
  unfold lt. rewrite ltb_spec. unfold SFltb.
  rewrite SFcompare_antisym. reflexivity.
Qed.

Lemma le_lt_false (x y : float) : le x y = true -> lt y x = false.
Proof.
  unfold lt, le. rewrite ltb_spec, leb_spec. unfold SFltb, SFleb.
  rewrite (SFcompare_antisym (Prim2SF x) (Prim2SF y)).
  destruct (SFcompare (Prim2SF x) (Prim2SF y)) as [[| |]|]; simpl;
    congruence.
Qed.

Lemma lt_le_false (x y : float) : lt x y = true -> le y x = false.
Proof.
  unfold lt, le. rewrite ltb_spec, leb_spec. unfold SFltb, SFleb.
  rewrite (SFcompare_antisym (Prim2SF x) (Prim2SF y)).
  destruct (SFcompare (Prim2SF x) (Prim2SF y)) as [[| |]|]; simpl;
    congruence.
Qed.

(** No float is at most 0 and at least 1. *)
Lemma le_0_ge_1_false (p : float) : le p 0 = true -> ge p 1 = false.
Proof.
  unfold le, ge. rewrite !leb_spec. unfold SFleb.
  change (Prim2SF 0) with (S754_zero false).
  change (Prim2SF 1) with (S754_finite false 4503599627370496 (-52)).
  destruct (Prim2SF p) as [s|s| |s m e]; simpl; try congruence;
    destruct s; simpl; congruence.
Qed.

End Float64Facts.

(* ================================================================== *)
(** * Rounding in binary64

    The conversions [float64(i)] and the quotient and product behind a
    percent are rounded to nearest.  The lemmas below follow the rounding
    of the specification of binary64 ([binary_round_aux]) far enough to
    bound its results: a rounded value never exceeds a float that the
    exact value does not exceed. *)

Lemma digits2_pos_size (p : positive) : digits2_pos p = Pos.size p.
Proof. induction p; simpl; congruence. Qed.

Lemma digits_bounds (p : positive) :
  2 ^ (Z.pos (digits2_pos p) - 1) <= Z.pos p < 2 ^ Z.pos (digits2_pos p).
Proof.
  rewrite digits2_pos_size.
  pose proof (Pos.size_gt p) as Hgt. pose proof (Pos.size_le p) as Hle.
  apply Pos2Z.pos_lt_pos in Hgt. apply Pos2Z.pos_le_pos in Hle.
  rewrite Pos2Z.inj_pow in Hgt, Hle.
  change (Z.pos 2) with 2 in Hle. change (Z.pos p~0) with (2 * Z.pos p) in Hle.
  split; [|exact Hgt].
  assert (E : 2 ^ Z.pos (Pos.size p) = 2 * 2 ^ (Z.pos (Pos.size p) - 1)).
  { rewrite <- Z.pow_succ_r by lia. f_equal. lia. }
  lia.
Qed.

Lemma Zdigits2_bounds (m : Z) :
  0 < m -> 2 ^ (Zdigits2 m - 1) <= m < 2 ^ Zdigits2 m.
Proof. destruct m; try lia. intros _. apply digits_bounds. Qed.

Lemma Zdigits2_pos (m : Z) : 0 < m -> 0 < Zdigits2 m.
Proof. destruct m; simpl; lia. Qed.

Lemma Zdigits2_le_scaled (m c j : Z) :
  0 < m -> 0 < c -> 0 <= j -> m <= c * 2 ^ j ->
  Zdigits2 m <= Zdigits2 c + j.
Proof.
  intros Hm Hc Hj H.
  pose proof (Zdigits2_bounds m Hm) as [Hm1 _].
  pose proof (Zdigits2_bounds c Hc) as [_ Hc2].
  pose proof (Zdigits2_pos m Hm). pose proof (Zdigits2_pos c Hc).
  assert (Hlt : 2 ^ (Zdigits2 m - 1) < 2 ^ (Zdigits2 c + j)).
  { rewrite Z.pow_add_r by lia.
    assert (0 < 2 ^ j) by (apply Z.pow_pos_nonneg; lia). nia. }
  apply Z.pow_lt_mono_r_iff in Hlt; lia.
Qed.

Lemma Zdigits2_mono (a b : Z) : 0 < a <= b -> Zdigits2 a <= Zdigits2 b.
Proof.
  intros H.
  pose proof (Zdigits2_le_scaled a b 0 ltac:(lia) ltac:(lia) ltac:(lia)) as L.
  change (2 ^ 0) with 1 in L. lia.
Qed.

Lemma Zdigits2_unique (m n : Z) :
  0 < m -> 2 ^ (n - 1) <= m < 2 ^ n -> 0 < n -> Zdigits2 m = n.
Proof.
  intros Hm [H1 H2] Hn.
  pose proof (Zdigits2_bounds m Hm) as [B1 B2].
  pose proof (Zdigits2_pos m Hm) as Hd.
  assert (A : 2 ^ (n - 1) < 2 ^ Zdigits2 m) by lia.
  assert (B : 2 ^ (Zdigits2 m - 1) < 2 ^ n) by lia.
  apply Z.pow_lt_mono_r_iff in A; [|lia|lia].
  apply Z.pow_lt_mono_r_iff in B; lia.
Qed.

Lemma fexp64_eq (e : Z) : fexp64 e = Z.max (e - 53) (-1074).
Proof. reflexivity. Qed.

Lemma fexp64_mono (e1 e2 : Z) : e1 <= e2 -> fexp64 e1 <= fexp64 e2.
Proof. rewrite !fexp64_eq. lia. Qed.

(** ** One shift to the right, and many *)

Lemma shr_1_spec (mrs : shr_record) :
  0 <= shr_m mrs ->
  shr_m (shr_1 mrs) = shr_m mrs / 2
  /\ shr_r (shr_1 mrs) = Z.odd (shr_m mrs)
  /\ shr_s (shr_1 mrs) = shr_r mrs || shr_s mrs.
Proof.
  destruct mrs as [m r s]. simpl. intros Hm.
  rewrite <- Z.div2_div.
  destruct m as [|[p|p|]|p]; simpl; try lia; auto.
Qed.

Lemma shr_holds_shr_1 (N D : Z) (mrs : shr_record) :
  shr_holds N D mrs -> shr_holds N (2 * D) (shr_1 mrs).
Proof.
  intros (HD & HN & Hm & Hloc).
  assert (H0 : 0 <= shr_m mrs) by (rewrite Hm; apply Z.div_pos; lia).
  destruct (shr_1_spec mrs H0) as (E1 & E2 & E3).
  split; [lia|]. split; [lia|]. split.
  - rewrite E1, Hm. rewrite Z.div_div by lia. f_equal. lia.
  - assert (Hs : shr_r mrs || shr_s mrs = negb (N mod D =? 0)).
    { unfold loc_of in Hloc.
      destruct mrs as [m [|] [|]]; simpl in *;
        destruct (N mod D =? 0); simpl; congruence. }
    pose proof (Z.mod_pos_bound N D HD) as Hb.
    assert (Hmod : N mod (2 * D) = N mod D + D * ((N / D) mod 2)).
    { rewrite (Z.mul_comm 2 D). apply Z.rem_mul_r; lia. }
    assert (Hodd : (N / D) mod 2 = if Z.odd (N / D) then 1 else 0).
    { rewrite Zmod_odd. reflexivity. }
    unfold loc_of. rewrite Hmod, Hodd.
    destruct (shr_1 mrs) as [m' r' s']. simpl in E1, E2, E3. subst r' s'.
    rewrite Hs, Hm. simpl loc_of_shr_record.
    destruct (Z.odd (N / D)); destruct (Z.eqb_spec (N mod D) 0) as [E0|E0];
      simpl negb.
    + rewrite E0. replace (0 + D * 1 =? 0) with false
        by (symmetry; apply Z.eqb_neq; lia).
      replace (2 * (0 + D * 1) ?= 2 * D) with Eq
        by (symmetry; apply Z.compare_eq_iff; lia). reflexivity.
    + replace (N mod D + D * 1 =? 0) with false
        by (symmetry; apply Z.eqb_neq; lia).
      replace (2 * (N mod D + D * 1) ?= 2 * D) with Gt
        by (symmetry; apply Z.compare_gt_iff; lia). reflexivity.
    + rewrite E0. replace (0 + D * 0) with 0 by lia. reflexivity.
    + replace (N mod D + D * 0 =? 0) with false
        by (symmetry; apply Z.eqb_neq; lia).
      replace (2 * (N mod D + D * 0) ?= 2 * D) with Lt
        by (symmetry; apply Z.compare_lt_iff; lia). reflexivity.
Qed.

Lemma shr_holds_iter (N : Z) (p : positive) :
  forall (D : Z) (mrs : shr_record),
    shr_holds N D mrs ->
    shr_holds N (D * 2 ^ Z.pos p) (iter_pos shr_1 p mrs).
Proof.
  induction p as [p IH|p IH|]; intros D mrs H; simpl iter_pos.
  - apply shr_holds_shr_1 in H. apply IH in H. apply IH in H.
    replace (D * 2 ^ Z.pos p~1) with (2 * D * 2 ^ Z.pos p * 2 ^ Z.pos p);
      [exact H|].
    replace (Z.pos p~1) with (Z.pos p + Z.pos p + 1) by lia.
    rewrite !Z.pow_add_r by lia. change (2 ^ 1) with 2. ring.
  - apply IH in H. apply IH in H.
    replace (D * 2 ^ Z.pos p~0) with (D * 2 ^ Z.pos p * 2 ^ Z.pos p);
      [exact H|].
    replace (Z.pos p~0) with (Z.pos p + Z.pos p) by lia.
    rewrite !Z.pow_add_r by lia. ring.
  - apply shr_holds_shr_1 in H.
    replace (D * 2 ^ 1) with (2 * D) by lia. exact H.
Qed.

Lemma shr_record_of_loc_spec (m : Z) (l : location) :
  loc_of_shr_record (shr_record_of_loc m l) = l
  /\ shr_m (shr_record_of_loc m l) = m.
Proof. destruct l as [|[| |]]; simpl; auto. Qed.

Lemma shr_holds_of_loc (N D : Z) :
  0 < D -> 0 <= N ->
  shr_holds N D (shr_record_of_loc (N / D) (loc_of N D)).
Proof.
  intros HD HN. unfold shr_holds.
  destruct (shr_record_of_loc_spec (N / D) (loc_of N D)) as [H1 H2].
  auto.
Qed.

Lemma shr_fexp_spec (N D e : Z) :
  0 < D -> 0 <= N ->
  let '(mrs', e') := shr_fexp prec emax (N / D) e (loc_of N D) in
  e' = Z.max e (fexp64 (Zdigits2 (N / D) + e))
  /\ e <= e'
  /\ shr_holds N (D * 2 ^ (e' - e)) mrs'.
Proof.
  intros HD HN. pose proof (shr_holds_of_loc N D HD HN) as H.
  unfold shr_fexp, shr. fold (fexp64 (Zdigits2 (N / D) + e)).
  destruct (fexp64 (Zdigits2 (N / D) + e) - e) as [|p|p] eqn:E.
  - split; [lia|]. split; [lia|]. rewrite Z.sub_diag, Z.mul_1_r. exact H.
  - split; [lia|]. split; [lia|].
    replace (e + Z.pos p - e) with (Z.pos p) by lia.
    now apply shr_holds_iter.
  - split; [lia|]. split; [lia|]. rewrite Z.sub_diag, Z.mul_1_r. exact H.
Qed.

Lemma loc_of_1 (N : Z) : loc_of N 1 = loc_Exact.
Proof. unfold loc_of. now rewrite Z.mod_1_r. Qed.

Lemma loc_of_exact (N D : Z) : loc_of N D = loc_Exact -> N mod D = 0.
Proof.
  unfold loc_of. destruct (Z.eqb_spec (N mod D) 0); [auto|discriminate].
Qed.

(** ** Rounding to nearest *)

Lemma round_nearest_even_bounds (m : Z) (l : location) :
  (round_nearest_even m l = m \/ round_nearest_even m l = m + 1)
  /\ (round_nearest_even m l <> m -> l <> loc_Exact).
Proof.
  destruct l as [|[| |]]; simpl.
  - split; [now left|]. congruence.
  - destruct (Z.even m); (split; [auto|]); intros _; discriminate.
  - split; [now left|]. congruence.
  - split; [now right|]. intros _. discriminate.
Qed.

Lemma rne_range (z k : Z) : z / 2 ^ k <= rne z k <= z / 2 ^ k + 1.
Proof.
  unfold rne.
  destruct (round_nearest_even_bounds (z / 2 ^ k) (loc_of z (2 ^ k)))
    as [[->| ->] _]; lia.
Qed.

Lemma rne_0 (z : Z) : rne z 0 = z.
Proof.
  unfold rne. change (2 ^ 0) with 1. rewrite loc_of_1, Z.div_1_r.
  reflexivity.
Qed.

Lemma rne_mono (a b k : Z) :
  0 <= k -> 0 <= a <= b -> rne a k <= rne b k.
Proof.
  intros Hk Hab.
  assert (HP : 0 < 2 ^ k) by (apply Z.pow_pos_nonneg; lia).
  pose proof (rne_range a k) as Ha. pose proof (rne_range b k) as Hb.
  pose proof (Z.div_le_mono a b (2 ^ k) HP ltac:(lia)) as Hh.
  destruct (Z.eq_dec (a / 2 ^ k) (b / 2 ^ k)) as [E|E]; [|lia].
  pose proof (Z.div_mod a (2 ^ k) ltac:(lia)) as Hda.
  pose proof (Z.div_mod b (2 ^ k) ltac:(lia)) as Hdb.
  pose proof (Z.mod_pos_bound a (2 ^ k) HP) as Hma.
  pose proof (Z.mod_pos_bound b (2 ^ k) HP) as Hmb.
  assert (Hl : a mod 2 ^ k <= b mod 2 ^ k) by nia.
  unfold rne, loc_of, round_nearest_even in *. rewrite <- E in *.
  destruct (Z.eqb_spec (a mod 2 ^ k) 0) as [Ea|Ea];
    destruct (Z.eqb_spec (b mod 2 ^ k) 0) as [Eb|Eb]; try lia.
  destruct (Z.compare_spec (2 * (a mod 2 ^ k)) (2 ^ k)) as [Ca|Ca|Ca];
    destruct (Z.compare_spec (2 * (b mod 2 ^ k)) (2 ^ k)) as [Cb|Cb|Cb];
    try lia; destruct (Z.even (a / 2 ^ k)); lia.
Qed.

(** ** A rounded value does not pass a float above the exact value *)

Lemma valid_canonical (s : bool) (mc : positive) (ec : Z) :
  valid_binary (S754_finite s mc ec) = true -> canonical64 mc ec.
Proof.
  simpl. unfold bounded, canonical_mantissa. intros H.
  apply andb_prop in H. destruct H as [H1 H2].
  apply Z.eqb_eq in H1. apply Z.leb_le in H2. split; assumption.
Qed.

Lemma exponent_bound (m e : Z) (mc : positive) (ec : Z) :
  canonical64 mc ec -> 0 <= m -> e <= ec ->
  m <= Z.pos mc * 2 ^ (ec - e) ->
  Z.max e (fexp64 (Zdigits2 m + e)) <= ec.
Proof.
  intros [Hc _] Hm He Hle.
  apply Z.max_lub; [exact He|].
  rewrite <- Hc. apply fexp64_mono.
  destruct (Z.eq_dec m 0) as [->|Hnz].
  - change (Zdigits2 0) with 0. lia.
  - pose proof (Zdigits2_le_scaled m (Z.pos mc) (ec - e)
                  ltac:(lia) ltac:(lia) ltac:(lia) Hle) as H.
    change (Zdigits2 (Z.pos mc)) with (Z.pos (digits2_pos mc)) in H. lia.
Qed.

(** The exact value is [N / D * 2^ex]; it is at most [mc * 2^ec]. *)
Lemma round_aux_at_most (N D ex : Z) (mc : positive) (ec : Z) :
  0 < D -> 0 <= N ->
  canonical64 mc ec ->
  ex <= ec ->
  N <= Z.pos mc * 2 ^ (ec - ex) * D ->
  at_most (binary_round_aux prec emax false (N / D) ex (loc_of N D)) mc ec.
Proof.
  intros HD HN Hc Hex Hle. unfold binary_round_aux.
  pose proof (shr_fexp_spec N D ex HD HN) as H1.
  destruct (shr_fexp prec emax (N / D) ex (loc_of N D)) as [mrs' e1].
  destruct H1 as (He1 & Hee1 & (HD1 & _ & Hm & Hloc)).
  assert (Hq0 : 0 <= N / D) by (apply Z.div_pos; lia).
  assert (Hqle : N / D <= Z.pos mc * 2 ^ (ec - ex)).
  { apply Z.div_le_upper_bound; [lia|]. lia. }
  assert (He1c : e1 <= ec).
  { rewrite He1. apply (exponent_bound (N / D) ex mc ec); auto. }
  set (D1 := D * 2 ^ (e1 - ex)) in *.
  set (C1 := Z.pos mc * 2 ^ (ec - e1)).
  assert (HC1 : Z.pos mc * 2 ^ (ec - ex) * D = C1 * D1).
  { unfold C1, D1. replace (ec - ex) with ((ec - e1) + (e1 - ex)) by lia.
    rewrite Z.pow_add_r by lia. ring. }
  assert (Hm0 : 0 <= shr_m mrs') by (rewrite Hm; apply Z.div_pos; lia).
  assert (HmC : shr_m mrs' <= C1).
  { rewrite Hm. apply Z.div_le_upper_bound; [lia|]. lia. }
  pose proof (round_nearest_even_bounds (shr_m mrs')
                (loc_of_shr_record mrs')) as [Hr1 Hr2].
  set (rounded := round_nearest_even (shr_m mrs') (loc_of_shr_record mrs'))
    in *.
  assert (Hrounded : 0 <= rounded <= C1).
  { destruct Hr1 as [->|E]; [lia|].
    split; [lia|].
    assert (Hne : N mod D1 <> 0).
    { intros H0. apply Hr2; [lia|]. rewrite Hloc. unfold loc_of.
      now rewrite H0. }
    pose proof (Z.div_mod N D1 ltac:(lia)) as Hdm.
    pose proof (Z.mod_pos_bound N D1 HD1) as Hb.
    rewrite <- Hm in Hdm.
    assert (shr_m mrs' * D1 < C1 * D1) by nia.
    assert (shr_m mrs' < C1) by nia. lia. }
  pose proof (shr_fexp_spec rounded 1 e1 ltac:(lia) ltac:(lia)) as H2.
  rewrite loc_of_1, Z.div_1_r in H2.
  destruct (shr_fexp prec emax rounded e1 loc_Exact) as [mrs'' e2].
  destruct H2 as (He2 & Hee2 & (HD2 & _ & Hm2 & _)).
  assert (He2c : e2 <= ec).
  { rewrite He2. apply (exponent_bound rounded e1 mc ec); auto; lia. }
  rewrite Z.mul_1_l in Hm2, HD2.
  assert (Hm2C : shr_m mrs'' <= Z.pos mc * 2 ^ (ec - e2)).
  { rewrite Hm2. apply Z.div_le_upper_bound; [lia|].
    replace (2 ^ (e2 - e1) * (Z.pos mc * 2 ^ (ec - e2)))
      with C1; [lia|].
    unfold C1. replace (ec - e1) with ((e2 - e1) + (ec - e2)) by lia.
    rewrite Z.pow_add_r by lia. ring. }
  assert (Hm20 : 0 <= shr_m mrs'') by (rewrite Hm2; apply Z.div_pos; lia).
  destruct (shr_m mrs'') as [|m2|m2]; [now left| |lia].
  right. destruct Hc as [Hc1 Hc2].
  destruct (Z.leb_spec e2 (emax - prec)); [|lia].
  exists m2, e2. auto.
Qed.

Lemma at_most_not_gt (r : spec_float) (mc : positive) (ec : Z) :
  at_most r mc ec -> SFltb (S754_finite false mc ec) r = false.
Proof.
  intros [->|(m & e & -> & He & Hm)]; [reflexivity|].
  unfold SFltb, SFcompare.
  destruct (Z.compare_spec ec e) as [E|E|E]; try lia.
  subst e. rewrite Z.sub_diag, Z.mul_1_r in Hm.
  change (PosDef.Pos.compare_cont Eq mc m) with (Pos.compare mc m).
  destruct (Pos.compare_spec mc m) as [E|E|E]; try reflexivity. lia.
Qed.

Lemma at_most_not_neg (r : spec_float) (mc : positive) (ec : Z) :
  at_most r mc ec -> SFltb r (S754_zero false) = false.
Proof.
  intros [->|(m & e & -> & He & Hm)]; reflexivity.
Qed.

(** ** The product by 100 and the quotient of two floats *)

Lemma canonical_100 : canonical64 mantissa_100 (-46).
Proof. split; vm_compute; [reflexivity|discriminate]. Qed.

Lemma canonical_1 : canonical64 mantissa_1 (-52).
Proof. split; vm_compute; [reflexivity|discriminate]. Qed.

Lemma SFmul_100_at_most (q : spec_float) :
  at_most q mantissa_1 (-52) ->
  at_most (SFmul prec emax q (S754_finite false mantissa_100 (-46)))
    mantissa_100 (-46).
Proof.
  intros [->|(m & e & -> & He & Hm)]; [now left|].
  unfold SFmul. simpl xorb.
  pose proof (round_aux_at_most (Z.pos (m * mantissa_100)) 1 (e + -46)
                mantissa_100 (-46)) as H.
  rewrite loc_of_1, Z.div_1_r in H. apply H; try lia.
  - apply canonical_100.
  - rewrite Z.mul_1_r. rewrite Pos2Z.inj_mul.
    replace (-46 - (e + -46)) with (- e) by lia.
    change (Z.pos mantissa_1) with (2 ^ 52) in Hm.
    rewrite <- Z.pow_add_r in Hm by lia.
    replace (52 + (-52 - e)) with (- e) in Hm by lia.
    nia.
Qed.

Lemma new_location_loc_of (N D : Z) :
  0 < D -> new_location D (N mod D) = loc_of N D.
Proof.
  intros HD. pose proof (Z.mod_pos_bound N D HD) as Hb.
  unfold new_location, new_location_even, new_location_odd, loc_of.
  remember (N mod D) as k eqn:Ek. clear Ek.
  destruct k as [|k|k]; [destruct (Z.even D); reflexivity| |lia].
  cbn [Z.eqb].
  destruct (Z.even D) eqn:Ev; [reflexivity|]. cbn [Z.eqb]. f_equal.
  assert (Hodd : Z.odd D = true) by (rewrite <- Z.negb_even, Ev; reflexivity).
  apply Z.odd_spec in Hodd. destruct Hodd as [t Ht].
  change (IntDef.Z.compare (IntDef.Z.add (IntDef.Z.mul 2 (Z.pos k)) 1) D)
    with (2 * Z.pos k + 1 ?= D).
  destruct (Z.compare_spec (2 * Z.pos k + 1) D) as [C|C|C];
    symmetry; [apply Z.compare_lt_iff|apply Z.compare_lt_iff
              |apply Z.compare_gt_iff]; lia.
Qed.

Lemma val_le_digits (mx : positive) (ex : Z) (my : positive) (ey : Z) :
  val_le mx ex my ey ->
  Z.pos (digits2_pos mx) + ex <= Z.pos (digits2_pos my) + ey.
Proof.
  unfold val_le. intros H.
  pose proof (digits_bounds mx) as [Hx1 Hx2].
  pose proof (digits_bounds my) as [Hy1 Hy2].
  set (dx := Z.pos (digits2_pos mx)) in *.
  set (dy := Z.pos (digits2_pos my)) in *.
  assert (0 < dx) by (unfold dx; lia). assert (0 < dy) by (unfold dy; lia).
  destruct (Z.le_ge_cases ex ey) as [Hle|Hge].
  - rewrite Z.min_l in H by lia. rewrite Z.sub_diag, Z.mul_1_r in H.
    assert (Hlt : 2 ^ (dx - 1) < 2 ^ (dy + (ey - ex))).
    { rewrite Z.pow_add_r by lia.
      assert (0 < 2 ^ (ey - ex)) by (apply Z.pow_pos_nonneg; lia). nia. }
    apply Z.pow_lt_mono_r_iff in Hlt; lia.
  - rewrite Z.min_r in H by lia. rewrite Z.sub_diag, Z.mul_1_r in H.
    assert (Hlt : 2 ^ (dx - 1 + (ex - ey)) < 2 ^ dy).
    { rewrite Z.pow_add_r by lia.
      assert (0 < 2 ^ (ex - ey)) by (apply Z.pow_pos_nonneg; lia). nia. }
    apply Z.pow_lt_mono_r_iff in Hlt; lia.
Qed.

(** The quotient of a positive float by one that is not below it is at
    most 1. *)
Lemma SFdiv_at_most_1 (mx : positive) (ex : Z) (my : positive) (ey : Z) :
  val_le mx ex my ey ->
  at_most (SFdiv prec emax (S754_finite false mx ex)
             (S754_finite false my ey))
    mantissa_1 (-52).
Proof.
  intros Hle. pose proof (val_le_digits _ _ _ _ Hle) as Hd.
  unfold SFdiv, SFdiv_core_binary. simpl xorb.
  change (Zdigits2 (Z.pos mx)) with (Z.pos (digits2_pos mx)).
  change (Zdigits2 (Z.pos my)) with (Z.pos (digits2_pos my)).
  set (dx := Z.pos (digits2_pos mx)) in *.
  set (dy := Z.pos (digits2_pos my)) in *.
  fold (fexp64 (dx + ex - (dy + ey))).
  set (e' := Z.min (fexp64 (dx + ex - (dy + ey))) (ex - ey)).
  assert (He' : e' <= -53).
  { unfold e'. rewrite fexp64_eq. lia. }
  assert (Hs : 0 <= ex - ey - e') by (unfold e'; lia).
  set (m' := match ex - ey - e' with
             | 0 => Z.pos mx
             | Z.pos _ => Z.shiftl (Z.pos mx) (ex - ey - e')
             | Z.neg _ => 0
             end).
  assert (Hm' : m' = Z.pos mx * 2 ^ (ex - ey - e')).
  { unfold m'. destruct (ex - ey - e') as [|p|p] eqn:E.
    - lia.
    - rewrite Z.shiftl_mul_pow2 by lia. reflexivity.
    - lia. }
  assert (Hq : fst (Z.div_eucl m' (Z.pos my)) = m' / Z.pos my)
    by reflexivity.
  assert (Hr : snd (Z.div_eucl m' (Z.pos my)) = m' mod Z.pos my)
    by reflexivity.
  destruct (Z.div_eucl m' (Z.pos my)) as [q r]. simpl in Hq, Hr.
  subst q r. rewrite new_location_loc_of by lia.
  apply round_aux_at_most; try lia.
  - apply canonical_1.
  - rewrite Hm'. change (Z.pos mantissa_1) with (2 ^ 52).
    rewrite <- Z.pow_add_r by lia.
    replace (52 + (-52 - e')) with (- e') by lia.
    unfold val_le in Hle.
    destruct (Z.le_ge_cases ex ey) as [Hc|Hc].
    + rewrite Z.min_l in Hle by lia. rewrite Z.sub_diag, Z.mul_1_r in Hle.
      replace (- e') with ((ex - ey - e') + (ey - ex)) by lia.
      rewrite Z.pow_add_r by lia.
      assert (0 < 2 ^ (ex - ey - e')) by (apply Z.pow_pos_nonneg; lia).
      nia.
    + rewrite Z.min_r in Hle by lia. rewrite Z.sub_diag, Z.mul_1_r in Hle.
      replace (ex - ey - e') with ((ex - ey) + - e') by lia.
      rewrite Z.pow_add_r by lia.
      assert (0 < 2 ^ (- e')) by (apply Z.pow_pos_nonneg; lia).
      nia.
Qed.

(** ** The conversion of an int *)

Lemma iter_xO_value (p j : positive) :
  Z.pos (Pos.iter xO p j) = Z.pos p * 2 ^ Z.pos j.
Proof.
  induction j as [|j IH] using Pos.peano_ind.
  - simpl. lia.
  - rewrite Pos.iter_succ, Pos2Z.inj_xO, IH, Pos2Z.inj_succ.
    rewrite Z.pow_succ_r by lia. ring.
Qed.

(** A float that is canonical already is rounded to itself. *)
Lemma round_aux_canonical (m : positive) (e : Z) :
  canonical64 m e ->
  binary_round_aux prec emax false (Z.pos m) e loc_Exact
  = S754_finite false m e.
Proof.
  intros [Hc Hb]. unfold binary_round_aux, shr_fexp.
  change (Zdigits2 (Z.pos m)) with (Z.pos (digits2_pos m)).
  fold (fexp64 (Z.pos (digits2_pos m) + e)). rewrite Hc, Z.sub_diag.
  simpl shr. cbv beta iota zeta. simpl shr_m. simpl loc_of_shr_record.
  simpl round_nearest_even.
  change (Zdigits2 (Z.pos m)) with (Z.pos (digits2_pos m)).
  fold (fexp64 (Z.pos (digits2_pos m) + e)). rewrite Hc, Z.sub_diag.
  simpl. change (emax - prec) with 971 in Hb.
  apply Z.leb_le in Hb. now rewrite Hb.
Qed.

(** The float of a positive int below 2^63 is finite and positive, of
    value the int rounded to 53 bits. *)
Lemma binary_round_int (p : positive) :
  Z.pos p < 2 ^ 63 ->
  exists m e,
    binary_round prec emax false p 0 = S754_finite false m e
    /\ -52 <= e
    /\ Z.pos m * 2 ^ (e + 52) = int_value (Z.pos p) * 2 ^ 52.
Proof.
  intros Hp. unfold binary_round, int_value, int_shift.
  change (Zdigits2 (Z.pos p)) with (Z.pos (digits2_pos p)).
  pose proof (digits_bounds p) as [Hd1 Hd2].
  set (d := Z.pos (digits2_pos p)) in *.
  assert (Hd0 : 0 < d) by (unfold d; lia).
  assert (Hd63 : d <= 63).
  { assert (A : 2 ^ (d - 1) < 2 ^ 63) by lia.
    apply Z.pow_lt_mono_r_iff in A; lia. }
  rewrite Z.add_0_r. fold (fexp64 d). rewrite fexp64_eq.
  destruct (Z.le_gt_cases d 53) as [Hsmall|Hbig].
  - (* at most 53 bits: the conversion is exact *)
    rewrite Z.max_l by lia. rewrite Z.max_l by lia. rewrite rne_0.
    unfold shl_align. rewrite Z.sub_0_r.
    destruct (d - 53) as [|j|j] eqn:Ej; try lia.
    + exists p, 0. split.
      * apply round_aux_canonical. split; [|vm_compute; discriminate].
        fold d. rewrite fexp64_eq. lia.
      * split; [lia|]. change (2 ^ 0) with 1. lia.
    + exists (Pos.iter xO p j), (Z.neg j). split.
      * apply round_aux_canonical. split; [|unfold emax, prec; lia].
        assert (Hv := iter_xO_value p j).
        assert (Hdig : Zdigits2 (Z.pos (Pos.iter xO p j)) = 53).
        { apply Zdigits2_unique; try lia. rewrite Hv.
          assert (E1 : 2 ^ (53 - 1) = 2 ^ (d - 1) * 2 ^ Z.pos j).
          { rewrite <- Z.pow_add_r by lia. f_equal. lia. }
          assert (E2 : 2 ^ 53 = 2 ^ d * 2 ^ Z.pos j).
          { rewrite <- Z.pow_add_r by lia. f_equal. lia. }
          assert (0 < 2 ^ Z.pos j) by (apply Z.pow_pos_nonneg; lia).
          rewrite E1, E2. nia. }
        change (Zdigits2 (Z.pos (Pos.iter xO p j)))
          with (Z.pos (digits2_pos (Pos.iter xO p j))) in Hdig.
        rewrite Hdig, fexp64_eq. lia.
      * split; [lia|]. rewrite iter_xO_value.
        change (2 ^ 0) with 1. rewrite Z.mul_1_r.
        rewrite <- Z.mul_assoc, <- Z.pow_add_r by lia.
        f_equal. f_equal. lia.
  - (* more than 53 bits: the low bits are rounded off *)
    rewrite Z.max_l by lia. rewrite Z.max_r by lia.
    unfold shl_align. rewrite Z.sub_0_r.
    destruct (d - 53) as [|k|k] eqn:Ek; try lia.
    unfold binary_round_aux.
    pose proof (shr_holds_iter (Z.pos p) k 1
                  (shr_record_of_loc (Z.pos p) loc_Exact)) as HS.
    assert (H1 : shr_fexp prec emax (Z.pos p) 0 loc_Exact
                 = (iter_pos shr_1 k (shr_record_of_loc (Z.pos p) loc_Exact),
                    Z.pos k)).
    { unfold shr_fexp. change (Zdigits2 (Z.pos p)) with d.
      rewrite Z.add_0_r. fold (fexp64 d). rewrite fexp64_eq.
      rewrite Z.max_l by lia. rewrite Z.sub_0_r, Ek. reflexivity. }
    rewrite H1. clear H1.
    destruct HS as (_ & _ & Hm & Hloc).
    { pose proof (shr_holds_of_loc (Z.pos p) 1 ltac:(lia) ltac:(lia)) as H.
      now rewrite loc_of_1, Z.div_1_r in H. }
    rewrite Z.mul_1_l in Hm, Hloc.
    rewrite Hm, Hloc. fold (rne (Z.pos p) (Z.pos k)).
    pose proof (rne_range (Z.pos p) (Z.pos k)) as Hr.
    set (rounded := rne (Z.pos p) (Z.pos k)) in *.
    assert (HP : 0 < 2 ^ Z.pos k) by (apply Z.pow_pos_nonneg; lia).
    assert (Hh : 2 ^ 52 <= Z.pos p / 2 ^ Z.pos k < 2 ^ 53).
    { assert (E1 : 2 ^ (d - 1) = 2 ^ 52 * 2 ^ Z.pos k).
      { rewrite <- Z.pow_add_r by lia. f_equal. lia. }
      assert (E2 : 2 ^ d = 2 ^ 53 * 2 ^ Z.pos k).
      { rewrite <- Z.pow_add_r by lia. f_equal. lia. }
      split.
      - apply Z.div_le_lower_bound; lia.
      - apply Z.div_lt_upper_bound; lia. }
    destruct (Z.eq_dec rounded (2 ^ 53)) as [Ecarry|Encarry].
    + rewrite Ecarry.
      exists (2 ^ 52)%positive, (Z.pos k + 1). split.
      * unfold shr_fexp.
        change (Zdigits2 (2 ^ 53)) with 54.
        fold (fexp64 (54 + Z.pos k)). rewrite fexp64_eq.
        replace (Z.max (54 + Z.pos k - 53) (-1074) - Z.pos k) with 1 by lia.
        simpl.
        destruct (Z.leb_spec (Z.pos (k + 1)) 971); [reflexivity|lia].
      * split; [lia|].
        replace (Z.pos k + 1 + 52) with (Z.pos k + 53) by lia.
        rewrite Z.pow_add_r by lia.
        generalize (2 ^ Z.pos k). intros P.
        change (Z.pos (2 ^ 52)) with 4503599627370496.
        change (2 ^ 53) with 9007199254740992.
        change (2 ^ 52) with 4503599627370496. lia.
    + assert (Hrounded : 2 ^ 52 <= rounded < 2 ^ 53) by lia.
      destruct rounded as [|m|m] eqn:Em; try lia.
      exists m, (Z.pos k). split.
      * unfold shr_fexp.
        rewrite (Zdigits2_unique (Z.pos m) 53) by lia.
        fold (fexp64 (53 + Z.pos k)). rewrite fexp64_eq.
        replace (Z.max (53 + Z.pos k - 53) (-1074) - Z.pos k) with 0 by lia.
        simpl.
        destruct (Z.leb_spec (Z.pos k) 971); [reflexivity|lia].
      * split; [lia|].
        rewrite <- Z.mul_assoc, <- Z.pow_add_r by lia. reflexivity.
Qed.

Lemma int_value_mono (a b : Z) :
  0 < a <= b -> int_value a <= int_value b.
Proof.
  intros Hab. unfold int_value, int_shift.
  pose proof (Zdigits2_mono a b Hab) as Hd.
  pose proof (Zdigits2_bounds a ltac:(lia)) as [Ha1 Ha2].
  pose proof (Zdigits2_bounds b ltac:(lia)) as [Hb1 Hb2].
  set (da := Zdigits2 a) in *. set (db := Zdigits2 b) in *.
  set (ka := Z.max 0 (da - 53)). set (kb := Z.max 0 (db - 53)).
  assert (Hka : 0 <= ka) by (unfold ka; lia).
  assert (Hkb : 0 <= kb) by (unfold kb; lia).
  assert (HPa : 0 < 2 ^ ka) by (apply Z.pow_pos_nonneg; lia).
  assert (HPb : 0 < 2 ^ kb) by (apply Z.pow_pos_nonneg; lia).
  destruct (Z.eq_dec ka kb) as [E|E].
  - rewrite <- E. pose proof (rne_mono a b ka Hka ltac:(lia)). nia.
  - assert (Hlt : ka + 1 <= kb) by (unfold ka, kb in *; lia).
    pose proof (rne_range a ka) as Hra. pose proof (rne_range b kb) as Hrb.
    assert (Hha : a / 2 ^ ka < 2 ^ 53).
    { apply Z.div_lt_upper_bound; [lia|].
      rewrite <- Z.pow_add_r by lia.
      assert (2 ^ da <= 2 ^ (ka + 53))
        by (apply Z.pow_le_mono_r; unfold ka; lia).
      lia. }
    assert (Hhb : 2 ^ 52 <= b / 2 ^ kb).
    { apply Z.div_le_lower_bound; [lia|].
      rewrite <- Z.pow_add_r by lia.
      assert (2 ^ (kb + 52) <= 2 ^ (db - 1))
        by (apply Z.pow_le_mono_r; unfold kb; unfold ka, kb in Hlt; lia).
      lia. }
    assert (H1 : rne a ka * 2 ^ ka <= 2 ^ 53 * 2 ^ ka) by nia.
    assert (H2 : 2 ^ 52 * 2 ^ kb <= rne b kb * 2 ^ kb) by nia.
    assert (H3 : 2 ^ 53 * 2 ^ ka <= 2 ^ 52 * 2 ^ kb).
    { rewrite <- !Z.pow_add_r by lia. apply Z.pow_le_mono_r; lia. }
    lia.
Qed.

Lemma val_le_scaled (mx : positive) (ex : Z) (my : positive) (ey : Z) :
  -52 <= ex -> -52 <= ey ->
  Z.pos mx * 2 ^ (ex + 52) <= Z.pos my * 2 ^ (ey + 52) ->
  val_le mx ex my ey.
Proof.
  intros Hx Hy H. unfold val_le.
  set (mn := Z.min ex ey).
  replace (ex + 52) with ((ex - mn) + (mn + 52)) in H by lia.
  replace (ey + 52) with ((ey - mn) + (mn + 52)) in H by lia.
  rewrite (Z.pow_add_r 2 (ex - mn) (mn + 52)) in H by (unfold mn; lia).
  rewrite (Z.pow_add_r 2 (ey - mn) (mn + 52)) in H by (unfold mn; lia).
  assert (HP : 0 < 2 ^ (mn + 52))
    by (apply Z.pow_pos_nonneg; unfold mn; lia).
  apply (Z.mul_le_mono_pos_r _ _ (2 ^ (mn + 52)) HP).
  rewrite <- !Z.mul_assoc. exact H.
Qed.

Lemma of_int_nonneg_SF (z : Z) :
  0 <= z <= max_int ->
  Prim2SF (Float64.of_int z) = binary_normalize prec emax z 0 false.
Proof.
  intros H. unfold Float64.of_int. destruct (Z.leb_spec 0 z); [|lia].
  rewrite of_uint63_spec, Uint63.of_Z_spec.
  rewrite Z.mod_small; [reflexivity|]. unfold max_int in H.
  change Uint63.wB with (2 ^ 63). lia.
Qed.

Lemma binary_round_opp (m : positive) (e : Z) :
  SFopp (binary_round prec emax false m e) = binary_round prec emax true m e.
Proof.
  unfold binary_round. destruct (shl_align m e _) as [mz ez].
  unfold binary_round_aux.
  destruct (shr_fexp prec emax (Z.pos mz) ez loc_Exact) as [mrs e'].
  destruct (shr_fexp prec emax _ e' loc_Exact) as [mrs' e''].
  destruct (shr_m mrs'); try reflexivity.
  destruct (e'' <=? emax - prec); reflexivity.
Qed.

(** [Float64.of_int] is the conversion of the language on every int64: the
    integer rounded to the nearest binary64, ties to even. *)
Lemma of_int_SF (z : Z) :
  in_range z ->
  Prim2SF (Float64.of_int z) = binary_normalize prec emax z 0 false.
Proof.
  intros H. unfold in_range, min_int, max_int in H.
  destruct (Z.leb_spec 0 z) as [Hz|Hz].
  - apply of_int_nonneg_SF. unfold max_int. lia.
  - unfold Float64.of_int. destruct (Z.leb_spec 0 z); [lia|].
    destruct (Z.eqb_spec z min_int) as [->|Hne].
    + vm_compute. reflexivity.
    + rewrite opp_spec, of_uint63_spec, Uint63.of_Z_spec.
      rewrite Z.mod_small
        by (change Uint63.wB with (2 ^ 63); unfold min_int in Hne; lia).
      destruct z as [|p|p]; try lia. cbn [Z.opp binary_normalize].
      apply binary_round_opp.
Qed.

Lemma of_int_pos_spec (z : Z) :
  1 <= z <= max_int ->
  exists m e,
    Prim2SF (Float64.of_int z) = S754_finite false m e
    /\ -52 <= e
    /\ Z.pos m * 2 ^ (e + 52) = int_value z * 2 ^ 52.
Proof.
  intros Hz. rewrite of_int_nonneg_SF by lia.
  destruct z as [|p|p]; try lia.
  apply binary_round_int. unfold max_int in Hz. lia.
Qed.

(** The float of a non-negative int is not below 0. *)
Lemma of_int_nonneg_not_lt_0 (z : Z) :
  0 <= z <= max_int -> Float64.lt (Float64.of_int z) 0 = false.
Proof.
  intros Hz. unfold Float64.lt. rewrite ltb_spec.
  destruct (Z.eq_dec z 0) as [->|Hnz]; [reflexivity|].
  destruct (of_int_pos_spec z ltac:(lia)) as (m & e & -> & _).
  reflexivity.
Qed.

(** For ints 1 <= a <= b the float64 value a / b * 100 is within
    [0, 100]. *)
Lemma ratio_percent_in_range (a b : Z) :
  1 <= a <= b -> b <= max_int ->
  let r := (Float64.of_int a / Float64.of_int b * 100)%float in
  Float64.lt r 0 = false /\ Float64.gt r 100 = false.
Proof.
  intros Hab Hb r.
  destruct (of_int_pos_spec a ltac:(lia)) as (mx & ex & Ex & Hex & Vx).
  destruct (of_int_pos_spec b ltac:(lia)) as (my & ey & Ey & Hey & Vy).
  pose proof (int_value_mono a b ltac:(lia)) as Hv.
  assert (Hle : val_le mx ex my ey).
  { apply val_le_scaled; lia. }
  pose proof (SFdiv_at_most_1 mx ex my ey Hle) as Hq.
  rewrite <- Ex, <- Ey in Hq.
  apply SFmul_100_at_most in Hq.
  assert (Hr : Prim2SF r
               = SFmul prec emax
                   (SFdiv prec emax (Prim2SF (Float64.of_int a))
                      (Prim2SF (Float64.of_int b)))
                   (S754_finite false mantissa_100 (-46))).
  { unfold r. rewrite mul_spec, div_spec. reflexivity. }
  unfold Float64.lt, Float64.gt. rewrite !ltb_spec, Hr. split.
  - exact (at_most_not_neg _ _ _ Hq).
  - exact (at_most_not_gt _ _ _ Hq).
Qed.

(** ** Results that are numbers

    The quotient, the product and the sum of the specification return NaN
    only on the operands the standard names: a NaN, 0/0, two infinities in a
    quotient, 0 times an infinity, and two infinities of opposite signs in
    a sum. *)

Lemma iter_shr_1_nonneg (p : positive) :
  forall mrs, 0 <= shr_m mrs -> 0 <= shr_m (iter_pos shr_1 p mrs).
Proof.
  induction p as [p IH|p IH|]; intros mrs H; simpl.
  - apply IH, IH. destruct (shr_1_spec mrs H) as [-> _].
    apply Z.div_pos; lia.
  - apply IH, IH. exact H.
  - destruct (shr_1_spec mrs H) as [-> _]. apply Z.div_pos; lia.
Qed.

Lemma shr_fexp_nonneg (m e : Z) (l : location) :
  0 <= m -> 0 <= shr_m (fst (shr_fexp prec emax m e l)).
Proof.
  intros H. unfold shr_fexp, shr.
  pose proof (shr_record_of_loc_spec m l) as [_ Hm].
  destruct (fexp prec emax (Zdigits2 m + e) - e) as [|p|p]; simpl;
    try (rewrite Hm; exact H).
  apply iter_shr_1_nonneg. rewrite Hm. exact H.
Qed.

Lemma round_nearest_even_nonneg (m : Z) (l : location) :
  0 <= m -> 0 <= round_nearest_even m l.
Proof.
  intros H. destruct (round_nearest_even_bounds m l) as [[-> | ->] _]; lia.
Qed.

Lemma binary_round_aux_not_nan (s : bool) (m e : Z) (l : location) :
  0 <= m -> binary_round_aux prec emax s m e l <> S754_nan.
Proof.
  intros H. unfold binary_round_aux.
  pose proof (shr_fexp_nonneg m e l H) as H1.
  destruct (shr_fexp prec emax m e l) as [mrs e']. simpl in H1.
  pose proof (shr_fexp_nonneg _ e' loc_Exact
                (round_nearest_even_nonneg _ (loc_of_shr_record mrs) H1)) as H2.
  destruct (shr_fexp prec emax _ e' loc_Exact) as [mrs' e'']. simpl in H2.
  destruct (shr_m mrs') as [|p|p]; try discriminate; [|lia].
  destruct (e'' <=? emax - prec); discriminate.
Qed.

Lemma SFmul_not_nan (x y : spec_float) :
  x <> S754_nan -> SF_nonzero y -> SFmul prec emax x y <> S754_nan.
Proof.
  intros Hx Hy. destruct y as [| | |sy my ey]; try contradiction.
  destruct x as [sx|sx| |sx mx ex]; try discriminate; try congruence.
  simpl. apply binary_round_aux_not_nan. lia.
Qed.

Lemma SFdiv_core_nonneg (m1 : positive) (e1 : Z) (m2 : positive) (e2 : Z) :
  0 <= fst (fst (SFdiv_core_binary prec emax (Z.pos m1) e1 (Z.pos m2) e2)).
Proof.
  unfold SFdiv_core_binary.
  set (s := _ - _ - _).
  set (m' := match s with Z.pos _ => _ | Z0 => _ | Z.neg _ => _ end).
  assert (Hm : 0 <= m').
  { unfold m'. destruct s; try lia. apply Z.shiftl_nonneg. lia. }
  pose proof (Z.div_eucl_eq m' (Z.pos m2) ltac:(lia)) as Heq.
  pose proof (Z.mod_pos_bound m' (Z.pos m2) ltac:(lia)) as Hb.
  unfold Z.modulo in Hb.
  destruct (Z.div_eucl m' (Z.pos m2)) as [q r]. simpl. nia.
Qed.

Lemma SFdiv_not_nan (x y : spec_float) :
  x <> S754_nan -> SF_nonzero y -> SFdiv prec emax x y <> S754_nan.
Proof.
  intros Hx Hy. destruct y as [| | |sy my ey]; try contradiction.
  destruct x as [sx|sx| |sx mx ex]; try discriminate; try congruence.
  unfold SFdiv.
  pose proof (SFdiv_core_nonneg mx ex my ey) as H.
  destruct (SFdiv_core_binary prec emax (Z.pos mx) ex (Z.pos my) ey)
    as [[mz ez] lz]. simpl in H.
  apply binary_round_aux_not_nan. exact H.
Qed.

Lemma binary_normalize_not_nan (m e : Z) (sz : bool) :
  binary_normalize prec emax m e sz <> S754_nan.
Proof.
  destruct m as [|p|p]; simpl; try discriminate;
    unfold binary_round; destruct (shl_align _ _ _) as [mz ez];
    apply binary_round_aux_not_nan; lia.
Qed.

Lemma SFadd_not_nan (x y : spec_float) :
  SF_finite x -> y <> S754_nan -> SFadd prec emax x y <> S754_nan.
Proof.
  intros Hx Hy. destruct x as [sx|sx| |sx mx ex]; try contradiction;
    destruct y as [sy|sy| |sy my ey]; try congruence; simpl;
    try discriminate.
  - destruct sx, sy; discriminate.
  - apply binary_normalize_not_nan.
Qed.


Lemma shift_keeps_positive (q e : Z) :
  1 <= q -> -1074 <= e ->
  2 ^ (Z.max e (fexp64 (Zdigits2 q + e)) - e) <= q.
Proof.
  intros Hq He. pose proof (Zdigits2_bounds q ltac:(lia)) as [Hlo _].
  pose proof (Zdigits2_pos q ltac:(lia)) as Hd.
  rewrite fexp64_eq.
  eapply Z.le_trans; [|exact Hlo].
  apply Z.pow_le_mono_r; lia.
Qed.

Lemma round_aux_positive (N D ex : Z) :
  0 < D -> D <= N -> -1074 <= ex ->
  positive_or_inf (binary_round_aux prec emax false (N / D) ex (loc_of N D)).
Proof.
  intros HD HN Hex. unfold binary_round_aux.
  pose proof (shr_fexp_spec N D ex HD ltac:(lia)) as H1.
  destruct (shr_fexp prec emax (N / D) ex (loc_of N D)) as [mrs' e1].
  destruct H1 as (He1 & Hee1 & (HD1 & _ & Hm & Hloc)).
  assert (Hq : 1 <= N / D).
  { apply Z.div_le_lower_bound; lia. }
  pose proof (shift_keeps_positive (N / D) ex Hq Hex) as Hs.
  rewrite <- He1 in Hs.
  assert (Hm1 : 1 <= shr_m mrs').
  { rewrite Hm, <- Z.div_div by lia.
    apply Z.div_le_lower_bound; [lia|]. lia. }
  pose proof (round_nearest_even_bounds (shr_m mrs')
                (loc_of_shr_record mrs')) as [Hr1 _].
  set (rounded := round_nearest_even (shr_m mrs') (loc_of_shr_record mrs'))
    in *.
  assert (Hrounded : 1 <= rounded) by lia.
  pose proof (shr_fexp_spec rounded 1 e1 ltac:(lia) ltac:(lia)) as H2.
  rewrite loc_of_1, Z.div_1_r in H2.
  destruct (shr_fexp prec emax rounded e1 loc_Exact) as [mrs'' e2].
  destruct H2 as (He2 & Hee2 & (HD2 & _ & Hm2 & _)).
  rewrite Z.mul_1_l in Hm2.
  pose proof (shift_keeps_positive rounded e1 Hrounded ltac:(lia)) as Hs2.
  rewrite <- He2 in Hs2.
  assert (Hm21 : 1 <= shr_m mrs'').
  { rewrite Hm2. apply Z.div_le_lower_bound; [lia|]. lia. }
  destruct (shr_m mrs'') as [|m2|m2]; try lia.
  destruct (e2 <=? emax - prec); [right; eauto | left; reflexivity].
Qed.

Lemma SFdiv_positive (mx : positive) (ex : Z) (my : positive) (ey : Z) :
  -1074 <= ex - ey ->
  -1021 <= Z.pos (digits2_pos mx) + ex - (Z.pos (digits2_pos my) + ey) ->
  positive_or_inf
    (SFdiv prec emax (S754_finite false mx ex) (S754_finite false my ey)).
Proof.
  intros He Hd.
  unfold SFdiv, SFdiv_core_binary. simpl xorb.
  change (Zdigits2 (Z.pos mx)) with (Z.pos (digits2_pos mx)).
  change (Zdigits2 (Z.pos my)) with (Z.pos (digits2_pos my)).
  pose proof (digits_bounds mx) as Hbx. pose proof (digits_bounds my) as Hby.
  set (dx := Z.pos (digits2_pos mx)) in *.
  set (dy := Z.pos (digits2_pos my)) in *.
  fold (fexp64 (dx + ex - (dy + ey))).
  set (e' := Z.min (fexp64 (dx + ex - (dy + ey))) (ex - ey)).
  assert (He' : -1074 <= e' /\ e' <= dx + ex - (dy + ey) - 53).
  { unfold e'. rewrite fexp64_eq. lia. }
  assert (Hs : 0 <= ex - ey - e') by (unfold e'; lia).
  set (m' := match ex - ey - e' with
             | 0 => Z.pos mx
             | Z.pos _ => Z.shiftl (Z.pos mx) (ex - ey - e')
             | Z.neg _ => 0
             end).
  assert (Hm' : m' = Z.pos mx * 2 ^ (ex - ey - e')).
  { unfold m'. destruct (ex - ey - e') as [|p|p] eqn:E.
    - lia.
    - rewrite Z.shiftl_mul_pow2 by lia. reflexivity.
    - lia. }
  assert (Hq : fst (Z.div_eucl m' (Z.pos my)) = m' / Z.pos my)
    by reflexivity.
  assert (Hr : snd (Z.div_eucl m' (Z.pos my)) = m' mod Z.pos my)
    by reflexivity.
  destruct (Z.div_eucl m' (Z.pos my)) as [q r]. simpl in Hq, Hr.
  subst q r. rewrite new_location_loc_of by lia.
  apply round_aux_positive; try lia.
  rewrite Hm'.
  assert (H1 : 2 ^ dy <= 2 ^ (dx - 1) * 2 ^ (ex - ey - e')).
  { rewrite <- Z.pow_add_r by lia. apply Z.pow_le_mono_r; lia. }
  assert (0 < 2 ^ (ex - ey - e')) by (apply Z.pow_pos_nonneg; lia).
  nia.
Qed.

Lemma shl_align_spec (m : positive) (e e' : Z) :
  snd (shl_align m e e') = Z.min e e'
  /\ Z.pos (fst (shl_align m e e'))
     = Z.pos m * 2 ^ (e - snd (shl_align m e e')).
Proof.
  unfold shl_align. destruct (e' - e) as [|d|d] eqn:E; cbn [fst snd].
  - split; [lia|]. rewrite Z.sub_diag. change (2 ^ 0) with 1. lia.
  - split; [lia|]. rewrite Z.sub_diag. change (2 ^ 0) with 1. lia.
  - split; [lia|]. unfold shift_pos. rewrite iter_xO_value.
    f_equal. f_equal. lia.
Qed.

Lemma positive_at_most (r : spec_float) (mc : positive) (ec : Z) :
  positive_or_inf r -> at_most r mc ec ->
  exists m e, r = S754_finite false m e /\ e <= ec
              /\ Z.pos m <= Z.pos mc * 2 ^ (ec - e).
Proof.
  intros [->|(m & e & ->)] [H|(m' & e' & H & Hb)]; try discriminate.
  exists m', e'. auto.
Qed.

Lemma binary_round_finite (p : positive) (e : Z) (mc : positive) (ec : Z) :
  -1074 <= e -> canonical64 mc ec -> e <= ec ->
  Z.pos p <= Z.pos mc * 2 ^ (ec - e) ->
  exists m' e',
    binary_round prec emax false p e = S754_finite false m' e'
    /\ e' <= ec /\ Z.pos m' <= Z.pos mc * 2 ^ (ec - e').
Proof.
  intros He Hc Hec Hp. unfold binary_round.
  pose proof (shl_align_spec p e
                (fexp prec emax (Z.pos (digits2_pos p) + e))) as [Hz Hm].
  destruct (shl_align p e _) as [mz ez]. cbn [fst snd] in Hz, Hm.
  fold (fexp64 (Z.pos (digits2_pos p) + e)) in Hz.
  rewrite fexp64_eq in Hz.
  assert (Hez : -1074 <= ez <= e) by lia.
  apply (positive_at_most _ mc ec).
  - pose proof (round_aux_positive (Z.pos mz) 1 ez) as H.
    rewrite loc_of_1, Z.div_1_r in H. apply H; lia.
  - pose proof (round_aux_at_most (Z.pos mz) 1 ez mc ec) as H.
    rewrite loc_of_1, Z.div_1_r in H. apply H; try lia; [exact Hc|].
    rewrite Hm, Z.mul_1_r.
    replace (ec - ez) with ((ec - e) + (e - ez)) by lia.
    rewrite Z.pow_add_r by lia.
    assert (0 < 2 ^ (e - ez)) by (apply Z.pow_pos_nonneg; lia).
    rewrite Z.mul_assoc. apply Z.mul_le_mono_nonneg_r; lia.
Qed.

Lemma of_uint63_finite (n : Uint63.int) :
  SF_finite (Prim2SF (of_uint63 n)).
Proof.
  rewrite of_uint63_spec. pose proof (Uint63.to_Z_bounded n) as H.
  change Uint63.wB with (2 ^ 63) in H.
  destruct (Uint63.to_Z n) as [|p|p]; simpl; [exact I| |lia].
  destruct (binary_round_int p) as (m & e & -> & _); [lia|]. exact I.
Qed.

Lemma of_int_finite (z : Z) : SF_finite (Prim2SF (Float64.of_int z)).
Proof.
  unfold Float64.of_int. destruct (0 <=? z).
  - apply of_uint63_finite.
  - destruct (z =? min_int).
    + vm_compute. exact I.
    + rewrite opp_spec.
      pose proof (of_uint63_finite (Uint63.of_Z (- z))) as H.
      destruct (Prim2SF (of_uint63 (Uint63.of_Z (- z)))); simpl in *; auto.
Qed.

Lemma SF_finite_not_nan (x : spec_float) : SF_finite x -> x <> S754_nan.
Proof. destruct x; simpl; intros H; try discriminate; contradiction. Qed.


Lemma Prim2SF_1e9 : Prim2SF 1e9 = S754_finite false mantissa_1e9 (-23).
Proof. reflexivity. Qed.

Lemma canonical_2p35 : canonical64 mantissa_1 (-17).
Proof. split; [reflexivity|]. vm_compute. discriminate. Qed.

Lemma Prim2SF_exponent (x : float) (s : bool) (m : positive) (e : Z) :
  Prim2SF x = S754_finite s m e -> -1074 <= e.
Proof.
  intros H. pose proof (Prim2SF_valid x) as V. rewrite H in V.
  apply valid_canonical in V. destruct V as [V _].
  rewrite fexp64_eq in V. lia.
Qed.

(** The fraction of a second: [float64(n) / 1e9] for 0 <= n < 10^9. *)
Lemma nsec_fraction (n : Z) :
  0 <= n < 1000000000 ->
  (n = 0 /\ Prim2SF (Float64.of_int n / 1e9) = S754_zero false)
  \/ (0 < n
      /\ exists m e, Prim2SF (Float64.of_int n / 1e9) = S754_finite false m e
                     /\ -1074 <= e <= -52
                     /\ Z.pos m <= 2 ^ 52 * 2 ^ (-52 - e)).
Proof.
  intros Hn. destruct (Z.eq_dec n 0) as [->|Hne].
  - left. split; reflexivity.
  - right. split; [lia|].
    destruct (of_int_pos_spec n) as (m0 & e0 & E0 & He0 & Hv0).
    { unfold max_int. lia. }
    pose proof (int_value_mono n 1000000000 ltac:(lia)) as Hmono.
    change (int_value 1000000000) with 1000000000 in Hmono.
    assert (Hle : val_le m0 e0 mantissa_1e9 (-23)).
    { apply val_le_scaled; try lia. rewrite Hv0.
      change (Z.pos mantissa_1e9 * 2 ^ (-23 + 52))
        with (1000000000 * 2 ^ 52). lia. }
    pose proof (SFdiv_at_most_1 _ _ _ _ Hle) as Hup.
    pose proof (SFdiv_positive m0 e0 mantissa_1e9 (-23)) as Hlo.
    change (Z.pos (digits2_pos mantissa_1e9)) with 53 in Hlo.
    specialize (Hlo ltac:(lia) ltac:(lia)).
    destruct (positive_at_most _ _ _ Hlo Hup) as (m & e & E & He & Hm).
    assert (Hdiv : Prim2SF (Float64.of_int n / 1e9) = S754_finite false m e).
    { rewrite div_spec, E0, Prim2SF_1e9. exact E. }
    exists m, e. split; [exact Hdiv|].
    pose proof (Prim2SF_exponent _ _ _ _ Hdiv). split; [lia|exact Hm].
Qed.

Lemma SFadd_positive (mx : positive) (ex : Z) (my : positive) (ey : Z) :
  -52 <= ex -> Z.pos mx * 2 ^ (ex + 52) <= 2 ^ 34 * 2 ^ 52 ->
  -1074 <= ey <= -52 -> Z.pos my <= 2 ^ 52 * 2 ^ (-52 - ey) ->
  exists m e,
    SFadd prec emax (S754_finite false mx ex) (S754_finite false my ey)
    = S754_finite false m e.
Proof.
  intros Hex Hx Hey Hy. unfold SFadd.
  change (IntDef.Z.min ex ey) with (Z.min ex ey).
  rewrite Z.min_r by lia.
  pose proof (shl_align_spec mx ex ey) as [Hax Ha].
  pose proof (shl_align_spec my ey ey) as [Hbx Hb].
  rewrite Hax in Ha. rewrite Hbx in Hb.
  rewrite Z.min_r in Ha by lia. rewrite Z.min_id, Z.sub_diag in Hb.
  set (a := fst (shl_align mx ex ey)) in *.
  set (b := fst (shl_align my ey ey)) in *.
  simpl cond_Zopp. change (Z.pos a + Z.pos b) with (Z.pos (a + b)).
  simpl binary_normalize.
  destruct (binary_round_finite (a + b) ey mantissa_1 (-17))
    as (m & e & E & _); try lia.
  - apply canonical_2p35.
  - rewrite Pos2Z.inj_add, Ha, Hb. change (Z.pos mantissa_1) with (2 ^ 52).
    change (2 ^ 0) with 1. rewrite Z.mul_1_r.
    replace (ex - ey) with ((ex + 52) + (-52 - ey)) by lia.
    rewrite Z.pow_add_r by lia.
    replace (-17 - ey) with (35 + (-52 - ey)) by lia.
    rewrite (Z.pow_add_r 2 35) by lia.
    assert (0 < 2 ^ (-52 - ey)) by (apply Z.pow_pos_nonneg; lia).
    change (2 ^ 34 * 2 ^ 52) with (2 ^ 86) in Hx.
    change (2 ^ 52 * (2 ^ 35 * 2 ^ (-52 - ey)))
      with (2 ^ 52 * (2 ^ 35 * 2 ^ (-52 - ey))).
    generalize dependent (2 ^ (-52 - ey)). intros P.
    generalize dependent (2 ^ (ex + 52)). intros Q.
    change (2 ^ 52) with 4503599627370496.
    change (2 ^ 35) with 34359738368.
    change (2 ^ 86) with 77371252455336267181195264.
    intros. nia.
  - exists m, e. exact E.
Qed.

(** [d.Seconds()] of a positive duration is a positive finite float. *)
Lemma Seconds_positive (d : time.Duration) :
  0 < d <= max_int ->
  exists m e, Prim2SF (Seconds d) = S754_finite false m e.
Proof.
  intros Hd. unfold Seconds, Int64.div, Int64.rem, Second.
  pose proof (Z.quot_rem' d 1000000000) as Hqr.
  pose proof (Z.rem_bound_pos d 1000000000 ltac:(lia) ltac:(lia)) as Hr.
  pose proof (Z.quot_pos d 1000000000 ltac:(lia) ltac:(lia)) as Hq.
  set (sec := Z.quot d 1000000000) in *.
  set (nsec := Z.rem d 1000000000) in *.
  assert (Hsec : sec < 2 ^ 34) by (unfold max_int in Hd; lia).
  rewrite wrap64_in_range by (unfold in_range, min_int, max_int; lia).
  rewrite add_spec. unfold SF64add.
  destruct (nsec_fraction nsec Hr) as [[Hn0 ->]|(Hn & my & ey & -> & Hey & Hy)].
  - assert (Hs1 : 1 <= sec <= max_int) by (unfold max_int; lia).
    destruct (of_int_pos_spec sec Hs1) as (mx & ex & -> & _).
    exists mx, ex. reflexivity.
  - destruct (Z.eq_dec sec 0) as [->|Hs0].
    + exists my, ey. reflexivity.
    + assert (Hs1 : 1 <= sec <= max_int) by (unfold max_int; lia).
      destruct (of_int_pos_spec sec Hs1) as (mx & ex & -> & Hex & Hv).
      apply SFadd_positive; try lia.
      rewrite Hv.
      pose proof (int_value_mono sec (2 ^ 34) ltac:(lia)) as Hmono.
      change (int_value (2 ^ 34)) with (2 ^ 34) in Hmono. lia.
Qed.

(** ** The raw values are numbers *)

Lemma is_number (x : float) : Prim2SF x <> S754_nan -> is_nan x = false.
Proof. apply Float64Facts.not_nan_spec. Qed.

Lemma of_int_number (z : Z) : is_nan (Float64.of_int z) = false.
Proof. apply is_number, SF_finite_not_nan, of_int_finite. Qed.

Lemma mul_number (x y : float) :
  is_nan x = false -> SF_nonzero (Prim2SF y) -> is_nan (x * y) = false.
Proof.
  intros Hx Hy. apply is_number. rewrite mul_spec.
  apply SFmul_not_nan; [|exact Hy]. now apply Float64Facts.not_nan_spec.
Qed.

Lemma div_number (x y : float) :
  is_nan x = false -> SF_nonzero (Prim2SF y) -> is_nan (x / y) = false.
Proof.
  intros Hx Hy. apply is_number. rewrite div_spec.
  apply SFdiv_not_nan; [|exact Hy]. now apply Float64Facts.not_nan_spec.
Qed.

Lemma of_int_nonzero (z : Z) :
  1 <= z <= max_int -> SF_nonzero (Prim2SF (Float64.of_int z)).
Proof.
  intros H. destruct (of_int_pos_spec z H) as (m & e & -> & _). exact I.
Qed.

Lemma Seconds_nonzero (d : time.Duration) :
  0 < d <= max_int -> SF_nonzero (Prim2SF (Seconds d)).
Proof.
  intros H. destruct (Seconds_positive d H) as (m & e & ->). exact I.
Qed.

Lemma Seconds_number (d : time.Duration) : is_nan (Seconds d) = false.
Proof.
  apply is_number. unfold Seconds. rewrite add_spec.
  apply SFadd_not_nan; [apply of_int_finite|].
  apply Float64Facts.not_nan_spec, div_number;
    [apply of_int_number|exact I].
Qed.

Lemma bytesToMbps_number (bytes : Z) (d : time.Duration) :
  d <= max_int -> is_nan (bytesToMbps bytes d) = false.
Proof.
  intros Hd. unfold bytesToMbps. destruct (Z.leb_spec d 0); [reflexivity|].
  apply div_number; [|exact I].
  apply div_number; [|apply Seconds_nonzero; lia].
  apply mul_number; [apply of_int_number|exact I].
Qed.

Lemma percentDone_number (current total : Z) :
  total <= max_int -> is_nan (percentDone current total) = false.
Proof.
  intros Ht. unfold percentDone.
  destruct (Z.leb_spec total 0); [reflexivity|].
  destruct (Float64.lt _ 0); [reflexivity|].
  destruct (Float64.gt _ 100); [reflexivity|].
  apply mul_number; [|exact I].
  apply div_number; [apply of_int_number|apply of_int_nonzero; lia].
Qed.

Lemma percentElapsed_number (elapsed target : time.Duration) :
  target <= max_int -> is_nan (percentElapsed elapsed target) = false.
Proof.
  intros Ht. unfold percentElapsed.
  destruct (Z.leb_spec target 0); [reflexivity|].
  destruct (Float64.lt _ 0); [reflexivity|].
  destruct (Float64.gt _ 100); [reflexivity|].
  apply mul_number; [|exact I].
  apply div_number; [apply Seconds_number|apply Seconds_nonzero; lia].
Qed.

Lemma ping_percent_number (cfg : ClientConfig.t) (i : Z) :
  1 <= ClientConfig.PingCount cfg <= max_int ->
  is_nan (ping_percent cfg i) = false.
Proof.
  intros H. unfold ping_percent.
  apply mul_number; [|exact I].
  apply div_number; [apply of_int_number|now apply of_int_nonzero].
Qed.

Lemma Sub_le_max (t u : Z) : time.Sub t u <= max_int.
Proof. unfold time.Sub, min_int, max_int. lia. Qed.

Lemma wrap64_le_max (z : Z) : wrap64 z <= max_int.
Proof. pose proof (wrap64_range z). unfold in_range in *. lia. Qed.

(* ================================================================== *)
(** * The statistics calculator *)

Lemma len_pos {A : Type} (l : list A) : l <> [] -> 0 < len l.
Proof. destruct l; [congruence|]. unfold len. simpl. lia. Qed.

(** [int_Ceil] is the integer ceiling: on a finite float of value
    [v * 2^e] whose ceiling an int holds, it is the least integer [c] with
    [v * 2^e <= c]. *)
Lemma int_Ceil_finite (x : float) (s : bool) (m : positive) (e : Z) :
  Prim2SF x = S754_finite s m e ->
  let v := if s then Z.neg m else Z.pos m in
  let c := Float64.int_Ceil x in
  c <> min_int ->
  (0 <= e -> c = v * 2 ^ e)
  /\ (e < 0 -> (c - 1) * 2 ^ (- e) < v <= c * 2 ^ (- e)).
Proof.
  intros E v c. subst c. unfold Float64.int_Ceil. rewrite E. fold v.
  destruct (Z.leb_spec 0 e) as [He|He].
  - destruct ((min_int <=? v * 2 ^ e) && (v * 2 ^ e <=? max_int));
      [|congruence]. intros _. split; [reflexivity|lia].
  - destruct ((min_int <=? - (- v / 2 ^ (- e)))
              && (- (- v / 2 ^ (- e)) <=? max_int)); [|congruence].
    intros _. split; [lia|]. intros _.
    assert (Hd : 0 < 2 ^ (- e)) by (apply Z.pow_pos_nonneg; lia).
    pose proof (Z.div_mod (- v) (2 ^ (- e)) ltac:(lia)) as Hdm.
    pose proof (Z.mod_pos_bound (- v) (2 ^ (- e)) Hd) as Hb.
    nia.
Qed.

Lemma canonical_mantissa (m : positive) (e : Z) :
  canonical64 m e -> Z.pos m < 2 ^ 53 /\ -1074 <= e.
Proof.
  intros [Hc _]. rewrite fexp64_eq in Hc.
  pose proof (digits_bounds m) as [_ Hd].
  split; [|lia].
  eapply Z.lt_le_trans; [exact Hd|]. apply Z.pow_le_mono_r; lia.
Qed.

(** A float strictly between 0 and 1. *)
Lemma between_0_1 (p : float) :
  Float64.lt 0 p = true -> Float64.lt p 1 = true ->
  exists mp ep,
    Prim2SF p = S754_finite false mp ep /\ ep <= -53 /\ Z.pos mp < 2 ^ 53.
Proof.
  unfold Float64.lt. rewrite !ltb_spec.
  change (Prim2SF 0) with (S754_zero false).
  change (Prim2SF 1) with (S754_finite false mantissa_1 (-52)).
  pose proof (Prim2SF_valid p) as V.
  destruct (Prim2SF p) as [s|s| |s m e]; try discriminate.
  - destruct s; discriminate.
  - destruct s; [discriminate|]. intros _ H.
    apply valid_canonical in V.
    pose proof (canonical_mantissa m e V) as [Hm _].
    exists m, e. split; [reflexivity|]. split; [|exact Hm].
    unfold SFltb, SFcompare in H.
    destruct (Z.compare_spec e (-52)) as [He|He|He];
      [|lia|discriminate].
    exfalso. subst e.
    destruct V as [Hc _]. rewrite fexp64_eq in Hc.
    pose proof (digits_bounds m) as [Hlo _].
    replace (Z.pos (digits2_pos m) - 1) with 52 in Hlo by lia.
    assert (Hcmp : forall a b, PosDef.Pos.compare_cont Eq a b = Pos.compare a b)
      by reflexivity.
    rewrite Hcmp in H.
    destruct (Pos.compare_spec m mantissa_1) as [E|E|E]; try discriminate.
    apply Pos2Z.pos_lt_pos in E.
    change (Z.pos mantissa_1) with (2 ^ 52) in E.
    apply (Z.lt_irrefl (Z.pos m)). eapply Z.lt_le_trans; eassumption.
Qed.

Lemma product_below (n : Z) (p : float) :
  1 <= n <= 2 ^ 60 ->
  Float64.lt 0 p = true -> Float64.lt p 1 = true ->
  Prim2SF (Float64.of_int n * p) = S754_zero false
  \/ exists m e,
       Prim2SF (Float64.of_int n * p) = S754_finite false m e
       /\ -1074 <= e
       /\ Z.pos m * 2 ^ (e + 1074) <= 2 ^ 60 * 2 ^ 1074.
Proof.
  intros Hn H0 H1.
  destruct (of_int_pos_spec n) as (mn & en & En & Hen & Hv).
  { unfold max_int. lia. }
  pose proof (Prim2SF_valid (Float64.of_int n)) as V. rewrite En in V.
  apply valid_canonical in V.
  destruct (between_0_1 p H0 H1) as (mp & ep & Ep & Hep & Hmp).
  pose proof (Prim2SF_valid (Float64.of_int n * p)) as Vx.
  rewrite mul_spec, En, Ep in *. unfold SF64mul, SFmul in *.
  cbn [xorb] in *.
  pose proof (round_aux_at_most (Z.pos (mn * mp)) 1 (en + ep) mn en) as H.
  rewrite loc_of_1, Z.div_1_r in H.
  destruct H as [H|(m & e & H & He & Hm)]; try lia.
  - exact V.
  - rewrite Z.mul_1_r, Pos2Z.inj_mul.
    replace (en - (en + ep)) with (- ep) by lia.
    apply Z.mul_le_mono_nonneg_l; [lia|].
    apply Z.lt_le_incl. eapply Z.lt_le_trans; [exact Hmp|].
    apply Z.pow_le_mono_r; lia.
  - left. exact H.
  - right. exists m, e. split; [exact H|].
    rewrite H in Vx. apply valid_canonical in Vx.
    destruct Vx as [Vx _]. rewrite fexp64_eq in Vx.
    split; [lia|].
    pose proof (int_value_mono n (2 ^ 60) ltac:(lia)) as Hmono.
    change (int_value (2 ^ 60)) with (2 ^ 60) in Hmono.
    assert (Hpow : 0 < 2 ^ (e + 1074)) by (apply Z.pow_pos_nonneg; lia).
    apply Z.le_trans with (Z.pos mn * 2 ^ (en - e) * 2 ^ (e + 1074)).
    { apply Z.mul_le_mono_nonneg_r; lia. }
    rewrite <- Z.mul_assoc, <- Z.pow_add_r by lia.
    replace (en - e + (e + 1074)) with ((en + 52) + 1022) by lia.
    rewrite Z.pow_add_r, Z.mul_assoc, Hv by lia.
    replace (2 ^ 1074) with (2 ^ 52 * 2 ^ 1022)
      by (rewrite <- Z.pow_add_r by lia; reflexivity).
    rewrite Z.mul_assoc.
    apply Z.mul_le_mono_nonneg_r; [apply Z.pow_nonneg; lia|].
    apply Z.mul_le_mono_nonneg_r; [apply Z.pow_nonneg; lia|exact Hmono].
Qed.

(** For 0 < p < 1 and a length a slice can have, the index the code
    computes is [c - 1] with [c] the ceiling of the float64 product: the
    conversion to int and the subtraction are exact. *)
Lemma ceil_index_spec (n : Z) (p : float) :
  1 <= n <= 2 ^ 60 ->
  Float64.lt 0 p = true -> Float64.lt p 1 = true ->
  exists c,
    ceil_index n p = c - 1
    /\ 0 <= c <= 2 ^ 60
    /\ is_ceiling (Float64.of_int n * p) c.
Proof.
  intros Hn H0 H1. unfold ceil_index, is_ceiling, Float64.int_Ceil.
  destruct (product_below n p Hn H0 H1) as [->|(m & e & -> & He & Hm)].
  - exists 0. split; [reflexivity|]. split; [|reflexivity].
    split; [lia|]. apply Z.pow_nonneg. lia.
  - assert (HP : 0 < 2 ^ 60) by (apply Z.pow_pos_nonneg; lia).
    assert (HQ : 2 ^ 60 < 2 ^ 63) by (apply Z.pow_lt_mono_r; lia).
    set (c := if 0 <=? e then Z.pos m * 2 ^ e
              else - (- Z.pos m / 2 ^ (- e))).
    assert (Hc : 0 <= c <= 2 ^ 60
                 /\ (0 <= e -> c = Z.pos m * 2 ^ e)
                 /\ (e < 0 ->
                     (c - 1) * 2 ^ (- e) < Z.pos m <= c * 2 ^ (- e))).
    { unfold c. destruct (Z.leb_spec 0 e) as [Hpos|Hneg].
      - split; [|split; [reflexivity|lia]].
        assert (0 < 2 ^ e) by (apply Z.pow_pos_nonneg; lia).
        split; [lia|].
        rewrite Z.pow_add_r, Z.mul_assoc in Hm by lia.
        apply Z.mul_le_mono_pos_r in Hm; [exact Hm|].
        apply Z.pow_pos_nonneg; lia.
      - assert (Hd : 0 < 2 ^ (- e)) by (apply Z.pow_pos_nonneg; lia).
        pose proof (Z.div_mod (- Z.pos m) (2 ^ (- e)) ltac:(lia)) as Hdm.
        pose proof (Z.mod_pos_bound (- Z.pos m) (2 ^ (- e)) Hd) as Hb.
        assert (Hm' : Z.pos m <= 2 ^ 60 * 2 ^ (- e)).
        { replace (2 ^ 1074) with (2 ^ (- e) * 2 ^ (e + 1074)) in Hm
            by (rewrite <- Z.pow_add_r by lia; f_equal; lia).
          rewrite Z.mul_assoc in Hm.
          apply Z.mul_le_mono_pos_r in Hm; [exact Hm|].
          apply Z.pow_pos_nonneg; lia. }
        set (q := - Z.pos m / 2 ^ (- e)) in *.
        set (r := (- Z.pos m) mod 2 ^ (- e)) in *.
        set (d := 2 ^ (- e)) in *.
        assert (Hrange : (- q - 1) * d < Z.pos m <= - q * d) by nia.
        split; [|split; [lia|intros _; exact Hrange]].
        split; [nia|].
        assert ((- q - 1) * d < 2 ^ 60 * d) by lia.
        assert (- q - 1 < 2 ^ 60) by nia. lia. }
    destruct Hc as (Hc & Hc1 & Hc2).
    assert (Hin : (min_int <=? c) && (c <=? max_int) = true).
    { unfold min_int, max_int.
      apply andb_true_intro. split; apply Z.leb_le; lia. }
    fold c. rewrite Hin. exists c. split.
    + unfold Int64.sub. apply wrap64_in_range.
      unfold in_range, min_int, max_int. lia.
    + split; [exact Hc|]. split; assumption.
Qed.

(** C4. For every non-empty sequence S of durations (sorted or not) and
    every percentile p: [percentileDuration S p] is S[0] when p <= 0, the
    last element of S when p >= 1, and for 0 < p < 1 the element at index
    ceil(|S| * p) - 1 brought into [0, |S| - 1].  The product |S| * p is
    the float64 product; for a length up to 2^60 the index before the
    clamp is c - 1 with c the least integer not below that product. *)
Theorem percentileDuration_spec (S : list time.Duration) (p : float) :
  S <> [] ->
  (Float64.le p 0 = true -> percentileDuration S p = index_at S 0)
  /\ (Float64.ge p 1 = true ->
      percentileDuration S p = index_at S (len S - 1))
  /\ (Float64.lt 0 p = true -> Float64.lt p 1 = true ->
      percentileDuration S p
      = index_at S (clamp 0 (len S - 1) (ceil_index (len S) p)))
  /\ (Float64.lt 0 p = true -> Float64.lt p 1 = true -> len S <= 2 ^ 60 ->
      exists c,
        ceil_index (len S) p = c - 1
        /\ 0 <= c <= 2 ^ 60
        /\ is_ceiling (Float64.of_int (len S) * p) c).
Proof.
  intros HS. pose proof (len_pos S HS) as Hlen.
  unfold percentileDuration.
  destruct (Z.eqb_spec (len S) 0) as [H0|_]; [lia|].
  split; [|split; [|split]].
  - intros ->. reflexivity.
  - intros H1. destruct (Float64.le p 0) eqn:Hle.
    + apply Float64Facts.le_0_ge_1_false in Hle. congruence.
    + now rewrite H1.
  - intros Hlo Hhi.
    rewrite (Float64Facts.lt_le_false _ _ Hlo).
    change (Float64.ge p 1) with (Float64.le 1 p).
    rewrite (Float64Facts.lt_le_false _ _ Hhi).
    fold (ceil_index (len S) p). f_equal. unfold clamp.
    destruct (Z.leb_spec (len S) (Z.max (ceil_index (len S) p) 0)); lia.
  - intros Hlo Hhi Hmax. apply ceil_index_spec; auto. lia.
Qed.

(** The theorem at S = [10ms; 20ms; 30ms] and p = 0.95: the 95th
    percentile is the element at index ceil(3 * 0.95) - 1 = 2. *)
Lemma percentileDuration_spec_witness :
  percentileDuration [10 * Millisecond; 20 * Millisecond; 30 * Millisecond]
    percentile_95
  = index_at [10 * Millisecond; 20 * Millisecond; 30 * Millisecond]
      (clamp 0 2 2).
Proof.
  refine (proj1 (proj2 (proj2 (percentileDuration_spec
    [10 * Millisecond; 20 * Millisecond; 30 * Millisecond] percentile_95 _)))
    _ _).
  - discriminate.
  - vm_compute. reflexivity.
  - vm_compute. reflexivity.
Defined.

(** C7. [bytesToMbps b d] is 0 when d <= 0; otherwise it is b * 8 divided by
    the seconds of d and by 1e6, in float64 arithmetic.  2,000,000 bytes over
    one second give 16.0.  The seconds of a positive duration are a positive
    finite float, so the result is a number for every b and d. *)
Theorem bytesToMbps_spec (b : Z) (d : time.Duration) :
  (d <= 0 -> bytesToMbps b d = 0%float)
  /\ (0 < d ->
      bytesToMbps b d
      = (Float64.of_int b * 8 / Seconds d / 1000000)%float)
  /\ bytesToMbps 2000000 (1 * Second) = 16%float
  /\ (0 < d <= max_int ->
      exists m e, Prim2SF (Seconds d) = S754_finite false m e)
  /\ (d <= max_int -> is_nan (bytesToMbps b d) = false).
Proof.
  split; [|split; [|split; [|split]]].
  - intros H. unfold bytesToMbps.
    destruct (Z.leb_spec d 0); [reflexivity|lia].
  - intros H. unfold bytesToMbps.
    destruct (Z.leb_spec d 0); [lia|reflexivity].
  - reflexivity.
  - apply Seconds_positive.
  - apply bytesToMbps_number.
Qed.

(* ================================================================== *)
(** * The progress reporter *)

Lemma reportProgress_unfold (cfg : ClientConfig.t) (phase : string)
  (percent mbps pingMs : float) (w : World) :
  reportProgress cfg phase percent mbps pingMs w
  = if ClientConfig.Progress cfg
    then emit (EvProgress
                 (ProgressUpdate.mk phase (clamp_percent percent)
                    (clamp_nonneg mbps) (clamp_nonneg pingMs))) w
    else w.
Proof.
  unfold reportProgress. destruct (ClientConfig.Progress cfg); reflexivity.
Qed.

Lemma clamp_percent_in_range (x : float) :
  is_nan x = false -> percent_in_range (clamp_percent x) = true.
Proof.
  intros Hx. unfold clamp_percent, percent_in_range.
  destruct (Float64.lt x 0) eqn:Hlt.
  - reflexivity.
  - assert (H0 : Float64.le 0 x = true)
      by (apply Float64Facts.not_lt_le; auto).
    destruct (Float64.gt x 100) eqn:Hgt.
    + reflexivity.
    + rewrite H0. simpl. apply Float64Facts.not_lt_le; auto.
Qed.

Lemma clamp_nonneg_nonnegative (x : float) :
  is_nan x = false -> nonnegative (clamp_nonneg x) = true.
Proof.
  intros Hx. unfold clamp_nonneg, nonnegative.
  destruct (Float64.lt x 0) eqn:Hlt.
  - reflexivity.
  - apply Float64Facts.not_lt_le; auto.
Qed.

(** The clamps change no value that is in range already. *)
Lemma clamp_percent_id (x : float) :
  percent_in_range x = true -> clamp_percent x = x.
Proof.
  unfold percent_in_range, clamp_percent. intros H.
  apply andb_prop in H. destruct H as [H0 H100].
  rewrite (Float64Facts.le_lt_false _ _ H0).
  unfold Float64.gt. fold (Float64.lt 100 x).
  now rewrite (Float64Facts.le_lt_false _ _ H100).
Qed.

Lemma clamp_nonneg_id (x : float) :
  nonnegative x = true -> clamp_nonneg x = x.
Proof.
  unfold nonnegative, clamp_nonneg. intros H.
  now rewrite (Float64Facts.le_lt_false _ _ H).
Qed.

(** A NaN goes through both clamps, and is in no range. *)
Lemma nan_compares_false (x y : float) :
  is_nan x = true ->
  Float64.lt x y = false /\ Float64.lt y x = false
  /\ Float64.le x y = false /\ Float64.le y x = false.
Proof.
  intros H. apply Float64Facts.is_nan_spec in H.
  unfold Float64.lt, Float64.le.
  rewrite !ltb_spec, !leb_spec. unfold SFltb, SFleb.
  rewrite (Float64Facts.SFcompare_antisym (Prim2SF x) (Prim2SF y)), H.
  repeat split; reflexivity.
Qed.

Lemma clamp_percent_nan (x : float) :
  is_nan x = true -> clamp_percent x = x /\ percent_in_range x = false.
Proof.
  intros H. unfold clamp_percent, percent_in_range.
  destruct (nan_compares_false x 0 H) as (H1 & _ & _ & H4).
  destruct (nan_compares_false x 100 H) as (_ & H2 & _ & _).
  rewrite H1, H4. unfold Float64.gt. fold (Float64.lt 100 x). rewrite H2.
  split; reflexivity.
Qed.

Lemma clamp_nonneg_nan (x : float) :
  is_nan x = true -> clamp_nonneg x = x /\ nonnegative x = false.
Proof.
  intros H. unfold clamp_nonneg, nonnegative.
  destruct (nan_compares_false x 0 H) as (H1 & _ & _ & H4).
  rewrite H1, H4. split; reflexivity.
Qed.

(** C6, as amended.  With no sink configured [reportProgress] delivers
    nothing.  With a sink it delivers one event, of the phase it is given,
    and clamps each of the three raw values on its own: a percent that is
    not NaN (a negative one, one above 100 and the infinities included) is
    delivered within [0,100], an Mbps and a ping that are not NaN are
    delivered >= 0, whatever the other two raw values are; a raw value that
    is NaN is delivered as it is, and is in no range. *)
Theorem reportProgress_clamps (cfg : ClientConfig.t) (phase : string)
  (percent mbps pingMs : float) (w : World) :
  (ClientConfig.Progress cfg = false ->
   reportProgress cfg phase percent mbps pingMs w = w)
  /\ (ClientConfig.Progress cfg = true ->
      exists u,
        reportProgress cfg phase percent mbps pingMs w
        = emit (EvProgress u) w
        /\ ProgressUpdate.Phase u = phase
        /\ (if is_nan percent
            then ProgressUpdate.Percent u = percent
                 /\ percent_in_range (ProgressUpdate.Percent u) = false
            else percent_in_range (ProgressUpdate.Percent u) = true)
        /\ (if is_nan mbps
            then ProgressUpdate.Mbps u = mbps
                 /\ nonnegative (ProgressUpdate.Mbps u) = false
            else nonnegative (ProgressUpdate.Mbps u) = true)
        /\ (if is_nan pingMs
            then ProgressUpdate.PingMs u = pingMs
                 /\ nonnegative (ProgressUpdate.PingMs u) = false
            else nonnegative (ProgressUpdate.PingMs u) = true)).
Proof.
  rewrite reportProgress_unfold. split; intros ->.
  - reflexivity.
  - eexists. split; [reflexivity|]. split; [reflexivity|].
    cbn [ProgressUpdate.Percent ProgressUpdate.Mbps ProgressUpdate.PingMs].
    split; [|split].
    + destruct (is_nan percent) eqn:E.
      * destruct (clamp_percent_nan percent E) as [H1 H2].
        rewrite H1. split; [reflexivity|exact H2].
      * now apply clamp_percent_in_range.
    + destruct (is_nan mbps) eqn:E.
      * destruct (clamp_nonneg_nan mbps E) as [H1 H2].
        rewrite H1. split; [reflexivity|exact H2].
      * now apply clamp_nonneg_nonnegative.
    + destruct (is_nan pingMs) eqn:E.
      * destruct (clamp_nonneg_nan pingMs E) as [H1 H2].
        rewrite H1. split; [reflexivity|exact H2].
      * now apply clamp_nonneg_nonnegative.
Qed.

(** The theorem at a raw percent of 250, a raw Mbps of -3 and a raw ping
    that is NaN: the percent and the Mbps are clamped, the ping is not. *)
Lemma reportProgress_clamps_witness :
  exists u,
    reportProgress cfg_with_sink "download" 250 (-3) nan World_init
    = emit (EvProgress u) World_init
    /\ ProgressUpdate.Phase u = "download"%string
    /\ percent_in_range (ProgressUpdate.Percent u) = true
    /\ nonnegative (ProgressUpdate.Mbps u) = true
    /\ (ProgressUpdate.PingMs u = nan
        /\ nonnegative (ProgressUpdate.PingMs u) = false).
Proof.
  exact (proj2 (reportProgress_clamps cfg_with_sink "download"
                  250 (-3) nan World_init) eq_refl).
Defined.

(** C6, as the claim states it, fails: a raw NaN goes through both
    comparisons of each clamp and is delivered as it is. *)
Lemma reportProgress_delivers_nan :
  reportProgress cfg_with_sink "download" nan nan nan World_init
  = emit (EvProgress (ProgressUpdate.mk "download" nan nan nan)) World_init
  /\ update_in_range (ProgressUpdate.mk "download" nan nan nan) = false
  /\ percent_in_range nan = false
  /\ nonnegative nan = false.
Proof. repeat split. Qed.

(* ================================================================== *)
(** * The interleavings of a phase *)

Lemma sum_adds_app (l1 l2 : list Action) :
  sum_adds (l1 ++ l2) = sum_adds l1 + sum_adds l2.
Proof. induction l1 as [|a l1 IH]; simpl; [reflexivity|]. rewrite IH. lia. Qed.

Lemma sum_adds_perm (l1 l2 : list Action) :
  Permutation l1 l2 -> sum_adds l1 = sum_adds l2.
Proof. induction 1; simpl; lia. Qed.

Lemma sum_adds_no_ticks (l : list Action) :
  sum_adds (no_ticks l) = sum_adds l.
Proof.
  induction l as [|a l IH]; simpl; [reflexivity|].
  destruct a; simpl; rewrite IH; reflexivity.
Qed.

Lemma first_err_in (acts : list Action) (e : error) :
  first_err acts = Some e -> In (ASetErr e) acts.
Proof.
  induction acts as [|a acts IH]; simpl; [discriminate|].
  destruct a; try (intros H; right; apply IH; exact H).
  intros [= ->]. now left.
Qed.

Lemma first_err_none (acts : list Action) :
  first_err acts = None <-> (forall e, ~ In (ASetErr e) acts).
Proof.
  induction acts as [|a acts IH]; simpl.
  - split; auto.
  - destruct a; try (rewrite IH; split;
      [intros H e [Hc|Hc]; [discriminate|exact (H e Hc)]
      |intros H e Hc; exact (H e (or_intror Hc))]).
    split; [discriminate|]. intros H. exfalso. apply (H err). now left.
Qed.

Lemma filter_perm {A : Type} (f : A -> bool) (l1 l2 : list A) :
  Permutation l1 l2 -> Permutation (filter f l1) (filter f l2).
Proof.
  induction 1 as [|x l l' _ IH|x y l|l l' l'' _ IH1 _ IH2]; simpl.
  - constructor.
  - destruct (f x); [now constructor|assumption].
  - destruct (f x), (f y); try apply Permutation_refl. constructor.
  - now transitivity (filter f l').
Qed.

Lemma set_nth_split {A : Type} (k : nat) (l : list A) (x y : A)
  (rest : list A) :
  skipn k l = x :: rest ->
  l = firstn k l ++ x :: rest /\ set_nth k y l = firstn k l ++ y :: rest.
Proof.
  intros H. unfold set_nth. rewrite H. split; [|reflexivity].
  rewrite <- H. symmetry. apply firstn_skipn.
Qed.

Lemma nth_error_skipn {A : Type} (k : nat) (l : list A) (x : A) :
  nth_error l k = Some x -> exists rest, skipn k l = x :: rest.
Proof.
  revert l. induction k as [|k IH]; intros [|a l]; simpl; try discriminate.
  - intros [= ->]. eauto.
  - apply IH.
Qed.

(** Taking the next step of worker [k] out of the pool. *)
Lemma concat_set_nth (ws : list (list Action)) (k : nat) (a : Action)
  (rest : list Action) :
  nth_error ws k = Some (a :: rest) ->
  Permutation (List.concat ws) (a :: List.concat (set_nth k rest ws)).
Proof.
  intros H. destruct (nth_error_skipn _ _ _ H) as [tl Hs].
  destruct (set_nth_split k ws (a :: rest) rest tl Hs) as [E1 E2].
  rewrite E2. rewrite E1 at 1. rewrite !concat_app. simpl.
  symmetry. apply Permutation_middle.
Qed.

(** A schedule only reorders the steps of the workers, and adds ticks. *)
Lemma interleave_perm (sampler : bool) (schedule : list nat)
  (ws : list (list Action)) :
  Permutation (no_ticks (interleave sampler schedule ws))
    (no_ticks (List.concat ws)).
Proof.
  revert ws. induction schedule as [|k schedule IH]; intros ws; simpl.
  - apply Permutation_refl.
  - destruct (nth_error ws k) as [[|a rest]|] eqn:E.
    + apply IH.
    + pose proof (concat_set_nth ws k a rest E) as Hp.
      unfold no_ticks at 2.
      rewrite (filter_perm _ _ _ Hp).
      unfold no_ticks at 1. simpl. destruct (negb (is_tick a)).
      * apply perm_skip. apply IH.
      * apply IH.
    + destruct sampler; simpl; apply IH.
Qed.

Lemma interleave_sum_adds (sampler : bool) (schedule : list nat)
  (ws : list (list Action)) :
  sum_adds (interleave sampler schedule ws) = sum_adds (List.concat ws).
Proof.
  rewrite <- sum_adds_no_ticks, <- (sum_adds_no_ticks (List.concat ws)).
  apply sum_adds_perm, interleave_perm.
Qed.

Lemma interleave_in_err (sampler : bool) (schedule : list nat)
  (ws : list (list Action)) (e : error) :
  In (ASetErr e) (interleave sampler schedule ws)
  <-> In (ASetErr e) (List.concat ws).
Proof.
  pose proof (interleave_perm sampler schedule ws) as Hp.
  assert (Hf : forall l, In (ASetErr e) (no_ticks l) <-> In (ASetErr e) l).
  { intros l. unfold no_ticks. rewrite filter_In. simpl. tauto. }
  rewrite <- Hf, <- (Hf (List.concat ws)).
  split; apply Permutation_in; [exact Hp|symmetry; exact Hp].
Qed.

Section ExecFacts.

Variable on_tick : Z -> World -> World.

Lemma exec_app (l1 l2 : list Action) (sw : Shared * World) :
  exec on_tick (l1 ++ l2) sw = exec on_tick l2 (exec on_tick l1 sw).
Proof. unfold exec. apply fold_left_app. Qed.

(** The counter after a sequence of steps is the sum of the adds, as an
    int64: only the adds change it, and they never lose an update. *)
Lemma exec_totalBytes (acts : list Action) (s : Shared) (w : World) :
  in_range (totalBytes s) ->
  totalBytes (fst (exec on_tick acts (s, w)))
  = wrap64 (totalBytes s + sum_adds acts).
Proof.
  revert s w. induction acts as [|a acts IH]; intros s w Hs.
  - simpl. rewrite Z.add_0_r. symmetry. now apply wrap64_in_range.
  - change (exec on_tick (a :: acts) (s, w))
      with (exec on_tick acts (step on_tick a (s, w))).
    destruct a; simpl step; rewrite IH; simpl; auto.
    + unfold Int64.add. rewrite wrap64_add_l. f_equal. lia.
    + apply wrap64_range.
    + f_equal. destruct (errOnce s); simpl; lia.
    + destruct (errOnce s); simpl; auto.
Qed.

(** The error slot after a sequence of steps holds the first error stored:
    the once-guard drops the later ones. *)
Lemma exec_runErr (acts : list Action) (t : Z) (w : World) :
  runErr (fst (exec on_tick acts (mkShared t None false, w)))
  = first_err acts.
Proof.
  assert (Hset : forall acts s w, errOnce s = true ->
            runErr (fst (exec on_tick acts (s, w))) = runErr s).
  { clear. intros acts. induction acts as [|a acts IH]; intros s w Hs.
    - reflexivity.
    - change (exec on_tick (a :: acts) (s, w))
        with (exec on_tick acts (step on_tick a (s, w))).
      destruct a; simpl step; rewrite IH; simpl; auto.
      + now rewrite Hs.
      + now rewrite Hs. }
  revert t w. induction acts as [|a acts IH]; intros t w.
  - reflexivity.
  - change (exec on_tick (a :: acts) (mkShared t None false, w))
      with (exec on_tick acts (step on_tick a (mkShared t None false, w))).
    destruct a; simpl step; simpl first_err.
    + apply IH.
    + rewrite Hset; reflexivity.
    + apply IH.
    + apply IH.
Qed.

End ExecFacts.

(* ================================================================== *)
(** * The events of each phase *)

Lemma phase_events_refl (ph : string) (w : World) : phase_events ph w w.
Proof. exists []. rewrite app_nil_r. auto. Qed.

Lemma phase_events_same_trace (ph : string) (w w' : World) :
  trace w' = trace w -> phase_events ph w w'.
Proof. intros H. exists []. rewrite app_nil_r. auto. Qed.

Lemma phase_events_trans (ph : string) (w1 w2 w3 : World) :
  phase_events ph w1 w2 -> phase_events ph w2 w3 -> phase_events ph w1 w3.
Proof.
  intros [t1 [E1 F1]] [t2 [E2 F2]]. exists (t1 ++ t2). split.
  - rewrite E2, E1. now rewrite app_assoc.
  - apply Forall_app. auto.
Qed.

Lemma phase_events_emit (ph : string) (ev : Event) (w : World) :
  event_phase ev = ph -> phase_events ph w (emit ev w).
Proof. intros H. exists [ev]. split; [reflexivity|]. auto. Qed.

Lemma phase_events_Now (ph : string) (env : Env) (w : World) :
  phase_events ph w (snd (time_Now env w)).
Proof. now apply phase_events_same_trace. Qed.

Lemma phase_events_Since (ph : string) (env : Env) (start : Z) (w : World) :
  phase_events ph w (snd (time_Since env start w)).
Proof. now apply phase_events_same_trace. Qed.

Lemma phase_events_reportProgress (cfg : ClientConfig.t) (ph : string)
  (percent mbps pingMs : float) (w : World) :
  phase_events ph w (reportProgress cfg ph percent mbps pingMs w).
Proof.
  rewrite reportProgress_unfold. destruct (ClientConfig.Progress cfg).
  - now apply phase_events_emit.
  - apply phase_events_refl.
Qed.

Create HintDb phases.

#[local] Hint Resolve phase_events_refl phase_events_emit phase_events_Now
  phase_events_Since phase_events_reportProgress : phases.

Lemma phase_events_exec (ph : string) (on_tick : Z -> World -> World)
  (acts : list Action) (s : Shared) (w : World) :
  (forall current w, phase_events ph w (on_tick current w)) ->
  Forall (action_of_phase ph) acts ->
  phase_events ph w (snd (exec on_tick acts (s, w))).
Proof.
  intros Htick. revert s w.
  induction acts as [|a acts IH]; intros s w Hacts.
  - apply phase_events_refl.
  - change (exec on_tick (a :: acts) (s, w))
      with (exec on_tick acts (step on_tick a (s, w))).
    inversion Hacts as [|? ? Ha Hrest]; subst.
    destruct a; simpl step; try (apply IH; assumption).
    + eapply phase_events_trans; [|apply IH; assumption].
      apply phase_events_emit. exact Ha.
    + eapply phase_events_trans; [|apply IH; assumption]. apply Htick.
Qed.

Lemma interleave_in (sampler : bool) (schedule : list nat)
  (ws : list (list Action)) (a : Action) :
  In a (interleave sampler schedule ws) ->
  a = ATick \/ In a (List.concat ws).
Proof.
  intros H. destruct (is_tick a) eqn:Ht.
  - left. destruct a; simpl in Ht; congruence.
  - right.
    assert (Hin : In a (no_ticks (interleave sampler schedule ws))).
    { unfold no_ticks. apply filter_In. split; [assumption|].
      now rewrite Ht. }
    apply (Permutation_in _ (interleave_perm sampler schedule ws)) in Hin.
    unfold no_ticks in Hin. now apply filter_In in Hin.
Qed.

Lemma interleave_of_phase (ph : string) (sampler : bool)
  (schedule : list nat) (ws : list (list Action)) :
  Forall (Forall (action_of_phase ph)) ws ->
  Forall (action_of_phase ph) (interleave sampler schedule ws).
Proof.
  intros Hws. apply Forall_forall. intros a Ha.
  apply interleave_in in Ha. destruct Ha as [->|Ha]; [exact I|].
  apply in_concat in Ha. destruct Ha as [l [Hl Hal]].
  rewrite Forall_forall in Hws. specialize (Hws l Hl).
  rewrite Forall_forall in Hws. auto.
Qed.

Lemma download_read_loop_of_phase (reads : list (Z * option error)) :
  Forall (action_of_phase "download") (download_read_loop reads).
Proof.
  induction reads as [|[read err] rest IH]; simpl; [constructor|].
  apply Forall_app. split.
  - destruct (0 <? read); repeat constructor.
  - destruct err as [err|]; [|exact IH].
    destruct (negb (errors_Is err io_EOF)); repeat constructor.
Qed.

Lemma download_workers_of_phase (env : Env) (cfg : ClientConfig.t) :
  Forall (Forall (action_of_phase "download")) (download_workers env cfg).
Proof.
  unfold download_workers. apply Forall_map, Forall_forall. intros i _.
  unfold download_worker. destruct (download_stream env i).
  - repeat constructor.
  - repeat constructor.
  - constructor; [reflexivity|apply download_read_loop_of_phase].
Qed.

Lemma upload_body_of_phase (t : timedReader) (calls : list ReadCall) :
  Forall (action_of_phase "upload") (snd (upload_body t calls)).
Proof.
  revert t. induction calls as [|call rest IH]; intros t; simpl.
  - constructor.
  - unfold timedReader_Read.
    destruct (ctx_Err call); [constructor|].
    destruct ((chunkSize t <? Z.of_N (buf_len call)) && (chunkSize t <? 0)); [constructor|].
    destruct (rand_err call); [constructor|].
    match goal with |- context [upload_body ?t' rest] =>
      specialize (IH t'); destruct (upload_body t' rest) end.
    simpl in *. constructor; [exact I|exact IH].
Qed.

Lemma upload_workers_of_phase (env : Env) (cfg : ClientConfig.t) :
  Forall (Forall (action_of_phase "upload")) (upload_workers env cfg).
Proof.
  unfold upload_workers. apply Forall_map, Forall_forall. intros i _.
  unfold upload_worker. destruct (upload_new_request (upload_stream env i)).
  - repeat constructor.
  - constructor; [reflexivity|]. apply Forall_app. split.
    + apply upload_body_of_phase.
    + destruct (upload_do (upload_stream env i)) as [err|]; [|constructor].
      destruct (errors_Is err context_DeadlineExceeded
                || errors_Is err context_Canceled); repeat constructor.
Qed.

Lemma ping_iteration_events (env : Env) (cfg : ClientConfig.t) (i : Z)
  (results : list time.Duration) (w : World) :
  phase_events "ping" w (snd (ping_iteration env cfg i results w)).
Proof.
  unfold ping_iteration, time_Since, time_Now, client_Get_ping.
  cbv zeta beta iota. simpl.
  destruct (ping_get env (probes w)) as [err|]; simpl.
  - exists [EvRequest (GetPing (ClientConfig.BaseURL cfg))].
    split; [reflexivity|]. repeat constructor.
  - match goal with
    | |- phase_events _ _ (if _ then time_Sleep _ ?w' else ?w') =>
        assert (H1 : phase_events "ping" w w')
    end.
    { eapply phase_events_trans; [|apply phase_events_reportProgress].
      exists [EvRequest (GetPing (ClientConfig.BaseURL cfg))].
      split; [reflexivity|]. repeat constructor. }
    destruct (i <? ClientConfig.PingCount cfg - 1); [|exact H1].
    eapply phase_events_trans; [exact H1|].
    now apply phase_events_emit.
Qed.

Lemma ping_loop_events (env : Env) (cfg : ClientConfig.t) (n : nat) :
  forall (i : Z) (results : list time.Duration) (w : World),
    phase_events "ping" w (snd (ping_loop env cfg n i results w)).
Proof.
  induction n as [|n IH]; intros i results w; simpl.
  - apply phase_events_refl.
  - pose proof (ping_iteration_events env cfg i results w) as H.
    destruct (ping_iteration env cfg i results w) as [[err|results'] w'].
    + exact H.
    + eapply phase_events_trans; [exact H|apply IH].
Qed.

(** [runPing] for a count that is not negative, and for a negative one. *)
Lemma runPing_counted (env : Env) (cfg : ClientConfig.t) (w : World) :
  0 <= ClientConfig.PingCount cfg ->
  runPing env cfg w
  = match ping_loop env cfg (Z.to_nat (ClientConfig.PingCount cfg)) 0 [] w
    with
    | (inl err, w) => ((PingMetrics.zero, Some err), w)
    | (inr results, w) =>
        if len results =? 0
        then ((PingMetrics.zero,
               Some (errors_New "ping returned no data")), w)
        else
          ((PingMetrics.mk (index_at (slices_Sort results) 0)
              (avgDuration (slices_Sort results))
              (percentileDuration (slices_Sort results) percentile_95),
            None), w)
    end.
Proof.
  intros H. unfold runPing.
  destruct (Z.ltb_spec (ClientConfig.PingCount cfg) 0); [lia|reflexivity].
Qed.

Lemma runPing_panics (env : Env) (cfg : ClientConfig.t) (w : World) :
  ClientConfig.PingCount cfg < 0 ->
  runPing env cfg w
  = ((PingMetrics.zero, Some (runtime_panic "makeslice: cap out of range")),
     w).
Proof.
  intros H. unfold runPing.
  destruct (Z.ltb_spec (ClientConfig.PingCount cfg) 0); [reflexivity|lia].
Qed.

Lemma runPing_events (env : Env) (cfg : ClientConfig.t) (w : World) :
  phase_events "ping" w (snd (runPing env cfg w)).
Proof.
  destruct (Z.lt_ge_cases (ClientConfig.PingCount cfg) 0) as [Hneg|Hpos];
    [rewrite (runPing_panics env cfg w Hneg); apply phase_events_refl|].
  rewrite (runPing_counted env cfg w Hpos).
  pose proof (ping_loop_events env cfg
                (Z.to_nat (ClientConfig.PingCount cfg)) 0 [] w) as H.
  destruct (ping_loop env cfg _ 0 [] w) as [[err|results] w'].
  - exact H.
  - simpl in H. destruct (len results =? 0); exact H.
Qed.

(** ** The late ticks woven among the events *)

Lemma weave_none (main : list Event) : weave [] main = (main, []).
Proof.
  induction main as [|ev main IH]; [reflexivity|].
  cbn [weave due passed]. rewrite IH. reflexivity.
Qed.

Lemma weave_end (late : Late) : weave late [] = due late.
Proof. cbn [weave]. now destruct (due late). Qed.

Lemma weave_one (late : Late) (ev : Event) :
  weave late [ev]
  = (fst (due late) ++ ev :: fst (due (passed (snd (due late)))),
     snd (due (passed (snd (due late))))).
Proof.
  cbn [weave]. destruct (due late) as [now left]. cbn [fst snd].
  now destruct (due (passed left)).
Qed.

Section Woven.

Variable P : Event -> Prop.

Lemma due_all (late : Late) :
  ticks_all P late ->
  Forall P (fst (due late)) /\ ticks_all P (snd (due late)).
Proof.
  unfold ticks_all. induction 1 as [|[gap events] late Hx Hl IH].
  - split; constructor.
  - cbn [due]. destruct gap as [|gap].
    + destruct (due late) as [now left]. cbn [fst snd] in *.
      destruct IH as [IH1 IH2]. split; [|exact IH2].
      apply Forall_app. split; assumption.
    + cbn [fst snd]. split; constructor; assumption.
Qed.

Lemma passed_all (late : Late) : ticks_all P late -> ticks_all P (passed late).
Proof.
  unfold ticks_all. intros H. destruct H as [|[[|gap] events] late Hx Hl];
    cbn [passed]; constructor; assumption.
Qed.

Lemma weave_all (main : list Event) :
  forall late,
    ticks_all P late -> Forall P main ->
    Forall P (fst (weave late main)) /\ ticks_all P (snd (weave late main)).
Proof.
  induction main as [|ev main IH]; intros late Hl Hm.
  - rewrite weave_end. now apply due_all.
  - cbn [weave]. destruct (due_all late Hl) as [H1 H2].
    destruct (due late) as [now left]. cbn [fst snd] in H1, H2.
    inversion Hm as [|? ? Hev Hm']. subst.
    destruct (IH (passed left) (passed_all left H2) Hm') as [H3 H4].
    destruct (weave (passed left) main) as [t left']. cbn [fst snd] in *.
    split; [|exact H4].
    apply Forall_app. split; [exact H1|]. constructor; assumption.
Qed.

Lemma weave_left_all (main : list Event) :
  forall late, ticks_all P late -> ticks_all P (snd (weave late main)).
Proof.
  induction main as [|ev main IH]; intros late Hl.
  - rewrite weave_end. now apply due_all.
  - cbn [weave]. destruct (due_all late Hl) as [_ H2].
    destruct (due late) as [now left]. cbn [fst snd] in H2.
    specialize (IH (passed left) (passed_all left H2)).
    destruct (weave (passed left) main) as [t left']. exact IH.
Qed.

End Woven.

Section Hidden.

(** A view of the trace that the late ticks do not change. *)
Variable X : Type.
Variable view : list Event -> list X.
Hypothesis view_app : forall a b, view (a ++ b) = view a ++ view b.
Hypothesis view_nil : view [] = [].

Lemma due_hidden (late : Late) :
  Forall (fun tick => view (snd tick) = []) late ->
  view (fst (due late)) = []
  /\ Forall (fun tick => view (snd tick) = []) (snd (due late)).
Proof.
  induction 1 as [|[gap events] late Hx Hl IH].
  - split; [exact view_nil|constructor].
  - cbn [due]. destruct gap as [|gap].
    + destruct (due late) as [now left]. cbn [fst snd] in *.
      destruct IH as [IH1 IH2]. split; [|exact IH2].
      rewrite view_app, Hx, IH1. reflexivity.
    + cbn [fst snd]. split; [exact view_nil|]. constructor; assumption.
Qed.

Lemma passed_hidden (late : Late) :
  Forall (fun tick => view (snd tick) = []) late ->
  Forall (fun tick => view (snd tick) = []) (passed late).
Proof.
  intros H. destruct H as [|[[|gap] events] late Hx Hl];
    cbn [passed]; constructor; assumption.
Qed.

Lemma weave_hidden (main : list Event) :
  forall late,
    Forall (fun tick => view (snd tick) = []) late ->
    view (fst (weave late main)) = view main.
Proof.
  induction main as [|ev main IH]; intros late Hl.
  - rewrite weave_end. rewrite (proj1 (due_hidden late Hl)).
    symmetry. exact view_nil.
  - cbn [weave]. destruct (due_hidden late Hl) as [H1 H2].
    destruct (due late) as [now left]. cbn [fst snd] in H1, H2.
    specialize (IH (passed left) (passed_hidden left H2)).
    destruct (weave (passed left) main) as [t left']. cbn [fst snd] in *.
    rewrite view_app, H1. cbn [app].
    change (ev :: t) with ([ev] ++ t).
    change (ev :: main) with ([ev] ++ main).
    rewrite !view_app, IH. reflexivity.
Qed.

End Hidden.

Lemma added_app (w w' : World) (t : list Event) :
  trace w' = trace w ++ t -> added w w' = t.
Proof.
  intros E. unfold added. rewrite E.
  rewrite skipn_app, skipn_all, Nat.sub_diag. reflexivity.
Qed.

Lemma added_by_reportProgress (cfg : ClientConfig.t) (phase : string)
  (percent mbps pingMs : float) :
  added_by (reportProgress cfg phase percent mbps pingMs)
  = if ClientConfig.Progress cfg
    then [EvProgress
            (ProgressUpdate.mk phase (clamp_percent percent)
               (clamp_nonneg mbps) (clamp_nonneg pingMs))]
    else [].
Proof.
  unfold added_by. rewrite reportProgress_unfold.
  destruct (ClientConfig.Progress cfg); reflexivity.
Qed.

(** The late ticks of a sampler are reports of the last count. *)
Lemma download_late_ticks_reports (env : Env) (cfg : ClientConfig.t)
  (start target current : Z) :
  ticks_all
    (fun ev => exists now,
                 ev = EvProgress
                        (download_tick_report start target current now))
    (download_late_ticks env cfg start target current).
Proof.
  unfold ticks_all, download_late_ticks.
  destruct (ClientConfig.Progress cfg) eqn:E; [|constructor].
  apply Forall_map, Forall_forall. intros [gap now] _. cbn [fst snd].
  unfold download_late_tick. rewrite added_by_reportProgress, E.
  constructor; [|constructor]. exists now. reflexivity.
Qed.

Lemma upload_late_ticks_reports (env : Env) (cfg : ClientConfig.t)
  (start current : Z) :
  ticks_all
    (fun ev => exists now,
                 ev = EvProgress (upload_tick_report cfg start current now))
    (upload_late_ticks env cfg start current).
Proof.
  unfold ticks_all, upload_late_ticks.
  destruct (ClientConfig.Progress cfg) eqn:E; [|constructor].
  apply Forall_map, Forall_forall. intros [gap now] _. cbn [fst snd].
  unfold upload_late_tick. rewrite added_by_reportProgress, E.
  constructor; [|constructor]. exists now. reflexivity.
Qed.

Lemma ticks_all_impl (P Q : Event -> Prop) (late : Late) :
  (forall ev, P ev -> Q ev) -> ticks_all P late -> ticks_all Q late.
Proof.
  intros H. unfold ticks_all. apply Forall_impl. intros tick.
  apply Forall_impl. exact H.
Qed.

Lemma download_ticks_reports (env : Env) (cfg : ClientConfig.t) (w : World) :
  ticks_all (download_late_report env cfg w) (download_ticks env cfg w).
Proof. apply download_late_ticks_reports. Qed.

Lemma upload_ticks_reports (env : Env) (cfg : ClientConfig.t) (w : World) :
  ticks_all (upload_late_report env cfg w) (upload_ticks env cfg w).
Proof. apply upload_late_ticks_reports. Qed.

Lemma download_ticks_no_late (env : Env) (cfg : ClientConfig.t) (w : World) :
  download_late env = [] \/ ClientConfig.Progress cfg = false ->
  download_ticks env cfg w = [].
Proof.
  unfold download_ticks, download_late_ticks.
  intros [->| ->]; [destruct (ClientConfig.Progress cfg)|]; reflexivity.
Qed.

Lemma upload_ticks_no_late (env : Env) (cfg : ClientConfig.t) (w : World) :
  upload_late env = [] \/ ClientConfig.Progress cfg = false ->
  upload_ticks env cfg w = [].
Proof.
  unfold upload_ticks, upload_late_ticks.
  intros [->| ->]; [destruct (ClientConfig.Progress cfg)|]; reflexivity.
Qed.

(** ** A throughput phase: its result, its world at the join, and the last
    report woven with the late ticks *)

Lemma runDownload_detached_eq (env : Env) (cfg : ClientConfig.t)
  (w : World) :
  runDownload_detached env cfg w
  = ((phase_result "download returned no data" (download_shared env cfg w)
        (download_elapsed env cfg w),
      emit_all
        (fst (weave (download_ticks env cfg w) (download_last env cfg w)))
        (download_joined env cfg w)),
     snd (weave (download_ticks env cfg w) (download_last env cfg w))).
Proof.
  unfold runDownload_detached, download_ticks, download_last,
    download_joined, download_shared, download_elapsed, phase_result,
    final_report.
  destruct (download_join env cfg w) as [start [s w1]]. cbn [fst snd].
  destruct (time_Since env start w1) as [elapsed w2]. cbn [fst snd].
  assert (E : added_by
                (fun w0 : World =>
                   if ClientConfig.Progress cfg
                   then reportProgress cfg "download" 100
                          (bytesToMbps (totalBytes s) elapsed) 0 w0
                   else w0)
              = if ClientConfig.Progress cfg
                then [EvProgress
                        (ProgressUpdate.mk "download" 100
                           (clamp_nonneg (bytesToMbps (totalBytes s) elapsed))
                           0)]
                else []).
  { destruct (ClientConfig.Progress cfg) eqn:Ep; [|reflexivity].
    rewrite added_by_reportProgress, Ep. reflexivity. }
  rewrite E.
  destruct (weave _ _) as [events late]. cbn [fst snd].
  destruct (runErr s); [reflexivity|].
  destruct (totalBytes s =? 0); reflexivity.
Qed.

Lemma runUpload_detached_eq (env : Env) (cfg : ClientConfig.t) (w : World) :
  runUpload_detached env cfg w
  = ((phase_result "upload sent no data" (upload_shared env cfg w)
        (upload_elapsed env cfg w),
      emit_all (fst (weave (upload_ticks env cfg w) (upload_last env cfg w)))
        (upload_joined env cfg w)),
     snd (weave (upload_ticks env cfg w) (upload_last env cfg w))).
Proof.
  unfold runUpload_detached, upload_ticks, upload_last,
    upload_joined, upload_shared, upload_elapsed, phase_result,
    final_report.
  destruct (upload_join env cfg w) as [start [s w1]]. cbn [fst snd].
  destruct (time_Since env start w1) as [elapsed w2]. cbn [fst snd].
  assert (E : added_by
                (fun w0 : World =>
                   if ClientConfig.Progress cfg
                   then reportProgress cfg "upload" 100
                          (bytesToMbps (totalBytes s) elapsed) 0 w0
                   else w0)
              = if ClientConfig.Progress cfg
                then [EvProgress
                        (ProgressUpdate.mk "upload" 100
                           (clamp_nonneg (bytesToMbps (totalBytes s) elapsed))
                           0)]
                else []).
  { destruct (ClientConfig.Progress cfg) eqn:Ep; [|reflexivity].
    rewrite added_by_reportProgress, Ep. reflexivity. }
  rewrite E.
  destruct (weave _ _) as [events late]. cbn [fst snd].
  destruct (runErr s); [reflexivity|].
  destruct (totalBytes s =? 0); reflexivity.
Qed.

Lemma runDownload_result (env : Env) (cfg : ClientConfig.t) (w : World) :
  fst (runDownload env cfg w)
  = phase_result "download returned no data" (download_shared env cfg w)
      (download_elapsed env cfg w).
Proof. unfold runDownload. now rewrite runDownload_detached_eq. Qed.

Lemma runUpload_result (env : Env) (cfg : ClientConfig.t) (w : World) :
  fst (runUpload env cfg w)
  = phase_result "upload sent no data" (upload_shared env cfg w)
      (upload_elapsed env cfg w).
Proof. unfold runUpload. now rewrite runUpload_detached_eq. Qed.

Lemma runDownload_world (env : Env) (cfg : ClientConfig.t) (w : World) :
  snd (runDownload env cfg w)
  = emit_all
      (fst (weave (download_ticks env cfg w) (download_last env cfg w)))
      (download_joined env cfg w).
Proof. unfold runDownload. now rewrite runDownload_detached_eq. Qed.

Lemma runUpload_world (env : Env) (cfg : ClientConfig.t) (w : World) :
  snd (runUpload env cfg w)
  = emit_all (fst (weave (upload_ticks env cfg w) (upload_last env cfg w)))
      (upload_joined env cfg w).
Proof. unfold runUpload. now rewrite runUpload_detached_eq. Qed.

Lemma download_left_eq (env : Env) (cfg : ClientConfig.t) (w : World) :
  download_left env cfg w
  = snd (weave (download_ticks env cfg w) (download_last env cfg w)).
Proof. unfold download_left. now rewrite runDownload_detached_eq. Qed.

Lemma upload_left_eq (env : Env) (cfg : ClientConfig.t) (w : World) :
  upload_left env cfg w
  = snd (weave (upload_ticks env cfg w) (upload_last env cfg w)).
Proof. unfold upload_left. now rewrite runUpload_detached_eq. Qed.

Lemma download_tick_events (env : Env) (cfg : ClientConfig.t)
  (start target current : Z) (w : World) :
  phase_events "download" w (download_tick env cfg start target current w).
Proof.
  unfold download_tick.
  pose proof (phase_events_Since "download" env start w) as H.
  destruct (time_Since env start w) as [elapsed w']. simpl in H.
  eapply phase_events_trans; [exact H|apply phase_events_reportProgress].
Qed.

Lemma upload_tick_events (env : Env) (cfg : ClientConfig.t)
  (start current : Z) (w : World) :
  phase_events "upload" w (upload_tick env cfg start current w).
Proof.
  unfold upload_tick.
  pose proof (phase_events_Since "upload" env start w) as H.
  destruct (time_Since env start w) as [elapsed w']. simpl in H.
  eapply phase_events_trans; [exact H|apply phase_events_reportProgress].
Qed.

Lemma phase_events_emit_all (ph : string) (events : list Event) (w : World) :
  Forall (fun ev => event_phase ev = ph) events ->
  phase_events ph w (emit_all events w).
Proof. intros H. exists events. split; [reflexivity|exact H]. Qed.

Lemma download_joined_events (env : Env) (cfg : ClientConfig.t) (w : World) :
  phase_events "download" w (download_joined env cfg w).
Proof.
  unfold download_joined, download_join.
  pose proof (phase_events_Now "download" env w) as H0.
  destruct (time_Now env w) as [start w0]. simpl in H0.
  match goal with |- context [exec ?tick ?steps (Shared_init, w0)] =>
    pose proof (phase_events_exec "download" tick steps Shared_init w0
                  (download_tick_events env cfg _ _)
                  (interleave_of_phase _ _ _ _
                     (download_workers_of_phase env cfg))) as H1;
    destruct (exec tick steps (Shared_init, w0)) as [s w1]
  end.
  simpl in H1.
  pose proof (phase_events_Since "download" env start w1) as H2.
  eapply phase_events_trans; [exact H0|].
  eapply phase_events_trans; [exact H1|exact H2].
Qed.

Lemma upload_joined_events (env : Env) (cfg : ClientConfig.t) (w : World) :
  phase_events "upload" w (upload_joined env cfg w).
Proof.
  unfold upload_joined, upload_join.
  pose proof (phase_events_Now "upload" env w) as H0.
  destruct (time_Now env w) as [start w0]. simpl in H0.
  match goal with |- context [exec ?tick ?steps (Shared_init, w0)] =>
    pose proof (phase_events_exec "upload" tick steps Shared_init w0
                  (upload_tick_events env cfg _)
                  (interleave_of_phase _ _ _ _
                     (upload_workers_of_phase env cfg))) as H1;
    destruct (exec tick steps (Shared_init, w0)) as [s w1]
  end.
  simpl in H1.
  pose proof (phase_events_Since "upload" env start w1) as H2.
  eapply phase_events_trans; [exact H0|].
  eapply phase_events_trans; [exact H1|exact H2].
Qed.

Lemma download_last_phase (env : Env) (cfg : ClientConfig.t) (w : World) :
  Forall (fun ev => event_phase ev = "download"%string)
    (download_last env cfg w).
Proof.
  unfold download_last. destruct (ClientConfig.Progress cfg);
    repeat constructor.
Qed.

Lemma upload_last_phase (env : Env) (cfg : ClientConfig.t) (w : World) :
  Forall (fun ev => event_phase ev = "upload"%string) (upload_last env cfg w).
Proof.
  unfold upload_last. destruct (ClientConfig.Progress cfg);
    repeat constructor.
Qed.

Lemma download_ticks_phase (env : Env) (cfg : ClientConfig.t) (w : World) :
  ticks_all (fun ev => event_phase ev = "download"%string)
    (download_ticks env cfg w).
Proof.
  eapply ticks_all_impl; [|apply download_ticks_reports].
  intros ev [now ->]. reflexivity.
Qed.

Lemma upload_ticks_phase (env : Env) (cfg : ClientConfig.t) (w : World) :
  ticks_all (fun ev => event_phase ev = "upload"%string)
    (upload_ticks env cfg w).
Proof.
  eapply ticks_all_impl; [|apply upload_ticks_reports].
  intros ev [now ->]. reflexivity.
Qed.

Lemma runDownload_events (env : Env) (cfg : ClientConfig.t) (w : World) :
  phase_events "download" w (snd (runDownload env cfg w)).
Proof.
  rewrite runDownload_world.
  eapply phase_events_trans; [apply download_joined_events|].
  apply phase_events_emit_all.
  apply weave_all; [apply download_ticks_phase|apply download_last_phase].
Qed.

Lemma runUpload_events (env : Env) (cfg : ClientConfig.t) (w : World) :
  phase_events "upload" w (snd (runUpload env cfg w)).
Proof.
  rewrite runUpload_world.
  eapply phase_events_trans; [apply upload_joined_events|].
  apply phase_events_emit_all.
  apply weave_all; [apply upload_ticks_phase|apply upload_last_phase].
Qed.

(* ================================================================== *)
(** * The run orchestrator *)

(** [RunClient] from its three phases.  The world it returns after the
    upload phase has the clock readings and the probes of the upload phase,
    and the trace of the download phase followed by the events of the upload
    phase woven with the ticks the download sampler still had to come. *)
Lemma RunClient_eq (env : Env) (cfg : ClientConfig.t) (w : World) :
  RunClient env cfg w
  = let cfg' := normalizeClientConfig cfg in
    let p := runPing env cfg' w in
    let d := runDownload env cfg' (snd p) in
    let u := runUpload env cfg' (snd d) in
    let w' :=
      mkWorld (clock_reads (snd u)) (probes (snd u))
        (trace (snd d)
         ++ fst (weave (download_left env cfg' (snd p))
                   (added (snd d) (snd u)))) in
    match snd (fst p) with
    | Some err => ((Result.zero, Some err), snd p)
    | None =>
        match snd (fst d) with
        | Some err => ((Result.zero, Some err), snd d)
        | None =>
            match snd (fst u) with
            | Some err => ((Result.zero, Some err), w')
            | None =>
                ((Result.mk (fst (fst p)) (fst (fst d)) (fst (fst u)), None),
                 w')
            end
        end
    end.
Proof.
  unfold RunClient, runDownload, download_left. cbv zeta.
  destruct (runPing env (normalizeClientConfig cfg) w)
    as [[pingRes pingErr] w1].
  cbn [fst snd]. destruct pingErr as [err|]; [reflexivity|].
  destruct (runDownload_detached env (normalizeClientConfig cfg) w1)
    as [[[downloadRes downloadErr] w2] late].
  cbn [fst snd]. destruct downloadErr as [err|]; [reflexivity|].
  destruct (runUpload env (normalizeClientConfig cfg) w2)
    as [[uploadRes uploadErr] w3].
  cbn [fst snd]. destruct uploadErr as [err|]; reflexivity.
Qed.

Lemma download_left_reports (env : Env) (cfg : ClientConfig.t) (w : World) :
  ticks_all (download_late_report env cfg w) (download_left env cfg w).
Proof.
  rewrite download_left_eq. apply weave_left_all, download_ticks_reports.
Qed.

Lemma upload_left_reports (env : Env) (cfg : ClientConfig.t) (w : World) :
  ticks_all (upload_late_report env cfg w) (upload_left env cfg w).
Proof.
  rewrite upload_left_eq. apply weave_left_all, upload_ticks_reports.
Qed.

Lemma download_late_report_is (env : Env) (cfg : ClientConfig.t) (w : World)
  (ev : Event) :
  download_late_report env cfg w ev -> is_download_report ev = true.
Proof. intros [now ->]. reflexivity. Qed.

Lemma upload_event_not_download (ev : Event) :
  event_phase ev = "upload"%string -> is_download_report ev = false.
Proof.
  destruct ev as [r|d|u]; try reflexivity.
  cbn [event_phase is_download_report]. intros ->. reflexivity.
Qed.

Lemma filter_none (X : Type) (f : X -> bool) (l : list X) :
  Forall (fun x => f x = false) l -> filter f l = [].
Proof.
  induction 1 as [|x l Hx Hl IH]; [reflexivity|].
  cbn [filter]. now rewrite Hx.
Qed.

Lemma filter_all (X : Type) (f : X -> bool) (l : list X) :
  Forall (fun x => f x = true) l -> filter f l = l.
Proof.
  induction 1 as [|x l Hx Hl IH]; [reflexivity|].
  cbn [filter]. now rewrite Hx, IH.
Qed.

(** The events of the upload phase woven with the late ticks of the
    download sampler: the events of the upload phase in their order, and
    between them only reports of the download sampler. *)
Lemma woven_upload (env : Env) (cfg : ClientConfig.t) (w1 : World)
  (main : list Event) :
  Forall (fun ev => event_phase ev = "upload"%string) main ->
  let woven := fst (weave (download_left env cfg w1) main) in
  filter (fun ev => negb (is_download_report ev)) woven = main
  /\ Forall (fun ev => event_phase ev = "upload"%string
                       \/ download_late_report env cfg w1 ev) woven.
Proof.
  intros Hm woven. split.
  - unfold woven.
    rewrite (weave_hidden Event
               (filter (fun ev => negb (is_download_report ev)))
               (fun a b => filter_app _ a b) eq_refl).
    + apply filter_all. revert Hm. apply Forall_impl. intros ev H.
      now rewrite (upload_event_not_download ev H).
    + pose proof (download_left_reports env cfg w1) as H.
      unfold ticks_all in H. revert H. apply Forall_impl. intros tick H.
      apply filter_none. revert H. apply Forall_impl. intros ev H.
      now rewrite (download_late_report_is env cfg w1 ev H).
  - apply weave_all.
    + eapply ticks_all_impl; [|apply download_left_reports].
      intros ev H. right. exact H.
    + revert Hm. apply Forall_impl. intros ev H. left. exact H.
Qed.


(** Under [env_sampled] the download sampler reports once more during the
    upload phase, after the request of the upload worker; the events the
    upload phase adds are otherwise those of [runUpload]. *)
Example RunClient_late_download_report :
  let cfg' := normalizeClientConfig cfg_with_sink in
  let w1 := snd (runPing env_sampled cfg' World_init) in
  let w2 := snd (runDownload env_sampled cfg' w1) in
  let w3 := snd (runUpload env_sampled cfg' w2) in
  let w' := snd (RunClient env_sampled cfg_with_sink World_init) in
  map event_phase (firstn 3 (added w2 w'))
  = ["upload"; "download"; "upload"]%string
  /\ nth_error (added w2 w') 0
     = Some (EvRequest (PostUpload "http://localhost:8080"))
  /\ nth_error (added w2 w') 1
     = Some (EvProgress
               (download_tick_report (fst (download_join env_sampled cfg' w1))
                  (40 * 1024 * 1024) 1000000 (4 * Second)))
  /\ filter (fun ev => negb (is_download_report ev)) (added w2 w')
     = added w2 w3
  /\ List.length (added w2 w') = S (List.length (added w2 w3)).
Proof. vm_compute. repeat split. Qed.

(* ================================================================== *)
(** * The shared state at the join *)

Lemma download_shared_runErr (env : Env) (cfg : ClientConfig.t) (w : World) :
  runErr (download_shared env cfg w)
  = first_err (interleave (ClientConfig.Progress cfg) (download_schedule env)
                 (download_workers env cfg)).
Proof.
  unfold download_shared, download_join.
  destruct (time_Now env w) as [start w0]. simpl.
  apply exec_runErr.
Qed.

Lemma download_shared_totalBytes (env : Env) (cfg : ClientConfig.t)
  (w : World) :
  totalBytes (download_shared env cfg w)
  = wrap64 (sum_adds (List.concat (download_workers env cfg))).
Proof.
  unfold download_shared, download_join.
  destruct (time_Now env w) as [start w0]. simpl.
  rewrite exec_totalBytes by (unfold in_range, min_int, max_int; simpl; lia).
  now rewrite interleave_sum_adds.
Qed.

Lemma upload_shared_runErr (env : Env) (cfg : ClientConfig.t) (w : World) :
  runErr (upload_shared env cfg w)
  = first_err (interleave (ClientConfig.Progress cfg) (upload_schedule env)
                 (upload_workers env cfg)).
Proof.
  unfold upload_shared, upload_join.
  destruct (time_Now env w) as [start w0]. simpl.
  apply exec_runErr.
Qed.

Lemma upload_shared_totalBytes (env : Env) (cfg : ClientConfig.t)
  (w : World) :
  totalBytes (upload_shared env cfg w)
  = wrap64 (sum_adds (List.concat (upload_workers env cfg))).
Proof.
  unfold upload_shared, upload_join.
  destruct (time_Now env w) as [start w0]. simpl.
  rewrite exec_totalBytes by (unfold in_range, min_int, max_int; simpl; lia).
  now rewrite interleave_sum_adds.
Qed.

(** The error a pool of workers ends with is one that one of them stored. *)
Lemma first_err_interleave (sampler : bool) (schedule : list nat)
  (ws : list (list Action)) (e : error) :
  first_err (interleave sampler schedule ws) = Some e ->
  exists acts, In acts ws /\ In (ASetErr e) acts.
Proof.
  intros H. apply first_err_in in H. apply interleave_in_err in H.
  apply in_concat in H. destruct H as [acts [H1 H2]]. eauto.
Qed.

(** When no worker stores an error, none is captured. *)
Lemma first_err_interleave_none (sampler : bool) (schedule : list nat)
  (ws : list (list Action)) :
  (forall acts, In acts ws -> first_err acts = None) ->
  first_err (interleave sampler schedule ws) = None.
Proof.
  intros H. apply first_err_none. intros e He.
  apply interleave_in_err in He. apply in_concat in He.
  destruct He as [acts [H1 H2]].
  specialize (H acts H1). rewrite first_err_none in H. exact (H e H2).
Qed.

(** When some worker stores an error, one is captured. *)
Lemma first_err_interleave_some (sampler : bool) (schedule : list nat)
  (ws : list (list Action)) (acts : list Action) (e : error) :
  In acts ws -> In (ASetErr e) acts ->
  exists e', first_err (interleave sampler schedule ws) = Some e'.
Proof.
  intros H1 H2.
  destruct (first_err (interleave sampler schedule ws)) as [e'|] eqn:E;
    [eauto|].
  rewrite first_err_none in E. exfalso. apply (E e).
  apply interleave_in_err. apply in_concat. eauto.
Qed.

(* ================================================================== *)
(** * The download phase *)

Lemma download_worker_read_fails (cfg : ClientConfig.t) (size : Z)
  (script : DownloadScript) (e e' : error) :
  download_read_fails script e ->
  In (ASetErr e') (download_worker cfg size script) -> e' = e.
Proof.
  intros [n [rest [-> He]]]. simpl. rewrite He. simpl.
  intros [H|H]; [discriminate|].
  apply in_app_or in H. destruct H as [H|H].
  - destruct (0 <? n); simpl in H; [destruct H as [H|[]]|destruct H].
    discriminate.
  - destruct H as [H|[]]. congruence.
Qed.

Lemma download_worker_read_fails_in (cfg : ClientConfig.t) (size : Z)
  (script : DownloadScript) (e : error) :
  download_read_fails script e ->
  In (ASetErr e) (download_worker cfg size script).
Proof.
  intros [n [rest [-> He]]]. simpl. rewrite He. simpl.
  right. apply in_or_app. right. now left.
Qed.

(** C3. In the download phase, with [s] the shared state once all workers
    have joined: a captured error is returned, with the zero metrics (the
    counter is dropped); with no captured error and a counter of zero the
    phase fails with the no-data error; otherwise it succeeds.  And when the
    first read of every worker fails with an error that is not the end of
    the stream, the phase fails with the error of one of those reads,
    whatever the schedule. *)
Theorem runDownload_error_priority (env : Env) (cfg : ClientConfig.t)
  (w : World) :
  let s := download_shared env cfg w in
  let res := fst (runDownload env cfg w) in
  (forall err, runErr s = Some err -> res = (SpeedMetrics.zero, Some err))
  /\ (runErr s = None -> totalBytes s = 0 ->
      res = (SpeedMetrics.zero,
             Some (errors_New "download returned no data")))
  /\ (runErr s = None -> totalBytes s <> 0 ->
      snd res = None /\ SpeedMetrics.Bytes (fst res) = totalBytes s)
  /\ (0 < ClientConfig.Streams cfg ->
      (forall i, (i < Z.to_nat (ClientConfig.Streams cfg))%nat ->
                 exists e, download_read_fails (download_stream env i) e) ->
      exists i e,
        (i < Z.to_nat (ClientConfig.Streams cfg))%nat
        /\ download_read_fails (download_stream env i) e
        /\ res = (SpeedMetrics.zero, Some e)).
Proof.
  intros s res. subst res. rewrite runDownload_result. fold s.
  unfold phase_result. split; [|split; [|split]].
  - intros err ->. reflexivity.
  - intros -> ->. reflexivity.
  - intros -> H. apply Z.eqb_neq in H. rewrite H. now split.
  - intros Hn Hall. subst s. rewrite download_shared_runErr.
    assert (H0 : (0 < Z.to_nat (ClientConfig.Streams cfg))%nat) by lia.
    destruct (Hall 0%nat H0) as [e0 He0].
    destruct (first_err_interleave_some (ClientConfig.Progress cfg)
                (download_schedule env) (download_workers env cfg)
                (download_worker cfg (perStreamBytes cfg)
                   (download_stream env 0)) e0) as [e' He'].
    + unfold download_workers. apply in_map_iff. exists 0%nat.
      split; [reflexivity|]. unfold stream_ids. apply in_seq. lia.
    + now apply download_worker_read_fails_in.
    + rewrite He'. apply first_err_interleave in He'.
      destruct He' as [acts [Hin Herr]].
      unfold download_workers in Hin. apply in_map_iff in Hin.
      destruct Hin as [i [<- Hi]]. unfold stream_ids in Hi.
      apply in_seq in Hi.
      destruct (Hall i ltac:(lia)) as [e He].
      exists i, e. split; [lia|]. split; [exact He|].
      now rewrite (download_worker_read_fails _ _ _ _ _ He Herr).
Qed.

(* ================================================================== *)
(** * The upload phase *)

Lemma upload_body_sum (t : timedReader) (calls : list ReadCall) :
  sum_adds (snd (upload_body t calls)) = body_bytes t calls.
Proof.
  revert t. induction calls as [|call rest IH]; intros t; simpl.
  - reflexivity.
  - unfold timedReader_Read.
    destruct (ctx_Err call); [reflexivity|].
    destruct ((chunkSize t <? Z.of_N (buf_len call)) && (chunkSize t <? 0)); [reflexivity|].
    destruct (rand_err call); [reflexivity|].
    match goal with |- context [upload_body ?t' rest] =>
      specialize (IH t'); destruct (upload_body t' rest) end.
    simpl in *. rewrite IH. reflexivity.
Qed.

Lemma upload_body_no_err (t : timedReader) (calls : list ReadCall) :
  first_err (snd (upload_body t calls)) = None.
Proof.
  revert t. induction calls as [|call rest IH]; intros t; simpl.
  - reflexivity.
  - unfold timedReader_Read.
    destruct (ctx_Err call); [reflexivity|].
    destruct ((chunkSize t <? Z.of_N (buf_len call)) && (chunkSize t <? 0)); [reflexivity|].
    destruct (rand_err call); [reflexivity|].
    match goal with |- context [upload_body ?t' rest] =>
      specialize (IH t'); destruct (upload_body t' rest) end.
    simpl in *. exact IH.
Qed.

(** The reader's own count is the same sum, as an int64. *)
Lemma upload_body_count (t : timedReader) (calls : list ReadCall) :
  in_range (count t) ->
  count (fst (upload_body t calls)) = wrap64 (count t + body_bytes t calls).
Proof.
  revert t. induction calls as [|call rest IH]; intros t Ht; simpl.
  - rewrite Z.add_0_r. symmetry. now apply wrap64_in_range.
  - unfold timedReader_Read.
    destruct (ctx_Err call);
      [simpl; rewrite Z.add_0_r; symmetry; now apply wrap64_in_range|].
    destruct ((chunkSize t <? Z.of_N (buf_len call)) && (chunkSize t <? 0));
      [simpl; rewrite Z.add_0_r; symmetry; now apply wrap64_in_range|].
    destruct (rand_err call);
      [simpl; rewrite Z.add_0_r; symmetry; now apply wrap64_in_range|].
    match goal with |- context [upload_body ?t' rest] =>
      specialize (IH t'); destruct (upload_body t' rest) end.
    simpl in *. rewrite IH by apply wrap64_range.
    unfold Int64.add. rewrite wrap64_add_l. f_equal. lia.
Qed.

Lemma first_err_app_none (l1 l2 : list Action) :
  first_err l1 = None -> first_err (l1 ++ l2) = first_err l2.
Proof.
  induction l1 as [|a l1 IH]; simpl; [reflexivity|].
  destruct a; auto. discriminate.
Qed.

(** Whatever the end of the request, the worker adds to the shared counter
    exactly the bytes its source generated. *)
Lemma upload_worker_sum (cfg : ClientConfig.t) (script : UploadScript) :
  sum_adds (upload_worker cfg script) = upload_generated cfg script.
Proof.
  unfold upload_worker, upload_generated.
  destruct (upload_new_request script); [reflexivity|].
  simpl. rewrite sum_adds_app, upload_body_sum.
  destruct (upload_do script) as [err|]; simpl; [|lia].
  destruct (errors_Is err context_DeadlineExceeded
            || errors_Is err context_Canceled); simpl; lia.
Qed.

Lemma upload_worker_quiet (cfg : ClientConfig.t) (script : UploadScript) :
  upload_ends_quietly script -> first_err (upload_worker cfg script) = None.
Proof.
  intros [Hreq Hdo]. unfold upload_worker. rewrite Hreq. simpl.
  rewrite first_err_app_none by apply upload_body_no_err.
  destruct (upload_do script) as [err|]; [|reflexivity].
  unfold expected_cancellation in Hdo. now rewrite Hdo.
Qed.

Lemma upload_workers_sum (env : Env) (cfg : ClientConfig.t) :
  sum_adds (List.concat (upload_workers env cfg))
  = upload_total_generated env cfg.
Proof.
  unfold upload_workers, upload_total_generated.
  induction (stream_ids cfg) as [|i ids IH]; simpl; [reflexivity|].
  rewrite sum_adds_app, upload_worker_sum, IH. reflexivity.
Qed.

(** C2. In the upload phase, whatever the schedule.  A worker that builds
    its request and whose [client.Do] ends with no error, or with a
    deadline-exceeded or cancellation error, records no fatal error; and
    every worker adds to the shared total exactly the bytes its source
    generated, so that the total at the join is the sum of the bytes
    generated by all workers (as an int64).  After the join a captured error
    is returned; with none captured the phase succeeds, with the Mbps of the
    total over the elapsed time, when the total is not zero, and fails with
    the no-data error when it is zero.  So when every worker ends quietly
    and at least one byte was generated, the phase succeeds with those bytes
    as its total. *)
Theorem runUpload_cancellation (env : Env) (cfg : ClientConfig.t)
  (w : World) :
  let s := upload_shared env cfg w in
  let res := fst (runUpload env cfg w) in
  let generated := upload_total_generated env cfg in
  let elapsed := upload_elapsed env cfg w in
  let all_quiet :=
    forall i, (i < Z.to_nat (ClientConfig.Streams cfg))%nat ->
              upload_ends_quietly (upload_stream env i) in
  (forall script, upload_ends_quietly script ->
                  first_err (upload_worker cfg script) = None)
  /\ (forall script, sum_adds (upload_worker cfg script)
                     = upload_generated cfg script)
  /\ totalBytes s = wrap64 generated
  /\ (all_quiet -> runErr s = None)
  /\ (forall err, runErr s = Some err -> res = (SpeedMetrics.zero, Some err))
  /\ (runErr s = None -> totalBytes s <> 0 ->
      res = (SpeedMetrics.mk (bytesToMbps (totalBytes s) elapsed)
               (totalBytes s) elapsed, None))
  /\ (runErr s = None -> totalBytes s = 0 ->
      res = (SpeedMetrics.zero, Some (errors_New "upload sent no data")))
  /\ (all_quiet -> 0 < generated <= max_int ->
      res = (SpeedMetrics.mk (bytesToMbps generated elapsed)
               generated elapsed, None)).
Proof.
  intros s res generated elapsed all_quiet.
  assert (Ht : totalBytes s = wrap64 generated).
  { subst s. now rewrite upload_shared_totalBytes, upload_workers_sum. }
  assert (He : all_quiet -> runErr s = None).
  { intros Hq. subst s. rewrite upload_shared_runErr.
    apply first_err_interleave_none.
    intros acts Hin. unfold upload_workers in Hin.
    apply in_map_iff in Hin. destruct Hin as [i [<- Hi]].
    unfold stream_ids in Hi. apply in_seq in Hi.
    apply upload_worker_quiet. apply Hq. lia. }
  subst res. rewrite runUpload_result. fold s elapsed. unfold phase_result.
  split; [intros script; apply upload_worker_quiet|].
  split; [intros script; apply upload_worker_sum|].
  split; [exact Ht|]. split; [exact He|].
  split; [intros err ->; reflexivity|].
  split; [intros -> Hnz; apply Z.eqb_neq in Hnz; now rewrite Hnz|].
  split; [intros -> ->; reflexivity|].
  intros Hq Hg. rewrite (He Hq), Ht.
  rewrite wrap64_in_range by (unfold in_range, min_int, max_int in *; lia).
  destruct (Z.eqb_spec generated 0); [lia|reflexivity].
Qed.

Lemma runUpload_cancellation_witness :
  fst (runUpload env_scenario_C cfg_scenario_C World_init)
  = (SpeedMetrics.mk
       (bytesToMbps 500000 (upload_elapsed env_scenario_C cfg_scenario_C
                              World_init))
       500000
       (upload_elapsed env_scenario_C cfg_scenario_C World_init), None).
Proof.
  refine (proj2 (proj2 (proj2 (proj2 (proj2 (proj2 (proj2
    (runUpload_cancellation env_scenario_C cfg_scenario_C World_init)))))))
    _ _).
  - intros i Hi. split; [reflexivity|]. reflexivity.
  - vm_compute. split; [reflexivity|]. discriminate.
Defined.

(* ================================================================== *)
(** * The shared byte counter *)

Lemma sum_adds_concat_const (workers : list (list Action)) (amount : Z) :
  (forall acts, In acts workers -> sum_adds acts = amount) ->
  sum_adds (List.concat workers) = len workers * amount.
Proof.
  unfold len. induction workers as [|acts workers IH]; intros H.
  - reflexivity.
  - simpl List.concat. rewrite sum_adds_app, (H acts (or_introl eq_refl)).
    rewrite IH by (intros a Ha; apply H; now right).
    simpl List.length. lia.
Qed.

(** Only an atomic add changes the counter. *)
Lemma step_totalBytes (on_tick : Z -> World -> World) (a : Action)
  (s : Shared) (w : World) :
  totalBytes (fst (step on_tick a (s, w)))
  = match a with
    | AAdd delta => Int64.add (totalBytes s) delta
    | _ => totalBytes s
    end.
Proof.
  destruct a; simpl; try reflexivity. destruct (errOnce s); reflexivity.
Qed.

Lemma download_read_loop_made (reads : list (Z * option error)) :
  sum_adds (download_read_loop reads) = counted_bytes (reads_made reads).
Proof.
  induction reads as [|[n err] rest IH]; [reflexivity|].
  cbn [download_read_loop]. rewrite sum_adds_app.
  assert (Hn : sum_adds (if 0 <? n then [AAdd n] else []) = Z.max 0 n).
  { destruct (Z.ltb_spec 0 n); cbn; lia. }
  rewrite Hn. destruct err as [e|]; cbn [reads_made].
  - destruct (negb (errors_Is e io_EOF)); cbn; lia.
  - rewrite IH. reflexivity.
Qed.

Lemma download_worker_amount (cfg : ClientConfig.t) (perStream : Z)
  (script : DownloadScript) :
  sum_adds (download_worker cfg perStream script) = download_amount script.
Proof.
  destruct script as [e|e|reads]; try reflexivity.
  cbn [download_worker download_amount].
  rewrite <- download_read_loop_made. reflexivity.
Qed.

Lemma body_bytes_served (calls : list ReadCall) :
  forall t,
    0 <= chunkSize t ->
    body_bytes t calls = asked_bytes (chunkSize t) (reads_served calls).
Proof.
  induction calls as [|call rest IH]; intros t Ht; [reflexivity|].
  cbn [body_bytes reads_served]. unfold timedReader_Read.
  destruct (ctx_Err call); [reflexivity|].
  destruct (Z.ltb_spec (chunkSize t) 0) as [Hneg|_]; [lia|].
  rewrite andb_false_r.
  destruct (rand_err call); [reflexivity|].
  cbn [asked_bytes fold_right].
  fold (asked_bytes (chunkSize t) (reads_served rest)).
  match goal with |- context [body_bytes ?t1 rest] =>
    rewrite (IH t1) by exact Ht
  end.
  cbn [chunkSize].
  destruct (Z.ltb_spec (chunkSize t) (Z.of_N (buf_len call))); lia.
Qed.

Lemma upload_worker_amount (cfg : ClientConfig.t) (script : UploadScript) :
  0 <= ClientConfig.ChunkSize cfg ->
  sum_adds (upload_worker cfg script) = upload_amount cfg script.
Proof.
  intros Hc. rewrite upload_worker_sum. unfold upload_generated, upload_amount.
  destruct (upload_new_request script); [reflexivity|].
  now apply body_bytes_served.
Qed.

(** The workers of a phase whose streams all add [amount]. *)
Lemma workers_sum_const (worker : nat -> list Action) (n : nat) (amount : Z) :
  (forall i, (i < n)%nat -> sum_adds (worker i) = amount) ->
  sum_adds (List.concat (map worker (seq 0 n))) = Z.of_nat n * amount.
Proof.
  intros H.
  rewrite (sum_adds_concat_const (map worker (seq 0 n)) amount).
  - unfold len. now rewrite length_map, length_seq.
  - intros acts Hin. apply in_map_iff in Hin. destruct Hin as [i [<- Hi]].
    apply in_seq in Hi. apply H. lia.
Qed.

(** C9. For a chunk size that is not negative, let each of the N workers
    of a throughput phase, N the number of streams, add the same amount to
    the shared counter of the phase: in the
    download phase the body of every stream delivers [amount] bytes over the
    reads the worker makes, in the upload phase the source of every worker
    hands [amount] bytes to the transport over the calls of [Read] that
    succeed.  Whatever the schedule interleaves, and whatever the sampler
    does in between, the counter after the join is N times the amount, as an
    int64, and exactly N times the amount when that fits: no update is
    lost.  Every step that changes the counter is one atomic add on its
    current value, and a [Read] that succeeds makes one atomic add, of the
    bytes it returns. *)
Theorem counter_no_lost_updates (env : Env) (cfg : ClientConfig.t)
  (amount : Z) (w : World) :
  0 <= ClientConfig.Streams cfg ->
  0 <= ClientConfig.ChunkSize cfg ->
  let N := ClientConfig.Streams cfg in
  ((forall i, (i < Z.to_nat N)%nat ->
              download_amount (download_stream env i) = amount) ->
   totalBytes (download_shared env cfg w) = Int64.mul N amount
   /\ (in_range (N * amount) ->
       totalBytes (download_shared env cfg w) = N * amount))
  /\ ((forall i, (i < Z.to_nat N)%nat ->
                 upload_amount cfg (upload_stream env i) = amount) ->
      totalBytes (upload_shared env cfg w) = Int64.mul N amount
      /\ (in_range (N * amount) ->
          totalBytes (upload_shared env cfg w) = N * amount))
  /\ (forall (on_tick : Z -> World -> World) a s' w',
        totalBytes (fst (step on_tick a (s', w')))
        = match a with
          | AAdd delta => Int64.add (totalBytes s') delta
          | _ => totalBytes s'
          end)
  /\ (forall t call t' n acts,
        timedReader_Read t call = (t', (n, None), acts) -> acts = [AAdd n]).
Proof.
  intros HN Hc N.
  assert (Hfit : forall total,
             total = Int64.mul N amount ->
             total = Int64.mul N amount
             /\ (in_range (N * amount) -> total = N * amount)).
  { intros total ->. split; [reflexivity|].
    intros Hr. now apply wrap64_in_range. }
  split; [|split; [|split]].
  - intros H. apply Hfit. rewrite download_shared_totalBytes.
    unfold download_workers, stream_ids, Int64.mul. fold N.
    rewrite (workers_sum_const _ _ amount), Z2Nat.id by
      (try exact HN; intros i Hi; rewrite download_worker_amount; now apply H).
    reflexivity.
  - intros H. apply Hfit. rewrite upload_shared_totalBytes.
    unfold upload_workers, stream_ids, Int64.mul. fold N.
    rewrite (workers_sum_const _ _ amount), Z2Nat.id by
      (try exact HN; intros i Hi; rewrite upload_worker_amount by exact Hc;
       now apply H).
    reflexivity.
  - intros on_tick a s' w'. apply step_totalBytes.
  - intros t call t' n acts. unfold timedReader_Read.
    destruct (ctx_Err call); [discriminate|].
    destruct ((chunkSize t <? Z.of_N (buf_len call)) && (chunkSize t <? 0));
      [discriminate|].
    destruct (rand_err call); [discriminate|].
    intros [= _ <- <-]. reflexivity.
Qed.

(** The theorem at three workers under a schedule that interleaves them with
    the sampler: the download streams deliver 1,000,000 bytes each, in
    different reads, and the upload sources hand 131,072 bytes each to the
    transport, from buffers of different sizes. *)
Lemma counter_no_lost_updates_witness :
  totalBytes (download_shared env_counter cfg_counter World_init) = 3000000
  /\ totalBytes (upload_shared env_counter cfg_counter World_init) = 393216.
Proof.
  split.
  - refine (proj2 (proj1 (counter_no_lost_updates env_counter cfg_counter
                            1000000 World_init _ _) _) _).
    + cbn. lia.
    + cbn. lia.
    + intros [|[|i]] _; reflexivity.
    + unfold in_range, min_int, max_int. cbn. lia.
  - refine (proj2 (proj1 (proj2 (counter_no_lost_updates env_counter
                                   cfg_counter 131072 World_init _ _)) _) _).
    + cbn. lia.
    + cbn. lia.
    + intros [|[|i]] _; reflexivity.
    + unfold in_range, min_int, max_int. cbn. lia.
Defined.

(* ================================================================== *)
(** * A successful run has counted bytes *)

Lemma download_read_loop_nonneg (reads : list (Z * option error)) :
  0 <= sum_adds (download_read_loop reads).
Proof.
  induction reads as [|[read err] rest IH]; simpl; [lia|].
  rewrite sum_adds_app.
  assert (0 <= sum_adds (if 0 <? read then [AAdd read] else [])).
  { destruct (Z.ltb_spec 0 read); simpl; lia. }
  destruct err as [err|]; [|lia].
  destruct (negb (errors_Is err io_EOF)); simpl; lia.
Qed.

Lemma download_total_read_nonneg (env : Env) (cfg : ClientConfig.t) :
  0 <= download_total_read env cfg.
Proof.
  unfold download_total_read, download_workers.
  induction (stream_ids cfg) as [|i ids IH]; simpl; [lia|].
  rewrite sum_adds_app.
  assert (0 <= sum_adds (download_worker cfg (perStreamBytes cfg)
                           (download_stream env i))).
  { unfold download_worker. destruct (download_stream env i); simpl; try lia.
    apply download_read_loop_nonneg. }
  lia.
Qed.

Lemma body_bytes_nonneg (t : timedReader) (calls : list ReadCall) :
  0 <= chunkSize t -> 0 <= body_bytes t calls.
Proof.
  revert t. induction calls as [|call rest IH]; intros t Ht; simpl; [lia|].
  unfold timedReader_Read.
  destruct (ctx_Err call); [lia|].
  destruct ((chunkSize t <? Z.of_N (buf_len call)) && (chunkSize t <? 0)); [lia|].
  destruct (rand_err call); [lia|].
  match goal with |- context [body_bytes ?t' rest] =>
    specialize (IH t' Ht) end.
  destruct (Z.ltb_spec (chunkSize t) (Z.of_N (buf_len call))); lia.
Qed.

Lemma upload_total_generated_nonneg (env : Env) (cfg : ClientConfig.t) :
  0 <= ClientConfig.ChunkSize cfg -> 0 <= upload_total_generated env cfg.
Proof.
  intros Hc. unfold upload_total_generated.
  induction (stream_ids cfg) as [|i ids IH]; simpl; [lia|].
  assert (0 <= upload_generated cfg (upload_stream env i)).
  { unfold upload_generated.
    destruct (upload_new_request (upload_stream env i)); [lia|].
    now apply body_bytes_nonneg. }
  lia.
Qed.

Lemma phase_result_ok (no_data : string) (s : Shared)
  (elapsed : time.Duration) (res : SpeedMetrics.t) :
  phase_result no_data s elapsed = (res, None) ->
  SpeedMetrics.Bytes res = totalBytes s /\ totalBytes s <> 0.
Proof.
  unfold phase_result. destruct (runErr s); [discriminate|].
  destruct (Z.eqb_spec (totalBytes s) 0); [discriminate|].
  intros [= <-]. simpl. auto.
Qed.

(** C10. Whenever [RunClient] returns with no error, the byte counts of the
    download and of the upload of its Result are not zero; they are
    strictly positive when the counters did not overflow, that is when the
    bytes read by the download workers, and the bytes generated by the upload
    workers, fit an int64. *)
Theorem RunClient_ok_bytes_positive (env : Env) (cfg : ClientConfig.t)
  (w w' : World) (res : Result.t) :
  RunClient env cfg w = ((res, None), w') ->
  let cfg' := normalizeClientConfig cfg in
  (SpeedMetrics.Bytes (Result.Download res) <> 0
   /\ SpeedMetrics.Bytes (Result.Upload res) <> 0)
  /\ (download_total_read env cfg' <= max_int ->
      0 < SpeedMetrics.Bytes (Result.Download res))
  /\ (upload_total_generated env cfg' <= max_int ->
      0 < SpeedMetrics.Bytes (Result.Upload res)).
Proof.
  intros Hrun cfg'. rewrite RunClient_eq in Hrun. cbv zeta in Hrun.
  fold cfg' in Hrun.
  destruct (runPing env cfg' w) as [[pingRes pingErr] w1].
  cbn [fst snd] in Hrun.
  destruct pingErr; [discriminate|].
  pose proof (runDownload_result env cfg' w1) as Hd.
  destruct (runDownload env cfg' w1) as [[downloadRes downloadErr] w2].
  cbn [fst snd] in Hrun.
  destruct downloadErr; [discriminate|].
  pose proof (runUpload_result env cfg' w2) as Hu.
  destruct (runUpload env cfg' w2) as [[uploadRes uploadErr] w3].
  cbn [fst snd] in Hrun.
  destruct uploadErr; [discriminate|].
  injection Hrun as <- _. simpl in *.
  symmetry in Hd, Hu.
  apply phase_result_ok in Hd. apply phase_result_ok in Hu.
  destruct Hd as [Hd Hdz], Hu as [Hu Huz].
  rewrite download_shared_totalBytes in Hd, Hdz.
  rewrite upload_shared_totalBytes, upload_workers_sum in Hu, Huz.
  fold (download_total_read env cfg') in Hd, Hdz.
  split; [split; congruence|]. split.
  - intros Hr. pose proof (download_total_read_nonneg env cfg') as Hn.
    rewrite wrap64_in_range in Hd, Hdz
      by (unfold in_range, min_int, max_int in *; lia).
    lia.
  - intros Hr.
    assert (Hc : 0 <= ClientConfig.ChunkSize cfg').
    { pose proof (normalizeClientConfig_ChunkSize cfg). subst cfg'. lia. }
    pose proof (upload_total_generated_nonneg env cfg' Hc) as Hn.
    rewrite wrap64_in_range in Hu, Huz
      by (unfold in_range, min_int, max_int in *; lia).
    lia.
Qed.

(* ================================================================== *)
(** * The progress events of the latency prober *)

Lemma ping_iteration_ok (env : Env) (cfg : ClientConfig.t) (i : Z)
  (results : list time.Duration) (w : World) :
  ping_get env (probes w) = None ->
  ping_iteration env cfg i results w
  = (inr (results ++ [ping_sample env (clock_reads w)]),
     mkWorld (S (S (S (clock_reads w)))) (S (probes w))
       (trace w ++ ping_iteration_trace env cfg (clock_reads w) i)).
Proof.
  intros Hok.
  unfold ping_iteration, time_Since, time_Now, client_Get_ping.
  cbv zeta beta iota. simpl. rewrite Hok. simpl.
  rewrite reportProgress_unfold.
  unfold ping_iteration_trace, ping_update, ping_since, ping_sample,
    ping_percent, time_Sleep, emit.
  destruct (ClientConfig.Progress cfg),
    (i <? ClientConfig.PingCount cfg - 1); simpl.
  all: repeat rewrite <- app_assoc; reflexivity.
Qed.

Lemma progress_events_app (t1 t2 : list Event) :
  progress_events (t1 ++ t2) = progress_events t1 ++ progress_events t2.
Proof.
  induction t1 as [|ev t1 IH]; simpl; [reflexivity|].
  destruct ev; simpl; now rewrite IH.
Qed.

Lemma progress_events_iteration (env : Env) (cfg : ClientConfig.t) (r : nat)
  (i : Z) :
  progress_events (ping_iteration_trace env cfg r i)
  = if ClientConfig.Progress cfg then [ping_update env cfg r i] else [].
Proof.
  unfold ping_iteration_trace.
  destruct (ClientConfig.Progress cfg),
    (i <? ClientConfig.PingCount cfg - 1); reflexivity.
Qed.

(** The loop, while the probes succeed: the event of the probe [k] steps
    ahead is the [k]-th progress event of the loop. *)
Lemma ping_loop_nth_progress (env : Env) (cfg : ClientConfig.t) (n : nat) :
  forall (k : nat) (i : Z) (results : list time.Duration) (w : World),
    ClientConfig.Progress cfg = true ->
    (k < n)%nat ->
    (forall j, (j <= k)%nat -> ping_get env (probes w + j)%nat = None) ->
    exists t,
      trace (snd (ping_loop env cfg n i results w)) = trace w ++ t
      /\ nth_error (progress_events t) k
         = Some (ping_update env cfg (clock_reads w + 3 * k)%nat
                   (i + Z.of_nat k)).
Proof.
  induction n as [|n IH]; intros k i results w Hp Hk Hok; [lia|].
  simpl ping_loop.
  assert (H0 : ping_get env (probes w) = None).
  { specialize (Hok 0%nat ltac:(lia)). now rewrite Nat.add_0_r in Hok. }
  rewrite (ping_iteration_ok env cfg i results w H0).
  set (w1 := mkWorld _ _ _).
  destruct (ping_loop_events env cfg n (i + 1)
              (results ++ [ping_sample env (clock_reads w)]) w1)
    as [t' [Ht' _]].
  exists (ping_iteration_trace env cfg (clock_reads w) i ++ t').
  split.
  - rewrite Ht'. unfold w1. cbn [trace]. now rewrite app_assoc.
  - rewrite progress_events_app, progress_events_iteration, Hp.
    destruct k as [|k].
    + simpl. do 2 f_equal; [f_equal; lia|lia].
    + simpl nth_error.
      destruct (IH k (i + 1)
                  (results ++ [ping_sample env (clock_reads w)]) w1 Hp
                  ltac:(lia)) as [t'' [Ht'' Hn]].
      { intros j Hj. unfold w1. simpl.
        specialize (Hok (S j) ltac:(lia)).
        now replace (S (probes w + j))%nat with (probes w + S j)%nat by lia. }
      rewrite Ht' in Ht''. apply app_inv_head in Ht''. subst t''.
      rewrite Hn. unfold w1. simpl.
      do 2 f_equal; [f_equal; lia|lia].
Qed.

(** When all its probes succeed, the loop delivers exactly one progress
    event for each of them, in order, when a sink is set, and none when no
    sink is set. *)
Lemma ping_loop_all_progress (env : Env) (cfg : ClientConfig.t) (n : nat) :
  forall (i : Z) (results : list time.Duration) (w : World),
    (forall j, (j < n)%nat -> ping_get env (probes w + j)%nat = None) ->
    exists t,
      trace (snd (ping_loop env cfg n i results w)) = trace w ++ t
      /\ progress_events t
         = if ClientConfig.Progress cfg
           then map (fun k => ping_update env cfg (clock_reads w + 3 * k)%nat
                                (i + Z.of_nat k)) (seq 0 n)
           else [].
Proof.
  induction n as [|n IH]; intros i results w Hok.
  - exists []. simpl. rewrite app_nil_r.
    destruct (ClientConfig.Progress cfg); auto.
  - simpl ping_loop.
    assert (H0 : ping_get env (probes w) = None).
    { specialize (Hok 0%nat ltac:(lia)). now rewrite Nat.add_0_r in Hok. }
    rewrite (ping_iteration_ok env cfg i results w H0).
    set (w1 := mkWorld _ _ _).
    destruct (IH (i + 1) (results ++ [ping_sample env (clock_reads w)]) w1)
      as [t' [Ht' Hev]].
    { intros j Hj. unfold w1. simpl.
      specialize (Hok (S j) ltac:(lia)).
      now replace (S (probes w + j))%nat with (probes w + S j)%nat by lia. }
    exists (ping_iteration_trace env cfg (clock_reads w) i ++ t').
    split.
    + rewrite Ht'. unfold w1. cbn [trace]. now rewrite app_assoc.
    + rewrite progress_events_app, progress_events_iteration, Hev.
      destruct (ClientConfig.Progress cfg); [|reflexivity].
      simpl. f_equal.
      * f_equal; lia.
      * rewrite <- seq_shift, map_map. apply map_ext. intros k.
        unfold w1. cbn [clock_reads]. f_equal; lia.
Qed.

Lemma runPing_world (env : Env) (cfg : ClientConfig.t) (w : World) :
  snd (runPing env cfg w)
  = snd (ping_loop env cfg (Z.to_nat (ClientConfig.PingCount cfg)) 0 [] w).
Proof.
  destruct (Z.lt_ge_cases (ClientConfig.PingCount cfg) 0) as [Hneg|Hpos].
  { rewrite (runPing_panics env cfg w Hneg).
    replace (Z.to_nat (ClientConfig.PingCount cfg)) with O by lia.
    reflexivity. }
  rewrite (runPing_counted env cfg w Hpos).
  destruct (ping_loop env cfg _ 0 [] w) as [[err|results] w']; simpl.
  - reflexivity.
  - destruct (len results =? 0); reflexivity.
Qed.

(** With no sink the loop delivers no progress event, whether its probes
    succeed or not. *)
Lemma ping_loop_no_sink (env : Env) (cfg : ClientConfig.t) (n : nat) :
  forall (i : Z) (results : list time.Duration) (w : World),
    ClientConfig.Progress cfg = false ->
    exists t,
      trace (snd (ping_loop env cfg n i results w)) = trace w ++ t
      /\ progress_events t = [].
Proof.
  induction n as [|n IH]; intros i results w Hp.
  - exists []. simpl. now rewrite app_nil_r.
  - simpl ping_loop.
    destruct (ping_get env (probes w)) as [err|] eqn:Hget.
    + unfold ping_iteration, time_Now, client_Get_ping.
      cbv zeta beta iota. simpl. rewrite Hget. simpl.
      exists [EvRequest (GetPing (ClientConfig.BaseURL cfg))]. auto.
    + rewrite (ping_iteration_ok env cfg i results w Hget).
      set (w1 := mkWorld _ _ _).
      destruct (IH (i + 1) (results ++ [ping_sample env (clock_reads w)])
                  w1 Hp) as [t' [Ht' Hev]].
      exists (ping_iteration_trace env cfg (clock_reads w) i ++ t').
      split.
      * rewrite Ht'. unfold w1. cbn [trace]. now rewrite app_assoc.
      * rewrite progress_events_app, progress_events_iteration, Hp, Hev.
        reflexivity.
Qed.

(** The reporter's clamp leaves the percent of a probe as it is. *)
Lemma clamp_percent_ping (cfg : ClientConfig.t) (i : Z) :
  0 <= i < ClientConfig.PingCount cfg ->
  ClientConfig.PingCount cfg <= max_int ->
  clamp_percent (ping_percent cfg i) = ping_percent cfg i.
Proof.
  intros Hi Hn. unfold clamp_percent, ping_percent.
  destruct (ratio_percent_in_range (i + 1) (ClientConfig.PingCount cfg)
              ltac:(lia) Hn) as [H0 H100].
  cbv zeta in H0, H100. rewrite H0, H100. reflexivity.
Qed.

Lemma Sub_nonneg (t u : Z) : u <= t -> 0 <= time.Sub t u <= max_int.
Proof. unfold time.Sub, min_int, max_int. lia. Qed.

Lemma Milliseconds_nonneg (d : time.Duration) :
  0 <= d <= max_int -> 0 <= Milliseconds d <= max_int.
Proof.
  intros Hd. unfold Milliseconds, Int64.div.
  rewrite Z.quot_div_nonneg by lia.
  assert (H : 0 <= d / 1000000 <= d).
  { split; [apply Z.div_pos; lia|].
    apply Z.div_le_upper_bound; lia. }
  rewrite wrap64_in_range; [lia|].
  unfold in_range, min_int, max_int in *. lia.
Qed.

(** On a clock that does not go back the reporter's clamp leaves the
    milliseconds of a probe as they are. *)
Lemma clamp_nonneg_ping_ms (env : Env) (r : nat) :
  clock env r <= clock env (S (S r)) ->
  clamp_nonneg (Float64.of_int (Milliseconds (ping_since env r)))
  = Float64.of_int (Milliseconds (ping_since env r)).
Proof.
  intros Hc. unfold clamp_nonneg.
  rewrite of_int_nonneg_not_lt_0; [reflexivity|].
  apply Milliseconds_nonneg. unfold ping_since. now apply Sub_nonneg.
Qed.

(** C8, as amended.  In the ping phase with n = PingCount, let the probes
    up to the one of index k (from 0, k < n) succeed.  With a progress sink
    set, the k-th progress event of the phase is the one of that probe: its
    phase is "ping", its percent is (k+1)/n * 100 (in float64), its Mbps is
    0, and its ping milliseconds are the whole milliseconds of the time
    since the start of the probe at a clock reading of its own, taken after
    the reading of the sample (on a clock that does not go back; clamped to
    0 otherwise).  That time is the sample when the two readings agree.
    When all n probes succeed these are all the progress events of the
    phase, one for each probe.  With no sink set, no progress event is
    delivered. *)
Theorem runPing_progress (env : Env) (cfg : ClientConfig.t) (w : World)
  (k : nat) :
  (k < Z.to_nat (ClientConfig.PingCount cfg))%nat ->
  ClientConfig.PingCount cfg <= max_int ->
  (forall j, (j <= k)%nat -> ping_get env (probes w + j)%nat = None) ->
  let n := Z.to_nat (ClientConfig.PingCount cfg) in
  let r := (clock_reads w + 3 * k)%nat in
  let u := ping_update env cfg r (Z.of_nat k) in
  exists t,
    trace (snd (runPing env cfg w)) = trace w ++ t
    /\ (ClientConfig.Progress cfg = true ->
        nth_error (progress_events t) k = Some u)
    /\ (ClientConfig.Progress cfg = true ->
        (forall j, (j < n)%nat -> ping_get env (probes w + j)%nat = None) ->
        progress_events t
        = map (fun j => ping_update env cfg (clock_reads w + 3 * j)%nat
                          (Z.of_nat j)) (seq 0 n))
    /\ (ClientConfig.Progress cfg = false -> progress_events t = [])
    /\ ProgressUpdate.Phase u = "ping"%string
    /\ ProgressUpdate.Percent u = ping_percent cfg (Z.of_nat k)
    /\ ProgressUpdate.Mbps u = 0%float
    /\ ProgressUpdate.PingMs u
       = clamp_nonneg (Float64.of_int (Milliseconds (ping_since env r)))
    /\ (clock env r <= clock env (S (S r)) ->
        ProgressUpdate.PingMs u
        = Float64.of_int (Milliseconds (ping_since env r)))
    /\ (clock env (S (S r)) = clock env (S r) ->
        ping_since env r = ping_sample env r).
Proof.
  intros Hk Hmax Hok n r u. rewrite runPing_world. fold n.
  destruct (ping_loop_events env cfg n 0 [] w) as [t [Ht _]].
  exists t. split; [exact Ht|].
  split; [|split; [|split]].
  - intros Hp.
    destruct (ping_loop_nth_progress env cfg n k 0 [] w Hp Hk Hok)
      as [t1 [Ht1 Hn]].
    rewrite Ht in Ht1. apply app_inv_head in Ht1. subst t1. exact Hn.
  - intros Hp Hall.
    destruct (ping_loop_all_progress env cfg n 0 [] w Hall) as [t1 [Ht1 Hev]].
    rewrite Ht in Ht1. apply app_inv_head in Ht1. subst t1.
    rewrite Hev, Hp. reflexivity.
  - intros Hp.
    destruct (ping_loop_no_sink env cfg n 0 [] w Hp) as [t1 [Ht1 Hev]].
    rewrite Ht in Ht1. apply app_inv_head in Ht1. subst t1. exact Hev.
  - split; [reflexivity|]. split.
    { subst u. unfold ping_update. simpl.
      apply clamp_percent_ping; [|exact Hmax]. unfold n in *. lia. }
    split; [reflexivity|]. split; [reflexivity|]. split.
    + intros Hc. subst u. unfold ping_update. simpl.
      now apply clamp_nonneg_ping_ms.
    + intros Hc. unfold ping_since, ping_sample. now rewrite Hc.
Qed.

(** The theorem at the first probe of a phase of six, under that clock: the
    event reports 11 ms for a sample of 10.4 ms. *)
Lemma runPing_progress_witness :
  exists t,
    trace (snd (runPing env_late_reading cfg_with_sink World_init))
    = trace World_init ++ t
    /\ nth_error (progress_events t) 0
       = Some (ping_update env_late_reading cfg_with_sink 0 0)
    /\ ProgressUpdate.PingMs (ping_update env_late_reading cfg_with_sink 0 0)
       = 11%float
    /\ ping_sample env_late_reading 0 = 10400000.
Proof.
  destruct (runPing_progress env_late_reading cfg_with_sink World_init 0)
    as [t [Ht [Hn _]]].
  - vm_compute. lia.
  - vm_compute. discriminate.
  - intros j Hj. reflexivity.
  - exists t. split; [exact Ht|]. split; [exact (Hn eq_refl)|].
    split; reflexivity.
Defined.

(** C8, as the claim states it, fails.  Under the clock above the sample of
    the first probe is 10.4 ms, and the one progress event delivered for it
    reports 11 ms: the reading for the event is taken after the one for the
    sample.  And with no sink set a probe that succeeds delivers no
    event. *)
Lemma ping_iteration_not_as_claimed :
  ~ ping_iteration_as_claimed env_late_reading cfg_with_sink 0 [] World_init
  /\ ~ ping_iteration_as_claimed env_late_reading cfg_scenario_C 0 []
         World_init.
Proof.
  split; intros H; destruct (H eq_refl) as [sample [t [H1 [H2 H3]]]];
    vm_compute in H1; injection H1 as <-;
    vm_compute in H2; subst t.
  - apply (f_equal (fun l => match l with
                             | u :: _ =>
                                 PrimFloat.eqb (ProgressUpdate.PingMs u) 10
                             | [] => true
                             end)) in H3.
    vm_compute in H3. discriminate.
  - apply (f_equal (@List.length _)) in H3. discriminate.
Qed.

(* ================================================================== *)
(** * The reports of a run

    No phase computes a NaN: the divisors of the raw values are the float
    of a positive int and the seconds of a positive duration.  So every
    progress event a run delivers is within the ranges. *)

Lemma reports_same_trace (w w' : World) :
  trace w' = trace w -> reports_in_range w w'.
Proof.
  intros H. exists []. rewrite app_nil_r. split; [exact H|constructor].
Qed.

Lemma reports_refl (w : World) : reports_in_range w w.
Proof. now apply reports_same_trace. Qed.

Lemma reports_trans (w1 w2 w3 : World) :
  reports_in_range w1 w2 -> reports_in_range w2 w3 ->
  reports_in_range w1 w3.
Proof.
  intros [t1 [E1 F1]] [t2 [E2 F2]]. exists (t1 ++ t2). split.
  - rewrite E2, E1. now rewrite app_assoc.
  - rewrite progress_events_app. apply Forall_app. auto.
Qed.

Lemma reports_emit (ev : Event) (w : World) :
  match ev with
  | EvProgress u => update_in_range u = true
  | _ => True
  end ->
  reports_in_range w (emit ev w).
Proof.
  intros Hev. exists [ev]. split; [reflexivity|].
  destruct ev; simpl; auto.
Qed.

Lemma reports_reportProgress (cfg : ClientConfig.t) (phase : string)
  (percent mbps pingMs : float) (w : World) :
  is_nan percent = false -> is_nan mbps = false -> is_nan pingMs = false ->
  reports_in_range w (reportProgress cfg phase percent mbps pingMs w).
Proof.
  intros Hp Hm Hg. rewrite reportProgress_unfold.
  destruct (ClientConfig.Progress cfg); [|apply reports_refl].
  apply reports_emit.
  unfold update_in_range. cbn [ProgressUpdate.Percent ProgressUpdate.Mbps
    ProgressUpdate.PingMs].
  rewrite clamp_percent_in_range, !clamp_nonneg_nonnegative by assumption.
  reflexivity.
Qed.

Lemma reports_exec (on_tick : Z -> World -> World) (acts : list Action) :
  (forall current w, reports_in_range w (on_tick current w)) ->
  forall (s : Shared) (w : World),
    reports_in_range w (snd (exec on_tick acts (s, w))).
Proof.
  intros Htick. induction acts as [|a acts IH]; intros s w.
  - apply reports_refl.
  - change (exec on_tick (a :: acts) (s, w))
      with (exec on_tick acts (step on_tick a (s, w))).
    destruct a; simpl step; try apply IH.
    + eapply reports_trans; [|apply IH]. now apply reports_emit.
    + eapply reports_trans; [|apply IH]. apply Htick.
Qed.

Lemma reports_ping_iteration (env : Env) (cfg : ClientConfig.t) (i : Z)
  (results : list time.Duration) (w : World) :
  1 <= ClientConfig.PingCount cfg <= max_int ->
  reports_in_range w (snd (ping_iteration env cfg i results w)).
Proof.
  intros Hn.
  unfold ping_iteration, time_Since, time_Now, client_Get_ping.
  cbv zeta beta iota. cbn [fst snd clock_reads probes trace].
  assert (H1 : forall r p,
             reports_in_range w
               (mkWorld r p
                  (trace w ++ [EvRequest (GetPing (ClientConfig.BaseURL cfg))]))).
  { intros r p. eexists. split; [reflexivity|]. constructor. }
  destruct (ping_get env (probes w)) as [err|]; cbn [snd].
  - apply H1.
  - match goal with
    | |- reports_in_range _ (if _ then time_Sleep _ ?w' else ?w') =>
        assert (H2 : reports_in_range w w')
    end.
    { eapply reports_trans; [apply H1|].
      apply reports_reportProgress.
      - now apply ping_percent_number.
      - reflexivity.
      - apply of_int_number. }
    destruct (i <? ClientConfig.PingCount cfg - 1); [|exact H2].
    eapply reports_trans; [exact H2|]. now apply reports_emit.
Qed.

Lemma reports_ping_loop (env : Env) (cfg : ClientConfig.t) (n : nat) :
  1 <= ClientConfig.PingCount cfg <= max_int ->
  forall (i : Z) (results : list time.Duration) (w : World),
    reports_in_range w (snd (ping_loop env cfg n i results w)).
Proof.
  intros Hn. induction n as [|n IH]; intros i results w; simpl.
  - apply reports_refl.
  - pose proof (reports_ping_iteration env cfg i results w Hn) as H.
    destruct (ping_iteration env cfg i results w) as [[err|results'] w'].
    + exact H.
    + eapply reports_trans; [exact H|apply IH].
Qed.

Lemma reports_runPing (env : Env) (cfg : ClientConfig.t) (w : World) :
  ClientConfig.PingCount cfg <= max_int ->
  reports_in_range w (snd (runPing env cfg w)).
Proof.
  intros Hn.
  destruct (Z.lt_ge_cases (ClientConfig.PingCount cfg) 0) as [Hneg|Hpos];
    [rewrite (runPing_panics env cfg w Hneg); apply reports_refl|].
  rewrite (runPing_counted env cfg w Hpos).
  destruct (Z.le_gt_cases 1 (ClientConfig.PingCount cfg)) as [H1|H0].
  - pose proof (reports_ping_loop env cfg
                  (Z.to_nat (ClientConfig.PingCount cfg))
                  ltac:(lia) 0 [] w) as H.
    destruct (ping_loop env cfg _ 0 [] w) as [[err|results] w'].
    + exact H.
    + cbn [snd] in H. destruct (len results =? 0); exact H.
  - replace (Z.to_nat (ClientConfig.PingCount cfg)) with O by lia.
    apply reports_refl.
Qed.

Lemma reports_download_tick (env : Env) (cfg : ClientConfig.t)
  (start target current : Z) (w : World) :
  target <= max_int ->
  reports_in_range w (download_tick env cfg start target current w).
Proof.
  intros Ht. unfold download_tick, time_Since, time_Now.
  eapply reports_trans; [|apply reports_reportProgress].
  - now apply reports_same_trace.
  - now apply percentDone_number.
  - apply bytesToMbps_number, Sub_le_max.
  - reflexivity.
Qed.

Lemma reports_upload_tick (env : Env) (cfg : ClientConfig.t)
  (start current : Z) (w : World) :
  ClientConfig.Duration cfg <= max_int ->
  reports_in_range w (upload_tick env cfg start current w).
Proof.
  intros Ht. unfold upload_tick, time_Since, time_Now.
  eapply reports_trans; [|apply reports_reportProgress].
  - now apply reports_same_trace.
  - now apply percentElapsed_number.
  - apply bytesToMbps_number, Sub_le_max.
  - reflexivity.
Qed.

Lemma reports_final (cfg : ClientConfig.t) (phase : string) (bytes : Z)
  (t u : Z) (w1 w2 : World) :
  trace w2 = trace w1 ->
  reports_in_range w1
    (if ClientConfig.Progress cfg
     then reportProgress cfg phase 100 (bytesToMbps bytes (time.Sub t u)) 0 w2
     else w2).
Proof.
  intros E. eapply reports_trans; [apply reports_same_trace, E|].
  destruct (ClientConfig.Progress cfg); [|apply reports_refl].
  apply reports_reportProgress; try reflexivity.
  apply bytesToMbps_number, Sub_le_max.
Qed.

Lemma events_in_range_progress (t : list Event) :
  Forall event_in_range t
  <-> Forall (fun u => update_in_range u = true) (progress_events t).
Proof.
  induction t as [|ev t IH]; [split; constructor|].
  destruct ev as [r|d|u]; cbn [progress_events]; split; intros H.
  - apply IH. now inversion H.
  - constructor; [exact I|now apply IH].
  - apply IH. now inversion H.
  - constructor; [exact I|now apply IH].
  - inversion H as [|? ? Hu Ht]. subst. constructor; [exact Hu|now apply IH].
  - inversion H as [|? ? Hu Ht]. subst. constructor; [exact Hu|now apply IH].
Qed.

Lemma reports_emit_all (events : list Event) (w : World) :
  Forall event_in_range events -> reports_in_range w (emit_all events w).
Proof.
  intros H. exists events. split; [reflexivity|].
  now apply events_in_range_progress.
Qed.

Lemma reports_added (w w' : World) :
  reports_in_range w w' ->
  trace w' = trace w ++ added w w' /\ Forall event_in_range (added w w').
Proof.
  intros [t [E H]]. rewrite (added_app w w' t E). split; [exact E|].
  now apply events_in_range_progress.
Qed.

Lemma download_tick_report_in_range (start target current now : Z) :
  target <= max_int ->
  update_in_range (download_tick_report start target current now) = true.
Proof.
  intros Ht. unfold update_in_range, download_tick_report.
  cbn [ProgressUpdate.Percent ProgressUpdate.Mbps ProgressUpdate.PingMs].
  rewrite clamp_percent_in_range by now apply percentDone_number.
  rewrite clamp_nonneg_nonnegative by apply bytesToMbps_number, Sub_le_max.
  reflexivity.
Qed.

Lemma upload_tick_report_in_range (cfg : ClientConfig.t)
  (start current now : Z) :
  ClientConfig.Duration cfg <= max_int ->
  update_in_range (upload_tick_report cfg start current now) = true.
Proof.
  intros Ht. unfold update_in_range, upload_tick_report.
  cbn [ProgressUpdate.Percent ProgressUpdate.Mbps ProgressUpdate.PingMs].
  rewrite clamp_percent_in_range by now apply percentElapsed_number.
  rewrite clamp_nonneg_nonnegative by apply bytesToMbps_number, Sub_le_max.
  reflexivity.
Qed.

Lemma final_report_in_range (phase : string) (bytes : Z)
  (elapsed : time.Duration) :
  elapsed <= max_int -> update_in_range (final_report phase bytes elapsed) = true.
Proof.
  intros He. unfold update_in_range, final_report.
  cbn [ProgressUpdate.Percent ProgressUpdate.Mbps ProgressUpdate.PingMs].
  rewrite clamp_nonneg_nonnegative by now apply bytesToMbps_number.
  reflexivity.
Qed.

Lemma download_elapsed_le_max (env : Env) (cfg : ClientConfig.t) (w : World) :
  download_elapsed env cfg w <= max_int.
Proof.
  unfold download_elapsed.
  destruct (download_join env cfg w) as [start [s w1]].
  unfold time_Since, time_Now. apply Sub_le_max.
Qed.

Lemma upload_elapsed_le_max (env : Env) (cfg : ClientConfig.t) (w : World) :
  upload_elapsed env cfg w <= max_int.
Proof.
  unfold upload_elapsed.
  destruct (upload_join env cfg w) as [start [s w1]].
  unfold time_Since, time_Now. apply Sub_le_max.
Qed.

(** Every late tick of the sampler of a throughput phase, delivered before
    [RunClient] returns or not, is within the ranges. *)
Lemma download_ticks_in_range (env : Env) (cfg : ClientConfig.t) (w : World) :
  ticks_all event_in_range (download_ticks env cfg w).
Proof.
  eapply ticks_all_impl; [|apply download_ticks_reports].
  intros ev [now ->]. apply download_tick_report_in_range, wrap64_le_max.
Qed.

Lemma upload_ticks_in_range (env : Env) (cfg : ClientConfig.t) (w : World) :
  ClientConfig.Duration cfg <= max_int ->
  ticks_all event_in_range (upload_ticks env cfg w).
Proof.
  intros Hd. eapply ticks_all_impl; [|apply upload_ticks_reports].
  intros ev [now ->]. now apply upload_tick_report_in_range.
Qed.

Lemma download_last_in_range (env : Env) (cfg : ClientConfig.t) (w : World) :
  Forall event_in_range (download_last env cfg w).
Proof.
  unfold download_last. destruct (ClientConfig.Progress cfg); [|constructor].
  constructor; [|constructor].
  apply final_report_in_range, download_elapsed_le_max.
Qed.

Lemma upload_last_in_range (env : Env) (cfg : ClientConfig.t) (w : World) :
  Forall event_in_range (upload_last env cfg w).
Proof.
  unfold upload_last. destruct (ClientConfig.Progress cfg); [|constructor].
  constructor; [|constructor].
  apply final_report_in_range, upload_elapsed_le_max.
Qed.

Lemma reports_download_joined (env : Env) (cfg : ClientConfig.t) (w : World) :
  reports_in_range w (download_joined env cfg w).
Proof.
  unfold download_joined, download_join, time_Now.
  match goal with |- context [exec ?tick ?steps (Shared_init, ?w0)] =>
    pose proof (reports_exec tick steps
                  (fun current w =>
                     reports_download_tick env cfg _ _ current w
                       (wrap64_le_max _))
                  Shared_init w0) as H1;
    destruct (exec tick steps (Shared_init, w0)) as [s w1]
  end.
  cbn [snd] in H1. unfold time_Since, time_Now. cbn [snd].
  eapply reports_trans; [now apply reports_same_trace|].
  eapply reports_trans; [exact H1|]. now apply reports_same_trace.
Qed.

Lemma reports_upload_joined (env : Env) (cfg : ClientConfig.t) (w : World) :
  ClientConfig.Duration cfg <= max_int ->
  reports_in_range w (upload_joined env cfg w).
Proof.
  intros Hd. unfold upload_joined, upload_join, time_Now.
  match goal with |- context [exec ?tick ?steps (Shared_init, ?w0)] =>
    pose proof (reports_exec tick steps
                  (fun current w =>
                     reports_upload_tick env cfg _ current w Hd)
                  Shared_init w0) as H1;
    destruct (exec tick steps (Shared_init, w0)) as [s w1]
  end.
  cbn [snd] in H1. unfold time_Since, time_Now. cbn [snd].
  eapply reports_trans; [now apply reports_same_trace|].
  eapply reports_trans; [exact H1|]. now apply reports_same_trace.
Qed.

Lemma reports_runDownload (env : Env) (cfg : ClientConfig.t) (w : World) :
  reports_in_range w (snd (runDownload env cfg w)).
Proof.
  rewrite runDownload_world.
  eapply reports_trans; [apply reports_download_joined|].
  apply reports_emit_all.
  apply weave_all;
    [apply download_ticks_in_range|apply download_last_in_range].
Qed.

Lemma reports_runUpload (env : Env) (cfg : ClientConfig.t) (w : World) :
  ClientConfig.Duration cfg <= max_int ->
  reports_in_range w (snd (runUpload env cfg w)).
Proof.
  intros Hd. rewrite runUpload_world.
  eapply reports_trans; [apply reports_upload_joined, Hd|].
  apply reports_emit_all.
  apply weave_all;
    [now apply upload_ticks_in_range|apply upload_last_in_range].
Qed.

(** X25. For a configuration whose ping count and duration are int64
    values, whatever the environment, the schedules and the late ticks of
    the samplers: every progress event a run delivers, the reports the
    download sampler makes during the upload phase included, has its percent
    within [0,100] and its Mbps and ping milliseconds >= 0 (none is NaN);
    and so has every report the two samplers, which are never stopped, make
    once their workers have joined, delivered before [RunClient] returns or
    after. *)
Theorem RunClient_reports_in_range (env : Env) (cfg : ClientConfig.t)
  (w : World) :
  ClientConfig.PingCount cfg <= max_int ->
  ClientConfig.Duration cfg <= max_int ->
  let cfg' := normalizeClientConfig cfg in
  let w1 := snd (runPing env cfg' w) in
  let w2 := snd (runDownload env cfg' w1) in
  reports_in_range w (snd (RunClient env cfg w))
  /\ ticks_all event_in_range (download_ticks env cfg' w1)
  /\ ticks_all event_in_range (upload_ticks env cfg' w2).
Proof.
  intros Hn Hd cfg' w1 w2.
  assert (Hn' : ClientConfig.PingCount cfg' <= max_int).
  { unfold cfg', normalizeClientConfig. cbn [ClientConfig.PingCount].
    destruct (ClientConfig.PingCount cfg <? 1); [|exact Hn].
    unfold DefaultPingCount, max_int. lia. }
  assert (Hd' : ClientConfig.Duration cfg' <= max_int).
  { unfold cfg', normalizeClientConfig. cbn [ClientConfig.Duration].
    destruct (ClientConfig.Duration cfg <=? 0); [|exact Hd].
    unfold DefaultDuration, Second, max_int. lia. }
  split; [|split;
           [apply download_ticks_in_range|now apply upload_ticks_in_range]].
  rewrite RunClient_eq. cbv zeta. fold cfg' w1 w2.
  pose proof (reports_runPing env cfg' w Hn') as H1. fold w1 in H1.
  pose proof (reports_runDownload env cfg' w1) as H2. fold w2 in H2.
  pose proof (reports_runUpload env cfg' w2 Hd') as H3.
  destruct (snd (fst (runPing env cfg' w))); [exact H1|].
  destruct (snd (fst (runDownload env cfg' w1)));
    [eapply reports_trans; eassumption|].
  set (w3 := snd (runUpload env cfg' w2)) in *.
  destruct (reports_added w2 w3 H3) as [_ Ha].
  assert (H4 : reports_in_range w2
                 (mkWorld (clock_reads w3) (probes w3)
                    (trace w2
                     ++ fst (weave (download_left env cfg' w1)
                               (added w2 w3))))).
  { eexists. split; [reflexivity|]. apply events_in_range_progress.
    apply weave_all; [|exact Ha].
    rewrite download_left_eq. apply weave_left_all.
    apply download_ticks_in_range. }
  destruct (snd (fst (runUpload env cfg' w2)));
    (eapply reports_trans; [exact H1|]);
    (eapply reports_trans; [exact H2|]); exact H4.
Qed.

(** The theorem at a run with a sink under [env_sampled]: it delivers
    eighteen progress events, five of them late ticks of the samplers, all
    within the ranges, as is the late tick that comes after the run. *)
Example RunClient_reports_sampled :
  let cfg' := normalizeClientConfig cfg_with_sink in
  let w1 := snd (runPing env_sampled cfg' World_init) in
  let w2 := snd (runDownload env_sampled cfg' w1) in
  let w := snd (RunClient env_sampled cfg_with_sink World_init) in
  (reports_in_range World_init w
   /\ ticks_all event_in_range (download_ticks env_sampled cfg' w1)
   /\ ticks_all event_in_range (upload_ticks env_sampled cfg' w2))
  /\ List.length (progress_events (trace w)) = 18%nat
  /\ forallb update_in_range (progress_events (trace w)) = true
  /\ List.length (download_ticks env_sampled cfg' w1) = 4%nat
  /\ List.length (upload_ticks env_sampled cfg' w2) = 2%nat.
Proof.
  split; [|split; [|split; [|split]]].
  - apply (RunClient_reports_in_range env_sampled cfg_with_sink World_init);
      vm_compute; discriminate.
  - vm_compute. reflexivity.
  - vm_compute. reflexivity.
  - vm_compute. reflexivity.
  - vm_compute. reflexivity.
Defined.

(* ================================================================== *)
(** * The end-to-end scenarios *)

Example scenario_A :
  fst (runPing env_scenario_AB (normalizeClientConfig cfg_scenario_AB)
         World_init)
  = (PingMetrics.mk (10 * Millisecond) (20 * Millisecond) (30 * Millisecond),
     None).
Proof. vm_compute. reflexivity. Qed.

Example scenario_B :
  fst (fst (RunClient env_scenario_AB cfg_scenario_AB World_init))
  = Result.mk
      (PingMetrics.mk (10 * Millisecond) (20 * Millisecond)
         (30 * Millisecond))
      (SpeedMetrics.mk 16 2000000 (1 * Second))
      (SpeedMetrics.mk (bytesToMbps 131072 (12 * Second)) 131072
         (12 * Second)).
Proof. vm_compute. reflexivity. Qed.

Example scenario_D :
  fst (RunClient env_scenario_D cfg_scenario_AB World_init)
  = (Result.zero, Some (transport_error "connection reset by peer")).
Proof. vm_compute. reflexivity. Qed.

Example scenario_E :
  fst (RunClient env_scenario_E cfg_scenario_AB World_init)
  = (Result.zero, Some (errors_New "download returned no data")).
Proof. vm_compute. reflexivity. Qed.

(** The theorem on the first reads that fail, at scenario D. *)
Lemma runDownload_error_priority_witness :
  exists i e,
    (i < 2)%nat
    /\ download_read_fails (download_stream env_scenario_D i) e
    /\ fst (runDownload env_scenario_D
              (normalizeClientConfig cfg_scenario_AB) World_init)
       = (SpeedMetrics.zero, Some e).
Proof.
  refine (proj2 (proj2 (proj2
    (runDownload_error_priority env_scenario_D
       (normalizeClientConfig cfg_scenario_AB) World_init))) _ _).
  - vm_compute. reflexivity.
  - intros i _. exists (transport_error "connection reset by peer"), 0, [].
    split; reflexivity.
Defined.

(** The theorem on the bytes of a successful run, at scenario B. *)
Lemma RunClient_ok_bytes_positive_witness :
  0 < SpeedMetrics.Bytes
        (Result.Download
           (fst (fst (RunClient env_scenario_AB cfg_scenario_AB World_init))))
  /\ 0 < SpeedMetrics.Bytes
           (Result.Upload
              (fst (fst (RunClient env_scenario_AB cfg_scenario_AB
                           World_init)))).
Proof.
  destruct (RunClient_ok_bytes_positive env_scenario_AB cfg_scenario_AB
              World_init
              (snd (RunClient env_scenario_AB cfg_scenario_AB World_init))
              (fst (fst (RunClient env_scenario_AB cfg_scenario_AB
                           World_init))))
    as [_ [Hd Hu]].
  - vm_compute. reflexivity.
  - split; [apply Hd|apply Hu]; vm_compute; discriminate.
Defined.

(* ================================================================== *)
(** * Sorting, sums and averages *)

Lemma insert_sorted_perm (d : Z) (l : list Z) :
  Permutation (insert_sorted d l) (d :: l).
Proof.
  induction l as [|x l IH]; simpl; [reflexivity|].
  destruct (d <=? x); [reflexivity|].
  rewrite IH. apply perm_swap.
Qed.

Lemma slices_Sort_perm (l : list Z) : Permutation (slices_Sort l) l.
Proof.
  induction l as [|x l IH]; simpl; [reflexivity|].
  unfold slices_Sort in *. simpl. rewrite insert_sorted_perm.
  now constructor.
Qed.

Lemma insert_sorted_sorted (d : Z) (l : list Z) :
  StronglySorted Z.le l -> StronglySorted Z.le (insert_sorted d l).
Proof.
  induction 1 as [|x l Hs IH Hx]; simpl.
  - repeat constructor.
  - destruct (Z.leb_spec d x).
    + constructor; [now constructor|].
      constructor; [assumption|].
      eapply Forall_impl; [|exact Hx]. intros. lia.
    + constructor; [assumption|].
      eapply Permutation_Forall.
      * symmetry. apply insert_sorted_perm.
      * constructor; [lia|assumption].
Qed.

Lemma slices_Sort_sorted (l : list Z) : StronglySorted Z.le (slices_Sort l).
Proof.
  induction l as [|x l IH]; simpl; [constructor|].
  unfold slices_Sort in *. simpl. now apply insert_sorted_sorted.
Qed.

Lemma sorted_head_le (l : list Z) (x : Z) :
  StronglySorted Z.le l -> In x l -> index_at l 0 <= x.
Proof.
  intros Hs Hin. destruct l as [|y l]; [destruct Hin|].
  change (index_at (y :: l) 0) with y.
  inversion Hs as [|? ? _ Hy]; subst.
  destruct Hin as [Hin|Hin]; [lia|].
  rewrite Forall_forall in Hy. auto.
Qed.

Lemma index_at_In (l : list Z) (i : Z) :
  0 <= i < len l -> In (index_at l i) l.
Proof.
  intros Hi. unfold index_at. apply nth_In.
  unfold len, time.Duration in *. lia.
Qed.

Lemma fold_add_wrap (items : list Z) (acc : Z) :
  fold_left (fun a item => Int64.add a item) items (wrap64 acc)
  = wrap64 (acc + total_of items).
Proof.
  revert acc. induction items as [|x items IH]; intros acc; simpl.
  - now rewrite Z.add_0_r.
  - unfold Int64.add at 2. rewrite wrap64_add_l, IH. f_equal. lia.
Qed.

Lemma fold_add_total (items : list Z) :
  fold_left (fun a item => Int64.add a item) items 0
  = wrap64 (total_of items).
Proof. exact (fold_add_wrap items 0). Qed.

Lemma total_of_perm (l1 l2 : list Z) :
  Permutation l1 l2 -> total_of l1 = total_of l2.
Proof. induction 1; simpl; lia. Qed.

Lemma total_of_bounds (items : list Z) (lo hi : Z) :
  Forall (fun x => lo <= x <= hi) items ->
  lo * len items <= total_of items <= hi * len items.
Proof.
  unfold len. induction 1 as [|x l Hx _ IH]; simpl List.length; simpl total_of;
    [lia|].
  rewrite Nat2Z.inj_succ. lia.
Qed.

Lemma avgDuration_total (items : list time.Duration) :
  items <> [] -> in_range (total_of items) ->
  avgDuration items = Z.quot (total_of items) (len items).
Proof.
  intros Hne Hr. pose proof (len_pos items Hne) as Hl.
  unfold avgDuration. destruct (Z.eqb_spec (len items) 0); [lia|].
  rewrite fold_add_total.
  rewrite (wrap64_in_range _ Hr). unfold Int64.div.
  apply wrap64_in_range. unfold in_range, min_int, max_int in *.
  pose proof (Z.quot_le_mono 0 (total_of items) (len items)).
  destruct (Z.le_ge_cases 0 (total_of items)) as [Hp|Hn].
  - pose proof (Z.quot_pos (total_of items) (len items) Hp Hl).
    pose proof (Z.quot_le_upper_bound (total_of items) (len items)
                  (total_of items) Hl ltac:(nia)). lia.
  - assert (Hq : Z.quot (- total_of items) (len items)
                 = - Z.quot (total_of items) (len items))
      by (apply Z.quot_opp_l; lia).
    pose proof (Z.quot_pos (- total_of items) (len items) ltac:(lia) Hl).
    pose proof (Z.quot_le_upper_bound (- total_of items) (len items)
                  (- total_of items) Hl ltac:(nia)). lia.
Qed.

Lemma quot_between (t n lo hi : Z) :
  0 < n -> lo * n <= t <= hi * n -> lo <= Z.quot t n <= hi.
Proof.
  intros Hn [H1 H2].
  pose proof (Z.quot_rem' t n) as E.
  destruct (Z.lt_ge_cases t 0) as [Hneg|Hp].
  - pose proof (Z.rem_bound_pos_neg t n Hn ltac:(lia)). nia.
  - pose proof (Z.rem_bound_pos_pos t n Hn Hp). nia.
Qed.

(* ================================================================== *)
(** * The iterations of the latency prober *)

Lemma ping_samples_S (env : Env) (r n : nat) :
  ping_samples env r (S n)
  = ping_sample env r :: ping_samples env (S (S (S r))) n.
Proof.
  unfold ping_samples. cbn [seq map].
  replace (r + 3 * 0)%nat with r by lia. f_equal.
  rewrite <- seq_shift, map_map. apply map_ext. intros k. f_equal. lia.
Qed.

Lemma ping_iterations_trace_S (env : Env) (cfg : ClientConfig.t)
  (r : nat) (i : Z) (n : nat) :
  ping_iterations_trace env cfg r i (S n)
  = ping_iteration_trace env cfg r i
    ++ ping_iterations_trace env cfg (S (S (S r))) (i + 1) n.
Proof.
  unfold ping_iterations_trace. cbn [seq map List.concat].
  replace (r + 3 * 0)%nat with r by lia.
  replace (i + Z.of_nat 0) with i by lia.
  f_equal. f_equal. rewrite <- seq_shift, map_map. apply map_ext. intros k.
  f_equal; lia.
Qed.

(** The loop while its probes succeed. *)
Lemma ping_loop_success (env : Env) (cfg : ClientConfig.t) (n : nat) :
  forall (i : Z) (results : list time.Duration) (w : World),
    (forall j, (j < n)%nat -> ping_get env (probes w + j)%nat = None) ->
    ping_loop env cfg n i results w
    = (inr (results ++ ping_samples env (clock_reads w) n),
       mkWorld (clock_reads w + 3 * n) (probes w + n)
         (trace w ++ ping_iterations_trace env cfg (clock_reads w) i n)).
Proof.
  induction n as [|n IH]; intros i results w Hok.
  - simpl. unfold ping_samples, ping_iterations_trace. simpl.
    rewrite !app_nil_r, !Nat.add_0_r. now destruct w.
  - simpl ping_loop.
    assert (H0 : ping_get env (probes w) = None).
    { specialize (Hok 0%nat ltac:(lia)). now rewrite Nat.add_0_r in Hok. }
    rewrite (ping_iteration_ok env cfg i results w H0).
    rewrite IH.
    + cbn [clock_reads probes trace].
      rewrite ping_samples_S, ping_iterations_trace_S.
      rewrite <- !app_assoc. simpl. f_equal. f_equal; lia.
    + intros j Hj. cbn [probes].
      specialize (Hok (S j) ltac:(lia)).
      now replace (S (probes w) + j)%nat with (probes w + S j)%nat by lia.
Qed.

(** The loop when the probe [k] steps ahead is the first that fails. *)
Lemma ping_loop_failure (env : Env) (cfg : ClientConfig.t) (n : nat) :
  forall (k : nat) (i : Z) (results : list time.Duration) (w : World)
         (err : error),
    (k < n)%nat ->
    (forall j, (j < k)%nat -> ping_get env (probes w + j)%nat = None) ->
    ping_get env (probes w + k)%nat = Some err ->
    ping_loop env cfg n i results w
    = (inl err,
       mkWorld (clock_reads w + 3 * k + 1) (probes w + k + 1)
         (trace w ++ ping_iterations_trace env cfg (clock_reads w) i k
          ++ [EvRequest (GetPing (ClientConfig.BaseURL cfg))])).
Proof.
  induction n as [|n IH]; intros k i results w err Hk Hok Hfail; [lia|].
  simpl ping_loop. destruct k as [|k].
  - rewrite Nat.add_0_r in Hfail.
    unfold ping_iteration, time_Now, client_Get_ping.
    cbv zeta beta iota. cbn [fst snd clock_reads probes trace].
    rewrite Hfail. unfold ping_iterations_trace. simpl.
    f_equal. f_equal; lia.
  - assert (H0 : ping_get env (probes w) = None).
    { specialize (Hok 0%nat ltac:(lia)). now rewrite Nat.add_0_r in Hok. }
    rewrite (ping_iteration_ok env cfg i results w H0).
    rewrite (IH k _ _ _ err); try lia.
    + cbn [clock_reads probes trace].
      rewrite ping_iterations_trace_S. rewrite <- !app_assoc.
      f_equal. f_equal; lia.
    + intros j Hj. cbn [probes].
      specialize (Hok (S j) ltac:(lia)).
      now replace (S (probes w) + j)%nat with (probes w + S j)%nat by lia.
    + cbn [probes].
      now replace (S (probes w) + k)%nat with (probes w + S k)%nat by lia.
Qed.

Lemma wire_events_app (t1 t2 : list Event) :
  wire_events (t1 ++ t2) = wire_events t1 ++ wire_events t2.
Proof.
  induction t1 as [|ev t1 IH]; simpl; [reflexivity|].
  destruct ev; simpl; now rewrite IH.
Qed.

Lemma wire_events_iteration (env : Env) (cfg : ClientConfig.t) (r : nat)
  (i : Z) :
  wire_events (ping_iteration_trace env cfg r i)
  = EvRequest (GetPing (ClientConfig.BaseURL cfg))
    :: if i <? ClientConfig.PingCount cfg - 1
       then [EvSleep (150 * Millisecond)] else [].
Proof.
  unfold ping_iteration_trace.
  destruct (ClientConfig.Progress cfg),
    (i <? ClientConfig.PingCount cfg - 1); reflexivity.
Qed.

(** The requests and pauses of [n] successful iterations from index [i],
    when the loop has more than [i + n] iterations, and when it has exactly
    that many. *)
Lemma wire_events_iterations_inner (env : Env) (cfg : ClientConfig.t)
  (n : nat) :
  forall (r : nat) (i : Z),
    i + Z.of_nat n <= ClientConfig.PingCount cfg - 1 ->
    wire_events (ping_iterations_trace env cfg r i n)
    ++ [EvRequest (GetPing (ClientConfig.BaseURL cfg))]
    = paced_probes (ClientConfig.BaseURL cfg) (S n).
Proof.
  induction n as [|n IH]; intros r i Hi.
  - reflexivity.
  - rewrite ping_iterations_trace_S, wire_events_app, wire_events_iteration.
    destruct (Z.ltb_spec i (ClientConfig.PingCount cfg - 1)); [|lia].
    simpl app. rewrite IH by lia. reflexivity.
Qed.

Lemma wire_events_iterations_last (env : Env) (cfg : ClientConfig.t)
  (n : nat) :
  forall (r : nat) (i : Z),
    i + Z.of_nat n = ClientConfig.PingCount cfg ->
    wire_events (ping_iterations_trace env cfg r i n)
    = paced_probes (ClientConfig.BaseURL cfg) n.
Proof.
  induction n as [|n IH]; intros r i Hi.
  - reflexivity.
  - rewrite ping_iterations_trace_S, wire_events_app, wire_events_iteration.
    destruct n as [|n].
    + destruct (Z.ltb_spec i (ClientConfig.PingCount cfg - 1)); [lia|].
      reflexivity.
    + destruct (Z.ltb_spec i (ClientConfig.PingCount cfg - 1)); [|lia].
      rewrite IH by lia. reflexivity.
Qed.

Lemma percentileDuration_member (items : list time.Duration) (p : float) :
  items <> [] -> In (percentileDuration items p) items.
Proof.
  intros Hne. pose proof (len_pos items Hne) as Hl.
  unfold percentileDuration. unfold time.Duration in *.
  destruct (Z.eqb_spec (len items) 0); [lia|].
  destruct (Float64.le p 0); [apply index_at_In; lia|].
  destruct (Float64.ge p 1); [apply index_at_In; lia|].
  cbv zeta. apply index_at_In.
  destruct (Z.leb_spec (len items)
              (Z.max (Int64.sub (Float64.int_Ceil
                        (Float64.of_int (len items) * p)) 1) 0)); lia.
Qed.

(** The ping phase when all its probes succeed. *)
Lemma runPing_all_succeed (env : Env) (cfg : ClientConfig.t) (w : World) :
  (0 < Z.to_nat (ClientConfig.PingCount cfg))%nat ->
  (forall j, (j < Z.to_nat (ClientConfig.PingCount cfg))%nat ->
             ping_get env (probes w + j)%nat = None) ->
  let sorted :=
    slices_Sort (ping_samples env (clock_reads w)
                   (Z.to_nat (ClientConfig.PingCount cfg))) in
  fst (runPing env cfg w)
  = (PingMetrics.mk (index_at sorted 0) (avgDuration sorted)
       (percentileDuration sorted percentile_95), None).
Proof.
  intros Hn Hok sorted. rewrite runPing_counted by lia.
  rewrite (ping_loop_success env cfg _ 0 [] w Hok). cbn [app].
  assert (Hlen : len (ping_samples env (clock_reads w)
                        (Z.to_nat (ClientConfig.PingCount cfg)))
                 = Z.of_nat (Z.to_nat (ClientConfig.PingCount cfg))).
  { unfold ping_samples, len. now rewrite length_map, length_seq. }
  destruct (Z.eqb_spec (len (ping_samples env (clock_reads w)
                              (Z.to_nat (ClientConfig.PingCount cfg)))) 0)
    as [E|_]; [lia|].
  reflexivity.
Qed.

(* ================================================================== *)
(** * The statistics of a ping phase *)

Lemma avgDuration_perm (l1 l2 : list time.Duration) :
  Permutation l1 l2 -> avgDuration l1 = avgDuration l2.
Proof.
  intros H. unfold avgDuration, len.
  rewrite (Permutation_length H).
  destruct (Z.of_nat (List.length l2) =? 0); [reflexivity|].
  rewrite !fold_add_total.
  now rewrite (total_of_perm _ _ H).
Qed.

(** X1. The average of no sample is 0.  The average does not depend on the
    order of the samples.  When the sum of the samples fits an int64 it is
    that sum divided by their number, rounded toward zero, and it lies
    between any two bounds of the samples. *)
Theorem avgDuration_mean (items : list time.Duration) :
  avgDuration [] = 0
  /\ (forall items', Permutation items items' ->
                     avgDuration items = avgDuration items')
  /\ (items <> [] -> in_range (total_of items) ->
      avgDuration items = Z.quot (total_of items) (len items)
      /\ forall lo hi, Forall (fun x => lo <= x <= hi) items ->
                       lo <= avgDuration items <= hi).
Proof.
  split; [reflexivity|]. split; [apply avgDuration_perm|].
  intros Hne Hr. rewrite (avgDuration_total items Hne Hr).
  split; [reflexivity|]. intros lo hi Hb.
  apply quot_between; [now apply len_pos|].
  now apply total_of_bounds.
Qed.

(** X2. The percentile of no sample is 0; the percentile of a non-empty
    slice is one of its elements, for every percentile argument (NaN and
    the infinities included): the index never leaves the slice. *)
Theorem percentileDuration_in_slice (items : list time.Duration) (p : float) :
  percentileDuration [] p = 0
  /\ (items <> [] -> In (percentileDuration items p) items).
Proof. split; [reflexivity|apply percentileDuration_member]. Qed.

(** X3. When the [n >= 1] probes of the ping phase all succeed, the phase
    succeeds.  Its Min is the smallest sample, its P95 is one of the
    samples, its Avg is the average of the samples, which, when their sum
    fits an int64, is the sum divided by [n] and is not below Min. *)
Theorem runPing_statistics (env : Env) (cfg : ClientConfig.t) (w : World) :
  let n := Z.to_nat (ClientConfig.PingCount cfg) in
  let samples := ping_samples env (clock_reads w) n in
  (0 < n)%nat ->
  (forall j, (j < n)%nat -> ping_get env (probes w + j)%nat = None) ->
  exists m,
    fst (runPing env cfg w) = (m, None)
    /\ In (PingMetrics.Min m) samples
    /\ Forall (fun x => PingMetrics.Min m <= x) samples
    /\ In (PingMetrics.P95 m) samples
    /\ PingMetrics.Avg m = avgDuration samples
    /\ (in_range (total_of samples) ->
        PingMetrics.Avg m = Z.quot (total_of samples) (Z.of_nat n)
        /\ PingMetrics.Min m <= PingMetrics.Avg m).
Proof.
  intros n samples Hn Hok.
  rewrite (runPing_all_succeed env cfg w Hn Hok). fold n. fold samples.
  assert (Hne : samples <> []).
  { unfold samples, ping_samples. destruct n; [lia|]. discriminate. }
  assert (Hlen : len samples = Z.of_nat n).
  { unfold samples, ping_samples, len. now rewrite length_map, length_seq. }
  pose proof (slices_Sort_perm samples) as Hperm.
  pose proof (slices_Sort_sorted samples) as Hsorted.
  assert (Hne' : slices_Sort samples <> []).
  { intros E. rewrite E in Hperm. apply Permutation_nil in Hperm.
    contradiction. }
  assert (Hmin : In (index_at (slices_Sort samples) 0) samples).
  { apply (Permutation_in _ Hperm). apply index_at_In.
    pose proof (len_pos _ Hne'). unfold time.Duration in *. lia. }
  assert (Hall : Forall (fun x => index_at (slices_Sort samples) 0 <= x)
                   samples).
  { apply Forall_forall. intros x Hx. apply sorted_head_le; [exact Hsorted|].
    apply (Permutation_in _ (Permutation_sym Hperm)). exact Hx. }
  eexists. split; [reflexivity|]. cbn [PingMetrics.Min PingMetrics.Avg
    PingMetrics.P95 fst].
  split; [exact Hmin|]. split; [exact Hall|].
  split.
  { apply (Permutation_in _ Hperm). now apply percentileDuration_member. }
  split; [now apply avgDuration_perm|].
  intros Hr. rewrite (avgDuration_perm _ _ Hperm).
  rewrite (avgDuration_total samples Hne Hr), Hlen.
  split; [reflexivity|].
  apply (quot_between _ _ _ (Z.max (index_at (slices_Sort samples) 0)
                               (fold_right Z.max 0 samples))); [lia|].
  rewrite <- Hlen. apply total_of_bounds.
  apply Forall_forall. intros x Hx.
  rewrite Forall_forall in Hall. split; [auto|].
  assert (x <= fold_right Z.max 0 samples); [|lia].
  clear - Hx. induction samples as [|y l IH]; [destruct Hx|].
  simpl. destruct Hx as [->|Hx]; [lia|]. specialize (IH Hx). lia.
Qed.

(** The theorem on three probes of 10, 20 and 30 ms. *)
Lemma runPing_statistics_witness :
  exists m,
    fst (runPing env_scenario_AB (normalizeClientConfig cfg_scenario_AB)
           World_init) = (m, None)
    /\ In (PingMetrics.Min m) (ping_samples env_scenario_AB 0 3)
    /\ Forall (fun x => PingMetrics.Min m <= x)
         (ping_samples env_scenario_AB 0 3)
    /\ In (PingMetrics.P95 m) (ping_samples env_scenario_AB 0 3)
    /\ PingMetrics.Avg m = avgDuration (ping_samples env_scenario_AB 0 3)
    /\ (in_range (total_of (ping_samples env_scenario_AB 0 3)) ->
        PingMetrics.Avg m
        = Z.quot (total_of (ping_samples env_scenario_AB 0 3)) (Z.of_nat 3)
        /\ PingMetrics.Min m <= PingMetrics.Avg m).
Proof.
  apply (runPing_statistics env_scenario_AB
           (normalizeClientConfig cfg_scenario_AB) World_init).
  - vm_compute. lia.
  - intros j _. reflexivity.
Defined.

(** X4. When the probe of index [k] is the first that fails, the ping phase
    returns its error with the zero metrics: the [k] samples taken are
    dropped.  It has sent [k + 1] requests, with a pause of 150 ms after
    each but the last, and sends no other. *)
Theorem runPing_first_failure (env : Env) (cfg : ClientConfig.t) (w : World)
  (k : nat) (err : error) :
  (k < Z.to_nat (ClientConfig.PingCount cfg))%nat ->
  (forall j, (j < k)%nat -> ping_get env (probes w + j)%nat = None) ->
  ping_get env (probes w + k)%nat = Some err ->
  fst (runPing env cfg w) = (PingMetrics.zero, Some err)
  /\ probes (snd (runPing env cfg w)) = (probes w + k + 1)%nat
  /\ exists t,
       trace (snd (runPing env cfg w)) = trace w ++ t
       /\ wire_events t = paced_probes (ClientConfig.BaseURL cfg) (S k).
Proof.
  intros Hk Hok Hfail. rewrite runPing_counted by lia.
  rewrite (ping_loop_failure env cfg _ k 0 [] w err Hk Hok Hfail).
  cbn [fst snd probes trace]. split; [reflexivity|]. split; [reflexivity|].
  eexists. split; [reflexivity|].
  rewrite wire_events_app. cbn [wire_events].
  apply wire_events_iterations_inner. lia.
Qed.

Lemma runPing_first_failure_witness :
  let env :=
    mkEnv (fun k => Z.of_nat k * Millisecond)
      (fun k => if (k =? 2)%nat then Some (transport_error "timeout")
                else None)
      (fun _ => DownloadBody []) [] (fun _ => mkUploadScript None [] None)
      [] [] [] in
  fst (runPing env cfg_with_sink World_init)
  = (PingMetrics.zero, Some (transport_error "timeout"))
  /\ probes (snd (runPing env cfg_with_sink World_init)) = 3%nat
  /\ exists t,
       trace (snd (runPing env cfg_with_sink World_init)) = [] ++ t
       /\ wire_events t = paced_probes "http://localhost:8080" 3.
Proof.
  intros env.
  apply (runPing_first_failure env cfg_with_sink World_init 2
           (transport_error "timeout")).
  - vm_compute. lia.
  - intros j Hj. destruct j as [|[|j]]; [reflexivity|reflexivity|lia].
  - reflexivity.
Defined.

(** X5. When all its probes succeed the ping phase sends one request per
    probe, with a pause of 150 ms between two consecutive probes and none
    after the last, and reads the clock three times per probe. *)
Theorem runPing_pacing (env : Env) (cfg : ClientConfig.t) (w : World) :
  let n := Z.to_nat (ClientConfig.PingCount cfg) in
  (forall j, (j < n)%nat -> ping_get env (probes w + j)%nat = None) ->
  probes (snd (runPing env cfg w)) = (probes w + n)%nat
  /\ clock_reads (snd (runPing env cfg w)) = (clock_reads w + 3 * n)%nat
  /\ exists t,
       trace (snd (runPing env cfg w)) = trace w ++ t
       /\ wire_events t = paced_probes (ClientConfig.BaseURL cfg) n.
Proof.
  intros n Hok. rewrite runPing_world. fold n.
  rewrite (ping_loop_success env cfg n 0 [] w Hok).
  cbn [snd probes clock_reads trace].
  split; [reflexivity|]. split; [reflexivity|].
  eexists. split; [reflexivity|].
  destruct n as [|n'] eqn:En; [reflexivity|].
  apply wire_events_iterations_last. lia.
Qed.

Lemma runPing_pacing_witness :
  probes (snd (runPing env_scenario_AB cfg_with_sink World_init)) = 6%nat
  /\ clock_reads (snd (runPing env_scenario_AB cfg_with_sink World_init))
     = 18%nat
  /\ exists t,
       trace (snd (runPing env_scenario_AB cfg_with_sink World_init))
       = [] ++ t
       /\ wire_events t = paced_probes "http://localhost:8080" 6.
Proof.
  apply (runPing_pacing env_scenario_AB cfg_with_sink World_init).
  intros j _. reflexivity.
Defined.

(* ================================================================== *)
(** * The error slot, the percent helpers and the sign of a throughput *)

Lemma setRunErr_all_set (errs : list (option error)) (s : Shared) :
  errOnce s = true -> setRunErr_all errs s = s.
Proof.
  revert s. induction errs as [|e errs IH]; intros s Hs; [reflexivity|].
  simpl. assert (E : setRunErr e s = s).
  { unfold setRunErr. destruct e; [|reflexivity]. now rewrite Hs. }
  rewrite E. now apply IH.
Qed.

(** X6. Recording errors: a nil error changes nothing; once an error is
    recorded a later one is dropped; over any sequence of calls the slot
    ends with the first error that is not nil, and the byte counter is not
    touched. *)
Theorem setRunErr_first_wins (errs : list (option error)) (s : Shared)
  (e e' : error) :
  setRunErr None s = s
  /\ setRunErr (Some e') (setRunErr (Some e) s) = setRunErr (Some e) s
  /\ runErr (setRunErr_all errs Shared_init) = first_non_nil errs
  /\ totalBytes (setRunErr_all errs s) = totalBytes s.
Proof.
  split; [reflexivity|]. split.
  { unfold setRunErr. destruct (errOnce s) eqn:E; simpl.
    - now rewrite E.
    - reflexivity. }
  split.
  - unfold Shared_init. generalize 0 at 1. intros t.
    induction errs as [|err errs IH]; [reflexivity|].
    destruct err as [err|]; simpl.
    + now rewrite setRunErr_all_set.
    + exact IH.
  - revert s. induction errs as [|err errs IH]; intros s; [reflexivity|].
    simpl. rewrite IH. unfold setRunErr.
    destruct err; [|reflexivity]. now destruct (errOnce s).
Qed.

Lemma clamped_in_range (p : float) :
  is_nan p = false ->
  percent_in_range
    (if Float64.lt p 0 then 0%float
     else if Float64.gt p 100 then 100%float else p) = true.
Proof.
  intros Hp. destruct (Float64.lt p 0) eqn:H0; [reflexivity|].
  destruct (Float64.gt p 100) eqn:H1; [reflexivity|].
  unfold percent_in_range.
  rewrite (Float64Facts.not_lt_le 0 p), (Float64Facts.not_lt_le p 100);
    auto.
Qed.

Lemma Prim2SF_0 (x : float) : Prim2SF x = S754_zero false -> x = 0%float.
Proof. intros H. apply Prim2SF_inj. rewrite H. reflexivity. Qed.

(** X7. [percentDone] is 0 when the total is not positive and when nothing
    is done; for every current count and every total (an int64) its value
    is within [0,100]. *)
Theorem percentDone_in_range (current total : Z) :
  (total <= 0 -> percentDone current total = 0%float)
  /\ (0 < total <= max_int -> percentDone 0 total = 0%float)
  /\ (total <= max_int ->
      percent_in_range (percentDone current total) = true).
Proof.
  split; [|split].
  - intros H. unfold percentDone.
    destruct (Z.leb_spec total 0); [reflexivity|lia].
  - intros H. unfold percentDone.
    destruct (Z.leb_spec total 0); [lia|].
    destruct (of_int_pos_spec total ltac:(lia)) as (m & e & E & _).
    assert (Hz : (Float64.of_int 0 / Float64.of_int total * 100)%float
                 = 0%float).
    { apply Prim2SF_0. rewrite mul_spec, div_spec, E. reflexivity. }
    rewrite Hz. reflexivity.
  - intros H. unfold percentDone.
    destruct (Z.leb_spec total 0); [reflexivity|].
    apply clamped_in_range.
    apply mul_number; [|exact I].
    apply div_number; [apply of_int_number|apply of_int_nonzero; lia].
Qed.

(** X8. [percentElapsed] is 0 when the target is not positive; for every
    elapsed time and every target (an int64) its value is within
    [0,100]. *)
Theorem percentElapsed_in_range (elapsed target : time.Duration) :
  (target <= 0 -> percentElapsed elapsed target = 0%float)
  /\ (target <= max_int ->
      percent_in_range (percentElapsed elapsed target) = true).
Proof.
  split.
  - intros H. unfold percentElapsed.
    destruct (Z.leb_spec target 0); [reflexivity|lia].
  - intros H. unfold percentElapsed.
    destruct (Z.leb_spec target 0); [reflexivity|].
    apply clamped_in_range.
    apply mul_number; [|exact I].
    apply div_number; [apply Seconds_number|apply Seconds_nonzero; lia].
Qed.

Lemma binary_round_aux_nonneg (m e : Z) (l : location) :
  0 <= m -> SF_nonneg (binary_round_aux prec emax false m e l).
Proof.
  intros H. unfold binary_round_aux.
  pose proof (shr_fexp_nonneg m e l H) as H1.
  destruct (shr_fexp prec emax m e l) as [mrs e']. simpl in H1.
  pose proof (shr_fexp_nonneg _ e' loc_Exact
                (round_nearest_even_nonneg _ (loc_of_shr_record mrs) H1)) as H2.
  destruct (shr_fexp prec emax _ e' loc_Exact) as [mrs' e'']. simpl in H2.
  destruct (shr_m mrs') as [|p|p]; [exact I| |lia].
  destruct (e'' <=? emax - prec); exact I.
Qed.

Lemma SFmul_nonneg (x y : spec_float) :
  SF_nonneg x -> x <> S754_infinity false ->
  SF_nonneg y -> SF_nonzero y ->
  SF_nonneg (SFmul prec emax x y).
Proof.
  intros Hx Hi Hy Hn.
  destruct y as [| | |sy my ey]; try contradiction.
  destruct sy; [contradiction|].
  destruct x as [sx|sx| |sx mx ex]; try contradiction;
    destruct sx; try contradiction; try congruence; simpl; try exact I.
  apply binary_round_aux_nonneg. lia.
Qed.

Lemma SFdiv_nonneg (x y : spec_float) :
  SF_nonneg x -> SF_nonneg y -> SF_nonzero y ->
  SF_nonneg (SFdiv prec emax x y).
Proof.
  intros Hx Hy Hn.
  destruct y as [| | |sy my ey]; try contradiction.
  destruct sy; [contradiction|].
  destruct x as [sx|sx| |sx mx ex]; try contradiction;
    destruct sx; try contradiction; simpl; try exact I.
  pose proof (SFdiv_core_nonneg mx ex my ey) as H.
  destruct (SFdiv_core_binary prec emax (Z.pos mx) ex (Z.pos my) ey)
    as [[mz ez] lz]. simpl in H.
  now apply binary_round_aux_nonneg.
Qed.

Lemma of_int_nonneg (z : Z) :
  0 <= z <= max_int ->
  SF_nonneg (Prim2SF (Float64.of_int z))
  /\ Prim2SF (Float64.of_int z) <> S754_infinity false.
Proof.
  intros H. destruct (Z.eq_dec z 0) as [->|Hz].
  - split; [exact I|discriminate].
  - destruct (of_int_pos_spec z ltac:(lia)) as (m & e & -> & _).
    split; [exact I|discriminate].
Qed.

Lemma SF_nonneg_nonnegative (x : float) :
  SF_nonneg (Prim2SF x) -> nonnegative x = true.
Proof.
  unfold nonnegative, Float64.le. rewrite leb_spec.
  change (Prim2SF 0) with (S754_zero false).
  destruct (Prim2SF x) as [s|s| |s m e]; try contradiction;
    destruct s; try contradiction; reflexivity.
Qed.

(** X9. The throughput of a byte count that is not negative is not
    negative (and is a number), for every duration; the throughput of no
    byte over a positive duration is 0. *)
Theorem bytesToMbps_nonneg (bytes : Z) (d : time.Duration) :
  0 <= bytes <= max_int -> d <= max_int ->
  nonnegative (bytesToMbps bytes d) = true
  /\ (0 < d -> bytesToMbps 0 d = 0%float).
Proof.
  intros Hb Hd. split.
  - unfold bytesToMbps. destruct (Z.leb_spec d 0); [reflexivity|].
    apply SF_nonneg_nonnegative.
    destruct (Seconds_positive d ltac:(lia)) as (ms & es & Es).
    destruct (of_int_nonneg bytes Hb) as [Hn Hi].
    rewrite div_spec, div_spec, mul_spec, Es.
    apply SFdiv_nonneg; [|exact I|exact I].
    apply SFdiv_nonneg; [|exact I|exact I].
    apply SFmul_nonneg; auto; exact I.
  - intros H0. unfold bytesToMbps. destruct (Z.leb_spec d 0); [lia|].
    destruct (Seconds_positive d ltac:(lia)) as (ms & es & Es).
    apply Prim2SF_0. rewrite div_spec, div_spec, mul_spec, Es. reflexivity.
Qed.

Lemma bytesToMbps_nonneg_witness :
  nonnegative (bytesToMbps 2000000 (1 * Second)) = true
  /\ (0 < 1 * Second -> bytesToMbps 0 (1 * Second) = 0%float).
Proof.
  apply (bytesToMbps_nonneg 2000000 (1 * Second));
    unfold max_int, Second; lia.
Defined.

(* ================================================================== *)
(** * Normalizing twice, and the result of a successful run *)

Lemma TrimRight_idempotent (s cutset : string) :
  strings_TrimRight (strings_TrimRight s cutset) cutset
  = strings_TrimRight s cutset.
Proof.
  induction s as [|a s IH]; simpl; [reflexivity|].
  destruct (strings_TrimRight s cutset) as [|b r] eqn:E.
  - destruct (contains_char cutset a) eqn:Ea; simpl; [reflexivity|].
    now rewrite Ea.
  - simpl in *. now rewrite IH.
Qed.

Lemma TrimRight_slashes (n : nat) : strings_TrimRight (slashes n) "/" = ""%string.
Proof. induction n as [|n IH]; simpl; [reflexivity|]. now rewrite IH. Qed.

Lemma append_empty_l (s t : string) :
  (s ++ t)%string = ""%string -> s = ""%string /\ t = ""%string.
Proof. destruct s; simpl; [auto|discriminate]. Qed.

Lemma normalizeClientConfig_again (c : ClientConfig.t) :
  normalizeClientConfig (normalizeClientConfig c)
  = ClientConfig.mk
      (strings_TrimRight (base_or_default (normalizeClientConfig c)) "/")
      (ClientConfig.Duration (normalizeClientConfig c))
      (ClientConfig.Streams (normalizeClientConfig c))
      (ClientConfig.ChunkSize (normalizeClientConfig c))
      (ClientConfig.DownloadMB (normalizeClientConfig c))
      (ClientConfig.PingCount (normalizeClientConfig c))
      (ClientConfig.Timeout (normalizeClientConfig c))
      (ClientConfig.JSON (normalizeClientConfig c))
      (ClientConfig.Progress (normalizeClientConfig c)).
Proof.
  unfold normalizeClientConfig at 1.
  fold (base_or_default (normalizeClientConfig c)).
  unfold normalizeClientConfig.
  cbn [ClientConfig.Duration ClientConfig.Streams ClientConfig.ChunkSize
       ClientConfig.DownloadMB ClientConfig.PingCount ClientConfig.Timeout
       ClientConfig.JSON ClientConfig.Progress].
  f_equal.
  - destruct (Z.leb_spec (ClientConfig.Duration c) 0).
    + reflexivity.
    + destruct (Z.leb_spec (ClientConfig.Duration c) 0); [lia|reflexivity].
  - destruct (Z.ltb_spec (ClientConfig.Streams c) 1).
    + reflexivity.
    + destruct (Z.ltb_spec (ClientConfig.Streams c) 1); [lia|reflexivity].
  - destruct (Z.ltb_spec (ClientConfig.ChunkSize c) 1024).
    + reflexivity.
    + destruct (Z.ltb_spec (ClientConfig.ChunkSize c) 1024);
        [lia|reflexivity].
  - destruct (Z.ltb_spec (ClientConfig.DownloadMB c) 1).
    + reflexivity.
    + destruct (Z.ltb_spec (ClientConfig.DownloadMB c) 1);
        [lia|reflexivity].
  - destruct (Z.ltb_spec (ClientConfig.PingCount c) 1).
    + reflexivity.
    + destruct (Z.ltb_spec (ClientConfig.PingCount c) 1);
        [lia|reflexivity].
  - destruct (Z.leb_spec (ClientConfig.Timeout c) 0).
    + reflexivity.
    + destruct (Z.leb_spec (ClientConfig.Timeout c) 0); [lia|reflexivity].
Qed.

(** A normalized configuration whose base URL is not empty is normalized
    to itself. *)
Lemma normalizeClientConfig_keep (c : ClientConfig.t) :
  ClientConfig.BaseURL (normalizeClientConfig c) <> ""%string ->
  normalizeClientConfig (normalizeClientConfig c) = normalizeClientConfig c.
Proof.
  intros Hne. rewrite normalizeClientConfig_again. unfold base_or_default.
  destruct (String.eqb_spec
              (ClientConfig.BaseURL (normalizeClientConfig c)) "")
    as [E|_]; [contradiction|].
  assert (Hb : strings_TrimRight
                 (ClientConfig.BaseURL (normalizeClientConfig c)) "/"
               = ClientConfig.BaseURL (normalizeClientConfig c)).
  { unfold normalizeClientConfig. cbn [ClientConfig.BaseURL].
    apply TrimRight_idempotent. }
  rewrite Hb. now destruct (normalizeClientConfig c).
Qed.

(** X10. Normalizing a normalized configuration changes nothing, unless
    the base URL has come out empty; that happens exactly when the input's
    base URL is made of slashes only, and a second normalization then puts
    the default endpoint.  From the second application on, normalizing
    changes nothing. *)
Theorem normalizeClientConfig_twice (cfg : ClientConfig.t) :
  let out := normalizeClientConfig cfg in
  (ClientConfig.BaseURL out <> ""%string -> normalizeClientConfig out = out)
  /\ (ClientConfig.BaseURL out = ""%string
      <-> exists n, ClientConfig.BaseURL cfg = slashes (S n))
  /\ (ClientConfig.BaseURL out = ""%string ->
      ClientConfig.BaseURL (normalizeClientConfig out) = DefaultClientBase)
  /\ normalizeClientConfig (normalizeClientConfig out)
     = normalizeClientConfig out.
Proof.
  intros out.
  pose proof normalizeClientConfig_keep as Hkeep.
  assert (Hdef : forall c,
             ClientConfig.BaseURL c = ""%string ->
             ClientConfig.BaseURL (normalizeClientConfig c)
             = DefaultClientBase).
  { intros c E. unfold normalizeClientConfig. cbn [ClientConfig.BaseURL].
    rewrite E. reflexivity. }
  split; [apply Hkeep|]. split; [|split].
  - unfold out, normalizeClientConfig. cbn [ClientConfig.BaseURL].
    fold (base_or_default cfg). split.
    + intros E.
      destruct (TrimRight_slash_decompose (base_or_default cfg)) as [n Hn].
      rewrite E in Hn. simpl in Hn. unfold base_or_default in Hn.
      destruct (String.eqb_spec (ClientConfig.BaseURL cfg) "") as [E0|E0].
      * destruct n; discriminate.
      * destruct n as [|n]; [simpl in Hn; congruence|]. now exists n.
    + intros [n Hn]. unfold base_or_default. rewrite Hn. simpl String.eqb.
      apply (TrimRight_slashes (S n)).
  - apply Hdef.
  - destruct (String.eqb_spec (ClientConfig.BaseURL out) "") as [E|E].
    + apply Hkeep. rewrite (Hdef out E). discriminate.
    + subst out. rewrite (Hkeep cfg E). apply (Hkeep cfg E).
Qed.

(** X11. In the Result of a run that succeeds, the Mbps of each throughput
    phase is the throughput of its own Bytes over its own Duration, and
    the smallest ping is not above the 95th percentile. *)
Theorem RunClient_ok_consistent (env : Env) (cfg : ClientConfig.t)
  (w w' : World) (res : Result.t) :
  RunClient env cfg w = ((res, None), w') ->
  SpeedMetrics.Mbps (Result.Download res)
  = bytesToMbps (SpeedMetrics.Bytes (Result.Download res))
      (SpeedMetrics.Duration (Result.Download res))
  /\ SpeedMetrics.Mbps (Result.Upload res)
     = bytesToMbps (SpeedMetrics.Bytes (Result.Upload res))
         (SpeedMetrics.Duration (Result.Upload res))
  /\ PingMetrics.Min (Result.Ping res) <= PingMetrics.P95 (Result.Ping res).
Proof.
  rewrite RunClient_eq. cbv zeta. set (cfg' := normalizeClientConfig cfg).
  assert (Hping : forall m w0 w1,
             runPing env cfg' w0 = ((m, None), w1) ->
             PingMetrics.Min m <= PingMetrics.P95 m).
  { intros m w0 w1.
    destruct (Z.lt_ge_cases (ClientConfig.PingCount cfg') 0) as [Hneg|Hpos];
      [rewrite (runPing_panics env cfg' w0 Hneg); discriminate|].
    rewrite (runPing_counted env cfg' w0 Hpos).
    destruct (ping_loop env cfg' _ 0 [] w0) as [[err|results] w2];
      [discriminate|].
    destruct (Z.eqb_spec (len results) 0) as [E|E]; [discriminate|].
    intros [= <- _]. cbn [PingMetrics.Min PingMetrics.P95].
    assert (Hne : slices_Sort results <> []).
    { intros E0. pose proof (slices_Sort_perm results) as Hp.
      rewrite E0 in Hp. apply Permutation_nil in Hp. subst results.
      apply E. reflexivity. }
    apply sorted_head_le; [apply slices_Sort_sorted|].
    now apply percentileDuration_member. }
  assert (Hphase : forall no_data s elapsed m,
             phase_result no_data s elapsed = (m, None) ->
             SpeedMetrics.Mbps m
             = bytesToMbps (SpeedMetrics.Bytes m) (SpeedMetrics.Duration m)).
  { intros no_data s elapsed m. unfold phase_result.
    destruct (runErr s); [discriminate|].
    destruct (totalBytes s =? 0); [discriminate|].
    intros [= <-]. reflexivity. }
  destruct (runPing env cfg' w) as [[pingRes [e1|]] w1] eqn:E1;
    cbn [fst snd]; [discriminate|].
  pose proof (runDownload_result env cfg' w1) as Hd.
  destruct (runDownload env cfg' w1) as [[downloadRes [e2|]] w2];
    cbn [fst snd]; [discriminate|].
  pose proof (runUpload_result env cfg' w2) as Hu.
  destruct (runUpload env cfg' w2) as [[uploadRes [e3|]] w3];
    cbn [fst snd]; [discriminate|].
  intros [= <- _]. cbn [Result.Download Result.Upload Result.Ping fst] in *.
  split; [eapply Hphase; symmetry; exact Hd|].
  split; [eapply Hphase; symmetry; exact Hu|].
  eapply Hping; exact E1.
Qed.

Lemma RunClient_ok_consistent_witness :
  let res := fst (fst (RunClient env_scenario_AB cfg_scenario_AB World_init)) in
  SpeedMetrics.Mbps (Result.Download res)
  = bytesToMbps (SpeedMetrics.Bytes (Result.Download res))
      (SpeedMetrics.Duration (Result.Download res))
  /\ SpeedMetrics.Mbps (Result.Upload res)
     = bytesToMbps (SpeedMetrics.Bytes (Result.Upload res))
         (SpeedMetrics.Duration (Result.Upload res))
  /\ PingMetrics.Min (Result.Ping res) <= PingMetrics.P95 (Result.Ping res).
Proof.
  intros res.
  apply (RunClient_ok_consistent env_scenario_AB cfg_scenario_AB World_init
           (snd (RunClient env_scenario_AB cfg_scenario_AB World_init)) res).
  vm_compute. reflexivity.
Defined.

(* ================================================================== *)
(** * The requests of a throughput phase *)

Lemma requests_app (t1 t2 : list Event) :
  requests (t1 ++ t2) = requests t1 ++ requests t2.
Proof.
  induction t1 as [|ev t1 IH]; simpl; [reflexivity|].
  destruct ev; simpl; now rewrite IH.
Qed.

Lemma action_requests_app (l1 l2 : list Action) :
  action_requests (l1 ++ l2) = action_requests l1 ++ action_requests l2.
Proof.
  induction l1 as [|a l1 IH]; simpl; [reflexivity|].
  destruct a; simpl; now rewrite IH.
Qed.

Lemma action_requests_perm (l1 l2 : list Action) :
  Permutation l1 l2 ->
  Permutation (action_requests l1) (action_requests l2).
Proof.
  induction 1 as [|a l1 l2 _ IH|a b l|l1 l2 l3 _ IH1 _ IH2].
  - constructor.
  - destruct a; simpl; auto.
  - destruct a, b; simpl; try apply Permutation_refl. apply perm_swap.
  - now transitivity (action_requests l2).
Qed.

Lemma action_requests_no_ticks (l : list Action) :
  action_requests (no_ticks l) = action_requests l.
Proof.
  induction l as [|a l IH]; simpl; [reflexivity|].
  destruct a; simpl; now rewrite IH.
Qed.

Lemma exec_requests (on_tick : Z -> World -> World) (acts : list Action) :
  (forall current w, requests (trace (on_tick current w))
                     = requests (trace w)) ->
  forall (s : Shared) (w : World),
    requests (trace (snd (exec on_tick acts (s, w))))
    = requests (trace w) ++ action_requests acts.
Proof.
  intros Htick. induction acts as [|a acts IH]; intros s w.
  - simpl. now rewrite app_nil_r.
  - change (exec on_tick (a :: acts) (s, w))
      with (exec on_tick acts (step on_tick a (s, w))).
    destruct a; simpl step; rewrite IH; simpl action_requests; auto.
    + unfold emit. cbn [trace]. rewrite requests_app. simpl.
      now rewrite <- app_assoc.
    + now rewrite Htick.
Qed.

Lemma exec_progress_events (on_tick : Z -> World -> World)
  (acts : list Action) :
  (forall current w, progress_events (trace (on_tick current w))
                     = progress_events (trace w)) ->
  forall (s : Shared) (w : World),
    progress_events (trace (snd (exec on_tick acts (s, w))))
    = progress_events (trace w).
Proof.
  intros Htick. induction acts as [|a acts IH]; intros s w.
  - reflexivity.
  - change (exec on_tick (a :: acts) (s, w))
      with (exec on_tick acts (step on_tick a (s, w))).
    destruct a; simpl step; rewrite IH; auto.
    unfold emit. cbn [trace]. rewrite progress_events_app. simpl.
    now rewrite app_nil_r.
Qed.

Lemma requests_reportProgress (cfg : ClientConfig.t) (phase : string)
  (percent mbps pingMs : float) (w : World) :
  requests (trace (reportProgress cfg phase percent mbps pingMs w))
  = requests (trace w).
Proof.
  rewrite reportProgress_unfold. destruct (ClientConfig.Progress cfg);
    [|reflexivity].
  unfold emit. cbn [trace]. rewrite requests_app. simpl.
  now rewrite app_nil_r.
Qed.

Lemma interleave_requests (sampler : bool) (schedule : list nat)
  (ws : list (list Action)) (r : Request) (n : nat) :
  action_requests (List.concat ws) = repeat r n ->
  action_requests (interleave sampler schedule ws) = repeat r n.
Proof.
  intros H. apply Permutation_repeat. rewrite <- H.
  rewrite <- (action_requests_no_ticks (interleave _ _ _)).
  rewrite <- (action_requests_no_ticks (List.concat ws)).
  apply action_requests_perm, interleave_perm.
Qed.

Lemma download_read_loop_requests (reads : list (Z * option error)) :
  action_requests (download_read_loop reads) = [].
Proof.
  induction reads as [|[read err] rest IH]; simpl; [reflexivity|].
  rewrite action_requests_app.
  assert (E : action_requests (if 0 <? read then [AAdd read] else []) = [])
    by (destruct (0 <? read); reflexivity).
  rewrite E. destruct err as [err|]; [|exact IH].
  destruct (negb (errors_Is err io_EOF)); reflexivity.
Qed.

Lemma upload_body_requests (t : timedReader) (calls : list ReadCall) :
  action_requests (snd (upload_body t calls)) = [].
Proof.
  revert t. induction calls as [|call rest IH]; intros t; simpl.
  - reflexivity.
  - unfold timedReader_Read.
    destruct (ctx_Err call); [reflexivity|].
    destruct ((chunkSize t <? Z.of_N (buf_len call)) && (chunkSize t <? 0)); [reflexivity|].
    destruct (rand_err call); [reflexivity|].
    match goal with |- context [upload_body ?t' rest] =>
      specialize (IH t'); destruct (upload_body t' rest) end.
    simpl in *. exact IH.
Qed.

Lemma download_workers_requests (env : Env) (cfg : ClientConfig.t) :
  action_requests (List.concat (download_workers env cfg))
  = repeat (GetDownload (ClientConfig.BaseURL cfg) (perStreamBytes cfg))
      (List.length (download_built env cfg)).
Proof.
  unfold download_workers, download_built.
  induction (stream_ids cfg) as [|i ids IH]; [reflexivity|].
  cbn [map List.concat filter]. rewrite action_requests_app, IH.
  unfold download_worker.
  destruct (download_stream env i); cbn [action_requests]; try reflexivity.
  rewrite download_read_loop_requests. reflexivity.
Qed.

Lemma upload_workers_requests (env : Env) (cfg : ClientConfig.t) :
  action_requests (List.concat (upload_workers env cfg))
  = repeat (PostUpload (ClientConfig.BaseURL cfg))
      (List.length (upload_built env cfg)).
Proof.
  unfold upload_workers, upload_built.
  induction (stream_ids cfg) as [|i ids IH]; [reflexivity|].
  cbn [map List.concat filter]. rewrite action_requests_app, IH.
  unfold upload_worker.
  destruct (upload_new_request (upload_stream env i)); [reflexivity|].
  cbn [action_requests]. rewrite action_requests_app, upload_body_requests.
  destruct (upload_do (upload_stream env i)) as [err|]; [|reflexivity].
  destruct (errors_Is err context_DeadlineExceeded
            || errors_Is err context_Canceled); reflexivity.
Qed.

Lemma download_joined_requests (env : Env) (cfg : ClientConfig.t)
  (w : World) :
  requests (trace (download_joined env cfg w))
  = requests (trace w)
    ++ repeat (GetDownload (ClientConfig.BaseURL cfg) (perStreamBytes cfg))
         (List.length (download_built env cfg)).
Proof.
  unfold download_joined, download_join, time_Now.
  match goal with |- context [exec ?tick ?steps (Shared_init, ?w0)] =>
    pose proof (exec_requests tick steps) as H1;
    specialize (H1 (fun current w =>
                      requests_reportProgress cfg _ _ _ _ _)
                  Shared_init w0);
    destruct (exec tick steps (Shared_init, w0)) as [s w1]
  end.
  cbn [snd trace] in H1.
  rewrite (interleave_requests _ _ _ _ _
             (download_workers_requests env cfg)) in H1.
  unfold time_Since, time_Now. exact H1.
Qed.

Lemma upload_joined_requests (env : Env) (cfg : ClientConfig.t) (w : World) :
  requests (trace (upload_joined env cfg w))
  = requests (trace w)
    ++ repeat (PostUpload (ClientConfig.BaseURL cfg))
         (List.length (upload_built env cfg)).
Proof.
  unfold upload_joined, upload_join, time_Now.
  match goal with |- context [exec ?tick ?steps (Shared_init, ?w0)] =>
    pose proof (exec_requests tick steps) as H1;
    specialize (H1 (fun current w =>
                      requests_reportProgress cfg _ _ _ _ _)
                  Shared_init w0);
    destruct (exec tick steps (Shared_init, w0)) as [s w1]
  end.
  cbn [snd trace] in H1.
  rewrite (interleave_requests _ _ _ _ _
             (upload_workers_requests env cfg)) in H1.
  unfold time_Since, time_Now. exact H1.
Qed.

(** The reports of a sampler are no requests. *)
Lemma ticks_no_requests (P : Event -> Prop) (late : Late) :
  (forall ev, P ev -> exists u, ev = EvProgress u) ->
  ticks_all P late -> Forall (fun tick => requests (snd tick) = []) late.
Proof.
  intros HP. unfold ticks_all. apply Forall_impl. intros tick H.
  induction H as [|ev events Hev _ IH]; [reflexivity|].
  destruct (HP ev Hev) as [u ->]. exact IH.
Qed.

Lemma woven_requests (P : Event -> Prop) (late : Late) (main : list Event) :
  (forall ev, P ev -> exists u, ev = EvProgress u) ->
  ticks_all P late ->
  requests (fst (weave late main)) = requests main.
Proof.
  intros HP Hl.
  apply (weave_hidden Request requests requests_app eq_refl).
  now apply (ticks_no_requests P).
Qed.

(** X12. Whatever the schedule, the download phase sends exactly one
    request per stream whose request can be built, each for the download
    of DownloadMB * 1024 * 1024 bytes (an int64 product) from the base URL,
    and the upload phase one POST per stream whose request can be built;
    neither sends anything else. *)
Theorem throughput_phase_requests (env : Env) (cfg : ClientConfig.t)
  (w : World) :
  requests (trace (snd (runDownload env cfg w)))
  = requests (trace w)
    ++ repeat (GetDownload (ClientConfig.BaseURL cfg) (perStreamBytes cfg))
         (List.length (download_built env cfg))
  /\ requests (trace (snd (runUpload env cfg w)))
     = requests (trace w)
       ++ repeat (PostUpload (ClientConfig.BaseURL cfg))
            (List.length (upload_built env cfg))
  /\ (0 <= ClientConfig.DownloadMB cfg <= 8796093022207 ->
      perStreamBytes cfg = ClientConfig.DownloadMB cfg * 1048576).
Proof.
  split; [|split].
  - rewrite runDownload_world. unfold emit_all. cbn [trace].
    rewrite requests_app, download_joined_requests.
    rewrite (woven_requests (download_late_report env cfg w))
      by (try apply download_ticks_reports;
          intros ev [now ->]; eexists; reflexivity).
    unfold download_last. destruct (ClientConfig.Progress cfg);
      cbn [requests]; now rewrite app_nil_r.
  - rewrite runUpload_world. unfold emit_all. cbn [trace].
    rewrite requests_app, upload_joined_requests.
    rewrite (woven_requests (upload_late_report env cfg w))
      by (try apply upload_ticks_reports;
          intros ev [now ->]; eexists; reflexivity).
    unfold upload_last. destruct (ClientConfig.Progress cfg);
      cbn [requests]; now rewrite app_nil_r.
  - intros H. unfold perStreamBytes, Int64.mul.
    rewrite (wrap64_in_range (ClientConfig.DownloadMB cfg * 1024))
      by (unfold in_range, min_int, max_int; lia).
    rewrite wrap64_in_range by (unfold in_range, min_int, max_int; lia).
    lia.
Qed.

(* ================================================================== *)
(** * The last report of a throughput phase, and the read loop *)

Lemma progress_events_tick_no_sink (cfg : ClientConfig.t) (phase : string)
  (percent mbps pingMs : float) (w : World) :
  ClientConfig.Progress cfg = false ->
  progress_events (trace (reportProgress cfg phase percent mbps pingMs w))
  = progress_events (trace w).
Proof. intros H. rewrite reportProgress_unfold, H. reflexivity. Qed.

Lemma download_joined_no_sink (env : Env) (cfg : ClientConfig.t)
  (w : World) :
  ClientConfig.Progress cfg = false ->
  progress_events (trace (download_joined env cfg w))
  = progress_events (trace w).
Proof.
  intros Hp. unfold download_joined, download_join, time_Now.
  match goal with |- context [exec ?tick ?steps (Shared_init, ?w0)] =>
    pose proof (exec_progress_events tick steps
                  (fun current w =>
                     progress_events_tick_no_sink cfg _ _ _ _ _ Hp)
                  Shared_init w0) as H1;
    destruct (exec tick steps (Shared_init, w0)) as [s w1]
  end.
  cbn [snd trace] in H1. unfold time_Since, time_Now. exact H1.
Qed.

Lemma upload_joined_no_sink (env : Env) (cfg : ClientConfig.t) (w : World) :
  ClientConfig.Progress cfg = false ->
  progress_events (trace (upload_joined env cfg w))
  = progress_events (trace w).
Proof.
  intros Hp. unfold upload_joined, upload_join, time_Now.
  match goal with |- context [exec ?tick ?steps (Shared_init, ?w0)] =>
    pose proof (exec_progress_events tick steps
                  (fun current w =>
                     progress_events_tick_no_sink cfg _ _ _ _ _ Hp)
                  Shared_init w0) as H1;
    destruct (exec tick steps (Shared_init, w0)) as [s w1]
  end.
  cbn [snd trace] in H1. unfold time_Since, time_Now. exact H1.
Qed.

(** The last report woven with the late ticks: the ticks that come before
    it, the report, the ticks that come before the phase returns. *)
Lemma last_report_woven (P : Event -> Prop) (late : Late) (ev : Event) :
  ticks_all P late ->
  exists before after,
    fst (weave late [ev]) = before ++ ev :: after
    /\ Forall P before /\ Forall P after
    /\ (late = [] -> before = [] /\ after = []).
Proof.
  intros Hl. rewrite weave_one. cbn [fst].
  exists (fst (due late)), (fst (due (passed (snd (due late))))).
  split; [reflexivity|].
  destruct (due_all P late Hl) as [H1 H2].
  split; [exact H1|]. split.
  - apply due_all, passed_all, H2.
  - intros ->. split; reflexivity.
Qed.



(** Under [env_sampled] the report of percent 100 of the download phase
    comes between two late ticks of the sampler, which report the 1,000,000
    bytes of the phase. *)
Example runDownload_late_ticks_sampled :
  let cfg' := normalizeClientConfig cfg_with_sink in
  let w1 := snd (runPing env_sampled cfg' World_init) in
  let start := fst (download_join env_sampled cfg' w1) in
  added (download_joined env_sampled cfg' w1)
    (snd (runDownload env_sampled cfg' w1))
  = [EvProgress
       (download_tick_report start (40 * 1024 * 1024) 1000000 (2 * Second));
     EvProgress
       (final_report "download" 1000000
          (download_elapsed env_sampled cfg' w1));
     EvProgress
       (download_tick_report start (40 * 1024 * 1024) 1000000 (3 * Second))]
  /\ totalBytes (download_shared env_sampled cfg' w1) = 1000000.
Proof. vm_compute. split; reflexivity. Qed.

Lemma download_read_loop_ok (pre : list (Z * option error)) :
  Forall (fun r => snd r = None) pre ->
  forall rest,
    download_read_loop (pre ++ rest)
    = download_read_loop pre ++ download_read_loop rest.
Proof.
  induction 1 as [|[n err] pre Hr _ IH]; intros rest; [reflexivity|].
  simpl in Hr. subst err. simpl. rewrite IH. now rewrite app_assoc.
Qed.

Lemma download_read_loop_counted (pre : list (Z * option error)) :
  Forall (fun r => snd r = None) pre ->
  sum_adds (download_read_loop pre) = counted_bytes pre
  /\ first_err (download_read_loop pre) = None.
Proof.
  induction 1 as [|[n err] pre Hr _ [IH1 IH2]]; [split; reflexivity|].
  simpl in Hr. subst err. simpl.
  destruct (Z.ltb_spec 0 n); simpl; rewrite ?IH1; split; auto; lia.
Qed.

(** X14. The read loop of a download worker counts every positive byte
    count a read returns, the one returned together with the error that
    ends the stream included, and makes no read after that error.  An
    error that is, or wraps, the end of the stream is not recorded; any
    other is. *)
Theorem download_read_loop_spec (pre rest : list (Z * option error)) (n : Z)
  (e : error) :
  Forall (fun r => snd r = None) pre ->
  sum_adds (download_read_loop pre) = counted_bytes pre
  /\ first_err (download_read_loop pre) = None
  /\ sum_adds (download_read_loop (pre ++ (n, Some e) :: rest))
     = counted_bytes pre + Z.max 0 n
  /\ first_err (download_read_loop (pre ++ (n, Some e) :: rest))
     = if errors_Is e io_EOF then None else Some e.
Proof.
  intros Hpre. destruct (download_read_loop_counted pre Hpre) as [H1 H2].
  split; [exact H1|]. split; [exact H2|].
  rewrite (download_read_loop_ok pre Hpre).
  rewrite sum_adds_app, H1, first_err_app_none by exact H2.
  simpl. destruct (Z.ltb_spec 0 n), (errors_Is e io_EOF); simpl;
    split; try reflexivity; lia.
Qed.

Lemma download_read_loop_spec_witness :
  sum_adds (download_read_loop [(600000, None); (0, None)]) = 600000
  /\ first_err (download_read_loop [(600000, None); (0, None)]) = None
  /\ sum_adds (download_read_loop
                 ([(600000, None); (0, None)]
                  ++ (400000, Some (wrapped "read" io_EOF))
                  :: [(7, None)]))
     = 600000 + Z.max 0 400000
  /\ first_err (download_read_loop
                  ([(600000, None); (0, None)]
                   ++ (400000, Some (wrapped "read" io_EOF))
                   :: [(7, None)]))
     = if errors_Is (wrapped "read" io_EOF) io_EOF then None
       else Some (wrapped "read" io_EOF).
Proof.
  apply (download_read_loop_spec [(600000, None); (0, None)] [(7, None)]
           400000 (wrapped "read" io_EOF)).
  repeat constructor.
Defined.

(* ================================================================== *)
(** * The outcomes of a ping phase *)

(** Among the next [n] probes either all succeed or there is a first one
    that fails. *)
Lemma first_failing_probe (env : Env) (p n : nat) :
  (forall j, (j < n)%nat -> ping_get env (p + j)%nat = None)
  \/ exists k err,
       (k < n)%nat
       /\ (forall j, (j < k)%nat -> ping_get env (p + j)%nat = None)
       /\ ping_get env (p + k)%nat = Some err.
Proof.
  induction n as [|n [IH|(k & err & Hk & Hok & Hfail)]].
  - left. intros j Hj. lia.
  - destruct (ping_get env (p + n)%nat) as [err|] eqn:E.
    + right. exists n, err. split; [lia|]. split; [|exact E].
      intros j Hj. apply IH. exact Hj.
    + left. intros j Hj. destruct (Nat.eq_dec j n) as [->|Hne];
        [exact E|]. apply IH. lia.
  - right. exists k, err. split; [lia|]. split; assumption.
Qed.

(** X15. With a ping count of 0 the ping phase makes no probe, sends
    nothing and fails with "ping returned no data".  With a negative count
    it panics when it allocates its results, before anything is sent.
    With at least one probe it either succeeds or returns the error of a
    probe that failed: it never then reports missing data, and it does not
    panic. *)
Theorem runPing_outcomes (env : Env) (cfg : ClientConfig.t) (w : World) :
  (ClientConfig.PingCount cfg = 0 ->
   runPing env cfg w
   = ((PingMetrics.zero, Some (errors_New "ping returned no data")), w))
  /\ (ClientConfig.PingCount cfg < 0 ->
      exists msg,
        runPing env cfg w = ((PingMetrics.zero, Some (runtime_panic msg)), w))
  /\ (1 <= ClientConfig.PingCount cfg ->
      (exists m, fst (runPing env cfg w) = (m, None))
      \/ exists k err,
           (k < Z.to_nat (ClientConfig.PingCount cfg))%nat
           /\ ping_get env (probes w + k)%nat = Some err
           /\ fst (runPing env cfg w) = (PingMetrics.zero, Some err)).
Proof.
  split; [|split].
  - intros H. rewrite runPing_counted by lia. rewrite H. reflexivity.
  - intros H. eexists. apply runPing_panics. exact H.
  - intros H.
    destruct (first_failing_probe env (probes w)
                (Z.to_nat (ClientConfig.PingCount cfg)))
      as [Hok|(k & err & Hk & Hok & Hfail)].
    + left.
      eexists. apply (runPing_all_succeed env cfg w ltac:(lia) Hok).
    + right. exists k, err. split; [exact Hk|]. split; [exact Hfail|].
      rewrite runPing_counted by lia.
      now rewrite (ping_loop_failure env cfg _ k 0 [] w err Hk Hok Hfail).
Qed.

(* ================================================================== *)
(** * The front end: messages and flags *)

Lemma Update_all_cons (m : model.t) (msg : Msg) (msgs : list Msg) :
  Update_all m (msg :: msgs) = Update_all (fst (Update m msg)) msgs.
Proof. reflexivity. Qed.

(** X16. Over any sequence of progress messages the program keeps, for
    each phase, the percent and the value of the last message of that
    phase (the ping milliseconds for the ping phase, the Mbps for the
    others), a message of an unknown phase changes nothing, and the
    configuration, the width, the result and the error are untouched.
    After each of them the program listens for the next. *)
Theorem Update_progress_last_wins (m : model.t)
  (us : list ProgressUpdate.t) :
  let m' := Update_all m (map progressMsg us) in
  model.ping m'
  = match last_of_phase "ping" us with
    | Some u => progressState.mk (ProgressUpdate.Percent u)
                  (ProgressUpdate.PingMs u)
    | None => model.ping m
    end
  /\ model.download m'
     = match last_of_phase "download" us with
       | Some u => progressState.mk (ProgressUpdate.Percent u)
                     (ProgressUpdate.Mbps u)
       | None => model.download m
       end
  /\ model.upload m'
     = match last_of_phase "upload" us with
       | Some u => progressState.mk (ProgressUpdate.Percent u)
                     (ProgressUpdate.Mbps u)
       | None => model.upload m
       end
  /\ model.cfg m' = model.cfg m
  /\ model.width m' = model.width m
  /\ model.result m' = model.result m
  /\ model.err m' = model.err m
  /\ forall u, snd (Update m (progressMsg u)) = Cmd_listenProgress.
Proof.
  cbv zeta. revert m. induction us as [|u us IH]; intros m.
  - simpl. repeat split; reflexivity.
  - cbn [map]. rewrite Update_all_cons.
    destruct (IH (fst (Update m (progressMsg u))))
      as (Hp & Hd & Hu & Hc & Hw & Hr & He & _).
    rewrite Hp, Hd, Hu, Hc, Hw, Hr, He. clear IH Hp Hd Hu Hc Hw Hr He.
    cbn [last_of_phase].
    destruct (last_of_phase "ping" us), (last_of_phase "download" us),
      (last_of_phase "upload" us);
      cbn [Update fst];
      destruct (String.eqb_spec (ProgressUpdate.Phase u) "ping") as [E|E];
      try rewrite E; cbn [String.eqb Ascii.eqb Bool.eqb model.ping
        model.download model.upload model.cfg model.width model.result
        model.err];
      try (repeat split; reflexivity);
      destruct (String.eqb_spec (ProgressUpdate.Phase u) "download")
        as [E1|E1];
      try rewrite E1; cbn [String.eqb Ascii.eqb Bool.eqb model.ping
        model.download model.upload model.cfg model.width model.result
        model.err];
      try (repeat split; reflexivity);
      destruct (String.eqb_spec (ProgressUpdate.Phase u) "upload")
        as [E2|E2];
      cbn [model.ping model.download model.upload model.cfg model.width
           model.result model.err];
      repeat split; reflexivity.
Qed.

(** X17. The flags, once normalized: the base URL is never empty and never
    ends in a slash (a URL flag that is empty or made of slashes only gives
    the default endpoint), and normalizing again changes nothing. *)
Theorem parseFlags_normalized (f : Flags) :
  let cfg := normalizeClientConfig (parseFlags f) in
  ClientConfig.BaseURL cfg <> ""%string
  /\ last_char (ClientConfig.BaseURL cfg) <> Some "/"%char
  /\ (strings_TrimRight (flag_url f) "/" = ""%string ->
      ClientConfig.BaseURL cfg = DefaultClientBase)
  /\ (strings_TrimRight (flag_url f) "/" <> ""%string ->
      ClientConfig.BaseURL cfg = strings_TrimRight (flag_url f) "/")
  /\ normalizeClientConfig cfg = cfg.
Proof.
  intros cfg.
  assert (Hb : ClientConfig.BaseURL cfg
               = if String.eqb (strings_TrimRight (flag_url f) "/") ""
                 then DefaultClientBase
                 else strings_TrimRight (flag_url f) "/").
  { unfold cfg, normalizeClientConfig, parseFlags.
    cbn [ClientConfig.BaseURL].
    destruct (String.eqb_spec (strings_TrimRight (flag_url f) "/") "").
    - reflexivity.
    - apply TrimRight_idempotent. }
  assert (Hne : ClientConfig.BaseURL cfg <> ""%string).
  { rewrite Hb.
    destruct (String.eqb_spec (strings_TrimRight (flag_url f) "/") "");
      [discriminate|assumption]. }
  split; [exact Hne|]. split.
  { unfold cfg, normalizeClientConfig. cbn [ClientConfig.BaseURL].
    intros H. apply TrimRight_last in H. discriminate. }
  split.
  { intros E. rewrite Hb, E. reflexivity. }
  split.
  { intros E. rewrite Hb.
    destruct (String.eqb_spec (strings_TrimRight (flag_url f) "/") "");
      [contradiction|reflexivity]. }
  exact (normalizeClientConfig_keep (parseFlags f) Hne).
Qed.

(* ================================================================== *)
(** * The front end: choosing a server *)

Lemma pick_loop_answers (env : Env) (servers : list serverEntry) :
  forall (bestURL : string) (bestLatency : time.Duration) (w : World),
    fst (pick_loop env servers bestURL bestLatency w)
    = fold_left keep_faster (answers env servers w) (bestURL, bestLatency).
Proof.
  induction servers as [|server rest IH]; intros bestURL bestLatency w.
  - reflexivity.
  - cbn [pick_loop answers].
    destruct (String.eqb (URL server) ""); [apply IH|].
    destruct (probe_server env server w) as [[elapsed|] w1]; [|apply IH].
    cbn [fold_left]. unfold keep_faster at 2. cbn [fst snd].
    destruct (elapsed <? bestLatency); apply IH.
Qed.

Lemma pick_loop_world (env : Env) (servers : list serverEntry) :
  forall (b1 b2 : string) (l1 l2 : time.Duration) (w : World),
    snd (pick_loop env servers b1 l1 w) = snd (pick_loop env servers b2 l2 w).
Proof.
  induction servers as [|server rest IH]; intros b1 b2 l1 l2 w.
  - reflexivity.
  - cbn [pick_loop].
    destruct (String.eqb (URL server) ""); [apply IH|].
    destruct (probe_server env server w) as [[elapsed|] w1]; [|apply IH].
    destruct (elapsed <? l1), (elapsed <? l2); apply IH.
Qed.

(** The strict minimum a left fold keeps: the first of the fastest. *)
Lemma keep_faster_fold (ans : list (string * time.Duration)) :
  forall best,
    let res := fold_left keep_faster ans best in
    (res = best \/ (In res ans /\ snd res < snd best))
    /\ snd res <= snd best
    /\ (forall a, In a ans -> snd res <= snd a)
    /\ ((exists a, In a ans /\ snd a < snd best) -> snd res < snd best).
Proof.
  induction ans as [|a ans IH]; intros best; cbn [fold_left].
  - cbv zeta. split; [now left|]. split; [lia|].
    split; [intros a []|intros (a & [] & _)].
  - specialize (IH (keep_faster best a)). cbv zeta in *.
    destruct IH as (H1 & H2 & H3 & H4).
    assert (Hk : (snd a < snd best /\ keep_faster best a = a)
                 \/ (snd best <= snd a /\ keep_faster best a = best)).
    { unfold keep_faster. destruct (Z.ltb_spec (snd a) (snd best)); auto. }
    destruct Hk as [[Hlt Ek]|[Hge Ek]]; rewrite Ek in *.
    + split.
      { right. destruct H1 as [H1|[H1 H1']].
        - rewrite H1. split; [now left|exact Hlt].
        - split; [now right|lia]. }
      split; [lia|]. split.
      { intros b [<-|Hb]; [lia|]. now apply H3. }
      intros _. lia.
    + split.
      { destruct H1 as [H1|[H1 H1']]; [now left|].
        right. split; [now right|exact H1']. }
      split; [lia|]. split.
      { intros b [<-|Hb]; [lia|]. now apply H3. }
      intros (b & [<-|Hb] & Hlt); [lia|]. apply H4. now exists b.
Qed.

Lemma answers_trimmed (env : Env) (servers : list serverEntry) :
  forall (w : World) (u : string) (d : time.Duration),
    In (u, d) (answers env servers w) ->
    last_char u <> Some "/"%char /\ d <= max_int.
Proof.
  induction servers as [|server rest IH]; intros w u d; cbn [answers].
  - intros [].
  - destruct (String.eqb (URL server) ""); [apply IH|].
    unfold probe_server, time_Now, client_Get_ping, time_Since.
    cbn [fst snd clock_reads probes trace].
    destruct (ping_get env (probes w)); [apply IH|].
    intros [[= <- <-]|H]; [|eapply IH; exact H].
    split; [|apply Sub_le_max].
    intros H. apply TrimRight_last in H. discriminate.
Qed.

Lemma pick_loop_requests (env : Env) (servers : list serverEntry) :
  forall (bestURL : string) (bestLatency : time.Duration) (w : World),
    requests (trace (snd (pick_loop env servers bestURL bestLatency w)))
    = requests (trace w)
      ++ map (fun server => GetPing (strings_TrimRight (URL server) "/"))
           (probed servers).
Proof.
  induction servers as [|server rest IH]; intros bestURL bestLatency w.
  - cbn. now rewrite app_nil_r.
  - cbn [pick_loop probed filter].
    destruct (String.eqb (URL server) ""); cbn [negb]; [apply IH|].
    fold (probed rest). cbn [map].
    assert (Hw : requests (trace (snd (probe_server env server w)))
                 = requests (trace w)
                   ++ [GetPing (strings_TrimRight (URL server) "/")]).
    { unfold probe_server, time_Since, time_Now, client_Get_ping.
      destruct w as [reads sent tr]. cbn [fst snd clock_reads probes trace].
      destruct (ping_get env sent); cbn [snd trace];
        rewrite requests_app; reflexivity. }
    destruct (probe_server env server w) as [[elapsed|] w1]; cbn [snd] in Hw.
    + destruct (elapsed <? bestLatency); rewrite IH, Hw, <- app_assoc;
        reflexivity.
    + rewrite IH, Hw, <- app_assoc. reflexivity.
Qed.

Lemma pickFastestServer_requests (env : Env) (servers : list serverEntry)
  (w : World) :
  requests (trace (snd (pickFastestServer env (inr servers) w)))
  = requests (trace w)
    ++ map (fun server => GetPing (strings_TrimRight (URL server) "/"))
         (probed servers).
Proof.
  unfold pickFastestServer.
  destruct servers as [|server rest].
  - cbn. now rewrite app_nil_r.
  - destruct (Z.eqb_spec (len (server :: rest)) 0) as [E|_].
    { pose proof (len_pos (server :: rest) ltac:(discriminate)). lia. }
    pose proof (pick_loop_requests env (server :: rest) "" max_int w) as H.
    destruct (pick_loop env (server :: rest) "" max_int w)
      as [[bestURL bestLat] w1].
    cbn [snd] in H.
    destruct (String.eqb bestURL ""); exact H.
Qed.

Lemma pickFastestServer_fold (env : Env) (servers : list serverEntry)
  (w : World) :
  servers <> [] ->
  fst (pickFastestServer env (inr servers) w)
  = let best := fold_left keep_faster (answers env servers w)
                  (@pair string time.Duration ""%string max_int) in
    if String.eqb (fst best) ""
    then (""%string, Some (errors_New "no reachable servers found"))
    else (fst best, None).
Proof.
  intros Hne. unfold pickFastestServer.
  pose proof (len_pos servers Hne) as Hl.
  destruct (Z.eqb_spec (len servers) 0); [lia|].
  pose proof (pick_loop_answers env servers "" max_int w) as H.
  destruct (pick_loop env servers "" max_int w) as [[bestURL bestLat] w1].
  cbn [fst] in H. rewrite <- H. cbn [fst].
  destruct (String.eqb bestURL ""); reflexivity.
Qed.

(** The URL [pickFastestServer] returns is that of a server that answered
    no slower than every other. *)
Lemma pickFastestServer_selected (env : Env) (servers : list serverEntry)
  (w : World) (url : string) :
  fst (pickFastestServer env (inr servers) w) = (url, None) ->
  url <> ""%string
  /\ last_char url <> Some "/"%char
  /\ exists d,
       In (url, d) (answers env servers w)
       /\ d < max_int
       /\ forall u' d', In (u', d') (answers env servers w) -> d <= d'.
Proof.
  intros Hurl.
  assert (Hne : servers <> []).
  { intros ->. discriminate. }
  rewrite (pickFastestServer_fold env servers w Hne) in Hurl.
  cbv zeta in Hurl.
  pose proof (keep_faster_fold (answers env servers w)
                (@pair string time.Duration ""%string max_int)) as Hfold.
  cbv zeta in Hfold. destruct Hfold as (H1 & H2 & H3 & H4).
  destruct (fold_left keep_faster (answers env servers w)
              (@pair string time.Duration ""%string max_int))
    as [bestURL bestLat] eqn:Ebest.
  cbn [fst snd] in *.
  destruct (String.eqb_spec bestURL "") as [E|E]; [discriminate|].
  injection Hurl as <-.
  split; [exact E|].
  destruct H1 as [[= H1 _]|[H1 Hlt]]; [congruence|].
  destruct (answers_trimmed env servers w bestURL bestLat H1) as [Ht Hd].
  split; [exact Ht|].
  exists bestLat. split; [exact H1|]. split; [exact Hlt|].
  intros u' d' Hin. exact (H3 (u', d') Hin).
Qed.

(** X18. Choosing a server.  An error of the list loader is returned
    wrapped, and nothing is probed; a list with no server, and a list none
    of whose servers answers, give the two errors of the function.  A URL
    that is returned is not empty and has no trailing slash, and is that of
    a server that answered no slower than every other server that
    answered; one is returned as soon as a server with a name left after
    trimming answers.  The servers probed are those with a URL, each once
    and in the order of the list, whatever they answer. *)
Theorem pickFastestServer_fastest (env : Env) (servers : list serverEntry)
  (w : World) :
  let res := fst (pickFastestServer env (inr servers) w) in
  let ans := answers env servers w in
  (forall e,
     pickFastestServer env (inl e) w
     = ((""%string, Some (wrapped "read server list" e)), w))
  /\ (servers = [] ->
      pickFastestServer env (inr servers) w
      = ((""%string, Some (errors_New "no servers defined in config")), w))
  /\ (servers <> [] -> ans = [] ->
      res = (""%string, Some (errors_New "no reachable servers found")))
  /\ (forall url,
        res = (url, None) ->
        url <> ""%string
        /\ last_char url <> Some "/"%char
        /\ exists d,
             In (url, d) ans
             /\ d < max_int
             /\ forall u' d', In (u', d') ans -> d <= d')
  /\ ((forall u d, In (u, d) ans -> u <> ""%string) ->
      (exists u d, In (u, d) ans /\ d < max_int) ->
      exists url, res = (url, None))
  /\ requests (trace (snd (pickFastestServer env (inr servers) w)))
     = requests (trace w)
       ++ map (fun server => GetPing (strings_TrimRight (URL server) "/"))
            (probed servers).
Proof.
  intros res ans. split; [reflexivity|]. split; [intros ->; reflexivity|].
  split; [|split; [|split; [|apply pickFastestServer_requests]]].
  - intros Hne Hans. unfold res.
    rewrite (pickFastestServer_fold env servers w Hne). fold ans.
    rewrite Hans. reflexivity.
  - intros url. apply pickFastestServer_selected.
  - intros Hnames (u & d & Hin & Hd).
    assert (Hne : servers <> []).
    { intros ->. destruct Hin. }
    unfold res. rewrite (pickFastestServer_fold env servers w Hne).
    fold ans. cbv zeta.
    pose proof (keep_faster_fold ans
                  (@pair string time.Duration ""%string max_int)) as Hfold.
    cbv zeta in Hfold. destruct Hfold as (H1 & H2 & H3 & H4).
    destruct (fold_left keep_faster ans
                (@pair string time.Duration ""%string max_int))
      as [bestURL bestLat] eqn:Ebest.
    cbn [fst snd] in *.
    assert (Hlt : bestLat < max_int).
    { apply H4. exists (u, d). split; [exact Hin|exact Hd]. }
    destruct H1 as [[= H1 H1']|[H1 _]]; [lia|].
    specialize (Hnames bestURL bestLat H1).
    destruct (String.eqb_spec bestURL ""); [contradiction|].
    now exists bestURL.
Qed.

Lemma TrimRight_no_slash (s : string) :
  last_char s <> Some "/"%char -> strings_TrimRight s "/" = s.
Proof.
  induction s as [|a s IH]; [reflexivity|].
  destruct s as [|b r].
  - cbn. intros H. destruct (Ascii.eqb_spec a "/") as [->|_];
      [contradiction|reflexivity].
  - intros H. change (last_char (String a (String b r)))
      with (last_char (String b r)) in H.
    specialize (IH H).
    change (strings_TrimRight (String a (String b r)) "/")
      with (match strings_TrimRight (String b r) "/" with
            | EmptyString =>
                if contains_char "/" a then EmptyString
                else String a EmptyString
            | String _ _ as r' => String a r'
            end).
    rewrite IH. reflexivity.
Qed.

(** X19. The server of a run.  When [main] gets to run the engine, the
    base URL it passes is not empty and has no trailing slash, so that the
    engine uses it as it is and never falls back on its default endpoint.
    It is the URL of the flag without its trailing slashes when that is
    not empty, and then no server is probed; otherwise it is the URL of a
    server of the list that answered no slower than every other. *)
Theorem main_config_server (env : Env) (f : Flags)
  (loaded : error + list serverEntry) (w w' : World) (cfg : ClientConfig.t) :
  main_config env f loaded w = (inl cfg, w') ->
  ClientConfig.BaseURL (normalizeClientConfig cfg) = ClientConfig.BaseURL cfg
  /\ ClientConfig.BaseURL cfg <> ""%string
  /\ last_char (ClientConfig.BaseURL cfg) <> Some "/"%char
  /\ (strings_TrimRight (flag_url f) "/" <> ""%string ->
      ClientConfig.BaseURL cfg = strings_TrimRight (flag_url f) "/"
      /\ w' = w)
  /\ (strings_TrimRight (flag_url f) "/" = ""%string ->
      exists servers d,
        loaded = inr servers
        /\ In (ClientConfig.BaseURL cfg, d) (answers env servers w)
        /\ forall u' d', In (u', d') (answers env servers w) -> d <= d').
Proof.
  unfold main_config, parseFlags. cbn [ClientConfig.BaseURL].
  destruct (String.eqb_spec (strings_TrimRight (flag_url f) "/") "")
    as [E|E].
  - destruct (pickFastestServer env loaded w) as [[selected [err|]] w1] eqn:Ep;
      [discriminate|].
    intros [= <- <-]. cbn [ClientConfig.BaseURL].
    destruct loaded as [e|servers].
    { cbn in Ep. discriminate. }
    assert (Hf : fst (pickFastestServer env (inr servers) w)
                 = (selected, None)) by now rewrite Ep.
    destruct (pickFastestServer_selected env servers w selected Hf)
      as (Hne & Hlast & d & Hin & _ & Hmin).
    assert (Hn : ClientConfig.BaseURL
                   (normalizeClientConfig
                      (ClientConfig.mk selected (flag_duration f)
                         (flag_streams f) (flag_chunk_size f)
                         (flag_download_mb f) (flag_ping_count f)
                         (flag_timeout f) (flag_json f) false))
                 = selected).
    { unfold normalizeClientConfig. cbn [ClientConfig.BaseURL].
      destruct (String.eqb_spec selected ""); [contradiction|].
      apply TrimRight_no_slash. exact Hlast. }
    split; [exact Hn|]. split; [exact Hne|]. split; [exact Hlast|].
    split; [intros C; contradiction|].
    intros _. exists servers, d. auto.
  - intros [= <- <-]. cbn [ClientConfig.BaseURL].
    assert (Hlast : last_char (strings_TrimRight (flag_url f) "/")
                    <> Some "/"%char).
    { intros H. apply TrimRight_last in H. discriminate. }
    split.
    { unfold normalizeClientConfig. cbn [ClientConfig.BaseURL].
      destruct (String.eqb_spec (strings_TrimRight (flag_url f) "/") "");
        [contradiction|].
      apply TrimRight_idempotent. }
    split; [exact E|]. split; [exact Hlast|].
    split; [intros _; split; reflexivity|].
    intros C. contradiction.
Qed.

(** The theorem on a list of three servers, the second with no URL, and a
    flag that names none. *)
Lemma main_config_server_witness :
  let env :=
    mkEnv (fun k => Z.of_nat k * Millisecond) (fun _ => None)
      (fun _ => DownloadBody []) [] (fun _ => mkUploadScript None [] None)
      [] [] [] in
  let f := mkFlags "" DefaultDuration 4 65536 40 6 DefaultTimeout false in
  let servers :=
    [mkServerEntry "a" "http://a.example/"; mkServerEntry "b" "";
     mkServerEntry "c" "http://c.example"] in
  exists cfg w',
    main_config env f (inr servers) World_init = (inl cfg, w')
    /\ ClientConfig.BaseURL (normalizeClientConfig cfg)
       = "http://a.example"%string
    /\ requests (trace w')
       = [GetPing "http://a.example"; GetPing "http://c.example"].
Proof.
  intros env f servers.
  eexists _, _. split; [vm_compute; reflexivity|].
  split; [|reflexivity].
  exact (eq_trans
           (proj1 (main_config_server env f (inr servers) World_init _ _
                     eq_refl))
           eq_refl).
Defined.

(* ================================================================== *)
(** * The test server: the size of a download *)

Lemma digits_value_snoc (ds : js_string) (d : N) :
  digits_value (ds ++ [d]) = 10 * digits_value ds + (Z.of_N d - 48).
Proof.
  unfold digits_value. rewrite fold_left_app. reflexivity.
Qed.

Lemma digit_char (n : Z) :
  0 <= n ->
  is_digit (Z.to_N (48 + n mod 10)) = true
  /\ Z.of_N (Z.to_N (48 + n mod 10)) - 48 = n mod 10.
Proof.
  intros Hn.
  assert (H := Z.mod_pos_bound n 10 ltac:(lia)).
  split.
  - unfold is_digit. apply andb_true_intro. split; apply N.leb_le; lia.
  - rewrite Z2N.id by lia. lia.
Qed.

Lemma digits_of_spec (fuel : nat) :
  forall n acc,
    (0 < fuel)%nat -> 0 <= n < 2 ^ Z.of_nat fuel ->
    exists ds,
      digits_of fuel n acc = ds ++ acc
      /\ ds <> []
      /\ Forall (fun c => is_digit c = true) ds
      /\ digits_value ds = n.
Proof.
  induction fuel as [|fuel IH]; intros n acc Hf Hn; [lia|].
  cbn [digits_of].
  destruct (digit_char n ltac:(lia)) as [Hd Hv].
  destruct (n <? 10) eqn:E.
  - apply Z.ltb_lt in E.
    exists [Z.to_N (48 + n mod 10)]. repeat split.
    + discriminate.
    + constructor; [exact Hd | constructor].
    + unfold digits_value. cbn [fold_left]. rewrite Hv.
      rewrite Z.mod_small by lia. lia.
  - apply Z.ltb_ge in E.
    assert (Hf' : (0 < fuel)%nat).
    { destruct fuel; [|lia]. change (2 ^ Z.of_nat 1) with 2 in Hn. lia. }
    assert (Hq : 0 <= n / 10 < 2 ^ Z.of_nat fuel).
    { split; [apply Z.div_pos; lia|].
      apply Z.div_lt_upper_bound; [lia|].
      rewrite Nat2Z.inj_succ, Z.pow_succ_r in Hn by lia. lia. }
    destruct (IH (n / 10) (Z.to_N (48 + n mod 10) :: acc) Hf' Hq)
      as (ds & E1 & Hne & Hall & Hval).
    exists (ds ++ [Z.to_N (48 + n mod 10)]). repeat split.
    + rewrite E1, <- app_assoc. reflexivity.
    + intros C. apply app_eq_nil in C. destruct C; discriminate.
    + apply Forall_app. split; [exact Hall|].
      constructor; [exact Hd | constructor].
    + rewrite digits_value_snoc, Hval, Hv.
      symmetry. apply Z.div_mod. lia.
Qed.

Lemma digit_not_white (c : N) :
  is_digit c = true ->
  is_StrWhiteSpaceChar c = false /\ (c =? 45)%N = false /\ (c =? 43)%N = false.
Proof.
  unfold is_digit, is_StrWhiteSpaceChar. intros H.
  apply andb_prop in H. destruct H as [H1 H2].
  apply N.leb_le in H1. apply N.leb_le in H2.
  repeat split.
  - repeat (apply orb_false_intro);
      try (apply N.eqb_neq; lia);
      try (apply andb_false_intro1; apply N.leb_gt; lia);
      try (apply andb_false_intro2; apply N.leb_gt; lia).
  - apply N.eqb_neq; lia.
  - apply N.eqb_neq; lia.
Qed.

Lemma digit_prefix_app (ds rest : js_string) :
  Forall (fun c => is_digit c = true) ds -> ends_numeral rest ->
  digit_prefix (ds ++ rest) = ds.
Proof.
  intros Hall Hrest. induction Hall as [|c ds Hc Hall IH].
  - destruct rest as [|c rest]; [reflexivity|].
    cbn [app digit_prefix]. cbn in Hrest. rewrite Hrest. reflexivity.
  - cbn [app digit_prefix]. rewrite Hc, IH. reflexivity.
Qed.

Lemma natural_numeral (n : Z) :
  0 <= n ->
  exists c ds,
    digits_of (S (Z.to_nat (Z.log2 n))) n [] = c :: ds
    /\ Forall (fun c => is_digit c = true) (c :: ds)
    /\ digits_value (c :: ds) = n.
Proof.
  intros Hn.
  assert (Hb : 0 <= n < 2 ^ Z.of_nat (S (Z.to_nat (Z.log2 n)))).
  { split; [exact Hn|].
    rewrite Nat2Z.inj_succ, Z2Nat.id by apply Z.log2_nonneg.
    destruct (Z.eq_dec n 0) as [->|Hne]; [reflexivity|].
    apply Z.log2_spec. lia. }
  destruct (digits_of_spec (S (Z.to_nat (Z.log2 n))) n [] ltac:(lia) Hb)
    as (ds & E & Hne & Hall & Hval).
  rewrite app_nil_r in E.
  destruct ds as [|c ds]; [congruence|].
  exists c, ds. auto.
Qed.

Lemma Number_parseInt_decimal (n : Z) (rest : js_string) :
  ends_numeral rest ->
  Number_parseInt (decimal n ++ rest) = Some n.
Proof.
  intros Hrest. unfold decimal.
  destruct (n <? 0) eqn:E.
  - apply Z.ltb_lt in E.
    destruct (natural_numeral (- n) ltac:(lia)) as (c & ds & E1 & Hall & Hval).
    rewrite E1. unfold Number_parseInt.
    cbn [app skip_white_space].
    change (is_StrWhiteSpaceChar 45) with false. cbv iota.
    change (45 =? 45)%N with true. cbv iota.
    change (c :: ds ++ rest) with ((c :: ds) ++ rest).
    rewrite (digit_prefix_app _ _ Hall Hrest).
    rewrite Hval. f_equal. lia.
  - apply Z.ltb_ge in E.
    destruct (natural_numeral n E) as (c & ds & E1 & Hall & Hval).
    rewrite E1. unfold Number_parseInt.
    assert (Hc : is_digit c = true) by (inversion Hall; assumption).
    destruct (digit_not_white c Hc) as (W & M & P).
    cbn [app skip_white_space]. rewrite W, M, P.
    change (c :: ds ++ rest) with ((c :: ds) ++ rest).
    rewrite (digit_prefix_app _ _ Hall Hrest).
    rewrite Hval. f_equal. lia.
Qed.

Lemma skip_white_space_app (ws s : js_string) :
  Forall (fun c => is_StrWhiteSpaceChar c = true) ws ->
  skip_white_space (ws ++ s) = skip_white_space s.
Proof.
  induction 1 as [|c ws Hc _ IH]; [reflexivity|].
  cbn [app skip_white_space]. rewrite Hc. exact IH.
Qed.

Lemma Number_parseInt_white_space (ws s : js_string) :
  Forall (fun c => is_StrWhiteSpaceChar c = true) ws ->
  Number_parseInt (ws ++ s) = Number_parseInt s.
Proof.
  intros H. unfold Number_parseInt. rewrite (skip_white_space_app _ _ H).
  reflexivity.
Qed.

Lemma parseSizeParam_range (p : option js_string) (maxBytes : Z) :
  0 < maxBytes -> 0 < parseSizeParam p maxBytes <= maxBytes.
Proof.
  intros H. unfold parseSizeParam.
  destruct p as [[|c s]|]; try lia.
  destruct (Number_parseInt (c :: s)) as [parsed|]; [|lia].
  destruct (parsed <=? 0) eqn:E; [lia|].
  apply Z.leb_gt in E. lia.
Qed.

Lemma parseSizeParam_numeral (n : Z) (ws rest : js_string) (maxBytes : Z) :
  Forall (fun c => is_StrWhiteSpaceChar c = true) ws ->
  ends_numeral rest ->
  parseSizeParam (Some (ws ++ decimal n ++ rest)) maxBytes
  = if 0 <? n then Z.min n maxBytes else maxBytes.
Proof.
  intros Hws Hrest. unfold parseSizeParam.
  assert (Hp : Number_parseInt (ws ++ decimal n ++ rest) = Some n).
  { rewrite (Number_parseInt_white_space _ _ Hws).
    apply Number_parseInt_decimal. exact Hrest. }
  destruct (ws ++ decimal n ++ rest) as [|c s]; [discriminate Hp|].
  rewrite Hp.
  destruct (Z.leb_spec n 0), (Z.ltb_spec 0 n); try reflexivity; lia.
Qed.

(** X20. The size a download request asks for.  For a positive limit (an
    integer a JavaScript number holds exactly) the size is always within 1
    and the limit.  It is the limit when the parameter is missing or empty,
    when its first character is neither white space, a sign nor a digit,
    and when its numeral is zero or negative; otherwise it is the numeral,
    cut to the limit.  White space before the numeral and anything after
    its digits are ignored. *)
Theorem parseSizeParam_spec (maxBytes : Z)
  (Hmax : 0 < maxBytes <= 2 ^ 53) :
  (forall p, 0 < parseSizeParam p maxBytes <= maxBytes)
  /\ parseSizeParam None maxBytes = maxBytes
  /\ parseSizeParam (Some []) maxBytes = maxBytes
  /\ (forall c rest,
        is_digit c = false -> is_StrWhiteSpaceChar c = false ->
        c <> 45%N -> c <> 43%N ->
        parseSizeParam (Some (c :: rest)) maxBytes = maxBytes)
  /\ (forall n ws rest,
        Forall (fun c => is_StrWhiteSpaceChar c = true) ws ->
        ends_numeral rest ->
        parseSizeParam (Some (ws ++ decimal n ++ rest)) maxBytes
        = if 0 <? n then Z.min n maxBytes else maxBytes).
Proof.
  split; [intros p; apply parseSizeParam_range; apply Hmax|].
  split; [reflexivity|]. split; [reflexivity|].
  split.
  - intros c rest Hd Hw Hm Hp.
    unfold parseSizeParam, Number_parseInt.
    cbn [skip_white_space]. rewrite Hw.
    apply N.eqb_neq in Hm. apply N.eqb_neq in Hp. rewrite Hm, Hp.
    cbn [digit_prefix]. rewrite Hd. reflexivity.
  - intros n ws rest. apply parseSizeParam_numeral.
Qed.

(** The theorem on the request of a client with the default size. *)
Lemma parseSizeParam_spec_witness :
  0 < DEFAULT_MAX_BYTES <= 2 ^ 53
  /\ parseSizeParam (Some (decimal 26214400)) DEFAULT_MAX_BYTES = 26214400.
Proof.
  assert (Hmax : 0 < DEFAULT_MAX_BYTES <= 2 ^ 53).
  { split; [reflexivity|]. intros C. vm_compute in C. discriminate C. }
  split; [exact Hmax|].
  destruct (parseSizeParam_spec DEFAULT_MAX_BYTES Hmax)
    as (_ & _ & _ & _ & H).
  specialize (H 26214400 [] [] (Forall_nil _) I).
  rewrite app_nil_r in H. exact H.
Defined.

Lemma total_of_repeat (c : Z) (k : nat) :
  total_of (repeat c k) = c * Z.of_nat k.
Proof.
  unfold total_of. induction k as [|k IH]; [cbn; lia|].
  cbn [repeat fold_right]. rewrite IH. lia.
Qed.

Lemma total_of_app (a b : list Z) :
  total_of (a ++ b) = total_of a + total_of b.
Proof.
  unfold total_of. induction a as [|x a IH]; [reflexivity|].
  cbn [app fold_right]. rewrite IH. lia.
Qed.

Lemma chunks_of_total (totalSize chunkSize : Z) :
  0 < chunkSize -> 0 <= totalSize ->
  total_of (chunks_of totalSize chunkSize) = totalSize.
Proof.
  intros Hc Ht. unfold chunks_of.
  rewrite total_of_app, total_of_repeat.
  rewrite Z2Nat.id by (apply Z.div_pos; lia).
  assert (H := Z.div_mod totalSize chunkSize ltac:(lia)).
  destruct (totalSize mod chunkSize =? 0) eqn:E.
  - apply Z.eqb_eq in E. unfold total_of. cbn [fold_right]. lia.
  - unfold total_of. cbn [fold_right]. lia.
Qed.

Lemma chunks_of_small (totalSize chunkSize : Z) :
  0 < totalSize < chunkSize -> chunks_of totalSize chunkSize = [totalSize].
Proof.
  intros H. unfold chunks_of.
  rewrite Z.div_small, Z.mod_small by lia.
  destruct (Z.eqb_spec totalSize 0); [lia|]. reflexivity.
Qed.

Lemma chunks_of_step (totalSize chunkSize : Z) :
  0 < chunkSize <= totalSize ->
  chunks_of totalSize chunkSize
  = chunkSize :: chunks_of (totalSize - chunkSize) chunkSize.
Proof.
  intros H. unfold chunks_of.
  assert (Hq : totalSize / chunkSize
               = (totalSize - chunkSize) / chunkSize + 1).
  { replace totalSize with ((totalSize - chunkSize) + 1 * chunkSize)
      at 1 by lia.
    apply Z.div_add. lia. }
  assert (Hm : totalSize mod chunkSize
               = (totalSize - chunkSize) mod chunkSize).
  { replace totalSize with ((totalSize - chunkSize) + 1 * chunkSize)
      at 1 by lia.
    apply Z_mod_plus_full. }
  rewrite Hq, Hm.
  rewrite Z2Nat.inj_add by (try apply Z.div_pos; lia).
  rewrite Nat.add_comm. reflexivity.
Qed.

Lemma randomStream_closes (pulls : nat) :
  forall chunkSize totalSize,
    0 < chunkSize <= 65536 -> 0 <= totalSize ->
    (Z.to_nat (totalSize / chunkSize) + 2 <= pulls)%nat ->
    randomStream pulls chunkSize totalSize
    = (chunks_of totalSize chunkSize, Stream_closed).
Proof.
  induction pulls as [|pulls IH]; intros chunkSize totalSize Hc Ht Hp; [lia|].
  cbn [randomStream]. unfold randomStream_pull.
  destruct (totalSize <=? 0) eqn:E0.
  - apply Z.leb_le in E0. assert (totalSize = 0) by lia. subst.
    reflexivity.
  - apply Z.leb_gt in E0.
    assert (Hs : 0 < Z.min totalSize chunkSize <= 65536) by lia.
    destruct (Z.ltb_spec (Z.min totalSize chunkSize) 0); [lia|].
    destruct (Z.ltb_spec 65536 (Z.min totalSize chunkSize)); [lia|].
    cbn [orb].
    destruct (Z.lt_ge_cases totalSize chunkSize) as [Hlt|Hge].
    + rewrite Z.min_l by lia. rewrite Z.sub_diag.
      destruct pulls as [|pulls]; [lia|].
      cbn [randomStream]. unfold randomStream_pull. cbn [Z.leb Z.compare].
      rewrite chunks_of_small by lia. reflexivity.
    + rewrite Z.min_r by lia.
      assert (Hq : (totalSize - chunkSize) / chunkSize
                   = totalSize / chunkSize - 1).
      { replace totalSize with ((totalSize - chunkSize) + 1 * chunkSize)
          at 2 by lia.
        rewrite Z.div_add by lia. lia. }
      assert (Hq1 : 1 <= totalSize / chunkSize).
      { apply Z.div_le_lower_bound; lia. }
      rewrite (IH chunkSize (totalSize - chunkSize)) by lia.
      rewrite (chunks_of_step totalSize chunkSize) by lia. reflexivity.
Qed.

(** X21. The stream of random bytes.  For a chunk size within 1 and
    65536 a stream of [totalSize >= 0] bytes delivers chunks of
    [chunkSize] bytes, then one of the bytes left if any, and closes: the
    lengths of its chunks add up to [totalSize], and none is empty.  A
    size that is not positive gives a stream that closes at once.  With a
    chunk size above 65536 a stream of more bytes than that fails at its
    first chunk: the random source refuses the buffer. *)
Theorem randomStream_chunks (chunkSize totalSize : Z) :
  (0 < chunkSize <= 65536 -> 0 <= totalSize ->
   (forall pulls,
      (Z.to_nat (totalSize / chunkSize) + 2 <= pulls)%nat ->
      randomStream pulls chunkSize totalSize
      = (chunks_of totalSize chunkSize, Stream_closed))
   /\ total_of (chunks_of totalSize chunkSize) = totalSize
   /\ Forall (fun n => 0 < n <= chunkSize) (chunks_of totalSize chunkSize))
  /\ (totalSize <= 0 ->
      forall pulls, randomStream (S pulls) chunkSize totalSize
                    = ([], Stream_closed))
  /\ (65536 < chunkSize -> 65536 < totalSize ->
      forall pulls, randomStream (S pulls) chunkSize totalSize
                    = ([], Stream_errored)).
Proof.
  split; [|split].
  - intros Hc Ht. split; [|split].
    + intros pulls Hp. apply randomStream_closes; assumption.
    + apply chunks_of_total; lia.
    + unfold chunks_of. apply Forall_app. split.
      * apply Forall_forall. intros x Hx. apply repeat_spec in Hx. lia.
      * assert (H := Z.mod_pos_bound totalSize chunkSize ltac:(lia)).
        destruct (Z.eqb_spec (totalSize mod chunkSize) 0); constructor;
          [lia | constructor].
  - intros Ht pulls. cbn [randomStream]. unfold randomStream_pull.
    destruct (Z.leb_spec totalSize 0); [reflexivity | lia].
  - intros Hc Ht pulls. cbn [randomStream]. unfold randomStream_pull.
    destruct (Z.leb_spec totalSize 0); [lia|].
    destruct (Z.ltb_spec (Z.min totalSize chunkSize) 0); [lia|].
    destruct (Z.ltb_spec 65536 (Z.min totalSize chunkSize)); [|lia].
    reflexivity.
Qed.

(* ================================================================== *)
(** * The test server: the handlers *)

(** X22. A download response keeps its promise: for a positive limit (an
    integer a JavaScript number holds exactly) and every request, the
    Content-Length is within 1 and the limit, and the body, read to its
    end, closes after exactly Content-Length bytes. *)
Theorem handleDownload_length (sizeParam : option js_string) (maxBytes : Z)
  (Hmax : 0 < maxBytes <= 2 ^ 53) :
  let r := handleDownload sizeParam maxBytes in
  0 < Content_Length r <= maxBytes
  /\ forall pulls,
       (Z.to_nat (Content_Length r / DEFAULT_CHUNK_SIZE) + 2 <= pulls)%nat ->
       exists chunks,
         randomStream pulls (body_chunkSize r) (body_totalSize r)
         = (chunks, Stream_closed)
         /\ total_of chunks = Content_Length r.
Proof.
  intros r.
  assert (Hr := parseSizeParam_range sizeParam maxBytes (proj1 Hmax)).
  change (Content_Length r) with (parseSizeParam sizeParam maxBytes).
  split; [exact Hr|].
  intros pulls Hp. exists (chunks_of (Content_Length r) DEFAULT_CHUNK_SIZE).
  split.
  - apply randomStream_closes.
    + change (0 < 65536 <= 65536). lia.
    + change (0 <= parseSizeParam sizeParam maxBytes). lia.
    + exact Hp.
  - apply chunks_of_total.
    + reflexivity.
    + change (0 <= parseSizeParam sizeParam maxBytes). lia.
Qed.

(** The theorem on a request for 150000 bytes. *)
Lemma handleDownload_length_witness :
  0 < DEFAULT_MAX_BYTES <= 2 ^ 53
  /\ exists chunks,
       randomStream 5 DEFAULT_CHUNK_SIZE 150000 = (chunks, Stream_closed)
       /\ total_of chunks = 150000.
Proof.
  assert (Hmax : 0 < DEFAULT_MAX_BYTES <= 2 ^ 53).
  { split; [reflexivity|]. intros C. vm_compute in C. discriminate C. }
  split; [exact Hmax|].
  exact (proj2 (handleDownload_length (Some (decimal 150000))
                  DEFAULT_MAX_BYTES Hmax) 5%nat ltac:(vm_compute; lia)).
Defined.

Lemma perStreamBytes_exact (cfg : ClientConfig.t) :
  1 <= ClientConfig.DownloadMB cfg <= 8796093022207 ->
  perStreamBytes cfg = ClientConfig.DownloadMB cfg * 1048576.
Proof.
  intros H. unfold perStreamBytes, Int64.mul.
  rewrite (wrap64_in_range (ClientConfig.DownloadMB cfg * 1024))
    by (unfold in_range, min_int, max_int; lia).
  rewrite wrap64_in_range by (unfold in_range, min_int, max_int; lia). lia.
Qed.

(** X23. The client's download request as the server reads it.  A
    download stream of the client asks for [DownloadMB * 1048576] bytes,
    printed in decimal.  Up to 1024 MB the server, with its limit of 1 GiB,
    announces and serves just that; above, it serves 1 GiB, which is less
    than the client counts on for its progress. *)
Theorem download_request_served (cfg : ClientConfig.t) :
  let cfg' := normalizeClientConfig cfg in
  let r := handleDownload (Some (decimal (perStreamBytes cfg')))
             DEFAULT_MAX_BYTES in
  1 <= ClientConfig.DownloadMB cfg'
  /\ (ClientConfig.DownloadMB cfg' <= 1024 ->
      Content_Length r = ClientConfig.DownloadMB cfg' * 1048576
      /\ Content_Length r = perStreamBytes cfg')
  /\ (1024 < ClientConfig.DownloadMB cfg' <= 8796093022207 ->
      Content_Length r = DEFAULT_MAX_BYTES
      /\ Content_Length r < perStreamBytes cfg').
Proof.
  intros cfg' r.
  assert (H1 : 1 <= ClientConfig.DownloadMB cfg').
  { unfold cfg', normalizeClientConfig. cbn [ClientConfig.DownloadMB].
    destruct (Z.ltb_spec (ClientConfig.DownloadMB cfg) 1);
      [unfold DefaultDownloadMB|]; lia. }
  assert (Hr : Content_Length r
               = if 0 <? perStreamBytes cfg'
                 then Z.min (perStreamBytes cfg') DEFAULT_MAX_BYTES
                 else DEFAULT_MAX_BYTES).
  { unfold r, handleDownload, Content_Length.
    assert (H := parseSizeParam_numeral (perStreamBytes cfg') [] []
                   DEFAULT_MAX_BYTES (Forall_nil _) I).
    rewrite app_nil_r in H. exact H. }
  split; [exact H1|]. split.
  - intros H2.
    assert (E := perStreamBytes_exact cfg' ltac:(lia)).
    rewrite Hr, E.
    destruct (Z.ltb_spec 0 (ClientConfig.DownloadMB cfg' * 1048576)); [|lia].
    unfold DEFAULT_MAX_BYTES. lia.
  - intros H2.
    assert (E := perStreamBytes_exact cfg' ltac:(lia)).
    rewrite Hr, E.
    destruct (Z.ltb_spec 0 (ClientConfig.DownloadMB cfg' * 1048576)); [|lia].
    unfold DEFAULT_MAX_BYTES. lia.
Qed.

Lemma upload_read_loop_spec (readLimit : Z) (chunks : list Z) :
  Forall (fun n => 0 <= n) chunks ->
  forall total,
    total < readLimit ->
    let '(k, cancelled, ok) :=
      upload_read_loop (map Read_chunk chunks) total readLimit in
    ok = true
    /\ (total + total_of chunks < readLimit ->
        cancelled = false /\ k = S (List.length chunks))
    /\ (readLimit <= total + total_of chunks ->
        cancelled = true
        /\ (1 <= k <= List.length chunks)%nat
        /\ readLimit <= total + total_of (firstn k chunks)
        /\ total + total_of (firstn (k - 1) chunks) < readLimit).
Proof.
  induction 1 as [|n chunks Hn Hall IH]; intros total Ht.
  - cbn [map upload_read_loop]. unfold total_of. cbn [fold_right].
    repeat split; lia.
  - cbn [map upload_read_loop].
    assert (Hs : 0 <= total_of chunks).
    { clear IH. unfold total_of.
      induction Hall as [|x l Hx _ IHl]; cbn [fold_right]; lia. }
    change (total_of (n :: chunks)) with (n + total_of chunks).
    destruct (Z.leb_spec readLimit (total + n)) as [Hge|Hlt].
    + split; [reflexivity|]. split; [lia|].
      intros _. split; [reflexivity|]. split; [cbn [List.length]; lia|].
      cbn [firstn Nat.sub]. unfold total_of. cbn [fold_right]. lia.
    + specialize (IH (total + n) Hlt).
      destruct (upload_read_loop (map Read_chunk chunks) (total + n) readLimit)
        as [[k cancelled] ok].
      destruct IH as (Hok & Hno & Hyes).
      split; [exact Hok|]. split.
      * intros H. destruct (Hno ltac:(lia)) as [-> ->].
        split; reflexivity.
      * intros H. destruct (Hyes ltac:(lia)) as (-> & Hk & Hge & Hlt').
        split; [reflexivity|]. split; [cbn [List.length]; lia|].
        cbn [firstn].
        change (total_of (n :: firstn k chunks))
          with (n + total_of (firstn k chunks)).
        split; [lia|].
        destruct k as [|k]; [lia|].
        replace (S (S k) - 1)%nat with (S k) by lia.
        replace (S k - 1)%nat with k in Hlt' by lia.
        cbn [firstn].
        change (total_of (n :: firstn k chunks))
          with (n + total_of (firstn k chunks)).
        lia.
Qed.

(** X24. The upload handler reads the body chunk by chunk and answers
    ok.  With a positive limit, a body shorter than the limit is read to
    its end (one more read reports the end) and is not cancelled; a longer
    body is cancelled right after the first chunk that brings the bytes
    read to the limit, and no further read is made. *)
Theorem handleUpload_read_limit (chunks : list Z) (readLimit : Z)
  (Hchunks : Forall (fun n => 0 <= n) chunks) (Hlimit : 0 < readLimit) :
  let '(reads, cancelled, ok) :=
    handleUpload (Some (map Read_chunk chunks)) readLimit in
  ok = true
  /\ (total_of chunks < readLimit ->
      cancelled = false /\ reads = S (List.length chunks))
  /\ (readLimit <= total_of chunks ->
      cancelled = true
      /\ (1 <= reads <= List.length chunks)%nat
      /\ readLimit <= total_of (firstn reads chunks)
      /\ total_of (firstn (reads - 1) chunks) < readLimit).
Proof.
  unfold handleUpload.
  exact (upload_read_loop_spec readLimit chunks Hchunks 0 Hlimit).
Qed.

(** The theorem on five chunks and a limit of 8 bytes. *)
Lemma handleUpload_read_limit_witness :
  Forall (fun n => 0 <= n) [4; 0; 5; 3; 7] /\ 0 < 8
  /\ handleUpload (Some (map Read_chunk [4; 0; 5; 3; 7])) 8
     = (3%nat, true, true)
  /\ (8 <= total_of [4; 0; 5; 3; 7] ->
      true = true
      /\ (1 <= 3 <= List.length [4; 0; 5; 3; 7])%nat
      /\ 8 <= total_of (firstn 3 [4; 0; 5; 3; 7])
      /\ total_of (firstn (3 - 1) [4; 0; 5; 3; 7]) < 8).
Proof.
  split; [repeat constructor; lia|]. split; [lia|].
  split; [reflexivity|].
  exact (proj2 (proj2 (handleUpload_read_limit [4; 0; 5; 3; 7] 8
                         ltac:(repeat constructor; lia) eq_refl))).
Defined.

(* ================================================================== *)
(** * A throughput is not rounded to 0 *)

Lemma Zdigits2_lower (q n : Z) : 0 < n -> 2 ^ (n - 1) <= q -> n <= Zdigits2 q.
Proof.
  intros Hn Hq.
  assert (Hq0 : 0 < q).
  { assert (0 < 2 ^ (n - 1)) by (apply Z.pow_pos_nonneg; lia). lia. }
  pose proof (Zdigits2_bounds q Hq0) as [_ H2].
  pose proof (Zdigits2_pos q Hq0) as Hd.
  assert (A : 2 ^ (n - 1) < 2 ^ Zdigits2 q) by lia.
  apply Z.pow_lt_mono_r_iff in A; lia.
Qed.

Lemma Zdigits2_shift (q k : Z) :
  0 <= k -> 2 ^ k <= q -> Zdigits2 (q / 2 ^ k) = Zdigits2 q - k.
Proof.
  intros Hk Hq.
  assert (Hp : 0 < 2 ^ k) by (apply Z.pow_pos_nonneg; lia).
  assert (Hq0 : 0 < q) by lia.
  pose proof (Zdigits2_bounds q Hq0) as [H1 H2].
  pose proof (Zdigits2_pos q Hq0) as Hd.
  assert (Hdk : k < Zdigits2 q).
  { assert (A : 2 ^ k < 2 ^ Zdigits2 q) by lia.
    apply Z.pow_lt_mono_r_iff in A; lia. }
  apply Zdigits2_unique.
  - apply Z.div_str_pos. lia.
  - split.
    + apply Z.div_le_lower_bound; [lia|].
      rewrite <- Z.pow_add_r by lia.
      replace (k + (Zdigits2 q - k - 1)) with (Zdigits2 q - 1) by lia.
      exact H1.
    + apply Z.div_lt_upper_bound; [lia|].
      rewrite <- Z.pow_add_r by lia.
      replace (k + (Zdigits2 q - k)) with (Zdigits2 q) by lia.
      exact H2.
  - lia.
Qed.

Lemma round_aux_lower (N D ex : Z) :
  0 < D -> D <= N -> -1074 <= ex ->
  magnitude_ge (binary_round_aux prec emax false (N / D) ex (loc_of N D))
    (Zdigits2 (N / D) + ex).
Proof.
  intros HD HN Hex. unfold binary_round_aux.
  pose proof (shr_fexp_spec N D ex HD ltac:(lia)) as H1.
  destruct (shr_fexp prec emax (N / D) ex (loc_of N D)) as [mrs' e1].
  destruct H1 as (He1 & Hee1 & (HD1 & _ & Hm & Hloc)).
  assert (Hq : 1 <= N / D).
  { apply Z.div_le_lower_bound; lia. }
  pose proof (shift_keeps_positive (N / D) ex Hq Hex) as Hs.
  rewrite <- He1 in Hs.
  assert (Hm1 : shr_m mrs' = N / D / 2 ^ (e1 - ex)).
  { rewrite Hm, <- Z.div_div by lia. reflexivity. }
  assert (Hd1 : Zdigits2 (shr_m mrs') = Zdigits2 (N / D) - (e1 - ex)).
  { rewrite Hm1. apply Zdigits2_shift; lia. }
  assert (Hm1p : 1 <= shr_m mrs').
  { rewrite Hm1. apply Z.div_le_lower_bound; [lia|]. lia. }
  pose proof (round_nearest_even_bounds (shr_m mrs')
                (loc_of_shr_record mrs')) as [Hr1 _].
  set (rounded := round_nearest_even (shr_m mrs') (loc_of_shr_record mrs'))
    in *.
  assert (Hrounded : shr_m mrs' <= rounded) by lia.
  pose proof (Zdigits2_mono (shr_m mrs') rounded ltac:(lia)) as Hdr.
  pose proof (shr_fexp_spec rounded 1 e1 ltac:(lia) ltac:(lia)) as H2.
  rewrite loc_of_1, Z.div_1_r in H2.
  destruct (shr_fexp prec emax rounded e1 loc_Exact) as [mrs'' e2].
  destruct H2 as (He2 & Hee2 & (HD2 & _ & Hm2 & _)).
  rewrite Z.mul_1_l in Hm2.
  pose proof (shift_keeps_positive rounded e1 ltac:(lia) ltac:(lia)) as Hs2.
  rewrite <- He2 in Hs2.
  assert (Hd2 : Zdigits2 (shr_m mrs'') = Zdigits2 rounded - (e2 - e1)).
  { rewrite Hm2. apply Zdigits2_shift; lia. }
  assert (Hm21 : 1 <= shr_m mrs'').
  { rewrite Hm2. apply Z.div_le_lower_bound; [lia|]. lia. }
  destruct (shr_m mrs'') as [|m2|m2]; try lia.
  change (Zdigits2 (Z.pos m2)) with (Z.pos (digits2_pos m2)) in Hd2.
  destruct (e2 <=? emax - prec); [right | left; reflexivity].
  exists m2, e2. split; [reflexivity|]. lia.
Qed.

Lemma SFdiv_lower (mx : positive) (ex : Z) (my : positive) (ey : Z) :
  -1074 <= ex - ey ->
  -1021 <= Z.pos (digits2_pos mx) + ex - (Z.pos (digits2_pos my) + ey) ->
  magnitude_ge
    (SFdiv prec emax (S754_finite false mx ex) (S754_finite false my ey))
    (Z.pos (digits2_pos mx) + ex - (Z.pos (digits2_pos my) + ey)).
Proof.
  intros He Hd.
  unfold SFdiv, SFdiv_core_binary. simpl xorb.
  change (Zdigits2 (Z.pos mx)) with (Z.pos (digits2_pos mx)).
  change (Zdigits2 (Z.pos my)) with (Z.pos (digits2_pos my)).
  pose proof (digits_bounds mx) as Hbx. pose proof (digits_bounds my) as Hby.
  set (dx := Z.pos (digits2_pos mx)) in *.
  set (dy := Z.pos (digits2_pos my)) in *.
  fold (fexp64 (dx + ex - (dy + ey))).
  set (e' := Z.min (fexp64 (dx + ex - (dy + ey))) (ex - ey)).
  assert (He' : -1074 <= e' /\ e' <= dx + ex - (dy + ey) - 53).
  { unfold e'. rewrite fexp64_eq. lia. }
  assert (Hs : 0 <= ex - ey - e') by (unfold e'; lia).
  set (m' := match ex - ey - e' with
             | 0 => Z.pos mx
             | Z.pos _ => Z.shiftl (Z.pos mx) (ex - ey - e')
             | Z.neg _ => 0
             end).
  assert (Hm' : m' = Z.pos mx * 2 ^ (ex - ey - e')).
  { unfold m'. destruct (ex - ey - e') as [|p|p] eqn:E.
    - lia.
    - rewrite Z.shiftl_mul_pow2 by lia. reflexivity.
    - lia. }
  assert (Hq : fst (Z.div_eucl m' (Z.pos my)) = m' / Z.pos my)
    by reflexivity.
  assert (Hr : snd (Z.div_eucl m' (Z.pos my)) = m' mod Z.pos my)
    by reflexivity.
  destruct (Z.div_eucl m' (Z.pos my)) as [q r]. simpl in Hq, Hr.
  subst q r. rewrite new_location_loc_of by lia.
  assert (Hk : 0 < 2 ^ (ex - ey - e')) by (apply Z.pow_pos_nonneg; lia).
  assert (Hlow : 2 ^ (dx + (ex - ey - e') - dy - 1) <= m' / Z.pos my).
  { apply Z.div_le_lower_bound; [lia|].
    assert (A : Z.pos my * 2 ^ (dx + (ex - ey - e') - dy - 1)
                <= 2 ^ dy * 2 ^ (dx + (ex - ey - e') - dy - 1)).
    { apply Z.mul_le_mono_nonneg_r; [apply Z.pow_nonneg|]; lia. }
    rewrite <- Z.pow_add_r in A by lia.
    replace (dy + (dx + (ex - ey - e') - dy - 1))
      with ((dx - 1) + (ex - ey - e')) in A by lia.
    rewrite Z.pow_add_r in A by lia.
    rewrite Hm'.
    assert (B : 2 ^ (dx - 1) * 2 ^ (ex - ey - e')
                <= Z.pos mx * 2 ^ (ex - ey - e')).
    { apply Z.mul_le_mono_nonneg_r; lia. }
    lia. }
  pose proof (Zdigits2_lower (m' / Z.pos my) (dx + (ex - ey - e') - dy)
                ltac:(lia) Hlow) as Hdig.
  assert (HDN : Z.pos my <= m').
  { rewrite Hm'.
    assert (H1 : 2 ^ dy <= 2 ^ (dx - 1) * 2 ^ (ex - ey - e')).
    { rewrite <- Z.pow_add_r by lia. apply Z.pow_le_mono_r; lia. }
    nia. }
  pose proof (round_aux_lower m' (Z.pos my) e' ltac:(lia) HDN ltac:(lia))
    as [H|(m & e & H & Hmag)].
  - left. exact H.
  - right. exists m, e. split; [exact H|]. lia.
Qed.

Lemma SFmul_lower (mx : positive) (ex : Z) (my : positive) (ey : Z) :
  -1074 <= ex + ey ->
  magnitude_ge
    (SFmul prec emax (S754_finite false mx ex) (S754_finite false my ey))
    (Z.pos (digits2_pos mx) + ex + (Z.pos (digits2_pos my) + ey) - 1).
Proof.
  intros He. unfold SFmul. simpl xorb.
  pose proof (digits_bounds mx) as [Hx _].
  pose proof (digits_bounds my) as [Hy _].
  set (dx := Z.pos (digits2_pos mx)) in *.
  set (dy := Z.pos (digits2_pos my)) in *.
  assert (Hdx : 1 <= dx) by (unfold dx; lia).
  assert (Hdy : 1 <= dy) by (unfold dy; lia).
  assert (Hlow : 2 ^ (dx + dy - 1 - 1) <= Z.pos (mx * my)).
  { replace (dx + dy - 1 - 1) with ((dx - 1) + (dy - 1)) by lia.
    rewrite Z.pow_add_r by lia. rewrite Pos2Z.inj_mul.
    apply Z.mul_le_mono_nonneg; try lia; apply Z.pow_nonneg; lia. }
  pose proof (Zdigits2_lower (Z.pos (mx * my)) (dx + dy - 1) ltac:(lia) Hlow)
    as Hdig.
  pose proof (round_aux_lower (Z.pos (mx * my)) 1 (ex + ey) ltac:(lia)
                ltac:(lia) He) as H.
  rewrite loc_of_1, Z.div_1_r in H.
  destruct H as [H|(m & e & H & Hmag)].
  - left. exact H.
  - right. exists m, e. split; [exact H|]. lia.
Qed.

Lemma Prim2SF_canonical (x : float) (s : bool) (m : positive) (e : Z) :
  Prim2SF x = S754_finite s m e -> canonical64 m e.
Proof.
  intros H. pose proof (Prim2SF_valid x) as V. rewrite H in V.
  exact (valid_canonical _ _ _ V).
Qed.

(** The exponent of a canonical float follows from its magnitude. *)
Lemma canonical_exponent (m : positive) (e : Z) :
  canonical64 m e ->
  e = Z.max (Z.pos (digits2_pos m) + e - 53) (-1074).
Proof. intros [Hc _]. rewrite fexp64_eq in Hc. lia. Qed.

Lemma scaled_magnitude (m : positive) (e : Z) (c : positive) (j : Z) :
  0 <= j -> Z.pos m <= Z.pos c * 2 ^ j ->
  Z.pos (digits2_pos m) <= Z.pos (digits2_pos c) + j.
Proof.
  intros Hj H.
  exact (Zdigits2_le_scaled (Z.pos m) (Z.pos c) j ltac:(lia) ltac:(lia) Hj H).
Qed.

(** [float64(z)] for [1 <= z]: its magnitude. *)
Lemma of_int_magnitude (z : Z) :
  1 <= z <= max_int ->
  exists m e,
    Prim2SF (Float64.of_int z) = S754_finite false m e
    /\ -52 <= e
    /\ 1 <= Z.pos (digits2_pos m) + e
    /\ Z.pos m * 2 ^ (e + 52) = int_value z * 2 ^ 52.
Proof.
  intros Hz. destruct (of_int_pos_spec z Hz) as (m & e & E & He & Hv).
  exists m, e. split; [exact E|]. split; [exact He|]. split; [|exact Hv].
  pose proof (int_value_mono 1 z ltac:(lia)) as Hmono.
  change (int_value 1) with 1 in Hmono.
  pose proof (digits_bounds m) as [_ Hd].
  set (d := Z.pos (digits2_pos m)) in *.
  destruct (Z.le_gt_cases 1 (d + e)) as [|Hlt]; [assumption|exfalso].
  assert (Hd1 : 1 <= d) by (unfold d; lia).
  assert (A : Z.pos m * 2 ^ (e + 52) < 2 ^ d * 2 ^ (e + 52)).
  { apply Z.mul_lt_mono_pos_r; [apply Z.pow_pos_nonneg; lia|exact Hd]. }
  rewrite <- Z.pow_add_r in A by lia.
  assert (B : 2 ^ (d + (e + 52)) <= 2 ^ 52) by (apply Z.pow_le_mono_r; lia).
  assert (C : 2 ^ 52 <= int_value z * 2 ^ 52).
  { assert (0 < 2 ^ 52) by (apply Z.pow_pos_nonneg; lia). nia. }
  lia.
Qed.

(** The sum of a whole number of seconds below 2^34 and of a fraction of a
    second is below 2^35. *)
Lemma SFadd_bounded (mx : positive) (ex : Z) (my : positive) (ey : Z) :
  -52 <= ex -> Z.pos mx * 2 ^ (ex + 52) <= 2 ^ 34 * 2 ^ 52 ->
  -1074 <= ey <= -52 -> Z.pos my <= 2 ^ 52 * 2 ^ (-52 - ey) ->
  exists m e,
    SFadd prec emax (S754_finite false mx ex) (S754_finite false my ey)
    = S754_finite false m e
    /\ Z.pos (digits2_pos m) + e <= 36.
Proof.
  intros Hex Hx Hey Hy. unfold SFadd.
  change (IntDef.Z.min ex ey) with (Z.min ex ey).
  rewrite Z.min_r by lia.
  pose proof (shl_align_spec mx ex ey) as [Hax Ha].
  pose proof (shl_align_spec my ey ey) as [Hbx Hb].
  rewrite Hax in Ha. rewrite Hbx in Hb.
  rewrite Z.min_r in Ha by lia. rewrite Z.min_id, Z.sub_diag in Hb.
  set (a := fst (shl_align mx ex ey)) in *.
  set (b := fst (shl_align my ey ey)) in *.
  simpl cond_Zopp. change (Z.pos a + Z.pos b) with (Z.pos (a + b)).
  simpl binary_normalize.
  destruct (binary_round_finite (a + b) ey mantissa_1 (-17))
    as (m & e & E & He & Hm); try lia.
  - apply canonical_2p35.
  - rewrite Pos2Z.inj_add, Ha, Hb. change (Z.pos mantissa_1) with (2 ^ 52).
    change (2 ^ 0) with 1. rewrite Z.mul_1_r.
    replace (ex - ey) with ((ex + 52) + (-52 - ey)) by lia.
    rewrite Z.pow_add_r by lia.
    replace (-17 - ey) with (35 + (-52 - ey)) by lia.
    rewrite (Z.pow_add_r 2 35) by lia.
    assert (0 < 2 ^ (-52 - ey)) by (apply Z.pow_pos_nonneg; lia).
    change (2 ^ 34 * 2 ^ 52) with (2 ^ 86) in Hx.
    generalize dependent (2 ^ (-52 - ey)). intros P.
    generalize dependent (2 ^ (ex + 52)). intros Q.
    change (2 ^ 52) with 4503599627370496.
    change (2 ^ 35) with 34359738368.
    change (2 ^ 86) with 77371252455336267181195264.
    intros. nia.
  - exists m, e. split; [exact E|].
    pose proof (scaled_magnitude m e mantissa_1 (-17 - e) ltac:(lia) Hm) as H.
    change (Z.pos (digits2_pos mantissa_1)) with 53 in H. lia.
Qed.

(** [d.Seconds()] of a positive duration is a positive finite float below
    2^36. *)
Lemma Seconds_magnitude (d : time.Duration) :
  0 < d <= max_int ->
  exists m e,
    Prim2SF (Seconds d) = S754_finite false m e
    /\ Z.pos (digits2_pos m) + e <= 36.
Proof.
  intros Hd. unfold Seconds, Int64.div, Int64.rem, Second.
  pose proof (Z.quot_rem' d 1000000000) as Hqr.
  pose proof (Z.rem_bound_pos d 1000000000 ltac:(lia) ltac:(lia)) as Hr.
  pose proof (Z.quot_pos d 1000000000 ltac:(lia) ltac:(lia)) as Hq.
  set (sec := Z.quot d 1000000000) in *.
  set (nsec := Z.rem d 1000000000) in *.
  assert (Hsec : sec < 2 ^ 34) by (unfold max_int in Hd; lia).
  rewrite wrap64_in_range by (unfold in_range, min_int, max_int; lia).
  rewrite add_spec. unfold SF64add.
  assert (Hwhole : 1 <= sec ->
            exists mx ex,
              Prim2SF (Float64.of_int sec) = S754_finite false mx ex
              /\ -52 <= ex
              /\ Z.pos mx * 2 ^ (ex + 52) <= 2 ^ 34 * 2 ^ 52
              /\ Z.pos (digits2_pos mx) + ex <= 35).
  { intros Hs1.
    destruct (of_int_pos_spec sec ltac:(unfold max_int; lia))
      as (mx & ex & E & Hex & Hv).
    pose proof (int_value_mono sec (2 ^ 34) ltac:(lia)) as Hmono.
    change (int_value (2 ^ 34)) with (2 ^ 34) in Hmono.
    assert (Hb : Z.pos mx * 2 ^ (ex + 52) <= 2 ^ 34 * 2 ^ 52).
    { rewrite Hv. apply Z.mul_le_mono_nonneg_r; [|exact Hmono].
      apply Z.pow_nonneg; lia. }
    exists mx, ex. repeat split; try assumption.
    pose proof (digits_bounds mx) as [Hlo _].
    set (dx := Z.pos (digits2_pos mx)) in *.
    assert (Hdx : 1 <= dx) by (unfold dx; lia).
    assert (A : 2 ^ (dx - 1) * 2 ^ (ex + 52) <= 2 ^ 86).
    { change (2 ^ 34 * 2 ^ 52) with (2 ^ 86) in Hb.
      eapply Z.le_trans; [|exact Hb].
      apply Z.mul_le_mono_nonneg_r; [apply Z.pow_nonneg; lia|exact Hlo]. }
    rewrite <- Z.pow_add_r in A by lia.
    apply Z.pow_le_mono_r_iff in A; lia. }
  destruct (nsec_fraction nsec Hr) as [[Hn0 ->]|(Hn & my & ey & -> & Hey & Hy)].
  - destruct (Hwhole ltac:(lia)) as (mx & ex & -> & _ & _ & Hmag).
    exists mx, ex. split; [reflexivity|lia].
  - destruct (Z.eq_dec sec 0) as [->|Hs0].
    + exists my, ey. split; [reflexivity|].
      pose proof (scaled_magnitude my ey mantissa_1 (-52 - ey) ltac:(lia))
        as H.
      change (Z.pos mantissa_1) with (2 ^ 52) in H.
      change (Z.pos (digits2_pos mantissa_1)) with 53 in H.
      specialize (H Hy). lia.
    + destruct (Hwhole ltac:(lia)) as (mx & ex & -> & Hex & Hb & _).
      apply SFadd_bounded; try lia.
Qed.

(** The throughput of at least one byte over a positive duration is a
    positive float: it is not rounded to 0. *)
Lemma bytesToMbps_magnitude (bytes : Z) (d : time.Duration) :
  1 <= bytes <= max_int -> 0 < d <= max_int ->
  magnitude_ge (Prim2SF (bytesToMbps bytes d)) (-52).
Proof.
  intros Hb Hd. unfold bytesToMbps.
  destruct (Z.leb_spec d 0) as [Hle|Hgt]; [lia|]. cbv zeta.
  destruct (of_int_magnitude bytes Hb) as (m1 & e1 & E1 & He1 & Hm1 & _).
  destruct (Seconds_magnitude d Hd) as (ms & es & Es & Hms).
  pose proof (Prim2SF_canonical _ _ _ _ Es) as Hcs.
  pose proof (canonical_exponent _ _ Hcs) as Hes.
  (* the bits *)
  set (bits := (Float64.of_int bytes * 8)%float).
  assert (Hbits : magnitude_ge (Prim2SF bits) 4).
  { unfold bits. rewrite mul_spec, E1.
    change (Prim2SF 8) with (S754_finite false 4503599627370496 (-49)).
    pose proof (SFmul_lower m1 e1 4503599627370496 (-49) ltac:(lia)) as H.
    change (Z.pos (digits2_pos 4503599627370496)) with 53 in H.
    destruct H as [H|(m & e & H & Hmag)]; [left; exact H|].
    right. exists m, e. split; [exact H|lia]. }
  (* bits / seconds *)
  set (q := (bits / Seconds d)%float).
  assert (Hq : magnitude_ge (Prim2SF q) (-32)).
  { unfold q. rewrite div_spec, Es.
    destruct Hbits as [->|(m2 & e2 & E2 & Hm2)]; [left; reflexivity|].
    pose proof (Prim2SF_canonical _ _ _ _ E2) as Hc2.
    pose proof (canonical_exponent _ _ Hc2) as He2.
    rewrite E2.
    pose proof (SFdiv_lower m2 e2 ms es ltac:(lia) ltac:(lia)) as H.
    destruct H as [H|(m & e & H & Hmag)]; [left; exact H|].
    right. exists m, e. split; [exact H|lia]. }
  rewrite div_spec. fold bits. fold q.
  change (Prim2SF 1000000) with (S754_finite false 8589934592000000 (-33)).
  destruct Hq as [->|(m3 & e3 & E3 & Hm3)]; [left; reflexivity|].
  pose proof (Prim2SF_canonical _ _ _ _ E3) as Hc3.
  pose proof (canonical_exponent _ _ Hc3) as He3.
  rewrite E3.
  pose proof (SFdiv_lower m3 e3 8589934592000000 (-33)) as H.
  change (Z.pos (digits2_pos 8589934592000000)) with 53 in H.
  destruct (H ltac:(lia) ltac:(lia)) as [H'|(m & e & H' & Hmag)];
    [left; exact H'|].
  right. exists m, e. split; [exact H'|lia].
Qed.

Lemma magnitude_ge_positive (x : float) (k : Z) :
  magnitude_ge (Prim2SF x) k ->
  Float64.lt 0 x = true /\ PrimFloat.eqb x 0 = false.
Proof.
  intros H. unfold Float64.lt. rewrite ltb_spec, eqb_spec.
  change (Prim2SF 0) with (S754_zero false).
  destruct H as [->|(m & e & -> & _)]; split; reflexivity.
Qed.

(* ================================================================== *)
(** * The result the front end keeps *)

Lemma time_Since_le_max (env : Env) (start : Z) (w : World) :
  fst (time_Since env start w) <= max_int.
Proof. unfold time_Since, time_Now. cbn [fst]. apply Sub_le_max. Qed.

(** The metrics of a phase that succeeds: the throughput is that of the
    bytes over the duration, both of which are int64 values. *)
Lemma phase_result_metrics (no_data : string) (s : Shared)
  (elapsed : time.Duration) (res : SpeedMetrics.t) :
  phase_result no_data s elapsed = (res, None) ->
  SpeedMetrics.Mbps res
  = bytesToMbps (SpeedMetrics.Bytes res) (SpeedMetrics.Duration res)
  /\ SpeedMetrics.Bytes res = totalBytes s
  /\ SpeedMetrics.Duration res = elapsed.
Proof.
  unfold phase_result. destruct (runErr s); [discriminate|].
  destruct (totalBytes s =? 0); [discriminate|].
  intros [= <-]. cbn. auto.
Qed.

Lemma RunClient_ok_metrics (env : Env) (cfg : ClientConfig.t)
  (w w' : World) (res : Result.t) :
  RunClient env cfg w = ((res, None), w') ->
  (SpeedMetrics.Mbps (Result.Download res)
   = bytesToMbps (SpeedMetrics.Bytes (Result.Download res))
       (SpeedMetrics.Duration (Result.Download res))
   /\ SpeedMetrics.Bytes (Result.Download res) <= max_int
   /\ SpeedMetrics.Duration (Result.Download res) <= max_int)
  /\ (SpeedMetrics.Mbps (Result.Upload res)
      = bytesToMbps (SpeedMetrics.Bytes (Result.Upload res))
          (SpeedMetrics.Duration (Result.Upload res))
      /\ SpeedMetrics.Bytes (Result.Upload res) <= max_int
      /\ SpeedMetrics.Duration (Result.Upload res) <= max_int).
Proof.
  rewrite RunClient_eq. cbv zeta. set (cfg' := normalizeClientConfig cfg).
  destruct (runPing env cfg' w) as [[pingRes [e1|]] w1];
    cbn [fst snd]; [discriminate|].
  pose proof (runDownload_result env cfg' w1) as Hd.
  destruct (runDownload env cfg' w1) as [[downloadRes [e2|]] w2];
    cbn [fst snd]; [discriminate|].
  pose proof (runUpload_result env cfg' w2) as Hu.
  destruct (runUpload env cfg' w2) as [[uploadRes [e3|]] w3];
    cbn [fst snd]; [discriminate|].
  intros [= <- _]. cbn [Result.Download Result.Upload fst] in *.
  symmetry in Hd, Hu.
  apply phase_result_metrics in Hd. apply phase_result_metrics in Hu.
  destruct Hd as (Hd1 & Hd2 & Hd3), Hu as (Hu1 & Hu2 & Hu3).
  split; (split; [assumption|split]).
  - rewrite Hd2, download_shared_totalBytes. apply wrap64_le_max.
  - rewrite Hd3. apply download_elapsed_le_max.
  - rewrite Hu2, upload_shared_totalBytes. apply wrap64_le_max.
  - rewrite Hu3. apply upload_elapsed_le_max.
Qed.

(** X26. The throughput of at least one byte over a positive duration
    (both int64 values) is a strictly positive float: however few the bytes
    and however long the time, it is not rounded to 0. *)
Theorem bytesToMbps_positive (bytes : Z) (d : time.Duration) :
  1 <= bytes <= max_int -> 0 < d <= max_int ->
  Float64.lt 0 (bytesToMbps bytes d) = true
  /\ float64_ne (bytesToMbps bytes d) 0 = true.
Proof.
  intros Hb Hd.
  destruct (magnitude_ge_positive _ (-52) (bytesToMbps_magnitude bytes d Hb Hd))
    as [H1 H2].
  split; [exact H1|]. unfold float64_ne. now rewrite H2.
Qed.

(** The theorem on one byte in the longest duration. *)
Lemma bytesToMbps_positive_witness :
  Float64.lt 0 (bytesToMbps 1 max_int) = true
  /\ float64_ne (bytesToMbps 1 max_int) 0 = true.
Proof.
  apply (bytesToMbps_positive 1 max_int); unfold max_int; lia.
Defined.

(** X27. In the Result of a successful run, a throughput phase that
    counted at least one byte over a positive time has a strictly positive
    Mbps.  The front end then keeps the result for its last view, as it
    does when the smallest ping is not 0, and quits.  The empty result
    that the end of a run also sends leaves the model as it is. *)
Theorem RunClient_ok_result_kept (env : Env) (cfg : ClientConfig.t)
  (w w' : World) (res : Result.t) :
  RunClient env cfg w = ((res, None), w') ->
  (counted (Result.Download res) ->
   Float64.lt 0 (SpeedMetrics.Mbps (Result.Download res)) = true)
  /\ (counted (Result.Upload res) ->
      Float64.lt 0 (SpeedMetrics.Mbps (Result.Upload res)) = true)
  /\ (forall m : model.t,
        PingMetrics.Min (Result.Ping res) <> 0
        \/ counted (Result.Download res) \/ counted (Result.Upload res) ->
        Update m (resultMsg res)
        = (model.mk (model.cfg m) (model.width m) (model.ping m)
             (model.download m) (model.upload m) (Some res) (model.err m),
           Cmd_Quit))
  /\ forall m : model.t, Update m (resultMsg Result.zero) = (m, Cmd_Quit).
Proof.
  intros Hrun.
  rewrite <- !and_assoc. split; [rewrite !and_assoc|reflexivity].
  destruct (RunClient_ok_metrics env cfg w w' res Hrun)
    as [(Hd & Hdb & Hdd) (Hu & Hub & Hud)].
  assert (Hpos : forall b d,
             b <= max_int -> d <= max_int -> 0 < b -> 0 < d ->
             Float64.lt 0 (bytesToMbps b d) = true
             /\ PrimFloat.eqb (bytesToMbps b d) 0 = false).
  { intros b d Hb Hd' Hb0 Hd0.
    apply (magnitude_ge_positive _ (-52)).
    apply bytesToMbps_magnitude; lia. }
  split; [|split].
  - intros [Hb0 Hd0]. rewrite Hd. now apply Hpos.
  - intros [Hb0 Hd0]. rewrite Hu. now apply Hpos.
  - intros m Hsome. cbn [Update]. unfold float64_ne.
    destruct Hsome as [Hmin|[[Hb0 Hd0]|[Hb0 Hd0]]].
    + destruct (Z.eqb_spec (PingMetrics.Min (Result.Ping res)) 0);
        [contradiction|]. reflexivity.
    + rewrite Hd at 1.
      rewrite (proj2 (Hpos _ _ Hdb Hdd Hb0 Hd0)).
      cbn [negb]. rewrite orb_true_r. reflexivity.
    + rewrite Hu at 1.
      rewrite (proj2 (Hpos _ _ Hub Hud Hb0 Hd0)).
      cbn [negb]. rewrite orb_true_r. reflexivity.
Qed.

(** The theorem on the run of scenario B. *)
Lemma RunClient_ok_result_kept_witness :
  let res := fst (fst (RunClient env_scenario_AB cfg_scenario_AB World_init)) in
  Float64.lt 0 (SpeedMetrics.Mbps (Result.Download res)) = true
  /\ Float64.lt 0 (SpeedMetrics.Mbps (Result.Upload res)) = true
  /\ model.result (fst (Update (newModel cfg_scenario_AB) (resultMsg res)))
     = Some res.
Proof.
  intros res.
  destruct (RunClient_ok_result_kept env_scenario_AB cfg_scenario_AB
              World_init
              (snd (RunClient env_scenario_AB cfg_scenario_AB World_init))
              res ltac:(vm_compute; reflexivity))
    as (Hd & Hu & Hm & _).
  split; [apply Hd; split; reflexivity|].
  split; [apply Hu; split; reflexivity|].
  rewrite Hm; [reflexivity|].
  right. left. split; reflexivity.
Defined.

(* ================================================================== *)
(** * The byte source of an upload *)

Lemma read_size_min (cs len_p : Z) :
  (if cs <? len_p then cs else len_p) = Z.min cs len_p.
Proof. destruct (Z.ltb_spec cs len_p); lia. Qed.

Lemma body_bytes_prefix (cs : Z) (pre : list ReadCall) :
  0 <= cs ->
  Forall read_succeeds pre ->
  forall (t : timedReader) (tail : list ReadCall),
    chunkSize t = cs ->
    exists t',
      chunkSize t' = cs
      /\ body_bytes t (pre ++ tail) = asked_bytes cs pre + body_bytes t' tail.
Proof.
  intros Hcs.
  induction 1 as [|call pre [Hc Hr] _ IH]; intros t tail Ht.
  - exists t. split; [exact Ht|]. reflexivity.
  - cbn [app body_bytes asked_bytes fold_right].
    unfold timedReader_Read. rewrite Hc, Hr, read_size_min, Ht.
    destruct (Z.ltb_spec cs 0) as [Hneg|_]; [lia|].
    rewrite andb_false_r.
    match goal with |- context [body_bytes ?t1 (pre ++ tail)] =>
      destruct (IH t1 tail eq_refl) as (t' & Ht' & E)
    end.
    exists t'. split; [exact Ht'|].
    fold (asked_bytes cs pre). rewrite E. lia.
Qed.

Lemma body_bytes_fails (t : timedReader) (call : ReadCall)
  (rest : list ReadCall) :
  ~ read_succeeds call -> body_bytes t (call :: rest) = 0.
Proof.
  intros H. cbn [body_bytes]. unfold timedReader_Read.
  destruct (ctx_Err call) eqn:Ec; [reflexivity|].
  destruct ((chunkSize t <? Z.of_N (buf_len call)) && (chunkSize t <? 0)); [reflexivity|].
  destruct (rand_err call) eqn:Er; [reflexivity|].
  exfalso. apply H. split; assumption.
Qed.

Lemma body_bytes_le_asked (calls : list ReadCall) :
  forall t, 0 <= chunkSize t ->
            body_bytes t calls <= asked_bytes (chunkSize t) calls.
Proof.
  induction calls as [|call rest IH]; intros t Ht.
  - reflexivity.
  - cbn [body_bytes asked_bytes fold_right]. unfold timedReader_Read.
    fold (asked_bytes (chunkSize t) rest).
    assert (Ha : 0 <= asked_bytes (chunkSize t) rest).
    { clear IH. induction rest as [|c r IHr]; cbn; [lia|].
      fold (asked_bytes (chunkSize t) r). lia. }
    destruct (ctx_Err call); [lia|].
    destruct ((chunkSize t <? Z.of_N (buf_len call)) && (chunkSize t <? 0)); [lia|].
    destruct (rand_err call); [lia|].
    rewrite read_size_min.
    match goal with |- context [body_bytes ?t1 rest] =>
      specialize (IH t1 Ht)
    end.
    cbn [chunkSize] in IH. lia.
Qed.

(** X28. The byte source of an upload.  Over the reads the transport makes
    of it, the reader's own count is the total it has added to the shared
    counter (as int64 values), and it records no error.  A read that
    succeeds hands over the length asked, cut to the chunk size; the first
    read that finds the context done, or the random source failing, hands
    over nothing, and no byte is counted from then on. *)
Theorem timedReader_reads (cs : Z) (calls : list ReadCall) :
  0 <= cs ->
  let t0 := mkTimedReader cs 0 in
  let t := fst (upload_body t0 calls) in
  let acts := snd (upload_body t0 calls) in
  count t = wrap64 (sum_adds acts)
  /\ first_err acts = None
  /\ 0 <= sum_adds acts <= asked_bytes cs calls
  /\ (Forall read_succeeds calls -> sum_adds acts = asked_bytes cs calls)
  /\ (forall pre call rest,
        calls = pre ++ call :: rest ->
        Forall read_succeeds pre -> ~ read_succeeds call ->
        sum_adds acts = asked_bytes cs pre).
Proof.
  intros Hcs t0 t acts.
  assert (Hsum : sum_adds acts = body_bytes t0 calls)
    by apply upload_body_sum.
  split.
  { unfold t. rewrite (upload_body_count t0 calls), Hsum.
    - reflexivity.
    - unfold t0, in_range, min_int, max_int. cbn [count]. lia. }
  split; [apply upload_body_no_err|].
  rewrite Hsum. split.
  { split.
    - apply body_bytes_nonneg. exact Hcs.
    - apply (body_bytes_le_asked calls t0). exact Hcs. }
  split.
  - intros Hall.
    destruct (body_bytes_prefix cs calls Hcs Hall t0 [] eq_refl)
      as (t' & _ & E).
    rewrite app_nil_r in E. rewrite E. cbn [body_bytes]. lia.
  - intros pre call rest -> Hpre Hfail.
    destruct (body_bytes_prefix cs pre Hcs Hpre t0 (call :: rest) eq_refl)
      as (t' & _ & E).
    rewrite E, (body_bytes_fails t' call rest Hfail). lia.
Qed.

(** The theorem on three reads of 32 KiB buffers with a chunk size of
    1024, the third after the deadline. *)
Lemma timedReader_reads_witness :
  let calls :=
    [mkReadCall 32768 None None; mkReadCall 32768 None None;
     mkReadCall 32768 (Some context_DeadlineExceeded) None;
     mkReadCall 32768 None None] in
  0 <= 1024
  /\ count (fst (upload_body (mkTimedReader 1024 0) calls)) = 2048
  /\ sum_adds (snd (upload_body (mkTimedReader 1024 0) calls))
     = asked_bytes 1024 (firstn 2 calls).
Proof.
  intros calls. split; [lia|]. split; [reflexivity|].
  destruct (timedReader_reads 1024 calls ltac:(lia)) as (_ & _ & _ & _ & H).
  apply (H (firstn 2 calls) (mkReadCall 32768 (Some context_DeadlineExceeded)
                               None) [mkReadCall 32768 None None]).
  - reflexivity.
  - repeat constructor.
  - intros [C _]. discriminate C.
Defined.
